(* ===== verification/_CoqProject ===== *)
-Q . S2P
Prelude.v
Router.v
RoutesMask.v
HashTable.v
Scheduler.v
Task.v
InputChunk.v
Singleplex.v
Base64.v
EngineDispatch.v
EventLoop.v
Utf8.v
Text.v
Numbers.v
Jsmn.v
Msgpack.v
PackJson.v
JsonRoundTrip.v
LogEvent.v
Multiline.v
RingBuffer.v
RingThreads.v
Crc32.v
Chunkio.v
ChunkFile.v
ChunkStore.v
Filters.v
Ingest.v
IngestFacts.v
