(* ===== verification/Prelude.v ===== *)
(** * Fluent Bit: the data path of the agent, modelled and verified

    Fluent Bit reads events with input plugins, passes them through filters,
    buffers them in chunks in memory or in files, routes each chunk to output
    plugins by its tag, and delivers it through tasks that are retried when an
    output asks for it.  Events are records in MessagePack; lines of text are
    joined into records, and records are read from JSON and written as JSON.
    This library models the C code of that path as executable definitions and
    proves what makes it correct.

    ** The parts and their files

    - Prelude.v (this file): machine integers, bytes, C strings, the parts of
      ctype.h and string.h that the code uses, allocation failures, tactics and
      the lemmas the other files share.
    - Router.v: src/flb_router.c, src/flb_router_config.c (application of the
      configured routes), src/flb_router_condition.c.  Module [Match] has the
      wildcard matcher; module [Routes] has the inputs and outputs with their
      routes, as [flb_router_io_set] and [flb_router_apply_config] fill them,
      and the evaluation of route conditions.
    - RoutesMask.v: src/flb_routes_mask.c, the set of outputs of a chunk as an
      array of 64-bit elements.
    - HashTable.v: src/flb_hash_table.c.  Entries live in a heap and are linked
      in the chains of the buckets and in the list of all entries, as in the C
      structures; the three eviction modes, expiry and case folding included.
      An operation has no result when it compares with a key whose copy failed
      (NULL), or copies a value from memory that was freed or is too short.
    - Scheduler.v: src/flb_scheduler.c: the delay of a retry, the queues of
      armed and waiting requests, promotion, invalidation, timers.
    - Task.v: src/flb_task.c, include/fluent-bit/flb_task.h, the task map of
      src/flb_config.c, and [handle_output_event] of src/flb_engine.c.
    - InputChunk.v: src/flb_input_chunk.c: the filesystem space the chunks of an
      output take, dropping old chunks to make room, the memory ring buffer,
      pausing and resuming of inputs.
    - Singleplex.v: src/flb_output.c: the queue of synchronous outputs.
    - EngineDispatch.v: src/flb_engine_dispatch.c and [flb_engine_flush] of
      src/flb_engine.c: chunks become tasks, tasks are handed to outputs, retries
      are dispatched.  What it needs of an output is the class [TaskSink].
    - Base64.v: src/flb_base64.c.
    - EventLoop.v: include/fluent-bit/flb_bucket_queue.h and flb_event_loop.h,
      and the events of lib/monkey on epoll.  Module [BucketQueue] has the
      priority queue, [Event] the events and what handlers do to them, [Live]
      a round of the loop of the engine.
    - Utf8.v: src/flb_utf8.c, the validator of src/flb_utils.c and the encoder
      of src/flb_unescape.c.
    - Text.v: the writers of JSON strings of src/flb_utils.c with the vector
      operations of include/fluent-bit/flb_simd.h (modules [Simd] and
      [Escape]), and src/flb_unescape.c (module [Unescape]).
    - Numbers.v: integers and floats as text, what strtoll, strtoull, strtod and
      printf do with the formats that the code uses.
    - Jsmn.v: lib/jsmn/jsmn.h, the tokeniser of JSON, strict and with links to
      parents, as it is built.
    - PackJson.v: src/flb_pack.c.  Module [Reader] goes from JSON to MessagePack,
      for whole texts and for streams; [Writer] from MessagePack to JSON.
      JsonRoundTrip.v has the theorems on both together.
    - Msgpack.v: the parts of lib/msgpack-c, which is built with the program,
      that code and decode records: packing, the growing buffer, and the state
      machine of [msgpack_unpack_next].
    - LogEvent.v: src/flb_log_event_encoder.c with its dynamic fields and
      primitives (modules [Mp], [Encoder]), src/flb_log_event_decoder.c
      (module [Decoder]), the times of src/flb_time.c (module [Time]) and the
      validation of stored chunks of src/flb_mp.c (module [Validate]).
    - Multiline.v: src/multiline: rules, groups, streams, appending and
      flushing.
    - RingBuffer.v: lib/lwrb (module [Lwrb]) and src/flb_ring_buffer.c (module
      [Ring]): the queue between the thread of an input and the engine.
      RingThreads.v has both sides as they run, from src/flb_input_chunk.c: a
      step relation whose steps are the loads and stores of single bytes.
    - Crc32.v: lib/chunkio/deps/crc32, the checksum of chunk files.
    - Chunkio.v: lib/chunkio: chunk files ([File]), chunks in memory ([Memfs])
      and the operations on both ([Chunk]).  ChunkFile.v has the theorems on
      files, ChunkStore.v the one on both backends.
    - Filters.v: src/flb_filter.c (module [Filters]) and the count of records of
      src/flb_mp.c with what it uses of lib/mpack (module [Mpack]).
    - Ingest.v: the rest of src/flb_input_chunk.c: the header of a chunk (module
      [Header]), and new chunks, appending, flushing and chunks found in the
      storage (module [Ingest]).  IngestFacts.v has the theorems: what a chunk
      holds ([Stored]), what the management of space of InputChunk.v can do to
      chunks ([Evolve]), and the invariant of the whole state ([Facts]).

    Task.v calls Scheduler.v (requests of retries) and uses Router.v and
    RoutesMask.v to tell which outputs a chunk goes to; InputChunk.v uses the
    masks of RoutesMask.v and the tasks of Task.v; Singleplex.v uses the users
    and retries of Task.v; EngineDispatch.v creates tasks with Task.v, for the
    outputs that Router.v and RoutesMask.v select, and hands them to Singleplex.v.
    LogEvent.v is built on Msgpack.v; Text.v uses Utf8.v for the characters it
    writes and reads.  PackJson.v reads with Jsmn.v, Text.v and Numbers.v and
    writes with Msgpack.v, and back; RingThreads.v runs RingBuffer.v; Chunkio.v
    uses Crc32.v; Filters.v matches tags with Router.v and counts records of
    Msgpack.v; Ingest.v puts the chunks of Chunkio.v, the space of InputChunk.v,
    the masks of RoutesMask.v and the filters of Filters.v together.

    ** How the code is modelled

    Structures are records, with the fields the modelled functions read or
    write.  Objects that the C code links and shares by pointer (hash entries,
    tasks, retries, chunks, queue nodes, events) are kept in a heap, a finite map
    from addresses, and lists hold addresses; the zones that own decoded objects
    are numbers in a set of live zones, and freeing one that is not live is
    recorded.  Stateful functions take the state and
    return it.  A call to a part that is not modelled, when it has no effect on
    the modelled state (metrics, storage, callbacks of plugins), appends to a
    trace.  Integers are [Z], with the wrap-around of their C type written out
    where the code can reach it.

    What the environment decides is an argument: allocation outcomes are a
    [tape]; the results of rand(), the clock, the descriptors the event loop
    hands out, the outcomes of starting a flush, what the chunk storage answers and
    the load of the pool of a threaded output are values that theorems quantify
    over; so are the answers of epoll, the actions of event handlers, the
    outcomes of the system calls on files, the interleaving of threads, and the
    bytes that stand in memory after a string; when a string lies in a buffer
    these are the rest of the buffer and what is behind it ([behind_string] of
    PackJson.v).  The hash functions (xxHash), the
    regular expression engine (Onigmo), the parsers that multiline calls, the
    callbacks of filters and the decoder of metrics are parameters; the theorems assume nothing of them but the type of their
    results.  The storage backlog plugin is a
    parameter of InputChunk.v, also without assumptions.

    Recursion is structural but for: the wildcard matcher, defined by
    well-founded recursion on the length of the pattern, which every step
    shortens; the search for a free coroutine id, whose fuel is the number of ids
    in use plus one, by the pigeonhole principle; the singleplex queue, whose
    fuel is the number of pending tasks plus one, as every nested call takes one
    from the queue; the machine of [msgpack_unpack_next] and the loops over text,
    whose fuel is the number of bytes left, as every step takes one; the decoder
    and the validation of chunks, whose fuel is the length of the buffer; the
    growth of buffers, which doubles a 64-bit size or adds to it until it is
    enough; the walk to the container that a bracket closes, whose fuel is the
    number of tokens; a round of the event loop, whose fuel is its limit of
    iterations.  Where there is fuel a theorem or
    lemma shows that the fuel is enough.  The draw of a random number returns nothing when the sequence of
    samples ends first; the theorems ask for one usable sample.

    ** What the theorems show

    The conditions under which each holds are in its comment; the ones that matter
    for a user are named here.

    - Routing (C1, C19, C20): the wildcard matcher decides exactly the glob
      relation; static routes are exactly those of the rules, in order and once
      each (one input and one output are connected whatever the rules); the mask
      of a chunk is the set of outputs that take its tag.
    - Records (C2, C6, C21-C23): what plugins encode is decoded as it was, groups
      included, for times before 2038; the FORWARD format keeps no metadata.  The
      decoder returns on every input, frees every zone once and accepts exactly
      the objects that are records; MessagePack values round-trip, and reading
      stays within the data and its nesting limit on any bytes.
    - JSON (C3, C24-C27): a record written as JSON is read back as it was, but
      for duplicate keys; the tokeniser returns on any bytes with tokens that
      are in the text, and can be resumed at any byte; a stream delivers
      exactly the messages before the last one that was begun; the writer stays
      within its buffer.  On builds with vector instructions C3, C27 and C39 ask
      of each string that it is ASCII, shorter than a block, or followed by
      memory that stops the blocks ([block_safe] of Text.v); example [overread]
      is a string without that.
    - Ingestion (C4, C5, C9, C10, C16-C18): under every sequence of admissible
      operations the chunks hold the records offered, in order and once, and the
      tables that point to them are right; appending loses no record but those
      of chunks dropped by the limits, and does not touch chunks that are being
      delivered; records are counted exactly, through filters too, when the
      caller counts those it passes; the header of a chunk is read back; every
      buffer of a filter is freed once.  Tags have no NUL byte and, for chunks
      in files, at most about 2 KB, as C30 requires ([tag_ok] of IngestFacts.v);
      allocations and system calls succeed.
    - Chunk storage (C8, C15, C29-C31): a chunk file holds the bytes written
      through growth, syncs, down and up, within its map; both backends answer
      alike; the fast CRC is CRC-32; damaged files are refused, but a file cut
      to 0 bytes is a new one; the first tag is stored in bounds exactly when it
      is not too long (a flaw).
    - Ring buffer (C7, C28): the ring is a bounded queue, and under every
      interleaving of the two threads chunks arrive once and in order.
    - Space (C13): the space accounted to each output is the size of the
      chunks routed to it, through every release.
    - Dispatch and tasks (C11, C12, C32, C33): a flush of the engine ends and
      a chunk is locked exactly when one task carries it; every ready chunk
      gets a task; every result of an output settles or retries the task
      within the retry limit, but for retries the scheduler does not take (a
      flaw).
    - Hash table (C14, C34): well-formedness and the capacity bound are kept
      by every operation, when keys cannot be copied too; add implements
      insertion into a finite map when memory is available.
    - Event loop, retries, synchronous outputs (C35-C37): the priority queue
      refines a list of prioritised items; delays stay within their bounds when
      the cap is not below the base, which the code does not check; one task at a
      time, in order, while the sends on the pipe succeed.
    - Text (C38-C40): no text of multiline messages is lost or reordered (but
      lines shorter than the string of an ENDSWITH parser); what is written as a
      JSON string is read back; the UTF-8 validator accepts exactly the
      encodings of scalar values.

    Lemmas and examples beside these state further behaviour (retry requests,
    pausing of inputs, eviction, timers, rounds of the event loop, base64, the
    escaping of text), and what the code does where that
    differs from what its comments or names say: checks of routes that never
    reject, an emptiness test of masks that reads too few bytes, deletion by
    pointer that compares a prefix of the key, a stored value read after it was
    freed, a division by zero in the draw of a delay, an id lost when a task cannot be
    created, two tasks started after a failure to send, a zone freed twice by a
    reset of the decoder after a group mark, loads past the end of a string,
    rollbacks and cuts of chunks that do not reach the file, texts that are not
    JSON and are accepted.

    ** What is not modelled

    Coroutines, sockets, plugins, parsers, record access, processors, the stream
    processor, metrics, and vendored libraries but for the parts named above.
    Threads are modelled where the ring buffer connects them, files where chunks
    are stored.  Next in line are conditionals, the scanners of the parsers, the
    strings of src/flb_sds.c, the streams and directories of lib/chunkio, and the
    streaming unpacker of lib/msgpack-c. *)

From stdpp Require Export base numbers list option gmap strings.
From Stdlib Require Export ZArith Lia.
From Stdlib Require Ascii.
Export Ascii.AsciiSyntax.

#[global] Open Scope Z_scope.

(** ** Machine integers

    C integers are [Z] with their width written out: [uN z] is what the
    conversion to an N-bit unsigned type keeps of [z], [iN z] what a
    two's-complement conversion to a signed type gives. *)

Definition u8 (z : Z) : Z := z mod 2 ^ 8.
Definition u16 (z : Z) : Z := z mod 2 ^ 16.
Definition u32 (z : Z) : Z := z mod 2 ^ 32.
Definition u64 (z : Z) : Z := z mod 2 ^ 64.
Definition i8 (z : Z) : Z := (z + 2 ^ 7) mod 2 ^ 8 - 2 ^ 7.
Definition i32 (z : Z) : Z := (z + 2 ^ 31) mod 2 ^ 32 - 2 ^ 31.
Definition i64 (z : Z) : Z := (z + 2 ^ 63) mod 2 ^ 64 - 2 ^ 63.

Definition INT_MAX : Z := 2 ^ 31 - 1.
Definition INT_MIN : Z := - 2 ^ 31.
Definition UINT32_MAX : Z := 2 ^ 32 - 1.

(** ** Bytes and strings

    A byte is a [Z] in [0, 256); a buffer with an explicit length is a
    [list Z]; a NUL-terminated C string is the list of the bytes before its
    terminator, so it holds no 0. *)

Abbreviation bytes := (list Z).

Definition is_byte (z : Z) : Prop := 0 <= z < 256.
Definition is_bytes (s : bytes) : Prop := Forall is_byte s.
Definition no_nul (s : bytes) : Prop := Forall (λ c, c <> 0) s.
Definition is_cstr (s : bytes) : Prop := Forall (λ c, 0 < c < 256) s.

(** Character and string literals of the source. *)
Definition ch (a : Ascii.ascii) : Z := Z.of_N (Ascii.N_of_ascii a).
Arguments ch a%_char_scope.

Fixpoint str (s : String.string) : bytes :=
  match s with
  | String.EmptyString => []
  | String.String a s' => ch a :: str s'
  end.
Arguments str s%_string_scope.

(** [s[i]] for a NUL-terminated string: the terminator follows the bytes. *)
Definition cget (s : bytes) (i : nat) : Z := nth i s 0.

(** ** Integers as bytes

    The [n] low bytes of an integer, least significant first, and back. *)

Fixpoint le_bytes (n : nat) (z : Z) : bytes :=
  match n with
  | O => []
  | S n => z mod 256 :: le_bytes n (z / 256)
  end.

Fixpoint le_val (d : bytes) : Z :=
  match d with
  | [] => 0
  | x :: d => x + 256 * le_val d
  end.

(** ** ctype.h in the C locale *)

Definition isupper (c : Z) : bool := (65 <=? c) && (c <=? 90).
Definition islower (c : Z) : bool := (97 <=? c) && (c <=? 122).
Definition isalpha (c : Z) : bool := isupper c || islower c.
Definition isdigit (c : Z) : bool := (48 <=? c) && (c <=? 57).
Definition isspace (c : Z) : bool := (c =? 32) || ((9 <=? c) && (c <=? 13)).
Definition tolower (c : Z) : Z := if isupper c then c + 32 else c.

(** ** string.h

    [strncmp a b n = 0] and [strncasecmp a b n = 0] on NUL-terminated
    strings: equal up to [n] bytes or to the first common terminator. *)

Fixpoint strncmp_eq (a b : bytes) (n : nat) : bool :=
  match n with
  | O => true
  | S n' =>
      if cget a 0 =? cget b 0
      then (if cget a 0 =? 0 then true else strncmp_eq (tl a) (tl b) n')
      else false
  end.

Definition strncasecmp_eq (a b : bytes) (n : nat) : bool :=
  strncmp_eq (map tolower a) (map tolower b) n.

Definition strcmp_eq (a b : bytes) : bool := bool_decide (a = b).
Definition strcasecmp_is (s name : bytes) : bool := bool_decide (map tolower s = map tolower name).

(** ** Allocation

    Every [flb_malloc], [flb_calloc] or [flb_strdup] of the source may return
    NULL.  Code whose result depends on that threads a tape of outcomes: each
    allocation consumes one, and the allocations past the end of the tape
    succeed, so [[]] is the run without failures. *)

Definition tape := list bool.

Definition flb_malloc (t : tape) : bool * tape :=
  match t with
  | [] => (true, [])
  | ok :: t' => (ok, t')
  end.

(** ** Tactics *)

(** Case analysis on every boolean integer test of the goal, turned into
    the proposition it decides. *)
Ltac zcase :=
  repeat match goal with
  | |- context [?a =? ?b] => destruct (Z.eqb_spec a b)
  | |- context [?a <? ?b] => destruct (Z.ltb_spec a b)
  | |- context [?a <=? ?b] => destruct (Z.leb_spec a b)
  | |- context [Nat.eqb ?a ?b] => destruct (Nat.eqb_spec a b)
  | |- context [Nat.ltb ?a ?b] => destruct (Nat.ltb_spec a b)
  | |- context [Nat.leb ?a ?b] => destruct (Nat.leb_spec a b)
  end.

Ltac zcase_in H :=
  repeat match type of H with
  | context [?a =? ?b] => destruct (Z.eqb_spec a b)
  | context [?a <? ?b] => destruct (Z.ltb_spec a b)
  | context [?a <=? ?b] => destruct (Z.leb_spec a b)
  | context [Nat.eqb ?a ?b] => destruct (Nat.eqb_spec a b)
  | context [Nat.ltb ?a ?b] => destruct (Nat.ltb_spec a b)
  | context [Nat.leb ?a ?b] => destruct (Nat.leb_spec a b)
  end.

(** ** Shared lemmas *)

Lemma u8_range z : 0 <= u8 z < 256.
Proof. apply Z.mod_pos_bound. lia. Qed.
Lemma u32_range z : 0 <= u32 z < 2 ^ 32.
Proof. apply Z.mod_pos_bound. lia. Qed.
Lemma u64_range z : 0 <= u64 z < 2 ^ 64.
Proof. apply Z.mod_pos_bound. lia. Qed.
Lemma u8_small z : 0 <= z < 256 -> u8 z = z.
Proof. apply Z.mod_small. Qed.
Lemma u32_small z : 0 <= z < 2 ^ 32 -> u32 z = z.
Proof. apply Z.mod_small. Qed.
Lemma u64_small z : 0 <= z < 2 ^ 64 -> u64 z = z.
Proof. apply Z.mod_small. Qed.
Lemma i32_small z : INT_MIN <= z <= INT_MAX -> i32 z = z.
Proof. unfold i32, INT_MIN, INT_MAX. intros. rewrite Z.mod_small; lia. Qed.
Lemma i32_range z : INT_MIN <= i32 z <= INT_MAX.
Proof.
  unfold i32, INT_MIN, INT_MAX.
  pose proof (Z.mod_pos_bound (z + 2 ^ 31) (2 ^ 32)). lia.
Qed.

Lemma is_cstr_no_nul s : is_cstr s -> no_nul s.
Proof. intros H. eapply Forall_impl; [exact H|]. simpl. lia. Qed.
Lemma is_cstr_bytes s : is_cstr s -> is_bytes s.
Proof. intros H. eapply Forall_impl; [exact H|]. unfold is_byte. simpl. lia. Qed.

Create HintDb flb.
Create Rewrite HintDb flb.
#[export] Hint Resolve u8_range u32_range u64_range i32_range
  is_cstr_no_nul is_cstr_bytes : flb.
#[export] Hint Rewrite @length_app @length_map @length_take @length_drop
  @length_replicate : flb.

(** On strings of the same length without NUL, [strncmp] decides equality. *)
Lemma strncmp_eq_spec a b :
  no_nul a -> length a = length b ->
  strncmp_eq a b (length b) = true <-> a = b.
Proof.
  revert b. induction a as [|x a IH]; intros [|y b] Ha Hl; simplify_eq/=.
  - done.
  - apply Forall_cons in Ha as [Hx Ha]. specialize (IH b Ha Hl).
    unfold cget; simpl. zcase; naive_solver.
Qed.

Lemma tolower_nonzero c : c <> 0 -> tolower c <> 0.
Proof. unfold tolower, isupper. destruct (_ && _) eqn:E; lia. Qed.

Lemma elem_of_map {A B} (f : A -> B) (l : list A) y :
  y ∈ map f l <-> exists x, y = f x /\ x ∈ l.
Proof. apply list_elem_of_fmap. Qed.

Lemma no_nul_lower s : no_nul s -> no_nul (map tolower s).
Proof.
  unfold no_nul. rewrite !Forall_forall. intros H c (d & -> & Hd)%elem_of_map.
  by apply tolower_nonzero, H.
Qed.
#[export] Hint Resolve no_nul_lower : flb.

Lemma strncasecmp_eq_spec a b :
  no_nul a -> length a = length b ->
  strncasecmp_eq a b (length b) = true <-> map tolower a = map tolower b.
Proof.
  intros Ha Hl. unfold strncasecmp_eq.
  rewrite <- (length_map tolower b).
  apply strncmp_eq_spec; [auto with flb|]. by rewrite !length_map.
Qed.

Lemma list_alter_ext {A} (f g : A -> A) i (l : list A) :
  (forall x, f x = g x) -> alter f i l = alter g i l.
Proof.
  intros H. revert i. induction l as [|x l IH]; intros [|i]; simpl; [done..| |].
  - f_equal. apply H.
  - f_equal. apply IH.
Qed.

(** Bounds of bit operations at a width. *)
Lemma mod_pow2_bound n z : 0 <= n -> z mod 2 ^ n = z -> 0 <= z < 2 ^ n.
Proof. intros Hn <-. apply Z.mod_pos_bound, Z.pow_pos_nonneg; lia. Qed.

Lemma lor_pow2_bound n a b : 0 <= n ->
  0 <= a < 2 ^ n -> 0 <= b < 2 ^ n -> 0 <= Z.lor a b < 2 ^ n.
Proof.
  intros Hn Ha Hb. apply mod_pow2_bound; [done|].
  rewrite <- Z.land_ones, Z.land_lor_distr_l, !Z.land_ones by lia.
  by rewrite !Z.mod_small.
Qed.

Lemma land_pow2_bound n a b : 0 <= n ->
  0 <= a < 2 ^ n -> 0 <= Z.land a b < 2 ^ n.
Proof.
  intros Hn Ha. apply mod_pow2_bound; [done|].
  rewrite <- Z.land_ones, <- Z.land_assoc, (Z.land_comm b), Z.land_assoc, Z.land_ones by lia.
  by rewrite Z.mod_small.
Qed.

Lemma testbit_above n z k : 0 <= z < 2 ^ n -> n <= k -> Z.testbit z k = false.
Proof.
  intros Hz Hk. destruct (Z.eq_dec z 0) as [->|]; [apply Z.bits_0|].
  apply Z.bits_above_log2; [lia|]. eapply Z.lt_le_trans; [|exact Hk].
  apply Z.log2_lt_pow2; lia.
Qed.

(** Filters that agree on the elements of the list. *)
Lemma filter_ext_in {A} (P Q : A -> Prop) `{forall x, Decision (P x)} `{forall x, Decision (Q x)} (l : list A) :
  (forall x, x ∈ l -> P x <-> Q x) -> filter P l = filter Q l.
Proof.
  induction l as [|x l IH]; intros Heq; [done|].
  assert (IH' := IH (λ y Hy, Heq y (list_elem_of_further _ _ _ Hy))).
  specialize (Heq x (list_elem_of_here _ _)).
  rewrite !filter_cons. repeat case_decide; rewrite ?IH'; tauto.
Qed.

(** Unlinking a node from a list without duplicates. *)
Lemma filter_ne_notin {A} `{EqDecision A} (a : A) (l : list A) :
  a ∉ l -> filter (λ x, x <> a) l = l.
Proof.
  induction l as [|x l IH]; intros H; [done|].
  rewrite not_elem_of_cons in H. destruct H as [Hx Hl].
  rewrite filter_cons, decide_True by congruence. by rewrite IH.
Qed.

Lemma filter_ne_length {A} `{EqDecision A} (a : A) (l : list A) :
  NoDup l -> a ∈ l -> length l = S (length (filter (λ x, x <> a) l)).
Proof.
  induction l as [|x l IH]; intros Hn Ha; [by apply not_elem_of_nil in Ha|].
  apply NoDup_cons in Hn as [Hx Hn]. rewrite filter_cons.
  apply elem_of_cons in Ha as [->|Ha].
  - rewrite decide_False by tauto. by rewrite filter_ne_notin.
  - rewrite decide_True by congruence. simpl. by rewrite <- IH.
Qed.

(** Fields packed side by side: the bitwise or is the sum. *)
Lemma lor_shift_add n a b : 0 <= n -> 0 <= b < 2 ^ n ->
  Z.lor (a * 2 ^ n) b = a * 2 ^ n + b.
Proof.
  intros Hn Hb.
  assert (Hl : Z.land (a * 2 ^ n) b = 0).
  { apply Z.bits_inj'. intros k Hk. rewrite Z.land_spec, Z.bits_0.
    destruct (Z_lt_dec k n).
    - rewrite Z.mul_pow2_bits_low by lia. done.
    - rewrite (testbit_above n b) by lia. apply andb_false_r. }
  rewrite Z.add_nocarry_lxor by done. symmetry. by apply Z.lxor_lor.
Qed.

Lemma alter_Some {V} (f : V -> V) (i : nat) (m : gmap nat V) x :
  m !! i = Some x -> alter f i m = <[i := f x]> m.
Proof.
  intros H. apply map_eq. intros j. rewrite lookup_alter, lookup_insert.
  destruct (decide (i = j)) as [<-|Hd]; [by rewrite H|done].
Qed.

Lemma lookup_alter_cases {A} (f : A -> A) (i : nat) (m : gmap nat A) x : m !! i = Some x ->
  forall j y, alter f i m !! j = Some y -> (j = i /\ y = f x) \/ (j <> i /\ m !! j = Some y).
Proof.
  intros Hi j y Hj. destruct (decide (j = i)) as [->|Hne].
  - rewrite lookup_alter_eq, Hi in Hj. injection Hj as <-. by left.
  - rewrite lookup_alter_ne in Hj by done. by right.
Qed.

Lemma NoDup_map_inj {A B} (f : A -> B) (l : list A) x y :
  NoDup (map f l) -> x ∈ l -> y ∈ l -> f x = f y -> x = y.
Proof.
  induction l as [|z l IH]; simpl; intros Hn Hx Hy Heq; [by apply not_elem_of_nil in Hx|].
  apply NoDup_cons in Hn as [Hz Hn].
  assert (Hin : forall u, u ∈ l -> f u ∈ map f l) by (intros u Hu; apply elem_of_map; eauto).
  apply elem_of_cons in Hx as [->|Hx]; apply elem_of_cons in Hy as [->|Hy]; auto.
  - exfalso. apply Hz. rewrite Heq. auto.
  - exfalso. apply Hz. rewrite <- Heq. auto.
Qed.

Lemma le_val_bytes n z : 0 <= z < 256 ^ Z.of_nat n -> le_val (le_bytes n z) = z.
Proof.
  revert z. induction n as [|n IH]; intros z Hz; [simpl in *; lia|].
  rewrite Nat2Z.inj_succ, Z.pow_succ_r in Hz by lia. cbn [le_bytes le_val].
  rewrite IH; [pose proof (Z.div_mod z 256); lia|].
  split; [apply Z.div_pos; lia|]. apply Z.div_lt_upper_bound; lia.
Qed.
