(* ===== verification/Router.v ===== *)
(** * Routing of tags to output instances

    Models src/flb_router.c (wildcard matching of a tag, static routes between
    inputs and outputs), the part of src/flb_router_config.c that applies
    a parsed route configuration, src/flb_router_condition.c and the
    event-type test of include/fluent-bit/flb_router.h.  The regular
    expression engine (Onigmo) is the parameter [onig_match]. *)

From Equations Require Import Equations.
From Stdlib Require Import Sorted.
From S2P Require Import Prelude.

(** ** Wildcard matching *)

Module Match.

Definition STAR : Z := ch "*".

(** [memchr] on the rest of the tag: the suffix that starts at the hit. *)
Fixpoint memchr (c : Z) (s : bytes) : option bytes :=
  match s with
  | [] => None
  | x :: s' => if x =? c then Some s else memchr c s'
  end.

(** The inner loop that skips successive stars: the pattern after them. *)
Fixpoint skip_stars (m : bytes) : bytes :=
  match m with
  | c :: m' => if c =? STAR then skip_stars m' else m
  | [] => []
  end.

(** The search loop behind a star: try every position of the tag where the
    next pattern character occurs ([search_memchr] relates it to [memchr]). *)
Fixpoint search (try : bytes -> bool) (c : Z) (s : bytes) : bool :=
  match s with
  | [] => false
  | x :: s' =>
      if x =? c
      then (if try s then true else search try c s')
      else search try c s'
  end.

Lemma skip_stars_length m : (length (skip_stars m) <= length m)%nat.
Proof. induction m as [|c m IH]; simpl; [lia|]. case_match; simpl; lia. Qed.

(** The loop over the pattern; [tag] is the part of the tag at
    [tag_cursor], so [remaining] is its length. *)
Equations? match_loop (m tag : bytes) : bool by wf (length m) lt :=
  match_loop [] tag := match tag with [] => true | _ => false end;
  match_loop (c :: m') tag with c =? STAR => {
    | true with skip_stars m' => {
        | [] := true;
        | c' :: m'' :=
            search (λ pos, match_loop (skip_stars m') pos) c' tag };
    | false with tag => {
        | [] := false;
        | x :: tag' with x =? c => {
            | true := match_loop m' tag';
            | false := false } } }.
Proof.
  all: simpl; try lia.
  pose proof (skip_stars_length m'); lia.
Qed.

Section Regex.
Context {regex : Type}.
(** [onig_match] at the start of the tag: the length matched, or negative. *)
Variable onig_match : regex -> bytes -> Z.

Definition router_match (tag : option bytes) (tag_len : Z)
    (mtch : option bytes) (match_regex : option regex) : bool :=
  if tag_len <? 0 then false else
  let go (tag : bytes) :=
    let tag := take (Z.to_nat tag_len) tag in
    match match_regex with
    | Some r => if 0 <? onig_match r tag then true else
                match mtch with
                | None => false
                | Some m => match_loop m tag
                end
    | None => match mtch with
              | None => false
              | Some m => match_loop m tag
              end
    end in
  match tag with
  | None => if tag_len =? 0 then go [] else false
  | Some t => go t
  end.

Definition flb_router_match := router_match.

End Regex.

(** *** The meaning of a pattern *)

(** [glob m t]: the pattern [m], in which ['*'] stands for any sequence of
    bytes and every other byte for itself, describes the whole of [t]. *)
Inductive glob : bytes -> bytes -> Prop :=
| glob_nil : glob [] []
| glob_byte c m t : c <> STAR -> glob m t -> glob (c :: m) (c :: t)
| glob_star_done m t : glob m t -> glob (STAR :: m) t
| glob_star_more m x t : glob (STAR :: m) t -> glob (STAR :: m) (x :: t).

Lemma glob_star m t : glob (STAR :: m) t <-> exists p q, t = p ++ q /\ glob m q.
Proof.
  split.
  - remember (STAR :: m) as sm. induction 1 as [| |m' t H IH|m' x t H IH];
      simplify_eq.
    + by exists [], t.
    + destruct (IH eq_refl) as (p & q & -> & Hq). by exists (x :: p), q.
  - intros (p & q & -> & Hq). induction p as [|x p IH]; simpl.
    + by constructor.
    + by constructor.
Qed.

Lemma glob_skip_stars m t :
  glob (STAR :: m) t <-> glob (STAR :: skip_stars m) t.
Proof.
  revert t. induction m as [|c m IH]; intros t; simpl; [done|].
  destruct (Z.eqb_spec c STAR) as [->|Hc]; [|done].
  rewrite <- IH, !glob_star. split.
  - intros (p & q & -> & Hq). apply glob_star in Hq as (p' & q' & -> & Hq).
    exists (p ++ p'), q'. by rewrite (assoc_L (++)).
  - intros (p & q & -> & Hq). exists p, q. split; [done|]. by constructor.
Qed.

Lemma skip_stars_head m c m' : skip_stars m = c :: m' -> c <> STAR.
Proof.
  induction m as [|d m IH]; simpl; [done|].
  destruct (Z.eqb_spec d STAR); naive_solver.
Qed.

(** The search loop is the [memchr] loop of the source. *)
Lemma search_memchr try c s :
  search try c s =
  match memchr c s with
  | None => false
  | Some pos => if try pos then true else search try c (tl pos)
  end.
Proof.
  induction s as [|x s IH]; simpl; [done|]. by destruct (x =? c).
Qed.

Lemma search_spec try c s :
  search try c s = true <->
  exists p q, s = p ++ c :: q /\ try (c :: q) = true.
Proof.
  induction s as [|x s IH]; simpl.
  - split; [done|]. intros (p & q & Hs & _). by destruct p.
  - assert (Hrest : search try c s = true ->
      exists p q, x :: s = p ++ c :: q /\ try (c :: q) = true).
    { intros H. apply IH in H as (p & q & -> & Hq). by exists (x :: p), q. }
    destruct (Z.eqb_spec x c) as [->|Hx];
      [destruct (try (c :: s)) eqn:Ht|]; split; try done; try apply Hrest.
    + intros _. by exists [], s.
    + intros ([|y p] & q & Hs & Hq); simplify_eq/=; [congruence|].
      apply IH. eauto.
    + intros ([|y p] & q & Hs & Hq); simplify_eq/=. apply IH. eauto.
Qed.

Lemma glob_head c m t : c <> STAR -> glob (c :: m) t ->
  exists t', t = c :: t' /\ glob m t'.
Proof. intros Hc H. inversion H; simplify_eq. eauto. Qed.

Lemma match_loop_glob m t : match_loop m t = true <-> glob m t.
Proof.
  remember (length m) as n eqn:Hn.
  revert m t Hn. induction n as [n IH] using lt_wf_ind. intros m t ->.
  destruct m as [|c m]; simp match_loop.
  { destruct t; split; try done; [constructor|inversion 1]. }
  simpl. destruct (Z.eqb_spec c STAR) as [->|Hc]; simpl.
  - rewrite glob_skip_stars.
    destruct (skip_stars m) as [|c' m''] eqn:Hs; simpl.
    + split; [|done]. intros _. apply glob_star. exists t, [].
      rewrite (right_id_L [] (++)). by split; [|constructor].
    + pose proof (skip_stars_length m) as Hlen.
      pose proof (skip_stars_head _ _ _ Hs) as Hc'.
      rewrite search_spec, glob_star. rewrite Hs in *. split.
      * intros (p & q & -> & Hq). exists p, (c' :: q). split; [done|].
        eapply IH in Hq; eauto; simpl in *; lia.
      * intros (p & q & -> & Hq).
        destruct (glob_head _ _ _ Hc' Hq) as (q' & -> & _).
        exists p, q'. split; [done|]. eapply IH; eauto; simpl in *; lia.
  - destruct t as [|x t]; simpl.
    { split; [done|]. intros H. apply glob_head in H as (? & ? & _); done. }
    destruct (Z.eqb_spec x c) as [->|Hx]; simpl.
    + rewrite (IH (length m)); [|simpl; lia|done]. split.
      * by constructor.
      * intros H. apply glob_head in H as (t' & ? & H); by simplify_eq.
    + split; [done|]. intros H. apply glob_head in H as (t' & ? & _); by simplify_eq.
Qed.

(** What a tag must satisfy for an output with these match rules. *)
Definition tag_matches {regex} (onig : regex -> bytes -> Z) (tag : bytes)
    (mtch : option bytes) (re : option regex) : Prop :=
  (exists r, re = Some r /\ 0 < onig r tag) \/
  (exists m, mtch = Some m /\ glob m tag).

Lemma router_match_spec {regex} (onig : regex -> bytes -> Z) tag mtch re :
  flb_router_match onig (Some tag) (Z.of_nat (length tag)) mtch re = true <->
  tag_matches onig tag mtch re.
Proof.
  unfold flb_router_match, router_match, tag_matches.
  destruct (Z.ltb_spec (Z.of_nat (length tag)) 0) as [|_]; [lia|].
  rewrite Nat2Z.id, firstn_all.
  assert (Hm : match mtch with None => false | Some m => match_loop m tag end
               = true <-> exists m, mtch = Some m /\ glob m tag).
  { destruct mtch as [m|]; [rewrite match_loop_glob|]; naive_solver. }
  destruct re as [r|]; [destruct (Z.ltb_spec 0 (onig r tag))|]; [naive_solver| |].
  - rewrite Hm. split; [eauto|]. intros [(r' & [= <-] & ?)|]; [lia|done].
  - rewrite Hm. naive_solver.
Qed.

(** C1: [flb_router_match] accepts a tag exactly when the regular expression
    of the output (if it has one) matches a non-empty prefix of it, or the
    output's pattern (if it has one), read as a glob in which a star is any
    sequence of bytes, describes the whole tag: the backtracking loop is
    sound and complete, for every tag and every pattern. *)
Theorem router_match_glob {regex} (onig : regex -> bytes -> Z) tag mtch re :
  flb_router_match onig (Some tag) (Z.of_nat (length tag)) mtch re = true <->
  (exists r, re = Some r /\ 0 < onig r tag) \/
  (exists m, mtch = Some m /\ glob m tag).
Proof. apply router_match_spec. Qed.

End Match.

(** ** Static and configured routes *)

Module Routes.
Import Match.

Definition FLB_ROUTER_SIGNAL_LOGS : Z := Z.shiftl 1 0.
Definition FLB_ROUTER_SIGNAL_METRICS : Z := Z.shiftl 1 1.
Definition FLB_ROUTER_SIGNAL_TRACES : Z := Z.shiftl 1 2.
Definition FLB_ROUTER_SIGNAL_ANY : Z :=
  Z.lor FLB_ROUTER_SIGNAL_LOGS
    (Z.lor FLB_ROUTER_SIGNAL_METRICS FLB_ROUTER_SIGNAL_TRACES).

Definition FLB_OUTPUT_LOGS : Z := 1.
Definition FLB_OUTPUT_METRICS : Z := 2.
Definition FLB_OUTPUT_TRACES : Z := 4.
Definition FLB_OUTPUT_BLOBS : Z := 8.
Definition FLB_OUTPUT_PROFILES : Z := 16.

Definition FLB_INPUT_LOGS : Z := 0.
Definition FLB_INPUT_METRICS : Z := 1.
Definition FLB_INPUT_TRACES : Z := 2.
Definition FLB_INPUT_BLOBS : Z := 3.
Definition FLB_INPUT_PROFILES : Z := 4.

(** The plugin an instance refers to; its name may be NULL. *)
Record flb_plugin := { plugin_name : option bytes }.

(** A route path node holds the address of an output instance; an address is
    the position of the instance in [config->outputs]. *)
Record flb_input_instance := {
  i_name : bytes;
  i_alias : option bytes;
  i_p : option flb_plugin;
  i_tag : option bytes;
  i_tag_len : Z;
  routes : list nat;
  routes_direct : list nat;
}.

Record flb_route_output := {
  ro_name : option bytes;
  ro_fallback : option bytes;
}.

Record flb_route_condition := {
  rules : list (bytes * bytes * bytes);  (* field, op, value *)
  is_default : bool;
}.

Record flb_route := {
  rt_name : option bytes;
  signals : Z;
  condition : option flb_route_condition;
  rt_outputs : list flb_route_output;
}.

Record flb_input_routes := {
  input_name : option bytes;
  ir_routes : list flb_route;
}.

Section Routes.
Context {regex : Type}.
Variable onig_match : regex -> bytes -> Z.

Record flb_output_instance := {
  o_name : bytes;
  o_alias : option bytes;
  o_p : option flb_plugin;
  o_match : option bytes;
  o_match_regex : option regex;
  o_event_type : Z;
}.

Record flb_config := {
  inputs : list flb_input_instance;
  outputs : list flb_output_instance;
  input_routes : list flb_input_routes;
}.

Definition set_inputs (l : list flb_input_instance) (c : flb_config) :=
  {| inputs := l; outputs := outputs c; input_routes := input_routes c |}.

Definition add_route (j : nat) (i : flb_input_instance) : flb_input_instance :=
  {| i_name := i_name i; i_alias := i_alias i; i_p := i_p i; i_tag := i_tag i;
     i_tag_len := i_tag_len i; routes := routes i ++ [j];
     routes_direct := routes_direct i |}.

Definition add_direct (j : nat) (i : flb_input_instance) : flb_input_instance :=
  {| i_name := i_name i; i_alias := i_alias i; i_p := i_p i; i_tag := i_tag i;
     i_tag_len := i_tag_len i; routes := routes i;
     routes_direct := routes_direct i ++ [j] |}.

(** The configuration and the allocation tape. *)
Abbreviation st := (flb_config * tape)%type.

(** [in] and [out] are the positions of the instances. *)
Definition flb_router_connect (i j : nat) (s : st) : Z * st :=
  let (cfg, t) := s in
  let (ok, t) := flb_malloc t in
  if ok then (0, (set_inputs (alter (add_route j) i (inputs cfg)) cfg, t))
  else (-1, (cfg, t)).

Definition flb_router_connect_direct (i j : nat) (s : st) : Z * st :=
  let (cfg, t) := s in
  let (ok, t) := flb_malloc t in
  if ok then (0, (set_inputs (alter (add_direct j) i (inputs cfg)) cfg, t))
  else (-1, (cfg, t)).

Definition flb_router_match_type (in_event_type : Z) (o : flb_output_instance) : bool :=
  if (in_event_type =? FLB_INPUT_LOGS)
     && (Z.land (o_event_type o) FLB_OUTPUT_LOGS =? 0) then false
  else if (in_event_type =? FLB_INPUT_METRICS)
     && (Z.land (o_event_type o) FLB_OUTPUT_METRICS =? 0) then false
  else if (in_event_type =? FLB_INPUT_TRACES)
     && (Z.land (o_event_type o) FLB_OUTPUT_TRACES =? 0) then false
  else if (in_event_type =? FLB_INPUT_PROFILES)
     && (Z.land (o_event_type o) FLB_OUTPUT_PROFILES =? 0) then false
  else if (in_event_type =? FLB_INPUT_BLOBS)
     && (Z.land (o_event_type o) FLB_OUTPUT_BLOBS =? 0) then false
  else true.

(** *** src/flb_router_config.c: applying the route configuration *)

Definition name_is (alias : option bytes) (name : bytes) (p : option flb_plugin)
    (wanted : bytes) : bool :=
  match p with
  | None => false
  | Some pl =>
      match alias with Some a => strcmp_eq a wanted | None => false end
      || strcmp_eq name wanted
      || match plugin_name pl with Some n => strcmp_eq n wanted | None => false end
  end.

(** The position of the first element that satisfies [f]. *)
Fixpoint find_pos {A} (f : A -> bool) (l : list A) : option nat :=
  match l with
  | [] => None
  | x :: l' => if f x then Some O else S <$> find_pos f l'
  end.

Definition find_input_instance (cfg : flb_config) (name : option bytes) : option nat :=
  match name with
  | None => None
  | Some n => find_pos (λ i, name_is (i_alias i) (i_name i) (i_p i) n) (inputs cfg)
  end.

Definition find_output_instance (cfg : flb_config) (name : option bytes) : option nat :=
  match name with
  | None => None
  | Some n => find_pos (λ o, name_is (o_alias o) (o_name o) (o_p o) n) (outputs cfg)
  end.

Definition input_has_direct_route (i : flb_input_instance) (j : nat) : bool :=
  bool_decide (j ∈ routes_direct i).

Definition output_supports_signals (out : option flb_output_instance) (signals : Z) : bool :=
  match out with
  | None => false
  | Some o =>
      if (signals =? 0) || negb (Z.land signals FLB_ROUTER_SIGNAL_ANY =? 0) then true
      else if negb (Z.land signals FLB_ROUTER_SIGNAL_LOGS =? 0)
              && (Z.land (o_event_type o) FLB_OUTPUT_LOGS =? 0) then false
      else if negb (Z.land signals FLB_ROUTER_SIGNAL_METRICS =? 0)
              && (Z.land (o_event_type o) FLB_OUTPUT_METRICS =? 0) then false
      else if negb (Z.land signals FLB_ROUTER_SIGNAL_TRACES =? 0)
              && (Z.land (o_event_type o) FLB_OUTPUT_TRACES =? 0) then false
      else true
  end.

(** The output a route names, or its fallback. *)
Definition resolve_output (cfg : flb_config) (ro : flb_route_output) : option nat :=
  match find_output_instance cfg (ro_name ro) with
  | Some j => Some j
  | None => match ro_fallback ro with
            | Some f => find_output_instance cfg (Some f)
            | None => None
            end
  end.

Definition apply_route_output (i : nat) (sig : Z) (s : st) (ro : flb_route_output) : st :=
  match resolve_output (fst s) ro with
  | None => s
  | Some j =>
      if negb (output_supports_signals (outputs (fst s) !! j) sig) then s
      else match inputs (fst s) !! i with
           | Some inp => if input_has_direct_route inp j then s
                         else snd (flb_router_connect_direct i j s)
           | None => s
           end
  end.

Definition apply_route (i : nat) (s : st) (r : flb_route) : st :=
  foldl (apply_route_output i (signals r)) s (rt_outputs r).

Definition apply_input_routes (s : st) (ir : flb_input_routes) : st :=
  match find_input_instance (fst s) (input_name ir) with
  | None => s
  | Some i => foldl (apply_route i) s (ir_routes ir)
  end.

Definition flb_router_apply_config (s : st) : Z * st :=
  (0, foldl apply_input_routes s (input_routes (fst s))).

(** *** src/flb_router.c: static routes *)

Fixpoint io_set_outputs (i : nat) (tag : bytes) (tag_len : Z) (j : nat)
    (outs : list flb_output_instance) (s : st) : st :=
  match outs with
  | [] => s
  | o :: outs' =>
      let s' :=
        match o_match o, o_match_regex o with
        | None, None => s
        | m, r => if flb_router_match onig_match (Some tag) tag_len m r
                  then snd (flb_router_connect i j s) else s
        end in
      io_set_outputs i tag tag_len (S j) outs' s'
  end.

Fixpoint io_set_inputs (i : nat) (ins : list flb_input_instance)
    (outs : list flb_output_instance) (s : st) : st :=
  match ins with
  | [] => s
  | inp :: ins' =>
      let s' :=
        match i_p inp, i_tag inp with
        | Some _, Some tag => io_set_outputs i tag (i_tag_len inp) 0 outs s
        | _, _ => s
        end in
      io_set_inputs (S i) ins' outs s'
  end.

Definition set_match (m : bytes) (o : flb_output_instance) : flb_output_instance :=
  {| o_name := o_name o; o_alias := o_alias o; o_p := o_p o; o_match := Some m;
     o_match_regex := o_match_regex o; o_event_type := o_event_type o |}.

Definition flb_router_io_set (s : st) : Z * st :=
  match inputs (fst s), outputs (fst s) with
  | [_], [o] =>
      let s :=
        match o_match o, o_match_regex o with
        | None, None =>
            let (ok, t) := flb_malloc (snd s) in
            let o' := if ok then set_match (str "*") o else o in
            ({| inputs := inputs (fst s); outputs := [o'];
                input_routes := input_routes (fst s) |}, t)
        | _, _ => s
        end in
      (0, snd (flb_router_connect 0 0 s))
  | ins, outs =>
      let s := io_set_inputs 0 ins outs s in
      match input_routes (fst s) with
      | [] => (0, s)
      | _ => let (ret, s) := flb_router_apply_config s in
             if ret =? -1 then (-1, s) else (0, s)
      end
  end.

Definition flb_router_exit (cfg : flb_config) : flb_config :=
  set_inputs
    (map (λ i, {| i_name := i_name i; i_alias := i_alias i; i_p := i_p i;
                  i_tag := i_tag i; i_tag_len := i_tag_len i;
                  routes := []; routes_direct := [] |}) (inputs cfg)) cfg.

(** *** src/flb_router_condition.c *)

Inductive event_type := EV_LOGS | EV_METRICS | EV_TRACES | EV_PROFILES | EV_BLOBS.

Definition flb_router_signal_from_chunk (chunk : option event_type) : Z :=
  match chunk with
  | None => 0
  | Some EV_LOGS => FLB_ROUTER_SIGNAL_LOGS
  | Some EV_METRICS => FLB_ROUTER_SIGNAL_METRICS
  | Some EV_TRACES => FLB_ROUTER_SIGNAL_TRACES
  | Some _ => 0
  end.

Definition flb_condition_eval_logs (c : option event_type) (r : flb_route) : bool := false.
Definition flb_condition_eval_metrics (c : option event_type) (r : flb_route) : bool := false.
Definition flb_condition_eval_traces (c : option event_type) (r : flb_route) : bool := false.

Definition flb_route_condition_eval (chunk : option event_type)
    (route : option flb_route) : bool :=
  match route with
  | None => false
  | Some r =>
      match condition r with
      | None => true
      | Some cond =>
          let signal := flb_router_signal_from_chunk chunk in
          if signal =? 0 then false
          else if negb (signals r =? 0) && negb (signals r =? FLB_ROUTER_SIGNAL_ANY)
                  && (Z.land (signals r) signal =? 0) then false
          else if is_default cond then true
          else match rules cond with
               | _ :: _ => true   (* cfl_list_is_empty(...) == 0 *)
               | [] =>
                   if signal =? FLB_ROUTER_SIGNAL_LOGS
                   then flb_condition_eval_logs chunk r
                   else if signal =? FLB_ROUTER_SIGNAL_METRICS
                   then flb_condition_eval_metrics chunk r
                   else if signal =? FLB_ROUTER_SIGNAL_TRACES
                   then flb_condition_eval_traces chunk r
                   else false
               end
      end
  end.

(** *** Static routes: what the nested loops compute *)

(** Positions, counted from [j], of the outputs that take [tag]. *)
Fixpoint matching_outputs (tag : bytes) (tag_len : Z) (j : nat)
    (outs : list flb_output_instance) : list nat :=
  match outs with
  | [] => []
  | o :: outs' =>
      (if flb_router_match onig_match (Some tag) tag_len (o_match o) (o_match_regex o)
       then [j] else []) ++ matching_outputs tag tag_len (S j) outs'
  end.

Definition static_routes (outs : list flb_output_instance)
    (inp : flb_input_instance) : list nat :=
  match i_p inp, i_tag inp with
  | Some _, Some tag => matching_outputs tag (i_tag_len inp) 0 outs
  | _, _ => []
  end.

Definition add_routes (js : list nat) (i : flb_input_instance) : flb_input_instance :=
  {| i_name := i_name i; i_alias := i_alias i; i_p := i_p i; i_tag := i_tag i;
     i_tag_len := i_tag_len i; routes := routes i ++ js;
     routes_direct := routes_direct i |}.

Lemma add_routes_nil i : add_routes [] i = i.
Proof. destruct i; unfold add_routes; simpl. by rewrite (right_id_L [] (++)). Qed.

Lemma add_routes_app js js' i :
  add_routes js' (add_routes js i) = add_routes (js ++ js') i.
Proof. unfold add_routes; simpl. by rewrite (assoc_L (++)). Qed.

Lemma set_inputs_id cfg : set_inputs (inputs cfg) cfg = cfg.
Proof. by destruct cfg. Qed.

Lemma alter_id_ext {A} (f : A -> A) i (l : list A) :
  (forall x, f x = x) -> alter f i l = l.
Proof. intros H. by apply list_alter_id. Qed.

Lemma router_match_none tag tag_len :
  flb_router_match onig_match (Some tag) tag_len None None = false.
Proof. unfold flb_router_match, router_match. by destruct (_ <? _). Qed.

Lemma io_set_outputs_spec i tag tag_len j outs cfg :
  io_set_outputs i tag tag_len j outs (cfg, []) =
  (set_inputs (alter (add_routes (matching_outputs tag tag_len j outs)) i (inputs cfg)) cfg, []).
Proof.
  revert j cfg. induction outs as [|o outs IH]; intros j cfg; cbn [io_set_outputs matching_outputs].
  { rewrite alter_id_ext by apply add_routes_nil. by rewrite set_inputs_id. }
  assert (Hs : match o_match o, o_match_regex o with
    | None, None => (cfg, [])
    | m, r => if flb_router_match onig_match (Some tag) tag_len m r
              then snd (flb_router_connect i j (cfg, [])) else (cfg, []) end =
    (set_inputs (alter (add_routes
      (if flb_router_match onig_match (Some tag) tag_len (o_match o) (o_match_regex o)
       then [j] else [])) i (inputs cfg)) cfg, [])).
  { assert (Hid : (cfg, []) = (set_inputs (alter (add_routes []) i (inputs cfg)) cfg, [] : tape)).
    { rewrite alter_id_ext by apply add_routes_nil. by rewrite set_inputs_id. }
    destruct (o_match o), (o_match_regex o); rewrite ?router_match_none; try done;
      by destruct (flb_router_match _ _ _ _ _). }
  rewrite Hs, IH. simpl. unfold set_inputs; simpl.
  rewrite list_alter_alter_eq. do 2 f_equal.
  apply list_alter_ext. intros x. apply add_routes_app.
Qed.

Lemma io_set_inputs_spec i ins outs cfg :
  exists l, io_set_inputs i ins outs (cfg, []) = (set_inputs l cfg, []) /\
  forall k, l !! k =
    add_routes (if (i <=? k)%nat
                then default [] (static_routes outs <$> ins !! (k - i)%nat)
                else []) <$> inputs cfg !! k.
Proof.
  revert i cfg. induction ins as [|inp ins IH]; intros i cfg; cbn [io_set_inputs].
  { exists (inputs cfg). rewrite set_inputs_id. split; [done|]. intros k.
    destruct (_ <=? _)%nat; simpl; destruct (inputs cfg !! k); simpl;
      by rewrite ?add_routes_nil. }
  assert (Hs : match i_p inp, i_tag inp with
    | Some _, Some tag => io_set_outputs i tag (i_tag_len inp) 0 outs (cfg, [])
    | _, _ => (cfg, []) end =
    (set_inputs (alter (add_routes (static_routes outs inp)) i (inputs cfg)) cfg, [])).
  { unfold static_routes. destruct (i_p inp), (i_tag inp);
      rewrite ?io_set_outputs_spec, ?alter_id_ext by apply add_routes_nil;
      by rewrite ?set_inputs_id. }
  rewrite Hs. destruct (IH (S i) (set_inputs (alter (add_routes (static_routes outs inp)) i (inputs cfg)) cfg)) as (l & -> & Hl).
  exists l. split; [done|]. intros k. rewrite Hl. cbn [set_inputs inputs].
  destruct (decide (k = i)) as [->|Hne].
  - rewrite list_lookup_alter_eq.
    replace (S i <=? i)%nat with false by (symmetry; apply Nat.leb_gt; lia).
    replace (i <=? i)%nat with true by (symmetry; apply Nat.leb_le; lia).
    rewrite Nat.sub_diag. simpl.
    destruct (inputs cfg !! i); simpl; by rewrite ?add_routes_app, ?app_nil_r.
  - rewrite list_lookup_alter_ne by done.
    destruct (Nat.leb_spec i k).
    + replace (S i <=? k)%nat with true by (symmetry; apply Nat.leb_le; lia).
      by replace (k - i)%nat with (S (k - S i)) by lia.
    + by replace (S i <=? k)%nat with false by (symmetry; apply Nat.leb_gt; lia).
Qed.

Lemma matching_outputs_elem tag j0 outs j :
  j ∈ matching_outputs tag (Z.of_nat (length tag)) j0 outs <->
  exists o, (j0 <= j)%nat /\ outs !! (j - j0)%nat = Some o /\
    tag_matches onig_match tag (o_match o) (o_match_regex o).
Proof.
  revert j0. induction outs as [|o outs IH]; intros j0; simpl.
  { split; [by intros ?%not_elem_of_nil|]. by intros (o & _ & ? & _). }
  rewrite elem_of_app, IH. split.
  - intros [Hj|(o' & Hle & Ho & Hm)].
    + destruct (flb_router_match _ _ _ _ _) eqn:E; [|by apply not_elem_of_nil in Hj].
      apply list_elem_of_singleton in Hj as ->. exists o. rewrite Nat.sub_diag.
      split_and!; [lia|done|]. by apply router_match_spec.
    + exists o'. split_and!; [lia| |done].
      by replace (j - j0)%nat with (S (j - S j0)) by lia.
  - intros (o' & Hle & Ho & Hm). destruct (decide (j = j0)) as [->|].
    + rewrite Nat.sub_diag in Ho. simplify_eq/=. left.
      apply router_match_spec in Hm. rewrite Hm. by apply list_elem_of_singleton.
    + right. exists o'. replace (j - j0)%nat with (S (j - S j0)) in Ho by lia.
      split_and!; [lia|done|done].
Qed.

(** *** Configured routes *)

(** What names an input: unchanged by every routing operation. *)
Definition ident (i : flb_input_instance) := (i_alias i, i_name i, i_p i).

Lemma find_pos_map {A B} (f : B -> bool) (g : A -> B) l :
  find_pos f (map g l) = find_pos (λ x, f (g x)) l.
Proof. induction l as [|x l IH]; simpl; [done|]. by rewrite IH. Qed.

(** One configured route: connect once. *)
Definition connect_once (s : st) (ij : nat * nat) : st :=
  match inputs (fst s) !! fst ij with
  | Some inp => if input_has_direct_route inp (snd ij) then s
                else snd (flb_router_connect_direct (fst ij) (snd ij) s)
  | None => s
  end.

(** The (input, output) pairs of a configuration, in order. *)
Definition configured_pairs (cfg : flb_config) : list (nat * nat) :=
  ir ← input_routes cfg;
  match find_input_instance cfg (input_name ir) with
  | None => []
  | Some i => r ← ir_routes ir; ro ← rt_outputs r;
              match resolve_output cfg ro with Some j => [(i, j)] | None => [] end
  end.

Definition same_names (c c' : flb_config) : Prop :=
  outputs c = outputs c' /\ input_routes c = input_routes c' /\
  map ident (inputs c) = map ident (inputs c').

Lemma same_names_refl c : same_names c c.
Proof. by split_and!. Qed.

Lemma same_names_trans c1 c2 c3 :
  same_names c1 c2 -> same_names c2 c3 -> same_names c1 c3.
Proof. intros (H1 & H2 & H3) (H4 & H5 & H6). split_and!; congruence. Qed.

#[local] Hint Resolve same_names_refl : flb.

Lemma find_input_same c c' n :
  same_names c c' -> find_input_instance c n = find_input_instance c' n.
Proof.
  intros (_ & _ & H). destruct n as [n|]; [|done].
  unfold find_input_instance.
  set (f := λ x : option bytes * bytes * option flb_plugin, name_is x.1.1 x.1.2 x.2 n).
  change (find_pos (λ x, f (ident x)) (inputs c) = find_pos (λ x, f (ident x)) (inputs c')).
  by rewrite <- (find_pos_map f ident (inputs c)), H, find_pos_map.
Qed.

Lemma resolve_same c c' ro :
  same_names c c' -> resolve_output c ro = resolve_output c' ro.
Proof.
  intros (H & _ & _). unfold resolve_output, find_output_instance. by rewrite H.
Qed.

Lemma connect_once_same s ij : same_names (fst (connect_once s ij)) (fst s).
Proof.
  destruct s as [c t], ij as [i j]. unfold connect_once. simpl.
  destruct (inputs c !! i); [|by auto with flb].
  destruct (input_has_direct_route _ _); [by auto with flb|].
  destruct (flb_malloc t) as [[] t']; simpl; [|by auto with flb].
  split_and!; simpl; [done..|].
  apply list_eq. intros k. rewrite !list_lookup_fmap.
  destruct (decide (k = i)) as [->|].
  - rewrite list_lookup_alter_eq. by destruct (inputs c !! i).
  - by rewrite list_lookup_alter_ne.
Qed.

Lemma foldl_connect_same s l : same_names (fst (foldl connect_once s l)) (fst s).
Proof.
  revert s. induction l as [|ij l IH]; intros s; simpl; [by auto with flb|].
  eapply same_names_trans; [apply IH|]. apply connect_once_same.
Qed.

Lemma supports_signals_true (o : flb_output_instance) sig :
  output_supports_signals (Some o) sig = true.
Proof.
  unfold output_supports_signals. destruct (sig =? 0); simpl; [done|].
  destruct (Z.land sig FLB_ROUTER_SIGNAL_ANY =? 0) eqn:E; simpl; [|done].
  apply Z.eqb_eq in E.
  assert (Hs : forall x, Z.land FLB_ROUTER_SIGNAL_ANY x = x -> Z.land sig x = 0).
  { intros x Hx. by rewrite <- Hx, Z.land_assoc, E. }
  by rewrite !Hs by done.
Qed.

Lemma find_pos_lookup {A} (f : A -> bool) l j :
  find_pos f l = Some j -> exists x, l !! j = Some x /\ f x = true.
Proof.
  revert j. induction l as [|x l IH]; intros j; simpl; [done|].
  destruct (f x) eqn:E; [intros [= <-]; eauto|].
  destruct (find_pos f l) as [j'|]; simpl; [|done]. intros [= <-]. eauto.
Qed.

Lemma resolve_lookup c ro j :
  resolve_output c ro = Some j -> exists o, outputs c !! j = Some o.
Proof.
  unfold resolve_output, find_output_instance. intros H.
  assert (Hj : exists n, find_pos (λ o, name_is (o_alias o) (o_name o) (o_p o) n) (outputs c) = Some j)
    by (repeat case_match; simplify_eq; eauto).
  destruct Hj as [n Hj]. apply find_pos_lookup in Hj. naive_solver.
Qed.

(** Applying a list of configuration items to a state whose names are those
    of [c0] is the fold of the pairs [c0] gives for them. *)
Lemma foldl_pairs {A} (step : st -> A -> st) (pairs : A -> list (nat * nat)) (c0 : flb_config) :
  (forall s a, same_names (fst s) c0 -> step s a = foldl connect_once s (pairs a)) ->
  forall l s, same_names (fst s) c0 ->
    foldl step s l = foldl connect_once s (l ≫= pairs).
Proof.
  intros Hstep l. induction l as [|a l IH]; intros s Hs; simpl; [done|].
  rewrite foldl_app, Hstep by done. apply IH.
  eapply same_names_trans; [apply foldl_connect_same|done].
Qed.

Lemma apply_config_pairs s :
  flb_router_apply_config s = (0, foldl connect_once s (configured_pairs (fst s))).
Proof.
  unfold flb_router_apply_config. f_equal.
  apply (foldl_pairs _ _ (fst s)); [|by auto with flb]. intros s1 ir H1. unfold apply_input_routes.
  rewrite (find_input_same _ _ _ H1).
  destruct (find_input_instance (fst s) (input_name ir)) as [i|]; [|done].
  apply (foldl_pairs _ _ (fst s)); [|done]. intros s2 r H2. unfold apply_route.
  apply (foldl_pairs _ _ (fst s)); [|done]. intros s3 ro H3. unfold apply_route_output.
  rewrite (resolve_same _ _ _ H3).
  destruct (resolve_output (fst s) ro) as [j|] eqn:Hj; [|done]. simpl.
  destruct (resolve_lookup _ _ _ Hj) as [o Ho].
  replace (outputs (fst s3)) with (outputs (fst s)) by (symmetry; apply H3).
  by rewrite Ho, supports_signals_true.
Qed.

(** What [connect_once] does to the input at position [k]. *)
Lemma connect_once_lookup c t i j k inp :
  inputs c !! k = Some inp ->
  exists inp', inputs (fst (connect_once (c, t) (i, j))) !! k = Some inp' /\
    routes inp' = routes inp /\
    (NoDup (routes_direct inp) -> NoDup (routes_direct inp')) /\
    (forall j', j' ∈ routes_direct inp' -> j' ∈ routes_direct inp \/ (k, j') = (i, j)) /\
    (forall j', j' ∈ routes_direct inp -> j' ∈ routes_direct inp') /\
    (t = [] -> k = i -> j ∈ routes_direct inp') /\
    (t = [] -> snd (connect_once (c, t) (i, j)) = []).
Proof.
  intros Hk. unfold connect_once; simpl.
  destruct (inputs c !! i) as [inp0|] eqn:Hi.
  2:{ exists inp. split_and!; try done; [naive_solver|congruence]. }
  destruct (input_has_direct_route inp0 j) eqn:Hd.
  { exists inp. split_and!; try done; [naive_solver|].
    intros _ ->. apply bool_decide_eq_true in Hd. congruence. }
  apply bool_decide_eq_false in Hd.
  destruct (flb_malloc t) as [[] t'] eqn:Ht; simpl.
  - destruct (decide (k = i)) as [->|Hne].
    + rewrite list_lookup_alter_eq, Hi. simplify_eq/=. exists (add_direct j inp).
      unfold add_direct; simpl. split_and!; try done.
      * intros Hn. apply NoDup_app. split_and!; [done| |apply NoDup_singleton].
        intros x Hx. rewrite list_elem_of_singleton. by intros ->.
      * intros j'. rewrite elem_of_app, list_elem_of_singleton. naive_solver.
      * intros j' Hj'. apply elem_of_app. by left.
      * intros _ _. apply elem_of_app. right. by apply list_elem_of_singleton.
      * intros ->. by simplify_eq/=.
    + rewrite list_lookup_alter_ne by done. exists inp.
      split_and!; try done; [naive_solver|]. intros ->. by simplify_eq/=.
  - exists inp. split_and!; try done; [naive_solver|..]; intros ->; by simplify_eq/=.
Qed.

Lemma foldl_connect_lookup l c t k inp :
  inputs c !! k = Some inp ->
  exists inp', inputs (fst (foldl connect_once (c, t) l)) !! k = Some inp' /\
    routes inp' = routes inp /\
    (NoDup (routes_direct inp) -> NoDup (routes_direct inp')) /\
    (forall j, j ∈ routes_direct inp' -> j ∈ routes_direct inp \/ (k, j) ∈ l) /\
    (forall j, j ∈ routes_direct inp -> j ∈ routes_direct inp') /\
    (t = [] -> forall j, (k, j) ∈ l -> j ∈ routes_direct inp').
Proof.
  revert c t inp. induction l as [|[i j] l IH]; intros c t inp Hk; simpl.
  { exists inp. split_and!; try done; [naive_solver|]. by intros _ j ?%not_elem_of_nil. }
  destruct (connect_once_lookup c t i j k inp Hk) as (inp1 & H1 & R1 & N1 & S1 & M1 & C1 & T1).
  destruct (connect_once (c, t) (i, j)) as [c1 t1]. simpl in *.
  destruct (IH c1 t1 inp1 H1) as (inp2 & H2 & R2 & N2 & S2 & M2 & C2).
  exists inp2. split_and!; [done|congruence|auto| |auto|].
  - intros j' Hj'. rewrite elem_of_cons. destruct (S2 _ Hj') as [Hj|]; [|auto].
    destruct (S1 _ Hj); auto.
  - intros Ht j'. rewrite elem_of_cons. intros [[= -> ->]|Hin]; [auto|].
    apply C2; auto.
Qed.

Lemma matching_outputs_sorted tag tag_len j0 outs :
  StronglySorted lt (matching_outputs tag tag_len j0 outs) /\
  Forall (λ j, (j0 <= j)%nat) (matching_outputs tag tag_len j0 outs).
Proof.
  revert j0. induction outs as [|o outs IH]; intros j0; cbn [matching_outputs]; [by repeat constructor|].
  destruct (IH (S j0)) as [Hs Hf].
  assert (Hf' : Forall (λ j, (j0 <= j)%nat) (matching_outputs tag tag_len (S j0) outs))
    by (eapply Forall_impl; [exact Hf|simpl; lia]).
  destruct (flb_router_match _ _ _ _ _); cbn [app]; [|done].
  split; constructor; [done|eapply Forall_impl; [exact Hf|simpl; lia]|done|done].
Qed.

(** The N:M case: the routes that are appended. *)
Lemma io_set_many cfg k inp :
  ~ (length (inputs cfg) = 1%nat /\ length (outputs cfg) = 1%nat) ->
  inputs cfg !! k = Some inp ->
  exists s' inp', flb_router_io_set (cfg, []) = (0, s') /\
    inputs (fst s') !! k = Some inp' /\
    routes inp' = routes inp ++ static_routes (outputs cfg) inp.
Proof.
  intros Hn Hk.
  destruct (io_set_inputs_spec 0 (inputs cfg) (outputs cfg) cfg) as (l & Heq & Hl).
  assert (Hset : flb_router_io_set (cfg, []) =
    match input_routes cfg with
    | [] => (0, (set_inputs l cfg, []))
    | _ => flb_router_apply_config (set_inputs l cfg, [])
    end).
  { unfold flb_router_io_set. cbn [fst snd]. revert Hn Heq. clear.
    destruct (inputs cfg) as [|i1 [|i2 ins]]; destruct (outputs cfg) as [|o1 [|o2 outs]];
      intros Hn Heq; try (by exfalso; apply Hn); rewrite Heq;
      unfold flb_router_apply_config; simpl; by destruct (input_routes cfg). }
  specialize (Hl k). rewrite Hk in Hl. simpl in Hl. rewrite Nat.sub_0_r, Hk in Hl. simpl in Hl.
  set (js := static_routes (outputs cfg) inp) in *.
  rewrite Hset. destruct (input_routes cfg) as [|ir irs].
  - by exists (set_inputs l cfg, []), (add_routes js inp).
  - rewrite apply_config_pairs.
    destruct (foldl_connect_lookup (configured_pairs (set_inputs l cfg))
      (set_inputs l cfg) [] k _ Hl) as (inp' & H1 & H2 & _). eauto.
Qed.

(** The quick setup connects, whatever the rules. *)
Lemma io_set_one cfg k inp :
  length (inputs cfg) = 1%nat -> length (outputs cfg) = 1%nat -> inputs cfg !! k = Some inp ->
  exists s' inp', flb_router_io_set (cfg, []) = (0, s') /\
    inputs (fst s') !! k = Some inp' /\ routes inp' = routes inp ++ [0%nat].
Proof.
  intros Hi Ho Hk. unfold flb_router_io_set. cbn [fst snd].
  destruct (inputs cfg) as [|i1 [|]] eqn:Ei; [done| |done].
  destruct (outputs cfg) as [|o1 [|]] eqn:Eo; [done| |done].
  destruct k as [|k]; [|done]. injection Hk as ->.
  destruct (o_match o1), (o_match_regex o1); simpl; rewrite ?Ei; simpl; by eexists _, _.
Qed.

(** C19: when no allocation fails and the tag of the input has the length that is
    recorded for it, [flb_router_io_set] succeeds and appends to the routes of
    the input, in the order of the outputs and once each, exactly
    the outputs whose match rule or regular expression takes the tag of the
    input; an input without plugin or without tag gets none.  One input and
    one output are the exception, they are connected whatever their rules. *)
Theorem io_set_static_routes cfg k inp :
  inputs cfg !! k = Some inp ->
  (forall tag, i_tag inp = Some tag -> i_tag_len inp = Z.of_nat (length tag)) ->
  exists s' inp' js,
    flb_router_io_set (cfg, []) = (0, s') /\
    inputs (fst s') !! k = Some inp' /\
    routes inp' = routes inp ++ js /\
    StronglySorted lt js /\
    if decide (length (inputs cfg) = 1%nat /\ length (outputs cfg) = 1%nat) then js = [0%nat]
    else forall j, j ∈ js <->
      i_p inp <> None /\ exists tag o,
        i_tag inp = Some tag /\ outputs cfg !! j = Some o /\
        tag_matches onig_match tag (o_match o) (o_match_regex o).
Proof.
  intros Hk Hlen. case_decide as Hn.
  - destruct Hn as [Hi Ho]. destruct (io_set_one cfg k inp Hi Ho Hk) as (s' & inp' & H1 & H2 & H3).
    exists s', inp', [0%nat]. split_and!; try done. by repeat constructor.
  - destruct (io_set_many cfg k inp Hn Hk) as (s' & inp' & H1 & H2 & H3).
    exists s', inp', (static_routes (outputs cfg) inp). split_and!; [done..| |].
    + unfold static_routes. destruct (i_p inp), (i_tag inp); try by constructor.
      apply matching_outputs_sorted.
    + intros j. unfold static_routes. destruct (i_p inp), (i_tag inp) as [tag|] eqn:Ht;
        try (split; [by intros ?%not_elem_of_nil|naive_solver]).
      rewrite (Hlen tag eq_refl), matching_outputs_elem, Nat.sub_0_r. split.
      * intros (o & _ & Ho & Hm). split; [done|]. eauto.
      * intros (_ & tag' & o & [= <-] & Ho & Hm). exists o. split_and!; [lia|done..].
Qed.

(** Applying a route configuration only adds direct routes: an input ends
    with its former direct routes and those of the configured (input, output)
    pairs that name it, resolved by alias, instance name or plugin name and
    then by fallback; the static routes are untouched, and no direct route
    is ever duplicated.  With allocation failures nothing else is added. *)
Theorem apply_config_direct_routes cfg t k inp :
  inputs cfg !! k = Some inp ->
  exists inp', inputs (fst (snd (flb_router_apply_config (cfg, t)))) !! k = Some inp' /\
    routes inp' = routes inp /\
    (NoDup (routes_direct inp) -> NoDup (routes_direct inp')) /\
    (forall j, j ∈ routes_direct inp' ->
       j ∈ routes_direct inp \/ (k, j) ∈ configured_pairs cfg) /\
    (t = [] -> forall j, j ∈ routes_direct inp \/ (k, j) ∈ configured_pairs cfg ->
       j ∈ routes_direct inp').
Proof.
  intros Hk. rewrite apply_config_pairs.
  destruct (foldl_connect_lookup (configured_pairs cfg) cfg t k inp Hk)
    as (inp' & H1 & H2 & H3 & H4 & H5 & H6).
  exists inp'. split_and!; try done. intros Ht j [?|?]; auto.
Qed.

(** The signal test of [flb_router_apply_config] rejects nothing: whatever
    the signals of a route and the event types of an output,
    [output_supports_signals] holds, because ANY is the union of the signals
    and the test for it succeeds as soon as one of them is set. *)
Theorem output_supports_signals_always (o : flb_output_instance) sig :
  output_supports_signals (Some o) sig = true.
Proof. apply supports_signals_true. Qed.

(** A route condition that has rules and applies to the signal of the
    chunk holds whatever the rules say, and one that has none and is not the
    default never does: the emptiness test is the wrong way round. *)
Theorem condition_eval_ignores_rules chunk r cond :
  condition r = Some cond -> is_default cond = false ->
  flb_route_condition_eval chunk (Some r) =
    negb (flb_router_signal_from_chunk chunk =? 0)
    && ((signals r =? 0) || (signals r =? FLB_ROUTER_SIGNAL_ANY)
        || negb (Z.land (signals r) (flb_router_signal_from_chunk chunk) =? 0))
    && negb (bool_decide (rules cond = [])).
Proof.
  intros Hc Hd. unfold flb_route_condition_eval. rewrite Hc, Hd.
  destruct (flb_router_signal_from_chunk chunk =? 0) eqn:E; simpl; [done|].
  destruct (signals r =? 0), (signals r =? FLB_ROUTER_SIGNAL_ANY),
    (Z.land (signals r) (flb_router_signal_from_chunk chunk) =? 0);
    simpl; destruct (rules cond); simpl; repeat case_match; done.
Qed.

End Routes.

(** *** Witnesses *)

Definition ex_in : flb_input_instance :=
  {| i_name := str "tail.0"; i_alias := None;
     i_p := Some {| plugin_name := Some (str "tail") |};
     i_tag := Some (str "app.log"); i_tag_len := 7;
     routes := []; routes_direct := [] |}.

Definition ex_out (m : bytes) : flb_output_instance (regex := Empty_set) :=
  {| o_name := str "es.0"; o_alias := None;
     o_p := Some {| plugin_name := Some (str "es") |}; o_match := Some m;
     o_match_regex := None; o_event_type := FLB_OUTPUT_LOGS |}.

Definition ex_cfg : flb_config (regex := Empty_set) :=
  {| inputs := [ex_in]; outputs := [ex_out (str "app.*"); ex_out (str "db.*")];
     input_routes := [{| input_name := Some (str "tail");
       ir_routes := [{| rt_name := None; signals := FLB_ROUTER_SIGNAL_METRICS;
         condition := None;
         rt_outputs := [{| ro_name := Some (str "nope");
                           ro_fallback := Some (str "es") |}] |}] |}] |}.

Definition no_regex (e : Empty_set) (_ : bytes) : Z := match e with end.

Lemma io_set_static_routes_witness :
  exists s' inp' js, flb_router_io_set no_regex (ex_cfg, []) = (0, s') /\
    inputs (fst s') !! 0%nat = Some inp' /\ routes inp' = routes ex_in ++ js /\
    StronglySorted lt js /\
    forall j, j ∈ js <-> i_p ex_in <> None /\ exists tag o,
      i_tag ex_in = Some tag /\ outputs ex_cfg !! j = Some o /\
      tag_matches no_regex tag (o_match o) (o_match_regex o).
Proof.
  apply (io_set_static_routes no_regex ex_cfg 0%nat ex_in).
  - reflexivity.
  - intros tag H. injection H as <-. reflexivity.
Defined.

Lemma apply_config_direct_routes_witness :
  exists inp', inputs (fst (snd (flb_router_apply_config (ex_cfg, [])))) !! 0%nat = Some inp' /\
    routes inp' = routes ex_in /\
    (NoDup (routes_direct ex_in) -> NoDup (routes_direct inp')) /\
    (forall j, j ∈ routes_direct inp' ->
       j ∈ routes_direct ex_in \/ (0%nat, j) ∈ configured_pairs ex_cfg) /\
    (@nil bool = [] -> forall j, j ∈ routes_direct ex_in \/ (0%nat, j) ∈ configured_pairs ex_cfg ->
       j ∈ routes_direct inp').
Proof. apply (apply_config_direct_routes ex_cfg [] 0%nat ex_in). reflexivity. Defined.

(** The metrics route of [ex_cfg] is connected to an output for logs only. *)
Example apply_config_example :
  option_map routes_direct (inputs (fst (snd (flb_router_apply_config (ex_cfg, [])))) !! 0%nat)
  = Some [0%nat].
Proof. vm_compute. reflexivity. Qed.

Definition ex_cond_route : flb_route :=
  {| rt_name := None; signals := 0;
     condition := Some {| rules := [(str "level", str "eq", str "error")]; is_default := false |};
     rt_outputs := [] |}.

Lemma condition_eval_ignores_rules_witness :
  flb_route_condition_eval (Some EV_LOGS) (Some ex_cond_route) = true.
Proof.
  rewrite (condition_eval_ignores_rules (Some EV_LOGS) ex_cond_route
    {| rules := [(str "level", str "eq", str "error")]; is_default := false |});
    vm_compute; reflexivity.
Defined.

End Routes.
