(* ===== verification/RoutesMask.v ===== *)
(** * Route masks: the set of outputs of a chunk as a bit field

    Models src/flb_routes_mask.c.  A mask is an array of
    [config->route_mask_size] 64-bit elements; bit [v mod 64] of element
    [v / 64] says whether the output with id [v] receives the chunk. *)

From S2P Require Import Prelude Router.

Module RoutesMask.
Import Match.

Definition FLB_ROUTES_MASK_ELEMENT_BITS : Z := 64.

(** The fields of [struct flb_config] this component owns. *)
Record mask_config := {
  route_mask_size : Z;                     (* elements *)
  route_mask_slots : Z;                    (* bits *)
  route_empty_mask : option (list Z);
}.

Definition in_slots (cfg : mask_config) (value : Z) : bool :=
  negb ((value <? 0) || (route_mask_slots cfg <=? value)).

Definition bit_index (value : Z) : nat := Z.to_nat (value / FLB_ROUTES_MASK_ELEMENT_BITS).
Definition bit_of (value : Z) : Z := u64 (Z.shiftl 1 (value mod FLB_ROUTES_MASK_ELEMENT_BITS)).

Definition flb_routes_mask_set_bit (mask : list Z) (value : Z) (cfg : mask_config) : list Z :=
  if negb (in_slots cfg value) then mask
  else alter (λ e, Z.lor e (bit_of value)) (bit_index value) mask.

(** [~bit] on a 64-bit operand. *)
Definition lnot64 (z : Z) : Z := u64 (Z.lnot z).

Definition flb_routes_mask_clear_bit (mask : list Z) (value : Z) (cfg : mask_config) : list Z :=
  if negb (in_slots cfg value) then mask
  else alter (λ e, Z.land e (lnot64 (bit_of value))) (bit_index value) mask.

Definition flb_routes_mask_get_bit (mask : list Z) (value : Z) (cfg : mask_config) : bool :=
  if negb (in_slots cfg value) then false
  else negb (Z.land (nth (bit_index value) mask 0) (bit_of value) =? 0).

(** The bytes of an array of elements in memory (little endian). *)
Fixpoint le_bytes (n : nat) (z : Z) : bytes :=
  match n with
  | O => []
  | S n' => Z.land z 255 :: le_bytes n' (Z.shiftr z 8)
  end.

Definition elements_bytes (mask : list Z) : bytes := mask ≫= le_bytes 8.

Definition memcmp_eq (a b : bytes) (n : nat) : bool := bool_decide (take n a = take n b).

(** The third argument of [memcmp] is a number of bytes; the code gives it the
    number of elements.  [None]: the empty mask was never created. *)
Definition flb_routes_mask_is_empty (mask : list Z) (cfg : mask_config) : option bool :=
  match route_empty_mask cfg with
  | None => None
  | Some e => Some (memcmp_eq (elements_bytes mask) (elements_bytes e)
                      (Z.to_nat (route_mask_size cfg)))
  end.

Definition set_empty_mask (e : option (list Z)) (cfg : mask_config) : mask_config :=
  {| route_mask_size := route_mask_size cfg; route_mask_slots := route_mask_slots cfg;
     route_empty_mask := e |}.

Definition flb_routes_empty_mask_destroy (cfg : mask_config) : mask_config :=
  match route_empty_mask cfg with
  | Some _ => set_empty_mask None cfg
  | None => cfg
  end.

Definition flb_routes_empty_mask_create (cfg : mask_config) (t : tape) : Z * mask_config * tape :=
  let cfg := flb_routes_empty_mask_destroy cfg in
  let (ok, t) := flb_malloc t in
  if ok then (0, set_empty_mask (Some (replicate (Z.to_nat (route_mask_size cfg)) 0)) cfg, t)
  else (-1, cfg, t).

(** [mask_size] is a [size_t]. *)
Definition flb_routes_mask_set_size (mask_size : Z) (cfg : mask_config) (t : tape)
    : Z * mask_config * tape :=
  let mask_size := if mask_size <? 1 then 1 else mask_size in
  let mask_size := u64 (mask_size / FLB_ROUTES_MASK_ELEMENT_BITS
                        + mask_size mod FLB_ROUTES_MASK_ELEMENT_BITS) in
  flb_routes_empty_mask_create
    {| route_mask_size := mask_size;
       route_mask_slots := u64 (mask_size * FLB_ROUTES_MASK_ELEMENT_BITS);
       route_empty_mask := route_empty_mask cfg |} t.

Section ByTag.
Context {regex : Type}.
Variable onig_match : regex -> bytes -> Z.

(** What the loop reads of an output instance: id, match, match_regex. *)
Record mask_output := {
  mo_id : Z;
  mo_match : option bytes;
  mo_match_regex : option regex;
}.

Definition mask_output_takes (tag : bytes) (tag_len : Z) (o : mask_output) : bool :=
  flb_router_match onig_match (Some tag) tag_len (mo_match o) (mo_match_regex o).

Fixpoint set_by_tag_loop (outs : list mask_output) (tag : bytes) (tag_len : Z)
    (cfg : mask_config) (mask : list Z) (has_routes : Z) : list Z * Z :=
  match outs with
  | [] => (mask, has_routes)
  | o :: outs' =>
      if mask_output_takes tag tag_len o
      then set_by_tag_loop outs' tag tag_len cfg
             (flb_routes_mask_set_bit mask (mo_id o) cfg) 1
      else set_by_tag_loop outs' tag tag_len cfg mask has_routes
  end.

(** [outs] is [in->config->outputs]; [None] is a NULL input. *)
Definition flb_routes_mask_set_by_tag (mask : list Z) (tag : bytes) (tag_len : Z)
    (inp : option (mask_config * list mask_output)) : list Z * Z :=
  match inp with
  | None => (mask, 0)
  | Some (cfg, outs) =>
      let mask := replicate (Z.to_nat (route_mask_size cfg)) 0
                  ++ drop (Z.to_nat (route_mask_size cfg)) mask in
      set_by_tag_loop outs tag tag_len cfg mask 0
  end.
End ByTag.

(** ** Well-formed configurations and masks *)

(** What [flb_routes_mask_set_size] establishes. *)
Definition wf_config (cfg : mask_config) : Prop :=
  0 < route_mask_size cfg /\
  route_mask_slots cfg = route_mask_size cfg * FLB_ROUTES_MASK_ELEMENT_BITS /\
  route_empty_mask cfg = Some (replicate (Z.to_nat (route_mask_size cfg)) 0).

Definition wf_mask (cfg : mask_config) (mask : list Z) : Prop :=
  length mask = Z.to_nat (route_mask_size cfg) /\ Forall (λ e, 0 <= e < 2 ^ 64) mask.

(** The bit a mask holds for an id, as a mathematical predicate. *)
Definition mask_bit (mask : list Z) (v : Z) : bool :=
  Z.testbit (nth (bit_index v) mask 0) (v mod FLB_ROUTES_MASK_ELEMENT_BITS).

Lemma in_slots_spec cfg v : in_slots cfg v = true <-> 0 <= v < route_mask_slots cfg.
Proof. unfold in_slots. zcase; simpl; lia. Qed.

Lemma bit_of_pow v : bit_of v = 2 ^ (v mod 64).
Proof.
  unfold bit_of, FLB_ROUTES_MASK_ELEMENT_BITS.
  pose proof (Z.mod_pos_bound v 64). rewrite Z.shiftl_1_l. apply u64_small.
  split; [apply Z.pow_nonneg; lia|apply Z.pow_lt_mono_r; lia].
Qed.

Lemma bit_of_testbit v k : 0 <= k -> Z.testbit (bit_of v) k = (k =? v mod 64).
Proof.
  intros Hk. rewrite bit_of_pow. pose proof (Z.mod_pos_bound v 64).
  rewrite Z.pow2_bits_eqb by lia. apply Z.eqb_sym.
Qed.

Lemma get_bit_spec cfg mask v :
  flb_routes_mask_get_bit mask v cfg = in_slots cfg v && mask_bit mask v.
Proof.
  unfold flb_routes_mask_get_bit, mask_bit. destruct (in_slots cfg v); simpl; [|done].
  set (e := nth _ mask 0). pose proof (Z.mod_pos_bound v 64).
  unfold FLB_ROUTES_MASK_ELEMENT_BITS.
  assert (Hl : Z.land e (bit_of v) = if Z.testbit e (v mod 64) then bit_of v else 0).
  { apply Z.bits_inj'. intros k Hk. rewrite Z.land_spec, bit_of_testbit by lia.
    destruct (Z.eqb_spec k (v mod 64)) as [->|];
      destruct (Z.testbit e (v mod 64)) eqn:E; rewrite ?Z.bits_0, ?andb_false_r; simpl;
      rewrite ?bit_of_testbit by lia; zcase; try done; lia. }
  rewrite Hl. destruct (Z.testbit e (v mod 64)); simpl; [|done].
  rewrite bit_of_pow. zcase; simpl; [|done].
  pose proof (Z.pow_pos_nonneg 2 (v mod 64)). lia.
Qed.

(** Two ids share both element and bit only when they are equal. *)
Lemma bit_position_inj v w : 0 <= v -> 0 <= w ->
  bit_index v = bit_index w -> v mod 64 = w mod 64 -> v = w.
Proof.
  unfold bit_index, FLB_ROUTES_MASK_ELEMENT_BITS. intros Hv Hw Hi Hm.
  rewrite (Z.div_mod v 64), (Z.div_mod w 64) by lia.
  assert (v / 64 = w / 64); [|lia].
  pose proof (Z.div_pos v 64). pose proof (Z.div_pos w 64). lia.
Qed.

Lemma bit_index_lt cfg mask v :
  wf_config cfg -> wf_mask cfg mask -> 0 <= v < route_mask_slots cfg ->
  (bit_index v < length mask)%nat.
Proof.
  intros (Hs & Hn & _) (Hl & _) Hv. rewrite Hl. unfold bit_index.
  unfold FLB_ROUTES_MASK_ELEMENT_BITS in *.
  assert (v / 64 < route_mask_size cfg) by (apply Z.div_lt_upper_bound; lia).
  pose proof (Z.div_pos v 64). lia.
Qed.

Lemma nth_alter {A} (f : A -> A) i (l : list A) d :
  (i < length l)%nat -> nth i (alter f i l) d = f (nth i l d).
Proof.
  revert i. induction l as [|x l IH]; intros [|i]; simpl; intros; try lia; [done|].
  apply IH. lia.
Qed.

Lemma nth_alter_ne {A} (f : A -> A) i j (l : list A) d :
  i <> j -> nth j (alter f i l) d = nth j l d.
Proof.
  revert i j. induction l as [|x l IH]; intros [|i] [|j]; simpl; intros; try done; try lia.
  apply IH. lia.
Qed.

Lemma nth_element_bound cfg mask i :
  wf_mask cfg mask -> 0 <= nth i mask 0 < 2 ^ 64.
Proof.
  intros [_ H]. destruct (le_lt_dec (length mask) i) as [Hi|Hi].
  - rewrite nth_overflow by done. lia.
  - eapply (proj1 (List.Forall_forall _ _)) in H; [exact H|]. by apply nth_In.
Qed.

(** An update of the bit's element that sets or resets that bit only. *)
Lemma alter_mask_bit f b v w mask :
  (forall e k, 0 <= e < 2 ^ 64 -> 0 <= k < 64 ->
     Z.testbit (f e) k = if k =? v mod 64 then b else Z.testbit e k) ->
  0 <= v -> 0 <= w -> (bit_index v < length mask)%nat ->
  Forall (λ e, 0 <= e < 2 ^ 64) mask ->
  mask_bit (alter f (bit_index v) mask) w = if v =? w then b else mask_bit mask w.
Proof.
  intros Hf Hv Hw Hlt Hall. unfold mask_bit, FLB_ROUTES_MASK_ELEMENT_BITS.
  pose proof (Z.mod_pos_bound w 64).
  destruct (decide (bit_index v = bit_index w)) as [Heq|Hne].
  - rewrite <- Heq, nth_alter by done.
    assert (0 <= nth (bit_index v) mask 0 < 2 ^ 64).
    { eapply (proj1 (List.Forall_forall _ _)) in Hall; [exact Hall|]. by apply nth_In. }
    rewrite Hf by (done || lia).
    destruct (Z.eqb_spec (w mod 64) (v mod 64)), (Z.eqb_spec v w); try done; subst.
    + exfalso. eauto using bit_position_inj.
    + done.
  - rewrite nth_alter_ne by done. destruct (Z.eqb_spec v w); [by subst|done].
Qed.

Lemma set_elem_bit v e k : 0 <= e < 2 ^ 64 -> 0 <= k < 64 ->
  Z.testbit (Z.lor e (bit_of v)) k = if k =? v mod 64 then true else Z.testbit e k.
Proof.
  intros He Hk. rewrite Z.lor_spec, bit_of_testbit by lia.
  destruct (k =? v mod 64); by rewrite ?orb_true_r, ?orb_false_r.
Qed.

Lemma clear_elem_bit v e k : 0 <= e < 2 ^ 64 -> 0 <= k < 64 ->
  Z.testbit (Z.land e (lnot64 (bit_of v))) k = if k =? v mod 64 then false else Z.testbit e k.
Proof.
  intros He Hk. unfold lnot64, u64.
  rewrite Z.land_spec, Z.mod_pow2_bits_low, Z.lnot_spec, bit_of_testbit by lia.
  destruct (k =? v mod 64); simpl; by rewrite ?andb_false_r, ?andb_true_r.
Qed.

Lemma bit_of_bound v : 0 <= bit_of v < 2 ^ 64.
Proof. apply u64_range. Qed.

Lemma alter_wf cfg mask f i :
  (forall e, 0 <= e < 2 ^ 64 -> 0 <= f e < 2 ^ 64) -> wf_mask cfg mask ->
  wf_mask cfg (alter f i mask).
Proof.
  intros Hf [Hl Ha]. split; [by rewrite length_alter|].
  apply Forall_alter; [done|]. intros x _. apply Hf.
Qed.

Lemma set_bit_wf cfg mask v :
  wf_mask cfg mask -> wf_mask cfg (flb_routes_mask_set_bit mask v cfg).
Proof.
  intros H. unfold flb_routes_mask_set_bit. destruct (negb _); [done|].
  apply alter_wf; [|done]. intros e He. apply lor_pow2_bound; [lia|done|apply bit_of_bound].
Qed.

Lemma clear_bit_wf cfg mask v :
  wf_mask cfg mask -> wf_mask cfg (flb_routes_mask_clear_bit mask v cfg).
Proof.
  intros H. unfold flb_routes_mask_clear_bit. destruct (negb _); [done|].
  apply alter_wf; [|done]. intros e He. by apply land_pow2_bound.
Qed.

Lemma set_bit_get cfg mask v w :
  wf_config cfg -> wf_mask cfg mask ->
  flb_routes_mask_get_bit (flb_routes_mask_set_bit mask v cfg) w cfg =
  (if in_slots cfg v && (v =? w) then true else flb_routes_mask_get_bit mask w cfg).
Proof.
  intros Hc Hm. rewrite !get_bit_spec. unfold flb_routes_mask_set_bit.
  destruct (in_slots cfg v) eqn:Hv; simpl; [|done].
  destruct (in_slots cfg w) eqn:Hw; simpl.
  2:{ destruct (Z.eqb_spec v w); [congruence|done]. }
  pose proof Hv as Hv'. apply in_slots_spec in Hv', Hw.
  rewrite (alter_mask_bit _ true); try lia; [done| |by eapply bit_index_lt|apply Hm].
  intros e k. apply set_elem_bit.
Qed.

Lemma clear_bit_get cfg mask v w :
  wf_config cfg -> wf_mask cfg mask ->
  flb_routes_mask_get_bit (flb_routes_mask_clear_bit mask v cfg) w cfg =
  (if in_slots cfg v && (v =? w) then false else flb_routes_mask_get_bit mask w cfg).
Proof.
  intros Hc Hm. rewrite !get_bit_spec. unfold flb_routes_mask_clear_bit.
  destruct (in_slots cfg v) eqn:Hv; simpl; [|done].
  destruct (in_slots cfg w) eqn:Hw; simpl.
  2:{ destruct (Z.eqb_spec v w); [congruence|done]. }
  pose proof Hv as Hv'. apply in_slots_spec in Hv', Hw.
  rewrite (alter_mask_bit _ false); try lia; [done| |by eapply bit_index_lt|apply Hm].
  intros e k. apply clear_elem_bit.
Qed.

(** ** Setting the size *)

Lemma set_size_wf n cfg ret cfg' :
  0 <= n < 2 ^ 57 ->
  flb_routes_mask_set_size n cfg [] = (ret, cfg', []) ->
  ret = 0 /\ wf_config cfg' /\ n <= route_mask_slots cfg'.
Proof.
  intros Hn. unfold flb_routes_mask_set_size, flb_routes_empty_mask_create.
  set (n' := if n <? 1 then 1 else n).
  assert (Hn' : 1 <= n' < 2 ^ 57 /\ n <= n') by (unfold n'; zcase; lia).
  unfold FLB_ROUTES_MASK_ELEMENT_BITS. clearbody n'.
  set (q := n' / 64 + n' mod 64).
  assert (Hq : 1 <= q < 2 ^ 58 /\ n' <= q * 64).
  { unfold q. pose proof (Z.div_mod n' 64 ltac:(lia)). pose proof (Z.mod_pos_bound n' 64 ltac:(lia)).
    pose proof (Z.div_pos n' 64 ltac:(lia) ltac:(lia)). lia. }
  rewrite (u64_small q), (u64_small (q * 64)) by lia. clearbody q. simpl.
  unfold flb_routes_empty_mask_destroy, set_empty_mask, wf_config; simpl.
  destruct (route_empty_mask cfg); simpl; intros [= <- <-]; simpl;
    unfold FLB_ROUTES_MASK_ELEMENT_BITS; split_and!; try done; lia.
Qed.

(** ** Emptiness *)

Lemma land255_mod z : Z.land z 255 = z mod 2 ^ 8.
Proof. by rewrite <- (Z.land_ones z 8). Qed.

Lemma le_bytes_nth n z i :
  (i < n)%nat -> nth i (le_bytes n z) 0 = Z.land (Z.shiftr z (8 * Z.of_nat i)) 255.
Proof.
  revert z i. induction n as [|n IH]; intros z i Hi; [lia|].
  destruct i as [|i]; cbn [le_bytes nth].
  - by rewrite Z.mul_0_r, Z.shiftr_0_r.
  - rewrite IH, Z.shiftr_shiftr by lia. do 2 f_equal. lia.
Qed.

Lemma le_bytes_length n z : length (le_bytes n z) = n.
Proof. revert z. induction n; intros z; simpl; auto. Qed.

Lemma elements_bytes_length mask : length (elements_bytes mask) = (8 * length mask)%nat.
Proof.
  induction mask as [|e mask IH]; [done|].
  change (elements_bytes (e :: mask)) with (le_bytes 8 e ++ elements_bytes mask).
  rewrite length_app, IH, le_bytes_length. simpl. lia.
Qed.

Lemma elements_bytes_nth mask i :
  nth i (elements_bytes mask) 0 =
  Z.land (Z.shiftr (nth (i / 8) mask 0) (8 * (Z.of_nat i mod 8))) 255.
Proof.
  revert i. induction mask as [|e mask IH]; intros i.
  { destruct (i / 8)%nat, i; simpl; by rewrite Z.shiftr_0_l. }
  change (elements_bytes (e :: mask)) with (le_bytes 8 e ++ elements_bytes mask).
  destruct (le_lt_dec 8 i) as [Hi|Hi].
  - rewrite app_nth2; rewrite le_bytes_length; [|lia]. rewrite IH.
    assert (Hd : (i / 8 = S ((i - 8) / 8))%nat).
    { replace i with ((i - 8) + 1 * 8)%nat at 1 by lia. rewrite Nat.div_add; lia. }
    assert (Hr : Z.of_nat i mod 8 = Z.of_nat (i - 8) mod 8).
    { replace (Z.of_nat i) with (Z.of_nat (i - 8) + 1 * 8) by lia. by rewrite Z.mod_add. }
    by rewrite Hd, Hr.
  - rewrite app_nth1 by (by rewrite le_bytes_length).
    rewrite le_bytes_nth, Nat.div_small by lia. cbn [nth].
    by rewrite Z.mod_small by lia.
Qed.

Lemma byte_zero_bits z s : 0 <= s ->
  Z.land (Z.shiftr z s) 255 = 0 <-> forall b, 0 <= b < 8 -> Z.testbit z (s + b) = false.
Proof.
  intros Hs. split.
  - intros H b Hb. apply (f_equal (λ x, Z.testbit x b)) in H.
    rewrite Z.bits_0, land255_mod, Z.mod_pow2_bits_low, Z.shiftr_spec in H by lia.
    by rewrite Z.add_comm.
  - intros H. rewrite land255_mod. apply Z.bits_inj'. intros k Hk. rewrite Z.bits_0.
    destruct (Z_lt_dec k 8); [|apply Z.mod_pow2_bits_high; lia].
    rewrite Z.mod_pow2_bits_low, Z.shiftr_spec, Z.add_comm by lia. by apply H.
Qed.

Lemma elements_bytes_zero n : elements_bytes (replicate n 0) = replicate (8 * n) 0.
Proof.
  induction n as [|n IH]; [done|].
  replace (8 * S n)%nat with (8 + 8 * n)%nat by lia.
  change (elements_bytes (replicate (S n) 0)) with (le_bytes 8 0 ++ elements_bytes (replicate n 0)).
  by rewrite IH, replicate_add.
Qed.

Lemma take_zero_iff n (l : bytes) : (n <= length l)%nat ->
  take n l = replicate n 0 <-> forall i, (i < n)%nat -> nth i l 0 = 0.
Proof.
  revert n. induction l as [|x l IH]; intros [|n] Hn; simpl in *;
    try (by split; [intros; lia|]); try lia.
  split.
  - intros [= -> H] [|i] Hi; [done|]. apply (IH n); [lia|done|lia].
  - intros H. f_equal; [apply (H 0%nat); lia|]. apply IH; [lia|].
    intros i Hi. apply (H (S i)). lia.
Qed.

(** What the emptiness test really tests: the first [8 * route_mask_size]
    of the [64 * route_mask_size] bits. *)
(** Bit [b] of byte [i] of the field is the bit of the id [8 * i + b]. *)
Lemma mask_bit_byte mask (i : nat) b : 0 <= b < 8 ->
  mask_bit mask (8 * Z.of_nat i + b) = Z.testbit (nth (i / 8) mask 0) (8 * (Z.of_nat i mod 8) + b).
Proof.
  intros Hb. unfold mask_bit, bit_index, FLB_ROUTES_MASK_ELEMENT_BITS. change 64 with (8 * 8).
  rewrite (Z.add_comm _ b), (Z.mul_comm 8 (Z.of_nat i)), (Z.rem_mul_r _ 8 8) by lia.
  rewrite <- Z.div_div, Z.div_add, Z.mod_add, (Z.div_small b), (Z.mod_small b), Z.add_0_l by lia.
  rewrite Z2Nat.inj_div, Nat2Z.id by lia. by rewrite Z.add_comm.
Qed.

Lemma byte_zero_mask mask (i : nat) :
  nth i (elements_bytes mask) 0 = 0 <-> forall b, 0 <= b < 8 -> mask_bit mask (8 * Z.of_nat i + b) = false.
Proof.
  rewrite elements_bytes_nth, byte_zero_bits by (pose proof (Z.mod_pos_bound (Z.of_nat i) 8); lia).
  split; intros H b Hb; [rewrite mask_bit_byte by done; auto|rewrite <- mask_bit_byte by done; auto].
Qed.

Lemma is_empty_spec cfg mask :
  wf_config cfg -> wf_mask cfg mask ->
  flb_routes_mask_is_empty mask cfg = Some true <->
  forall v, 0 <= v < 8 * route_mask_size cfg -> flb_routes_mask_get_bit mask v cfg = false.
Proof.
  intros Hc Hm. pose proof Hc as (Hs & Hn & He). destruct Hm as [Hl _].
  unfold flb_routes_mask_is_empty. rewrite He.
  unfold memcmp_eq. rewrite elements_bytes_zero, take_replicate, Nat.min_l by lia.
  assert (Hz : forall b, Some b = Some true <-> b = true) by (intros; split; congruence).
  rewrite Hz, bool_decide_eq_true, take_zero_iff by (rewrite elements_bytes_length; lia).
  setoid_rewrite byte_zero_mask. setoid_rewrite get_bit_spec. split.
  - intros H v Hv. apply andb_false_iff. right.
    pose proof (Z.div_mod v 8). pose proof (Z.mod_pos_bound v 8). pose proof (Z.div_pos v 8).
    specialize (H (Z.to_nat (v / 8)) ltac:(lia) (v mod 8) ltac:(lia)).
    rewrite Z2Nat.id in H by lia. rewrite <- H. f_equal. lia.
  - intros H i Hi b Hb. specialize (H (8 * Z.of_nat i + b) ltac:(lia)).
    apply andb_false_iff in H as [H|]; [|done]. apply not_true_iff_false in H. destruct H.
    apply in_slots_spec. rewrite Hn. unfold FLB_ROUTES_MASK_ELEMENT_BITS. lia.
Qed.

(** ** Routing by tag *)

Section ByTagSpec.
Context {regex : Type} (onig_match : regex -> bytes -> Z).

Lemma set_by_tag_loop_spec outs tag cfg mask has :
  wf_config cfg -> wf_mask cfg mask ->
  let r := set_by_tag_loop onig_match outs tag (Z.of_nat (length tag)) cfg mask has in
  wf_mask cfg (fst r) /\
  (snd r = 1 \/ snd r = has) /\
  (snd r = 1 <-> has = 1 \/ Exists (λ o, tag_matches onig_match tag (mo_match o) (mo_match_regex o)) outs) /\
  forall v, flb_routes_mask_get_bit (fst r) v cfg = true <->
    flb_routes_mask_get_bit mask v cfg = true \/
    Exists (λ o, in_slots cfg v = true /\ mo_id o = v /\
                 tag_matches onig_match tag (mo_match o) (mo_match_regex o)) outs.
Proof.
  intros Hc. revert mask has. induction outs as [|o outs IH]; intros mask has Hm; cbn [set_by_tag_loop].
  { cbn. split_and!; [done|by right| |]; intros; rewrite Exists_nil; naive_solver. }
  destruct (mask_output_takes onig_match tag _ o) eqn:E;
    unfold mask_output_takes in E.
  - apply router_match_spec in E.
    destruct (IH (flb_routes_mask_set_bit mask (mo_id o) cfg) 1 (set_bit_wf _ _ _ Hm))
      as (H1 & H2 & H3 & H4).
    split_and!; [done|clear -H2; tauto| |].
    + rewrite H3, Exists_cons. clear -E. tauto.
    + intros v. rewrite H4, set_bit_get, Exists_cons by done.
      clear IH H1 H2 H3 H4.
      destruct (in_slots cfg (mo_id o)) eqn:Hi; simpl;
        [destruct (Z.eqb_spec (mo_id o) v) as [<-|]|].
      * rewrite Hi. tauto.
      * tauto.
      * split; [tauto|]. intros [?|[(? & <- & _)|?]]; [tauto|congruence|tauto].
  - destruct (IH mask has Hm) as (H1 & H2 & H3 & H4).
    assert (Hno : ~ tag_matches onig_match tag (mo_match o) (mo_match_regex o)).
    { intros Ht. apply router_match_spec in Ht. congruence. }
    split_and!; [done..| |].
    + rewrite H3, Exists_cons. clear -Hno. tauto.
    + intros v. rewrite H4, Exists_cons. clear -Hno. tauto.
Qed.

Lemma zero_mask_wf cfg : wf_config cfg ->
  wf_mask cfg (replicate (Z.to_nat (route_mask_size cfg)) 0).
Proof.
  intros _. split; [by rewrite length_replicate|].
  apply Forall_replicate. lia.
Qed.

Lemma zero_mask_get cfg v n : flb_routes_mask_get_bit (replicate n 0) v cfg = false.
Proof.
  rewrite get_bit_spec. unfold mask_bit.
  assert (H : nth (bit_index v) (replicate n 0) 0 = 0).
  { generalize (bit_index v). induction n as [|n IH]; intros [|i]; simpl; auto. }
  rewrite H, Z.bits_0. apply andb_false_r.
Qed.

(** C20: after [flb_routes_mask_set_by_tag] the mask of a chunk holds exactly
    the outputs, with an id the mask can represent, whose match rules take the
    tag, whatever the mask held before; the result says whether any output
    took it. *)
Theorem set_by_tag_spec mask tag cfg outs :
  wf_config cfg -> wf_mask cfg mask ->
  let r := flb_routes_mask_set_by_tag onig_match mask tag (Z.of_nat (length tag))
             (Some (cfg, outs)) in
  wf_mask cfg (fst r) /\
  (snd r = 1 <-> exists o, o ∈ outs /\ tag_matches onig_match tag (mo_match o) (mo_match_regex o)) /\
  forall v, flb_routes_mask_get_bit (fst r) v cfg = true <->
    0 <= v < route_mask_slots cfg /\
    exists o, o ∈ outs /\ mo_id o = v /\
      tag_matches onig_match tag (mo_match o) (mo_match_regex o).
Proof.
  intros Hc Hm. unfold flb_routes_mask_set_by_tag. rewrite drop_ge by (destruct Hm; lia).
  rewrite app_nil_r.
  destruct (set_by_tag_loop_spec outs tag cfg _ 0 Hc (zero_mask_wf cfg Hc)) as (H1 & _ & H3 & H4).
  split_and!; [done| |].
  - rewrite H3, Exists_exists. naive_solver.
  - intros v. rewrite H4, zero_mask_get, Exists_exists, <- in_slots_spec. naive_solver.
Qed.

End ByTagSpec.

(** ** Properties *)

(** A mask is a set of output ids.  Setting a bit adds the id, clearing
    it removes it, ids past the limits of the field are refused, no other id
    is affected, and both operations keep the elements 64-bit words. *)
Theorem mask_bit_operations cfg mask v w :
  wf_config cfg -> wf_mask cfg mask ->
  wf_mask cfg (flb_routes_mask_set_bit mask v cfg) /\
  wf_mask cfg (flb_routes_mask_clear_bit mask v cfg) /\
  flb_routes_mask_get_bit (flb_routes_mask_set_bit mask v cfg) w cfg =
    (if bool_decide (0 <= v < route_mask_slots cfg) && (v =? w) then true
     else flb_routes_mask_get_bit mask w cfg) /\
  flb_routes_mask_get_bit (flb_routes_mask_clear_bit mask v cfg) w cfg =
    (if bool_decide (0 <= v < route_mask_slots cfg) && (v =? w) then false
     else flb_routes_mask_get_bit mask w cfg) /\
  (flb_routes_mask_get_bit mask w cfg = true -> 0 <= w < route_mask_slots cfg).
Proof.
  intros Hc Hm.
  assert (Hb : in_slots cfg v = bool_decide (0 <= v < route_mask_slots cfg)).
  { apply Bool.eq_iff_eq_true. by rewrite in_slots_spec, bool_decide_eq_true. }
  rewrite <- Hb. split_and!; auto using set_bit_wf, clear_bit_wf, set_bit_get, clear_bit_get.
  rewrite get_bit_spec, andb_true_iff, in_slots_spec. tauto.
Qed.

(** [flb_routes_mask_set_size] for [n] outputs gives a field in which
    every id below [n] has a slot, with an all-zero reference mask of the same
    number of elements. *)
Theorem set_size_enough_slots n cfg :
  0 <= n < 2 ^ 57 ->
  exists cfg', flb_routes_mask_set_size n cfg [] = (0, cfg', []) /\
    wf_config cfg' /\ forall v, 0 <= v < n -> in_slots cfg' v = true.
Proof.
  intros Hn. destruct (flb_routes_mask_set_size n cfg []) as [[ret cfg'] t] eqn:E.
  assert (t = []) as ->.
  { revert E. unfold flb_routes_mask_set_size, flb_routes_empty_mask_create; simpl.
    by intros [= _ _ <-]. }
  destruct (set_size_wf _ _ _ _ Hn E) as (-> & Hw & Hs).
  exists cfg'. split_and!; [done..|]. intros v Hv. apply in_slots_spec. lia.
Qed.

(** The emptiness test looks at the first [8 * route_mask_size] ids only,
    an eighth of the field, because it compares a number of bytes equal to
    the number of 64-bit elements; with 64 outputs a chunk routed to output 8
    alone has a mask that tests as empty. *)
Theorem mask_is_empty_partial :
  (forall cfg mask, wf_config cfg -> wf_mask cfg mask ->
     (flb_routes_mask_is_empty mask cfg = Some true <->
      forall v, 0 <= v < 8 * route_mask_size cfg ->
        flb_routes_mask_get_bit mask v cfg = false)) /\
  (forall cfg, exists cfg', flb_routes_mask_set_size 64 cfg [] = (0, cfg', []) /\
     let mask := flb_routes_mask_set_bit (replicate (Z.to_nat (route_mask_size cfg')) 0) 8 cfg' in
     flb_routes_mask_get_bit mask 8 cfg' = true /\
     flb_routes_mask_is_empty mask cfg' = Some true).
Proof.
  split; [apply is_empty_spec|]. intros [s n [e|]]; eexists; vm_compute; done.
Qed.

(** *** Witnesses *)

Definition ex_mask_cfg : mask_config :=
  {| route_mask_size := 2; route_mask_slots := 128; route_empty_mask := Some [0; 0] |}.

Lemma ex_mask_wf : wf_config ex_mask_cfg /\ wf_mask ex_mask_cfg [0; 4].
Proof.
  unfold wf_config, wf_mask; simpl. split_and!; try done; try lia.
  repeat constructor; lia.
Qed.

Lemma mask_bit_operations_witness :
  flb_routes_mask_get_bit (flb_routes_mask_set_bit [0; 4] 70 ex_mask_cfg) 70 ex_mask_cfg = true.
Proof.
  destruct ex_mask_wf as [Hc Hm].
  destruct (mask_bit_operations ex_mask_cfg [0; 4] 70 70 Hc Hm) as (_ & _ & H & _).
  rewrite H. reflexivity.
Defined.

Lemma set_by_tag_spec_witness :
  snd (flb_routes_mask_set_by_tag (λ (e : Empty_set) _, match e with end) [0; 4] (str "a.b") 3
    (Some (ex_mask_cfg, [{| mo_id := 70; mo_match := Some (str "a.*"); mo_match_regex := None |}]))) = 1.
Proof.
  destruct ex_mask_wf as [Hc Hm].
  apply (set_by_tag_spec (λ (e : Empty_set) _, match e with end) [0; 4] (str "a.b") ex_mask_cfg
    [{| mo_id := 70; mo_match := Some (str "a.*"); mo_match_regex := None |}] Hc Hm).
  eexists. split; [apply list_elem_of_singleton; reflexivity|].
  apply router_match_spec. vm_compute. reflexivity.
Defined.

Lemma set_size_enough_slots_witness :
  exists cfg', flb_routes_mask_set_size 65 ex_mask_cfg [] = (0, cfg', []) /\
    wf_config cfg' /\ forall v, 0 <= v < 65 -> in_slots cfg' v = true.
Proof. apply (set_size_enough_slots 65 ex_mask_cfg). lia. Defined.

End RoutesMask.
