(* ===== verification/HashTable.v ===== *)
(** * The chained hash table with eviction and expiry

    Models src/flb_hash_table.c.  The table links every entry twice, into the
    chain of its bucket and into the list of all entries, so the model keeps
    a heap of entries and two kinds of lists of addresses.  The 64-bit hash
    function (cfl_hash_64bits, xxHash) is the parameter [cfl_hash_64bits];
    [now] is the result of [time(NULL)], [rnd] the result of [random()].

    A key is passed as its bytes, [key_len] being their number; the library
    keeps a NUL-terminated copy of it, or NULL when the copy cannot be
    allocated, which the code does not check.  An operation that passes such
    a key to [strncmp] or [strcmp], or copies from memory that is not there
    (a freed block, a size larger than the buffer), does not return: its
    result is [None]. *)

From S2P Require Import Prelude.

Module HashTable.

Inductive evict := EVICT_NONE | EVICT_OLDER | EVICT_LESS_USED | EVICT_RANDOM.

(** [void *val]: a pointer of the caller (0 is NULL) or a block the table
    allocated, named by the allocation. *)
Inductive pointer := PExt (p : Z) | PBlk (n : nat).

#[export] Instance pointer_eq_dec : EqDecision pointer.
Proof. solve_decision. Defined.

Record entry := {
  created : Z;
  hits : Z;
  hash : Z;
  key : option bytes;    (* [None] is NULL *)
  key_len : Z;
  val : pointer;
  data : bytes;          (* the contents of the block, when [val] is one *)
  val_size : Z;
  e_table : nat;         (* the chain the entry is linked into *)
}.

Record chain := { count : Z; chains : list nat }.

Record hash_table := {
  evict_mode : evict;
  max_entries : Z;
  total_count : Z;
  cache_ttl : Z;
  case_sensitivity : bool;
  size : Z;
  entries : list nat;
  table : list chain;
  heap : gmap nat entry;
  next : nat;            (* the next address the allocator hands out *)
}.

Section Ops.
Variable cfl_hash_64bits : bytes -> Z.

Definition with_store (ht : hash_table) (tot : Z) (ents : list nat) (tab : list chain)
    (h : gmap nat entry) (nx : nat) : hash_table :=
  {| evict_mode := evict_mode ht; max_entries := max_entries ht; total_count := tot;
     cache_ttl := cache_ttl ht; case_sensitivity := case_sensitivity ht; size := size ht;
     entries := ents; table := tab; heap := h; next := nx |}.

Definition convert_string_to_lowercase (input : bytes) : bytes := map tolower input.

(** [None]: the buffer for the lower-case copy could not be allocated. *)
Definition flb_hash_table_compute_key_hash (k : bytes) (case_sensitivity : bool) (t : tape)
    : option Z * tape :=
  if negb case_sensitivity then
    if 64 - 1 <=? Z.of_nat (length k) then
      let (ok, t) := flb_malloc t in
      if ok then (Some (cfl_hash_64bits (convert_string_to_lowercase k)), t) else (None, t)
    else (Some (cfl_hash_64bits (convert_string_to_lowercase k)), t)
  else (Some (cfl_hash_64bits k), t).

(** [mk_list_del]: unlink a node. *)
Definition mk_list_del (a : nat) (l : list nat) : list nat := filter (λ x : nat, x <> a) l.

Definition flb_hash_table_entry_free (ht : hash_table) (a : nat) : hash_table :=
  match heap ht !! a with
  | None => ht
  | Some e =>
      with_store ht (total_count ht - 1) (mk_list_del a (entries ht))
        (alter (λ c, {| count := count c - 1; chains := mk_list_del a (chains c) |})
           (e_table e) (table ht))
        (delete a (heap ht)) (next ht)
  end.

Definition flb_hash_table_create (evict_mode : evict) (size : Z) (max_entries : Z) (t : tape)
    : option hash_table * tape :=
  if size <=? 0 then (None, t) else
  let (ok, t) := flb_malloc t in
  if negb ok then (None, t) else
  let (ok, t) := flb_malloc t in
  if negb ok then (None, t) else
  (Some {| evict_mode := evict_mode; max_entries := max_entries; total_count := 0;
           cache_ttl := 0; case_sensitivity := true; size := size; entries := [];
           table := replicate (Z.to_nat size) {| count := 0; chains := [] |};
           heap := ∅; next := 0%nat |}, t).

Definition flb_hash_table_create_with_ttl (cache_ttl : Z) (evict_mode : evict) (size : Z)
    (max_entries : Z) (t : tape) : option hash_table * tape :=
  match flb_hash_table_create evict_mode size max_entries t with
  | (None, t) => (None, t)
  | (Some ht, t) =>
      (Some {| HashTable.evict_mode := HashTable.evict_mode ht;
               HashTable.max_entries := HashTable.max_entries ht;
               total_count := total_count ht; HashTable.cache_ttl := cache_ttl;
               case_sensitivity := case_sensitivity ht; HashTable.size := HashTable.size ht;
               entries := entries ht; table := table ht; heap := heap ht;
               next := next ht |}, t)
  end.

Definition flb_hash_table_set_case_sensitivity (ht : hash_table) (status : bool) : hash_table :=
  {| evict_mode := evict_mode ht; max_entries := max_entries ht;
     total_count := total_count ht; cache_ttl := cache_ttl ht; case_sensitivity := status;
     size := size ht; entries := entries ht; table := table ht; heap := heap ht;
     next := next ht |}.

(** The first address of a chain whose entry satisfies [f]; [None] when a
    comparison on the way does not return. *)
Fixpoint chain_find (h : gmap nat entry) (f : entry -> option bool) (l : list nat)
    : option (option nat) :=
  match l with
  | [] => Some None
  | a :: l' => e ← h !! a; b ← f e; if (b : bool) then Some (Some a) else chain_find h f l'
  end.

Definition bucket (ht : hash_table) (hash : Z) : nat := Z.to_nat (hash mod size ht).
Definition chain_at (ht : hash_table) (id : nat) : chain :=
  nth id (table ht) {| count := 0; chains := [] |}.

(** [strncmp] or [strncasecmp], by the sensitivity of the table, on the key
    of an entry, which must be there. *)
Definition key_matches (ht : hash_table) (e : entry) (k : bytes) : option bool :=
  ek ← key e;
  Some (if case_sensitivity ht then strncmp_eq ek k (length k)
        else strncasecmp_eq ek k (length k)).

(** The lengths are compared first. *)
Definition entry_matches (ht : hash_table) (k : bytes) (e : entry) : option bool :=
  if negb (key_len e =? Z.of_nat (length k)) then Some false else key_matches ht e k.

Definition del_ptr_matches (k : bytes) (ptr : pointer) (e : entry) : option bool :=
  ek ← key e; Some (strncmp_eq ek k (length k) && bool_decide (val e = ptr)).

Definition flb_hash_table_del_ptr (ht : hash_table) (k : bytes) (ptr : pointer) (t : tape)
    : option (Z * hash_table * tape) :=
  match flb_hash_table_compute_key_hash k (case_sensitivity ht) t with
  | (None, t) => Some (-1, ht, t)
  | (Some h, t) =>
      found ← chain_find (heap ht) (del_ptr_matches k ptr) (chains (chain_at ht (bucket ht h)));
      Some (match found with
            | None => (-1, ht, t)
            | Some a => (0, flb_hash_table_entry_free ht a, t)
            end)
  end.

(** The entries of every chain are freed; the table itself is then released. *)
Definition flb_hash_table_destroy (ht : hash_table) : hash_table :=
  foldl (λ ht i, foldl flb_hash_table_entry_free ht (chains (chain_at ht i)))
    ht (seq 0 (Z.to_nat (size ht))).

Definition flb_hash_table_evict_random (ht : hash_table) (rnd : Z) : hash_table :=
  let id := rnd mod total_count ht in
  match entries ht !! Z.to_nat id with
  | Some a => flb_hash_table_entry_free ht a
  | None => ht
  end.

Definition entry_hits (ht : hash_table) (a : nat) : Z :=
  match heap ht !! a with Some e => hits e | None => 0 end.

Definition less_used (ht : hash_table) (best : option nat) (a : nat) : option nat :=
  match best with
  | None => Some a
  | Some b => if entry_hits ht a <? entry_hits ht b then Some a else Some b
  end.

Definition flb_hash_table_evict_less_used (ht : hash_table) : hash_table :=
  match foldl (less_used ht) None (entries ht) with
  | Some a => flb_hash_table_entry_free ht a
  | None => ht
  end.

Definition flb_hash_table_evict_older (ht : hash_table) : hash_table :=
  match entries ht with
  | a :: _ => flb_hash_table_entry_free ht a
  | [] => ht
  end.

(** The entry of a key and the id of its bucket; a chain of one entry is not
    iterated. *)
Definition hash_get_entry (ht : hash_table) (k : option bytes) (t : tape)
    : option (option (nat * nat) * tape) :=
  match k with
  | None => Some (None, t)
  | Some k =>
      if Z.of_nat (length k) <=? 0 then Some (None, t) else
      match flb_hash_table_compute_key_hash k (case_sensitivity ht) t with
      | (None, t) => Some (None, t)
      | (Some h, t) =>
          let id := bucket ht h in
          let tb := chain_at ht id in
          if count tb =? 0 then Some (None, t) else
          found ← (if count tb =? 1
                   then chain_find (heap ht) (entry_matches ht k) (take 1 (chains tb))
                   else chain_find (heap ht) (entry_matches ht k) (chains tb));
          Some (match found with Some a => Some (id, a) | None => None end, t)
      end
  end.

(** The bytes a pointer leads to: [mem] for one of the caller that is not
    NULL, a value and its terminator for a block of an entry that is still
    in the heap [h], nothing for a block that has been freed. *)
Definition block_of (h : gmap nat entry) (b a : nat) : option bytes :=
  e ← h !! a;
  if bool_decide (val e = PBlk b) && (0 <? val_size e) then Some (data e ++ [0]) else None.

Definition readable (h : gmap nat entry) (l : list nat) (v : pointer) (mem : bytes) : bytes :=
  match v with
  | PExt p => if p =? 0 then [] else mem
  | PBlk b => default [] (head (omap (block_of h b) l))
  end.

(** A [size_t] stored as a [ssize_t]. *)
Definition ssize (n : Z) : Z := if n <? 2 ^ 63 then n else n - 2 ^ 64.

(** [v] is the new value, [src] the bytes it points to once the previous value
    of the entry has been released, [size] a [size_t].  The result is the
    entry and whether the copy could be allocated, or [None] when [memcpy]
    reads past [src]; [blk] names the new block. *)
Definition entry_set_value (e : entry) (v : pointer) (src : bytes) (size : Z) (now : Z)
    (blk : nat) (t : tape) : option (entry * bool * tape) :=
  if 0 <? size then
    let (ok, t) := flb_malloc t in
    if ok then
      if Z.of_nat (length src) <? size then None else
      Some ({| created := now; hits := hits e; hash := hash e; key := key e;
               key_len := key_len e; val := PBlk blk; data := take (Z.to_nat size) src;
               val_size := ssize size; e_table := e_table e |}, true, t)
    else
      Some ({| created := created e; hits := hits e; hash := hash e; key := key e;
               key_len := key_len e; val := PExt 0; data := []; val_size := val_size e;
               e_table := e_table e |}, false, t)
  else
    Some ({| created := now; hits := hits e; hash := hash e; key := key e;
             key_len := key_len e; val := v; data := []; val_size := -1;
             e_table := e_table e |}, true, t).

Definition evict_if_full (ht : hash_table) (rnd : Z) : hash_table :=
  if (0 <? max_entries ht) && (max_entries ht <=? total_count ht) then
    match evict_mode ht with
    | EVICT_NONE => ht
    | EVICT_OLDER => flb_hash_table_evict_older ht
    | EVICT_LESS_USED => flb_hash_table_evict_less_used ht
    | EVICT_RANDOM => flb_hash_table_evict_random ht rnd
    end
  else ht.

(** [size] is a [ssize_t], converted to [size_t] by the call of
    [entry_set_value]; the key is copied by [flb_strndup], whose failure
    leaves a NULL key. *)
Definition flb_hash_table_add (ht : hash_table) (k : option bytes) (v : pointer) (mem : bytes)
    (size : Z) (now rnd : Z) (t : tape) : option (Z * hash_table * tape) :=
  match k with
  | None => Some (-1, ht, t)
  | Some k =>
      if Z.of_nat (length k) <=? 0 then Some (-1, ht, t) else
      let ht := evict_if_full ht rnd in
      '(found, t) ← hash_get_entry ht (Some k) t;
      match found with
      | Some (id, a) =>
          e ← heap ht !! a;
          '(e', ok, t) ← entry_set_value e v (readable (delete a (heap ht)) (entries ht) v mem)
                           (u64 size) now (next ht) t;
          let ht' := with_store ht (total_count ht) (entries ht) (table ht)
                       (<[a := e']> (heap ht)) (S (next ht)) in
          Some (if (ok : bool) then Z.of_nat id else -1, ht', t)
      | None =>
          match flb_hash_table_compute_key_hash k (case_sensitivity ht) t with
          | (None, t) => Some (-1, ht, t)
          | (Some h, t) =>
              let id := bucket ht h in
              let (ok, t) := flb_malloc t in
              if negb ok then Some (-1, ht, t) else
              let (dup, t) := flb_malloc t in
              let e := {| created := now; hits := 0; hash := h;
                          key := if dup then Some k else None;
                          key_len := Z.of_nat (length k); val := PExt 0; data := [];
                          val_size := 0; e_table := id |} in
              '(e', ok, t) ← entry_set_value e v (readable (heap ht) (entries ht) v mem)
                               (u64 size) now (next ht) t;
              if negb ok then Some (-1, ht, t) else
              let a := S (next ht) in
              Some (Z.of_nat id,
                with_store ht (total_count ht + 1) (entries ht ++ [a])
                  (alter (λ c, {| count := count c + 1; chains := chains c ++ [a] |})
                     id (table ht))
                  (<[a := e']> (heap ht)) (S (S (next ht))), t)
          end
      end
  end.

Definition add_hit (e : entry) : entry :=
  {| created := created e; hits := u64 (hits e + 1); hash := hash e; key := key e;
     key_len := key_len e; val := val e; data := data e; val_size := val_size e;
     e_table := e_table e |}.

Definition update_entry (ht : hash_table) (a : nat) (e : entry) : hash_table :=
  with_store ht (total_count ht) (entries ht) (table ht) (<[a := e]> (heap ht)) (next ht).

(** The id, the value, and the table with the hit recorded. *)
Definition flb_hash_table_get (ht : hash_table) (k : option bytes) (now : Z) (t : tape)
    : option (option (nat * entry) * hash_table * tape) :=
  '(found, t) ← hash_get_entry ht k t;
  match found with
  | None => Some (None, ht, t)
  | Some (id, a) =>
      e ← heap ht !! a;
      Some (if (0 <? cache_ttl ht) && (created e + cache_ttl ht <? now)
            then (None, flb_hash_table_entry_free ht a, t)
            else (Some (id, e), update_entry ht a (add_hit e), t))
  end.

Definition flb_hash_table_exists (ht : hash_table) (h : Z) : option bool :=
  found ← chain_find (heap ht) (λ e, Some (hash e =? h)) (chains (chain_at ht (bucket ht h)));
  Some (match found with Some _ => true | None => false end).

(** [id] is an [int] below the size; a single entry is returned whatever
    its key. *)
Definition flb_hash_table_get_by_id (ht : hash_table) (id : nat) (k : bytes)
    : option (option entry) :=
  if size ht <=? Z.of_nat id then Some None else
  let tb := chain_at ht id in
  if count tb =? 0 then Some None else
  found ← (if count tb =? 1 then Some (head (chains tb))
           else chain_find (heap ht) (λ e, ek ← key e; Some (strncmp_eq ek k (S (length k)))) (chains tb));
  match found with
  | None => Some None
  | Some a => e ← heap ht !! a; Some (Some e)
  end.

Definition flb_hash_table_get_ptr (ht : hash_table) (k : option bytes) (t : tape)
    : option (pointer * hash_table * tape) :=
  '(found, t) ← hash_get_entry ht k t;
  match found with
  | None => Some (PExt 0, ht, t)
  | Some (_, a) =>
      e ← heap ht !! a;
      Some (val e, update_entry ht a (add_hit e), t)
  end.

(** The key is a NUL-terminated string, so [len] is its length. *)
Definition flb_hash_table_del (ht : hash_table) (k : option bytes) (t : tape)
    : option (Z * hash_table * tape) :=
  match k with
  | None => Some (-1, ht, t)
  | Some k =>
      if Z.of_nat (length k) =? 0 then Some (-1, ht, t) else
      match flb_hash_table_compute_key_hash k (case_sensitivity ht) t with
      | (None, t) => Some (-1, ht, t)
      | (Some h, t) =>
          let tb := chain_at ht (bucket ht h) in
          found ← (if count tb =? 1
                   then chain_find (heap ht) (entry_matches ht k) (take 1 (chains tb))
                   else chain_find (heap ht) (entry_matches ht k) (chains tb));
          Some (match found with
                | None => (-1, ht, t)
                | Some a => (0, flb_hash_table_entry_free ht a, t)
                end)
      end
  end.

(** ** The abstract table: a finite map from keys to values *)

(** Keys are compared as they are or in lower case. *)
Definition canon (ht : hash_table) (k : bytes) : bytes :=
  if case_sensitivity ht then k else map tolower k.

(** What a client stored: a copy of bytes, or a pointer of its own. *)
Inductive hval := HCopy (b : bytes) | HRef (p : pointer).

Definition value_of (e : entry) : hval :=
  if 0 <? val_size e then HCopy (data e) else HRef (val e).

Definition item (ht : hash_table) (a : nat) : option (bytes * hval) :=
  e ← heap ht !! a; k ← key e; Some (canon ht k, value_of e).

Definition contents (ht : hash_table) : gmap bytes hval :=
  list_to_map (omap (item ht) (entries ht)).

(** ** The invariant *)

Definition in_bucket (h : gmap nat entry) (i a : nat) : Prop :=
  match h !! a with Some e => e_table e = i | None => False end.

#[local] Instance in_bucket_dec h i a : Decision (in_bucket h i a).
Proof. unfold in_bucket. destruct (h !! a); apply _. Defined.

(** The copy of a key is what its length and hash were computed from, unless
    it could not be allocated. *)
Record entry_ok (ht : hash_table) (e : entry) : Prop := {
  ok_key : forall k, key e = Some k ->
    k <> [] /\ key_len e = Z.of_nat (length k) /\ hash e = cfl_hash_64bits (canon ht k);
  ok_table : e_table e = bucket ht (hash e);
}.

Record wf (ht : hash_table) : Prop := {
  wf_size : 0 < size ht;
  wf_len : length (table ht) = Z.to_nat (size ht);
  wf_nodup : NoDup (entries ht);
  wf_dom : forall a, a ∈ entries ht <-> is_Some (heap ht !! a);
  wf_fresh : forall a, is_Some (heap ht !! a) -> (a <= next ht)%nat;
  wf_entry : forall a e, heap ht !! a = Some e -> entry_ok ht e;
  wf_chain : forall i c, table ht !! i = Some c ->
    chains c = filter (in_bucket (heap ht) i) (entries ht) /\
    count c = Z.of_nat (length (chains c));
  wf_total : total_count ht = Z.of_nat (length (entries ht));
  wf_keys : forall a b ea eb ka kb, heap ht !! a = Some ea -> heap ht !! b = Some eb ->
    key ea = Some ka -> key eb = Some kb -> canon ht ka = canon ht kb -> a = b;
}.

(** Every key could be copied, and none has a NUL byte. *)
Definition plain (ht : hash_table) : Prop :=
  forall a e, heap ht !! a = Some e -> exists k, key e = Some k /\ no_nul k.

(** *** Chains *)

Lemma chain_find_Some h f l a :
  chain_find h f l = Some (Some a) -> a ∈ l /\ exists e, h !! a = Some e /\ f e = Some true.
Proof.
  induction l as [|b l IH]; simpl; [done|].
  destruct (h !! b) as [e|] eqn:E; [|done]. simpl.
  destruct (f e) as [[]|] eqn:Ef; simpl; intros H; [|apply IH in H as [Hin Ha]|done].
  - simplify_eq. split; [apply list_elem_of_here|eauto].
  - split; [by apply list_elem_of_further|done].
Qed.

Lemma chain_find_None h f l a :
  chain_find h f l = Some None -> a ∈ l -> exists e, h !! a = Some e /\ f e = Some false.
Proof.
  induction l as [|b l IH]; simpl; [by intros _ ?%not_elem_of_nil|].
  destruct (h !! b) as [e|] eqn:E; [|done]. simpl.
  destruct (f e) as [[]|] eqn:Ef; simpl; [done| |done].
  rewrite elem_of_cons. intros H [->|Hin]; eauto.
Qed.

Lemma chain_find_total h f l :
  (forall a, a ∈ l -> exists e b, h !! a = Some e /\ f e = Some b) ->
  exists r, chain_find h f l = Some r.
Proof.
  induction l as [|a l IH]; intros H; simpl; [eauto|].
  destruct (H a) as (e & b & -> & Hb); [apply list_elem_of_here|]. simpl. rewrite Hb. simpl.
  destruct b; [eauto|]. apply IH. intros x Hx. by apply H, list_elem_of_further.
Qed.

(** The special case for chains of length 1 is the general search. *)
Lemma chain_find_single (h : gmap nat entry) f c :
  count c = Z.of_nat (length (chains c)) ->
  (if count c =? 1 then chain_find h f (take 1 (chains c)) else chain_find h f (chains c))
  = chain_find h f (chains c).
Proof.
  intros Hc. zcase; [|done]. by destruct (chains c) as [|a [|b l]]; simpl in *; try lia.
Qed.

Lemma bucket_lt ht h : 0 < size ht -> (bucket ht h < Z.to_nat (size ht))%nat.
Proof. intros Hs. unfold bucket. pose proof (Z.mod_pos_bound h (size ht)). lia. Qed.

Lemma chain_at_lookup ht id : wf ht -> (id < Z.to_nat (size ht))%nat ->
  table ht !! id = Some (chain_at ht id).
Proof.
  intros Hw Hi. unfold chain_at.
  destruct (lookup_lt_is_Some_2 (table ht) id) as [c Hc]; [rewrite wf_len by done; done|].
  by rewrite (nth_lookup_Some _ _ _ _ Hc).
Qed.

Lemma chain_elem ht id a : wf ht -> (id < Z.to_nat (size ht))%nat ->
  a ∈ chains (chain_at ht id) <-> exists e, heap ht !! a = Some e /\ e_table e = id.
Proof.
  intros Hw Hi. destruct (wf_chain _ Hw _ _ (chain_at_lookup _ _ Hw Hi)) as [-> _].
  rewrite list_elem_of_filter. unfold in_bucket. split.
  - intros [H _]. destruct (heap ht !! a); [eauto|done].
  - intros (e & He & Ht). rewrite He. split; [done|]. apply wf_dom; eauto.
Qed.

Lemma chain_count ht id : wf ht -> (id < Z.to_nat (size ht))%nat ->
  count (chain_at ht id) = Z.of_nat (length (chains (chain_at ht id))).
Proof. intros Hw Hi. apply (wf_chain _ Hw _ _ (chain_at_lookup _ _ Hw Hi)). Qed.

(** *** Keys *)

Lemma canon_length ht k : length (canon ht k) = length k.
Proof. unfold canon. destruct (case_sensitivity ht); [done|]. apply length_map. Qed.

Lemma strncmp_eq_refl k n : strncmp_eq k k n = true.
Proof.
  revert k. induction n as [|n IH]; intros k; simpl; [done|].
  rewrite Z.eqb_refl. by destruct (cget k 0 =? 0).
Qed.

(** An entry of the key is recognised; an entry that is recognised has the
    key when its own has no NUL byte. *)
Lemma matches_complete ht e k ek :
  entry_ok ht e -> key e = Some ek -> canon ht ek = canon ht k -> entry_matches ht k e = Some true.
Proof.
  intros [Hok _] Hek Hc. destruct (Hok _ Hek) as (_ & Hl & _).
  unfold entry_matches, key_matches. rewrite Hek, Hl. simpl.
  assert (length ek = length k) as -> by (by rewrite <- (canon_length ht ek), Hc, canon_length).
  rewrite Z.eqb_refl. simpl. f_equal. unfold canon in Hc.
  destruct (case_sensitivity ht); [rewrite Hc|unfold strncasecmp_eq; rewrite Hc];
    apply strncmp_eq_refl.
Qed.

Lemma matches_sound ht e k ek :
  entry_ok ht e -> key e = Some ek -> no_nul ek -> entry_matches ht k e = Some true ->
  canon ht ek = canon ht k.
Proof.
  intros [Hok _] Hek Hn. destruct (Hok _ Hek) as (_ & Hl & _).
  unfold entry_matches, key_matches, canon. rewrite Hek, Hl. simpl.
  destruct (Z.eqb_spec (Z.of_nat (length ek)) (Z.of_nat (length k))) as [Heq|]; simpl; [|done].
  apply Nat2Z.inj in Heq. intros [= H]. destruct (case_sensitivity ht).
  - by apply strncmp_eq_spec in H.
  - by apply strncasecmp_eq_spec in H.
Qed.

Lemma matches_total ht e k : is_Some (key e) -> exists b, entry_matches ht k e = Some b.
Proof.
  intros [ek Hek]. unfold entry_matches, key_matches. rewrite Hek. simpl.
  destruct (negb _); eauto.
Qed.

(** When computing a hash allocates nothing, or allocations succeed. *)
Definition hash_total (cs : bool) (k : bytes) (t : tape) : Prop :=
  cs = true \/ Z.of_nat (length k) < 63 \/ t = [].

Lemma compute_hash_spec k cs t r t' :
  flb_hash_table_compute_key_hash k cs t = (r, t') ->
  (t = [] -> t' = []) /\ (hash_total cs k t -> r <> None) /\
  (forall h, r = Some h -> h = cfl_hash_64bits (if cs then k else map tolower k)).
Proof.
  unfold flb_hash_table_compute_key_hash, convert_string_to_lowercase, hash_total.
  destruct cs; simpl; [intros [= <- <-]; naive_solver|].
  destruct (Z.leb_spec (64 - 1) (Z.of_nat (length k))) as [Hle|Hlt];
    [|intros [= <- <-]; naive_solver].
  destruct t as [|[] t]; simpl; intros H; injection H as <- <-; split_and!; try naive_solver.
  intros [|[|]]; [done|lia|done].
Qed.

(** The address a key is found at, by the reference search. *)
Definition holds (ht : hash_table) (k : bytes) (a : nat) : Prop :=
  exists e ek, heap ht !! a = Some e /\ key e = Some ek /\ canon ht ek = canon ht k.

Lemma holds_bucket ht k a : wf ht -> holds ht k a ->
  a ∈ chains (chain_at ht (bucket ht (cfl_hash_64bits (canon ht k)))).
Proof.
  intros Hw (e & ek & He & Hek & Hk). apply chain_elem; [done|apply bucket_lt, wf_size, Hw|].
  exists e. split; [done|]. destruct (wf_entry _ Hw _ _ He) as [Hok Ht].
  destruct (Hok _ Hek) as (_ & _ & Hh). by rewrite Ht, Hh, Hk.
Qed.

(** Searching the chain of a key finds the entry of the key. *)
Lemma bucket_search ht k r : wf ht ->
  chain_find (heap ht) (entry_matches ht k)
    (chains (chain_at ht (bucket ht (cfl_hash_64bits (canon ht k))))) = Some r ->
  match r with
  | Some a => is_Some (heap ht !! a) /\ (plain ht -> holds ht k a)
  | None => forall a, ~ holds ht k a
  end.
Proof.
  intros Hw E. destruct r as [a|].
  - apply chain_find_Some in E as (_ & e & He & Hm). split; [eauto|]. intros Hp.
    destruct (Hp _ _ He) as (ek & Hek & Hn). exists e, ek. split_and!; [done..|].
    apply (matches_sound ht e); [by eapply wf_entry|done..].
  - intros a Ha. destruct (chain_find_None _ _ _ a E) as (e & He & Hm);
      [by apply holds_bucket|].
    destruct Ha as (e' & ek & He' & Hek & Hk). rewrite He in He'. injection He' as <-.
    rewrite (matches_complete ht e k ek) in Hm; [done|by eapply wf_entry|done..].
Qed.

Lemma bucket_search_total ht k id : wf ht -> plain ht -> (id < Z.to_nat (size ht))%nat ->
  exists r, chain_find (heap ht) (entry_matches ht k) (chains (chain_at ht id)) = Some r.
Proof.
  intros Hw Hp Hid. apply chain_find_total. intros a (e & He & _)%chain_elem; [|done..].
  destruct (Hp _ _ He) as (ek & Hek & _). destruct (matches_total ht e k); eauto.
Qed.

Lemma get_entry_spec ht k t r t' :
  wf ht -> k <> [] ->
  hash_get_entry ht (Some k) t = Some (r, t') ->
  (t = [] -> t' = []) /\
  match r with
  | Some (id, a) => is_Some (heap ht !! a) /\ (plain ht -> holds ht k a) /\
                    id = bucket ht (cfl_hash_64bits (canon ht k))
  | None => hash_total (case_sensitivity ht) k t -> forall a, ~ holds ht k a
  end.
Proof.
  intros Hw Hk. unfold hash_get_entry.
  destruct (Z.leb_spec (Z.of_nat (length k)) 0) as [H0|_]; [destruct k; simpl in *; [done|lia]|].
  destruct (flb_hash_table_compute_key_hash k (case_sensitivity ht) t) as [[h|] t1] eqn:Eh.
  2:{ intros [= <- <-]. apply compute_hash_spec in Eh as (H1 & H2 & _). split; naive_solver. }
  apply compute_hash_spec in Eh as (H1 & _ & H2). specialize (H2 h eq_refl).
  change (h = cfl_hash_64bits (canon ht k)) in H2. subst h.
  set (id := bucket ht _). pose proof (bucket_lt ht (cfl_hash_64bits (canon ht k)) (wf_size _ Hw)) as Hid.
  pose proof (chain_count ht id Hw Hid) as Hc. rewrite (chain_find_single _ _ _ Hc).
  destruct (Z.eqb_spec (count (chain_at ht id)) 0) as [Hz|_].
  - intros [= <- <-]. split; [done|]. intros _ a Ha%(holds_bucket _ _ _ Hw). fold id in Ha.
    destruct (chains (chain_at ht id)); [by apply not_elem_of_nil in Ha|simpl in *; lia].
  - destruct (chain_find _ _ _) as [f|] eqn:E; [|done]. simpl. intros [= <- <-].
    split; [done|]. apply bucket_search in E; [|done]. destruct f; [tauto|done].
Qed.

Lemma get_entry_total ht k t : wf ht -> plain ht ->
  exists r, hash_get_entry ht (Some k) t = Some r.
Proof.
  intros Hw Hp. unfold hash_get_entry. destruct (_ <=? _); [eauto|].
  destruct (flb_hash_table_compute_key_hash _ _ _) as [[h|] t1]; [|eauto].
  pose proof (bucket_lt ht h (wf_size _ Hw)) as Hid. destruct (_ =? 0); [eauto|].
  rewrite (chain_find_single _ _ _ (chain_count ht _ Hw Hid)).
  destruct (bucket_search_total ht k (bucket ht h)) as [r ->]; simpl; eauto.
Qed.

(** *** Contents *)

Lemma contents_lookup ht c v : wf ht ->
  contents ht !! c = Some v <->
  exists a e k, heap ht !! a = Some e /\ key e = Some k /\ canon ht k = c /\ value_of e = v.
Proof.
  intros Hw. unfold contents.
  assert (Hin : forall c v, (c, v) ∈ omap (item ht) (entries ht) <->
    exists a e k, heap ht !! a = Some e /\ key e = Some k /\ canon ht k = c /\ value_of e = v).
  { intros c' v'. rewrite list_elem_of_omap. unfold item. split.
    - intros (a & _ & Ha). destruct (heap ht !! a) as [e|] eqn:E; simplify_eq/=.
      destruct (key e) as [k|] eqn:Ek; simplify_eq/=. eauto 8.
    - intros (a & e & k & He & Hk & <- & <-). exists a. rewrite He. simpl. rewrite Hk.
      split; [|done]. apply wf_dom; eauto. }
  rewrite <- Hin. split.
  - apply elem_of_list_to_map_2.
  - intros H. apply elem_of_list_to_map_1'; [|done]. intros v' Hv'.
    apply Hin in H as (a & e & k & He & Hk & Hc & <-).
    apply Hin in Hv' as (b & e' & k' & He' & Hk' & Hc' & <-).
    assert (a = b) as -> by (eapply wf_keys; eauto; congruence). by simplify_eq.
Qed.

Lemma contents_None ht k : wf ht ->
  (forall a, ~ holds ht k a) -> contents ht !! canon ht k = None.
Proof.
  intros Hw H. apply eq_None_not_Some. intros [v Hv].
  apply contents_lookup in Hv as (a & e & ek & He & Hek & Hc & _); [|done].
  apply (H a). by exists e, ek.
Qed.

Lemma contents_Some ht k a e ek : wf ht ->
  heap ht !! a = Some e -> key e = Some ek -> canon ht ek = canon ht k ->
  contents ht !! canon ht k = Some (value_of e).
Proof. intros Hw He Hek Hk. apply contents_lookup; eauto 8. Qed.

(** Tables whose configuration is the same read keys the same way. *)
Lemma canon_with_store ht tot ents tab h nx k :
  canon (with_store ht tot ents tab h nx) k = canon ht k.
Proof. done. Qed.

Lemma bucket_with_store ht tot ents tab h nx x :
  bucket (with_store ht tot ents tab h nx) x = bucket ht x.
Proof. done. Qed.

(** *** Freeing an entry *)

Lemma chains_del h i a (l : list nat) :
  filter (in_bucket (delete a h) i) (mk_list_del a l) =
  mk_list_del a (filter (in_bucket h i) l).
Proof.
  unfold mk_list_del. rewrite !list_filter_filter. apply filter_ext_in.
  intros x _. unfold in_bucket. destruct (decide (x = a)) as [->|Hx].
  - tauto.
  - rewrite lookup_delete_ne by done. tauto.
Qed.

Lemma entry_free_wf ht a : wf ht -> wf (flb_hash_table_entry_free ht a).
Proof.
  intros Hw. unfold flb_hash_table_entry_free.
  destruct (heap ht !! a) as [e|] eqn:He; [|done].
  assert (Ha : a ∈ entries ht) by (apply wf_dom; eauto).
  split; simpl.
  - apply Hw.
  - rewrite length_alter. apply Hw.
  - apply NoDup_filter, Hw.
  - intros x. unfold mk_list_del. rewrite list_elem_of_filter, (wf_dom _ Hw).
    destruct (decide (x = a)) as [->|]; rewrite ?lookup_delete_eq, ?lookup_delete_ne by done.
    + split; [tauto|]. by intros [? ?].
    + tauto.
  - intros x [e' Hx]. apply lookup_delete_Some in Hx as [_ Hx]. apply (wf_fresh _ Hw). eauto.
  - intros x e' Hx. apply lookup_delete_Some in Hx as [_ Hx].
    destruct (wf_entry _ Hw _ _ Hx). split; done.
  - intros i c Hc. rewrite chains_del. destruct (decide (i = e_table e)) as [->|Hi].
    + rewrite list_lookup_alter_eq in Hc.
      destruct (table ht !! e_table e) as [c0|] eqn:Hc0; simplify_eq/=.
      destruct (wf_chain _ Hw _ _ Hc0) as [-> Hn]. split; [done|]. rewrite Hn.
      rewrite (filter_ne_length a (filter _ (entries ht))).
      * unfold mk_list_del. lia.
      * apply NoDup_filter, Hw.
      * apply list_elem_of_filter. unfold in_bucket. by rewrite He.
    + rewrite list_lookup_alter_ne in Hc by done.
      destruct (wf_chain _ Hw _ _ Hc) as [Hch Hn]. split; [|done]. rewrite Hch.
      symmetry. apply filter_ne_notin. rewrite list_elem_of_filter. unfold in_bucket.
      rewrite He. intros [? _]. congruence.
  - rewrite (wf_total _ Hw), (filter_ne_length a (entries ht)); [|apply Hw|done].
    unfold mk_list_del. lia.
  - intros x y ex ey kx ky Hx Hy. apply lookup_delete_Some in Hx as [_ Hx], Hy as [_ Hy].
    by apply (wf_keys _ Hw).
Qed.

Lemma entry_free_heap ht a e : heap ht !! a = Some e ->
  heap (flb_hash_table_entry_free ht a) = delete a (heap ht).
Proof. intros He. unfold flb_hash_table_entry_free. by rewrite He. Qed.

Lemma entry_free_canon ht a k : canon (flb_hash_table_entry_free ht a) k = canon ht k.
Proof. unfold flb_hash_table_entry_free. by destruct (heap ht !! a). Qed.

Lemma entry_free_plain ht a : plain ht -> plain (flb_hash_table_entry_free ht a).
Proof.
  intros Hp x e. unfold flb_hash_table_entry_free.
  destruct (heap ht !! a) as [e0|]; simpl; [|apply Hp].
  intros Hx. apply lookup_delete_Some in Hx as [_ Hx]. by eapply Hp.
Qed.

(** What is left when an entry goes: everything but its key. *)
Definition without (ht : hash_table) (e : entry) : gmap bytes hval :=
  match key e with Some k => delete (canon ht k) (contents ht) | None => contents ht end.

Lemma entry_free_contents ht a e : wf ht -> heap ht !! a = Some e ->
  contents (flb_hash_table_entry_free ht a) = without ht e.
Proof.
  intros Hw He. pose proof (entry_free_wf ht a Hw) as Hw'. unfold without.
  assert (Hlook : forall c v, contents (flb_hash_table_entry_free ht a) !! c = Some v <->
    exists x ex kx, x <> a /\ heap ht !! x = Some ex /\ key ex = Some kx /\
      canon ht kx = c /\ value_of ex = v).
  { intros c v. rewrite contents_lookup by done. rewrite (entry_free_heap ht a e He).
    setoid_rewrite entry_free_canon. setoid_rewrite lookup_delete_Some. naive_solver. }
  apply map_eq. intros c. apply option_eq. intros v. rewrite Hlook.
  destruct (key e) as [k|] eqn:Hk.
  - rewrite lookup_delete_Some, contents_lookup by done. split.
    + intros (x & ex & kx & Hne & Hx & Hkx & Hc & Hv). split; [|eauto 8].
      intros <-. apply Hne. by eapply (wf_keys _ Hw).
    + intros (Hne & x & ex & kx & Hx & Hkx & Hc & Hv). exists x, ex, kx.
      split_and!; [|done..]. intros ->. naive_solver.
  - rewrite contents_lookup by done. split; [naive_solver|].
    intros (x & ex & kx & Hx & Hkx & Hc & Hv). exists x, ex, kx.
    split_and!; [|done..]. intros ->. naive_solver.
Qed.

Lemma entry_free_key ht a e ek k : wf ht -> heap ht !! a = Some e ->
  key e = Some ek -> canon ht ek = canon ht k ->
  contents (flb_hash_table_entry_free ht a) = delete (canon ht k) (contents ht).
Proof.
  intros Hw He Hek Hk. rewrite (entry_free_contents ht a e) by done. unfold without.
  by rewrite Hek, Hk.
Qed.

(** *** Storing a value in an existing entry *)

Lemma update_wf ht a e e' nx :
  wf ht -> heap ht !! a = Some e -> (next ht <= nx)%nat ->
  key e' = key e -> key_len e' = key_len e -> hash e' = hash e -> e_table e' = e_table e ->
  wf (with_store ht (total_count ht) (entries ht) (table ht) (<[a := e']> (heap ht)) nx).
Proof.
  intros Hw He Hnx Hk Hl Hh Ht. split; simpl; try apply Hw.
  - intros x. rewrite (wf_dom _ Hw), lookup_insert_is_Some.
    destruct (decide (a = x)) as [->|]; [|tauto]. split; [tauto|]. rewrite He. eauto.
  - intros x. rewrite lookup_insert_is_Some. intros [<-|[_ Hx]].
    + pose proof (wf_fresh _ Hw a ltac:(eauto)). lia.
    + pose proof (wf_fresh _ Hw x Hx). lia.
  - intros x ex Hx. apply lookup_insert_Some in Hx as [[<- <-]|[_ Hx]].
    + destruct (wf_entry _ Hw _ _ He). split; rewrite ?Hk, ?Hl, ?Hh, ?Ht; done.
    + destruct (wf_entry _ Hw _ _ Hx). split; done.
  - intros i c Hc. destruct (wf_chain _ Hw _ _ Hc) as [-> Hn]. split; [|done].
    apply filter_ext_in. intros x _. unfold in_bucket.
    destruct (decide (a = x)) as [->|]; rewrite ?lookup_insert_eq, ?lookup_insert_ne by done; [|done].
    rewrite He, Ht. done.
  - intros x y ex ey kx ky Hx Hy Hekx Heky Hxy. rewrite !canon_with_store in Hxy.
    assert (Hrd : forall z ez, <[a:=e']> (heap ht) !! z = Some ez ->
      exists ez', heap ht !! z = Some ez' /\ key ez' = key ez).
    { intros z ez Hz. apply lookup_insert_Some in Hz as [[<- <-]|[_ Hz]]; eauto. }
    destruct (Hrd _ _ Hx) as (ex' & Hx' & Hkx), (Hrd _ _ Hy) as (ey' & Hy' & Hky).
    eapply (wf_keys _ Hw x y ex' ey' kx ky); congruence.
Qed.

Lemma update_plain ht a e e' nx :
  plain ht -> heap ht !! a = Some e -> key e' = key e ->
  plain (with_store ht (total_count ht) (entries ht) (table ht) (<[a := e']> (heap ht)) nx).
Proof.
  intros Hp He Hk x ex Hx. simpl in Hx.
  apply lookup_insert_Some in Hx as [[<- <-]|[_ Hx]]; [rewrite Hk|]; by eapply Hp.
Qed.

Lemma update_contents ht a e e' nx k :
  wf ht -> heap ht !! a = Some e -> (next ht <= nx)%nat ->
  key e' = key e -> key_len e' = key_len e -> hash e' = hash e -> e_table e' = e_table e ->
  key e = Some k ->
  contents (with_store ht (total_count ht) (entries ht) (table ht) (<[a := e']> (heap ht)) nx)
  = <[canon ht k := value_of e']> (contents ht).
Proof.
  intros Hw He Hnx Hk Hl Hh Ht Hek.
  pose proof (update_wf ht a e e' nx Hw He Hnx Hk Hl Hh Ht) as Hw'.
  apply map_eq. intros c. apply option_eq. intros v.
  rewrite contents_lookup, lookup_insert_Some, contents_lookup by done. simpl. split.
  - intros (x & ex & kx & Hx & Hkx & Hc & Hv). rewrite canon_with_store in Hc.
    apply lookup_insert_Some in Hx as [[<- <-]|[Hne Hx]].
    + left. rewrite Hk in Hkx. naive_solver.
    + right. split; [|eauto 8]. intros <-. apply Hne. by eapply (wf_keys _ Hw a x e ex).
  - intros [[<- <-]|(Hne & x & ex & kx & Hx & Hkx & Hc & Hv)].
    + exists a, e', k. rewrite lookup_insert_eq, canon_with_store, Hk. done.
    + exists x, ex, kx. rewrite canon_with_store. split_and!; [|done..].
      rewrite lookup_insert_ne; [done|]. intros <-. naive_solver.
Qed.

(** An entry that keeps its key and its value leaves the contents alone,
    also when it has no key. *)
Lemma update_same ht a e e' nx :
  heap ht !! a = Some e -> key e' = key e -> value_of e' = value_of e ->
  contents (with_store ht (total_count ht) (entries ht) (table ht) (<[a := e']> (heap ht)) nx)
  = contents ht.
Proof.
  intros He Hk Hv. unfold contents. simpl. f_equal. apply list_omap_ext.
  apply Forall2_same_length_lookup. split; [done|].
  intros i x y Hx Hy. rewrite Hx in Hy. injection Hy as <-.
  unfold item. simpl. destruct (decide (x = a)) as [->|Hne].
  - by rewrite lookup_insert_eq, He; simpl; rewrite Hk, Hv.
  - by rewrite lookup_insert_ne by done.
Qed.

(** *** Linking a new entry *)

Definition link_entry (ht : hash_table) (a id : nat) (e : entry) (nx : nat) : hash_table :=
  with_store ht (total_count ht + 1) (entries ht ++ [a])
    (alter (λ c, {| count := count c + 1; chains := chains c ++ [a] |}) id (table ht))
    (<[a := e]> (heap ht)) nx.

Lemma fresh_not_in ht a : wf ht -> (next ht < a)%nat -> heap ht !! a = None /\ a ∉ entries ht.
Proof.
  intros Hw Ha. assert (Hn : heap ht !! a = None).
  { apply eq_None_not_Some. intros H. pose proof (wf_fresh _ Hw a H). lia. }
  split; [done|]. rewrite (wf_dom _ Hw), Hn. by intros [? ?].
Qed.

Lemma link_wf ht a e nx :
  wf ht -> (next ht < a <= nx)%nat -> entry_ok ht e ->
  (forall k, key e = Some k -> forall b, ~ holds ht k b) ->
  wf (link_entry ht a (e_table e) e nx).
Proof.
  intros Hw Ha Hok Hnew. destruct (fresh_not_in ht a Hw ltac:(lia)) as [Hn Hni].
  unfold link_entry. split; simpl; try apply Hw.
  - rewrite length_alter. apply Hw.
  - apply NoDup_app. split_and!; [apply Hw| |apply NoDup_singleton].
    intros x Hx. rewrite list_elem_of_singleton. by intros ->.
  - intros x. rewrite elem_of_app, list_elem_of_singleton, lookup_insert_is_Some, (wf_dom _ Hw).
    destruct (decide (a = x)) as [->|]; [tauto|]. split; [intros [?|?]; [tauto|congruence]|tauto].
  - intros x. rewrite lookup_insert_is_Some. intros [<-|[_ Hx]]; [lia|].
    pose proof (wf_fresh _ Hw x Hx). lia.
  - intros x ex Hx. apply lookup_insert_Some in Hx as [[<- <-]|[_ Hx]].
    + destruct Hok. by split.
    + destruct (wf_entry _ Hw _ _ Hx). by split.
  - intros i c Hc. rewrite filter_app.
    assert (Hold : filter (in_bucket (<[a:=e]> (heap ht)) i) (entries ht) =
                   filter (in_bucket (heap ht) i) (entries ht)).
    { apply filter_ext_in. intros x Hx. unfold in_bucket.
      rewrite lookup_insert_ne; [done|]. by intros ->. }
    rewrite Hold. destruct (decide (i = e_table e)) as [->|Hi].
    + rewrite list_lookup_alter_eq in Hc.
      destruct (table ht !! e_table e) as [c0|] eqn:Hc0; simplify_eq/=.
      destruct (wf_chain _ Hw _ _ Hc0) as [-> Hcount]. rewrite filter_cons_True.
      2:{ unfold in_bucket. by rewrite lookup_insert_eq. }
      split; [done|]. rewrite Hcount, length_app. simpl. lia.
    + rewrite list_lookup_alter_ne in Hc by done.
      destruct (wf_chain _ Hw _ _ Hc) as [-> Hcount]. rewrite filter_cons_False.
      2:{ unfold in_bucket. rewrite lookup_insert_eq. congruence. }
      by rewrite filter_nil, app_nil_r.
  - rewrite (wf_total _ Hw), length_app. simpl. lia.
  - intros x y ex ey kx ky Hx Hy Hkx Hky Hxy. rewrite !canon_with_store in Hxy.
    apply lookup_insert_Some in Hx as [[<- <-]|[_ Hx]];
      apply lookup_insert_Some in Hy as [[<- <-]|[_ Hy]]; [done|..].
    + exfalso. apply (Hnew kx Hkx y). by exists ey, ky.
    + exfalso. apply (Hnew ky Hky x). by exists ex, kx.
    + by eapply (wf_keys _ Hw).
Qed.

Lemma link_plain ht a id e nx k :
  plain ht -> key e = Some k -> no_nul k -> plain (link_entry ht a id e nx).
Proof.
  intros Hp Hk Hn x ex Hx. simpl in Hx.
  apply lookup_insert_Some in Hx as [[<- <-]|[_ Hx]]; [eauto|by eapply Hp].
Qed.

Lemma link_contents ht a e nx k :
  wf ht -> (next ht < a <= nx)%nat -> entry_ok ht e -> key e = Some k ->
  (forall b, ~ holds ht k b) ->
  contents (link_entry ht a (e_table e) e nx) = <[canon ht k := value_of e]> (contents ht).
Proof.
  intros Hw Ha Hok Hk Hnew.
  assert (Hw' : wf (link_entry ht a (e_table e) e nx)).
  { apply link_wf; [done..|]. intros k' Hk'. by simplify_eq. }
  destruct (fresh_not_in ht a Hw ltac:(lia)) as [Hn _].
  apply map_eq. intros c. apply option_eq. intros v.
  rewrite contents_lookup, lookup_insert_Some, contents_lookup by done.
  unfold link_entry. simpl. split.
  - intros (x & ex & kx & Hx & Hkx & Hc & Hv). rewrite canon_with_store in Hc.
    apply lookup_insert_Some in Hx as [[<- <-]|[Hne Hx]]; [left; naive_solver|].
    right. split; [|eauto 8]. intros <-. apply (Hnew x). by exists ex, kx.
  - intros [[<- <-]|(Hne & x & ex & kx & Hx & Hkx & Hc & Hv)].
    + exists a, e, k. by rewrite lookup_insert_eq.
    + exists x, ex, kx. rewrite canon_with_store. split_and!; [|done..].
      rewrite lookup_insert_ne; [done|]. intros <-. congruence.
Qed.

(** *** Eviction *)

Lemma entry_free_conf ht a :
  evict_mode (flb_hash_table_entry_free ht a) = evict_mode ht /\
  max_entries (flb_hash_table_entry_free ht a) = max_entries ht /\
  case_sensitivity (flb_hash_table_entry_free ht a) = case_sensitivity ht /\
  size (flb_hash_table_entry_free ht a) = size ht /\
  cache_ttl (flb_hash_table_entry_free ht a) = cache_ttl ht.
Proof. unfold flb_hash_table_entry_free. by destruct (heap ht !! a). Qed.

Lemma less_used_fold ht l b :
  exists m, foldl (less_used ht) (Some b) l = Some m /\ (m = b \/ m ∈ l) /\
    entry_hits ht m <= entry_hits ht b /\
    forall a, a ∈ l -> entry_hits ht m <= entry_hits ht a.
Proof.
  revert b. induction l as [|x l IH]; intros b; simpl.
  { exists b. split_and!; [done|by left|lia|]. by intros a ?%not_elem_of_nil. }
  set (b' := if entry_hits ht x <? entry_hits ht b then x else b).
  destruct (IH b') as (m & Hm & Hin & Hle & Hall).
  assert (Hb' : (b' = x \/ b' = b) /\ entry_hits ht b' <= entry_hits ht x /\
                entry_hits ht b' <= entry_hits ht b) by (unfold b'; zcase; lia || (split; [tauto|lia])).
  exists m. split_and!; [|rewrite elem_of_cons; destruct Hb' as [[->| ->] _]; tauto|lia|].
  - rewrite <- Hm. f_equal. unfold b'. by destruct (_ <? _).
  - intros a [->|Ha]%elem_of_cons; [lia|auto].
Qed.

(** The victim of an eviction: nothing when there is room (or eviction is
    off), otherwise the oldest entry, one with the fewest hits, or any. *)
Inductive victim (ht : hash_table) : option nat -> Prop :=
| victim_none : (max_entries ht <= 0 \/ total_count ht < max_entries ht \/
                 evict_mode ht = EVICT_NONE) -> victim ht None
| victim_older a l : 0 < max_entries ht <= total_count ht -> evict_mode ht = EVICT_OLDER ->
    entries ht = a :: l -> victim ht (Some a)
| victim_less_used a : 0 < max_entries ht <= total_count ht ->
    evict_mode ht = EVICT_LESS_USED -> a ∈ entries ht ->
    (forall b, b ∈ entries ht -> entry_hits ht a <= entry_hits ht b) -> victim ht (Some a)
| victim_random a : 0 < max_entries ht <= total_count ht ->
    evict_mode ht = EVICT_RANDOM -> a ∈ entries ht -> victim ht (Some a).

Lemma evict_if_full_spec ht rnd : wf ht ->
  exists v, victim ht v /\
    evict_if_full ht rnd = match v with
                           | Some a => flb_hash_table_entry_free ht a
                           | None => ht
                           end.
Proof.
  intros Hw. unfold evict_if_full.
  destruct (Z.ltb_spec 0 (max_entries ht)); simpl;
    [|exists None; split; [constructor; lia|done]].
  destruct (Z.leb_spec (max_entries ht) (total_count ht));
    [|exists None; split; [constructor; lia|done]].
  assert (Hne : exists a l, entries ht = a :: l).
  { pose proof (wf_total _ Hw). destruct (entries ht) as [|a l]; simpl in *; [lia|eauto]. }
  destruct Hne as (a & l & Hal). destruct (evict_mode ht) eqn:Em.
  - exists None. split; [|done]. constructor. tauto.
  - exists (Some a). unfold flb_hash_table_evict_older. rewrite Hal.
    split; [by econstructor|done].
  - unfold flb_hash_table_evict_less_used. rewrite Hal. simpl.
    destruct (less_used_fold ht l a) as (m & -> & Hin & Hle & Hall).
    exists (Some m). split; [|done]. apply victim_less_used; [done..| |].
    + rewrite Hal, elem_of_cons. tauto.
    + rewrite Hal. intros b [->|Hb]%elem_of_cons; auto.
  - unfold flb_hash_table_evict_random.
    pose proof (Z.mod_pos_bound rnd (total_count ht) ltac:(lia)).
    destruct (lookup_lt_is_Some_2 (entries ht) (Z.to_nat (rnd mod total_count ht))) as [m Hm].
    { pose proof (wf_total _ Hw). lia. }
    rewrite Hm. exists (Some m). split; [|done]. apply victim_random; [done..|].
    by apply list_elem_of_lookup_2 in Hm.
Qed.

Lemma evict_wf ht rnd : wf ht -> wf (evict_if_full ht rnd).
Proof.
  intros Hw. destruct (evict_if_full_spec ht rnd Hw) as ([a|] & _ & ->); [|done].
  by apply entry_free_wf.
Qed.

Lemma evict_plain ht rnd : wf ht -> plain ht -> plain (evict_if_full ht rnd).
Proof.
  intros Hw Hp. destruct (evict_if_full_spec ht rnd Hw) as ([a|] & _ & ->); [|done].
  by apply entry_free_plain.
Qed.

Lemma evict_conf ht rnd : wf ht ->
  case_sensitivity (evict_if_full ht rnd) = case_sensitivity ht /\
  size (evict_if_full ht rnd) = size ht /\
  evict_mode (evict_if_full ht rnd) = evict_mode ht /\
  max_entries (evict_if_full ht rnd) = max_entries ht.
Proof.
  intros Hw. destruct (evict_if_full_spec ht rnd Hw) as ([a|] & _ & ->); [|done].
  pose proof (entry_free_conf ht a). tauto.
Qed.

Lemma entry_free_total ht a : is_Some (heap ht !! a) ->
  total_count (flb_hash_table_entry_free ht a) = total_count ht - 1.
Proof. intros [e He]. unfold flb_hash_table_entry_free. by rewrite He. Qed.

(** Eviction leaves room for one more entry. *)
Lemma evict_room ht rnd : wf ht ->
  0 < max_entries ht -> evict_mode ht <> EVICT_NONE -> total_count ht <= max_entries ht ->
  total_count (evict_if_full ht rnd) < max_entries ht.
Proof.
  intros Hw Hm Hmode Hle. destruct (evict_if_full_spec ht rnd Hw) as (v & Hv & ->).
  assert (Hfree : forall a, a ∈ entries ht -> total_count (flb_hash_table_entry_free ht a) < max_entries ht).
  { intros a Ha. apply (wf_dom _ Hw) in Ha. rewrite entry_free_total by done. lia. }
  destruct Hv as [H|a l _ _ Hal|a _ _ Ha _|a _ _ Ha].
  - destruct H as [|[|]]; [lia|lia|done].
  - apply Hfree. rewrite Hal. apply list_elem_of_here.
  - auto.
  - auto.
Qed.

(** *** The operations *)

(** What is stored: a copy, or the pointer when the size is 0. *)
Definition stored (v : pointer) (mem : bytes) (size : Z) : hval :=
  if 0 <? size then HCopy (take (Z.to_nat size) mem) else HRef v.

(** A value the caller may give: a pointer of its own to at least [size] bytes,
    or any pointer to keep as it is. *)
Definition value_given (v : pointer) (mem : bytes) (size : Z) : Prop :=
  size = 0 \/
  0 < size < 2 ^ 63 /\ size <= Z.of_nat (length mem) /\ exists p, p <> 0 /\ v = PExt p.

Lemma given_readable h l v mem sz : value_given v mem sz -> 0 < sz -> readable h l v mem = mem.
Proof.
  intros [->|(_ & _ & p & Hp & ->)] Hs; [lia|]. simpl. zcase; [lia|done].
Qed.

Lemma ssize_small n : 0 <= n < 2 ^ 63 -> ssize n = n.
Proof. intros H. unfold ssize. zcase; lia. Qed.

Lemma set_value_spec e v src sz now blk t e' ok t' :
  entry_set_value e v src sz now blk t = Some (e', ok, t') ->
  key e' = key e /\ key_len e' = key_len e /\ hash e' = hash e /\ e_table e' = e_table e /\
  (ok = true -> 0 <= sz < 2 ^ 63 -> value_of e' = stored v src sz) /\
  (t = [] -> ok = true /\ t' = []).
Proof.
  unfold entry_set_value, stored, value_of.
  destruct (Z.ltb_spec 0 sz).
  - destruct (flb_malloc t) as [ok0 t0] eqn:Em.
    assert (Ht : t = [] -> ok0 = true /\ t0 = []) by (intros ->; by simplify_eq/=).
    destruct ok0; [destruct (_ <? sz); [done|]|]; intros [= <- <- <-]; simpl;
      split_and!; try done; try naive_solver.
    intros _ Hs. rewrite ssize_small by done. zcase; (done || lia).
  - intros [= <- <- <-]; simpl. naive_solver.
Qed.

Lemma set_value_total e v src sz now blk t :
  sz <= Z.of_nat (length src) -> exists r, entry_set_value e v src sz now blk t = Some r.
Proof.
  intros H. unfold entry_set_value. destruct (0 <? sz); [|eauto].
  destruct (flb_malloc t) as [[] t']; [|eauto].
  destruct (Z.ltb_spec (Z.of_nat (length src)) sz); [lia|eauto].
Qed.

(** A given value is stored as it is, whatever has been freed. *)
Lemma given_stored h l v mem sz : value_given v mem sz ->
  stored v (readable h l v mem) (u64 sz) = stored v mem sz /\
  0 <= u64 sz < 2 ^ 63 /\ u64 sz <= Z.of_nat (length (readable h l v mem)).
Proof.
  intros Hg. assert (Hr : 0 <= sz < 2 ^ 63) by (destruct Hg as [->|[? _]]; lia).
  rewrite u64_small by lia. unfold stored. zcase.
  - rewrite (given_readable h l v mem sz) by done. destruct Hg as [->|(_ & ? & _)]; lia || done.
  - split_and!; try done; lia.
Qed.

(** The entry that [flb_hash_table_add] allocates, before its value is set. *)
Definition new_entry (ht : hash_table) (k : bytes) (dup : bool) (now : Z) : entry :=
  {| created := now; hits := 0; hash := cfl_hash_64bits (canon ht k);
     key := if dup then Some k else None;
     key_len := Z.of_nat (length k); val := PExt 0; data := []; val_size := 0;
     e_table := bucket ht (cfl_hash_64bits (canon ht k)) |}.

Lemma link_new ht k dup v src sz now blk t e' t' :
  wf ht -> k <> [] -> (forall b, ~ holds ht k b) ->
  entry_set_value (new_entry ht k dup now) v src sz now blk t = Some (e', true, t') ->
  let ht' := link_entry ht (S (next ht)) (bucket ht (cfl_hash_64bits (canon ht k))) e'
               (S (S (next ht))) in
  wf ht' /\
  (plain ht -> no_nul k -> dup = true -> 0 <= sz < 2 ^ 63 ->
   plain ht' /\ contents ht' = <[canon ht k := stored v src sz]> (contents ht)).
Proof.
  intros Hw Hk Hnew Es. apply set_value_spec in Es as (Ek & El & Eh & Et & Ev & _). simpl in *.
  assert (Hok : entry_ok ht e').
  { split; [|by rewrite Et, Eh]. intros k'. rewrite Ek, El, Eh. destruct dup; [|done].
    intros [= <-]. done. }
  rewrite <- Et. split.
  - apply link_wf; [done|lia|done|]. intros k'. rewrite Ek. destruct dup; [|done].
    by intros [= <-].
  - intros Hp Hn -> Hs. rewrite <- Ev by done. split; [by eapply link_plain|].
    apply link_contents; (done || lia).
Qed.

(** What adding a key to [ht], which made the room in [ht0], may come to. *)
Definition added (ht ht0 : hash_table) (k : bytes) (v : pointer) (mem : bytes) (sz : Z) (t : tape)
    (r : Z * hash_table * tape) : Prop :=
  let '(ret, ht', t') := r in
  wf ht' /\
  (evict_mode ht', max_entries ht', case_sensitivity ht', size ht') =
    (evict_mode ht, max_entries ht, case_sensitivity ht, size ht) /\
  total_count ht' <= total_count ht0 + 1 /\
  (t = [] -> plain ht0 -> no_nul k -> value_given v mem sz ->
   ret = Z.of_nat (bucket ht (cfl_hash_64bits (canon ht k))) /\ t' = [] /\ plain ht' /\
   contents ht' = <[canon ht k := stored v mem sz]> (contents ht0)).

Lemma add_replaces ht a e v mem sz now t e' ok t' k :
  wf ht -> heap ht !! a = Some e -> (plain ht -> holds ht k a) ->
  entry_set_value e v (readable (delete a (heap ht)) (entries ht) v mem) (u64 sz) now
    (next ht) t = Some (e', ok, t') ->
  added ht ht k v mem sz t
    (if ok then Z.of_nat (bucket ht (cfl_hash_64bits (canon ht k))) else -1,
     with_store ht (total_count ht) (entries ht) (table ht) (<[a := e']> (heap ht)) (S (next ht)),
     t').
Proof.
  intros Hw He Hh Es. apply set_value_spec in Es as (Ek & El & Eh & Et & Ev & Eok).
  split_and!; [by eapply update_wf; eauto|done|simpl; lia|].
  intros Ht Hp _ Hg. destruct (Eok Ht) as [-> ->]. split_and!; [done..|by eapply update_plain|].
  destruct (Hh Hp) as (e0 & ek & He0 & Hek & Hk). rewrite He in He0. injection He0 as <-.
  destruct (given_stored (delete a (heap ht)) (entries ht) v mem sz Hg) as (Hst & Hr & _).
  rewrite (update_contents ht a e e' (S (next ht)) ek) by (done || lia).
  by rewrite Ev, Hst, Hk.
Qed.

Lemma add_links ht k dup v mem sz now t0 t e' t' :
  wf ht -> k <> [] -> (forall b, ~ holds ht k b) -> (t0 = [] -> t = [] /\ dup = true) ->
  entry_set_value (new_entry ht k dup now) v (readable (heap ht) (entries ht) v mem) (u64 sz)
    now (next ht) t = Some (e', true, t') ->
  added ht ht k v mem sz t0
    (Z.of_nat (bucket ht (cfl_hash_64bits (canon ht k))),
     link_entry ht (S (next ht)) (bucket ht (cfl_hash_64bits (canon ht k))) e' (S (S (next ht))),
     t').
Proof.
  intros Hw Hk Hnew Hdup Es.
  destruct (link_new ht k dup _ _ _ _ _ _ _ _ Hw Hk Hnew Es) as [L1 L2].
  apply set_value_spec in Es as (_ & _ & _ & _ & _ & Eok).
  split_and!; [exact L1|done|simpl; lia|]. intros [-> Hd]%Hdup Hp Hn Hg.
  destruct (given_stored (heap ht) (entries ht) v mem sz Hg) as (Hst & Hr & _).
  destruct (L2 Hp Hn Hd Hr) as [Hp' Hc]. rewrite Hst in Hc.
  by split_and!; [|apply Eok| |].
Qed.

Lemma added_tape ht ht0 k v mem sz t t1 r :
  (t = [] -> t1 = []) -> added ht ht0 k v mem sz t1 r -> added ht ht0 k v mem sz t r.
Proof. destruct r as [[ret ht'] t']. unfold added. intros Ht (? & ? & ? & H). auto 10. Qed.

Lemma added_evicted ht ht0 k v mem sz t r :
  (case_sensitivity ht0, size ht0, evict_mode ht0, max_entries ht0) =
  (case_sensitivity ht, size ht, evict_mode ht, max_entries ht) ->
  added ht0 ht0 k v mem sz t r -> added ht ht0 k v mem sz t r.
Proof.
  destruct r as [[ret ht'] t']. intros [= Hcs Hsz Hem Hmx].
  unfold added, canon, bucket. rewrite Hcs, Hsz, Hem, Hmx. done.
Qed.

(** Every outcome of [flb_hash_table_add], allocation failures included. *)
Lemma add_spec ht k v mem sz now rnd t r :
  wf ht -> k <> [] -> hash_total (case_sensitivity ht) k t ->
  flb_hash_table_add ht (Some k) v mem sz now rnd t = Some r ->
  added ht (evict_if_full ht rnd) k v mem sz t r.
Proof.
  intros Hw Hk Hsafe. unfold flb_hash_table_add.
  destruct (Z.leb_spec (Z.of_nat (length k)) 0) as [H0|_]; [destruct k; simpl in *; [done|lia]|].
  pose proof (evict_wf ht rnd Hw) as Hw0. destruct (evict_conf ht rnd Hw) as (Hcs & Hsz & Hem & Hmx).
  set (ht0 := evict_if_full ht rnd) in *. clearbody ht0.
  intros E. apply added_evicted; [congruence|]. rewrite <- Hcs in Hsafe. revert E.
  assert (Hfail : forall t', t <> [] -> added ht0 ht0 k v mem sz t (-1, ht0, t')).
  { intros t' Hne. split_and!; [done..|lia|done]. }
  destruct (hash_get_entry ht0 (Some k) t) as [[[[id a]|] t1]|] eqn:Eg; [..|done];
    apply get_entry_spec in Eg as [Ht1 Hg]; try done; simpl.
  - destruct Hg as ([e He] & Hh & ->). rewrite He. simpl.
    destruct (entry_set_value _ _ _ _ _ _ _) as [[[e' ok] t2]|] eqn:Es; [|done]. simpl.
    intros [= <-]. apply (added_tape _ _ _ _ _ _ t t1 _ Ht1). by eapply add_replaces.
  - specialize (Hg Hsafe).
    destruct (flb_hash_table_compute_key_hash k (case_sensitivity ht0) t1) as [[h|] t2] eqn:Eh;
      apply compute_hash_spec in Eh as (Ht2 & Htot & Hh).
    2:{ intros [= <-]. apply Hfail. intros ->. apply Htot; [right; right; auto|done]. }
    rewrite (Hh h eq_refl).
    destruct (flb_malloc t2) as [[] t3] eqn:Em; cbn [negb].
    2:{ intros [= <-]. apply Hfail. intros Ht. by rewrite Ht2 in Em by auto. }
    destruct (flb_malloc t3) as [dup t4] eqn:Ed.
    assert (Ht4 : t = [] -> t4 = [] /\ dup = true).
    { intros Ht. rewrite Ht2 in Em by auto. simplify_eq/=. done. }
    destruct (entry_set_value _ _ _ _ _ _ _) as [[[e' ok] t5]|] eqn:Es; [|done]. simpl.
    destruct ok; cbn [negb]; intros [= <-].
    + by apply (add_links ht0 k dup v mem sz now t t4).
    + apply Hfail. intros Ht. destruct (Ht4 Ht) as [-> _].
      by apply set_value_spec in Es as (_ & _ & _ & _ & _ & []).
Qed.

(** An addition without an allocation failure returns. *)
Lemma add_total ht k v mem sz now rnd :
  wf ht -> plain ht -> value_given v mem sz ->
  exists r, flb_hash_table_add ht (Some k) v mem sz now rnd [] = Some r.
Proof.
  intros Hw Hp Hg. unfold flb_hash_table_add. destruct (_ <=? _); [eauto|].
  pose proof (evict_wf ht rnd Hw) as Hw0. pose proof (evict_plain ht rnd Hw Hp) as Hp0.
  set (ht0 := evict_if_full ht rnd) in *. clearbody ht0.
  assert (Hset : forall e h l blk t,
    exists r, entry_set_value e v (readable h l v mem) (u64 sz) now blk t = Some r).
  { intros. apply set_value_total. by apply given_stored. }
  destruct (get_entry_total ht0 k [] Hw0 Hp0) as [[[[id a]|] t1] Eg]; rewrite Eg; simpl.
  - destruct (decide (k = [])) as [->|Hk]; [done|].
    apply get_entry_spec in Eg as (_ & [e He] & _); [|done..]. rewrite He. simpl.
    edestruct Hset as [[[e' ok] t2] ->]; simpl; eauto.
  - destruct (flb_hash_table_compute_key_hash _ _ _) as [[h|] t2]; [|eauto].
    destruct (flb_malloc t2) as [[] t3]; simpl; [|eauto].
    destruct (flb_malloc t3) as [dup t4].
    edestruct Hset as [[[e' ok] t5] ->]; simpl. destruct ok; simpl; eauto.
Qed.

Lemma add_hit_contents ht a e : wf ht -> heap ht !! a = Some e ->
  wf (update_entry ht a (add_hit e)) /\
  contents (update_entry ht a (add_hit e)) = contents ht.
Proof.
  intros Hw He. unfold update_entry.
  split; [by eapply update_wf; eauto|by eapply update_same].
Qed.

(** A lookup changes at most the entry it finds: it frees it or counts a hit. *)
Lemma get_cases ht k now t r ht' t' :
  flb_hash_table_get ht k now t = Some (r, ht', t') ->
  ht' = ht \/ (exists a, ht' = flb_hash_table_entry_free ht a) \/
  exists a e, heap ht !! a = Some e /\ ht' = update_entry ht a (add_hit e).
Proof.
  unfold flb_hash_table_get.
  destruct (hash_get_entry ht k t) as [[[[id a]|] t1]|]; [..|done]; simpl;
    [|intros [= <- <- <-]; by left].
  destruct (heap ht !! a) as [e|] eqn:He; [|done]. simpl.
  destruct (_ && _); intros [= <- <- <-]; eauto 8.
Qed.

Lemma get_spec ht k now t r ht' t' :
  wf ht -> plain ht -> k <> [] -> hash_total (case_sensitivity ht) k t ->
  flb_hash_table_get ht (Some k) now t = Some (r, ht', t') ->
  match r with
  | Some (id, e) =>
      contents ht !! canon ht k = Some (value_of e) /\ contents ht' = contents ht /\
      (0 < cache_ttl ht -> now <= created e + cache_ttl ht) /\
      id = bucket ht (cfl_hash_64bits (canon ht k))
  | None =>
      contents ht' = delete (canon ht k) (contents ht) /\
      forall v, contents ht !! canon ht k = Some v ->
        exists a e, heap ht !! a = Some e /\ value_of e = v /\
          0 < cache_ttl ht /\ created e + cache_ttl ht < now
  end.
Proof.
  intros Hw Hp Hk Hsafe. unfold flb_hash_table_get.
  destruct (hash_get_entry ht (Some k) t) as [[[[id a]|] t1]|] eqn:Eg; [..|done];
    apply get_entry_spec in Eg as [Ht1 Hg]; try done; simpl.
  - destruct Hg as (_ & Hh & ->). destruct (Hh Hp) as (e & ek & He & Hek & Hke). rewrite He. simpl.
    pose proof (contents_Some ht k a e ek Hw He Hek Hke) as Hlook.
    destruct (Z.ltb_spec 0 (cache_ttl ht)), (Z.ltb_spec (created e + cache_ttl ht) now);
      simpl; intros [= <- <- <-].
    2-4: destruct (add_hit_contents ht a e Hw He) as [H1 H2]; split_and!; (done || lia).
    split; [by eapply entry_free_key|]. intros v Hv. exists a, e. split_and!; [done|congruence|done..].
  - intros [= <- <- <-]. pose proof (contents_None ht k Hw (Hg Hsafe)) as Hnone.
    split; [by rewrite delete_id|]. congruence.
Qed.

(** A deletion frees at most one entry. *)
Lemma del_cases ht k t ret ht' t' :
  flb_hash_table_del ht k t = Some (ret, ht', t') ->
  ht' = ht \/ exists a, ht' = flb_hash_table_entry_free ht a.
Proof.
  unfold flb_hash_table_del. destruct k as [k|]; [|intros [= <- <- <-]; by left].
  destruct (_ =? 0); [intros [= <- <- <-]; by left|].
  destruct (flb_hash_table_compute_key_hash _ _ _) as [[h|] t1]; [|intros [= <- <- <-]; by left].
  match goal with |- (?x ≫= _) = _ -> _ => destruct x as [[a|]|]; [..|done] end;
    intros [= <- <- <-]; eauto.
Qed.

Lemma del_ptr_cases ht k ptr t ret ht' t' :
  flb_hash_table_del_ptr ht k ptr t = Some (ret, ht', t') ->
  ht' = ht \/ exists a, ht' = flb_hash_table_entry_free ht a.
Proof.
  unfold flb_hash_table_del_ptr.
  destruct (flb_hash_table_compute_key_hash _ _ _) as [[h|] t1]; [|intros [= <- <- <-]; by left].
  destruct (chain_find _ _ _) as [[a|]|]; [..|done]; intros [= <- <- <-]; eauto.
Qed.

Lemma del_spec ht k t ret ht' t' :
  wf ht -> plain ht -> k <> [] -> hash_total (case_sensitivity ht) k t ->
  flb_hash_table_del ht (Some k) t = Some (ret, ht', t') ->
  contents ht' = delete (canon ht k) (contents ht) /\
  ret = (if bool_decide (is_Some (contents ht !! canon ht k)) then 0 else -1).
Proof.
  intros Hw Hp Hk Hsafe. unfold flb_hash_table_del.
  destruct (Z.eqb_spec (Z.of_nat (length k)) 0) as [H0|_]; [destruct k; simpl in *; [done|lia]|].
  destruct (flb_hash_table_compute_key_hash k (case_sensitivity ht) t) as [[h|] t1] eqn:Eh;
    apply compute_hash_spec in Eh as (_ & Htot & Hh); [|by exfalso; apply Htot].
  specialize (Hh h eq_refl). change (h = cfl_hash_64bits (canon ht k)) in Hh. subst h.
  set (id := bucket ht _). pose proof (bucket_lt ht (cfl_hash_64bits (canon ht k)) (wf_size _ Hw)) as Hid.
  rewrite (chain_find_single (heap ht) (entry_matches ht k) _ (chain_count ht id Hw Hid)).
  destruct (chain_find _ _ _) as [f|] eqn:E; [|done]. simpl.
  apply bucket_search in E; [|done]. destruct f as [a|]; intros [= <- <- <-].
  - destruct E as [_ E]. destruct (E Hp) as (e & ek & He & Hek & Hke).
    split; [by eapply entry_free_key|]. rewrite bool_decide_true; [done|].
    exists (value_of e). by eapply contents_Some.
  - pose proof (contents_None ht k Hw E) as Hnone. rewrite Hnone, delete_id by done.
    split; [done|]. rewrite bool_decide_false; [done|]. by intros [? ?].
Qed.

Lemma get_total ht k now t : wf ht -> plain ht -> k <> [] ->
  exists r, flb_hash_table_get ht (Some k) now t = Some r.
Proof.
  intros Hw Hp Hk. unfold flb_hash_table_get.
  destruct (get_entry_total ht k t Hw Hp) as [[[[id a]|] t1] Eg]; rewrite Eg; simpl; [|eauto].
  apply get_entry_spec in Eg as (_ & [e He] & _); [|done..]. rewrite He. simpl. eauto.
Qed.

Lemma del_total ht k t : wf ht -> plain ht ->
  exists r, flb_hash_table_del ht (Some k) t = Some r.
Proof.
  intros Hw Hp. unfold flb_hash_table_del. destruct (_ =? 0); [eauto|].
  destruct (flb_hash_table_compute_key_hash _ _ _) as [[h|] t1]; [|eauto].
  pose proof (bucket_lt ht h (wf_size _ Hw)) as Hid.
  rewrite (chain_find_single _ _ _ (chain_count ht _ Hw Hid)).
  destruct (bucket_search_total ht k (bucket ht h)) as [r ->]; simpl; eauto.
Qed.

(** *** Reachable tables *)

Inductive ht_init : hash_table -> Prop :=
| init_create em sz mx t ht t' :
    flb_hash_table_create em sz mx t = (Some ht, t') -> ht_init ht
| init_create_ttl ttl em sz mx t ht t' :
    flb_hash_table_create_with_ttl ttl em sz mx t = (Some ht, t') -> ht_init ht.

(** One call of a client that returns, with any keys, values and allocation
    failures, but one: a key is added only when its hash could be computed
    (it is case sensitive, shorter than 63 bytes, or memory is available).
    The sensitivity of a table is chosen while it is empty. *)
Inductive ht_step (ht : hash_table) : hash_table -> Prop :=
| step_add k v mem sz now rnd t ret ht' t' :
    (forall b, k = Some b -> hash_total (case_sensitivity ht) b t) ->
    flb_hash_table_add ht k v mem sz now rnd t = Some (ret, ht', t') -> ht_step ht ht'
| step_get k now t r ht' t' :
    flb_hash_table_get ht k now t = Some (r, ht', t') -> ht_step ht ht'
| step_get_ptr k t r ht' t' :
    flb_hash_table_get_ptr ht k t = Some (r, ht', t') -> ht_step ht ht'
| step_del k t ret ht' t' :
    flb_hash_table_del ht k t = Some (ret, ht', t') -> ht_step ht ht'
| step_del_ptr k ptr t ret ht' t' :
    flb_hash_table_del_ptr ht k ptr t = Some (ret, ht', t') -> ht_step ht ht'
| step_case status :
    entries ht = [] -> ht_step ht (flb_hash_table_set_case_sensitivity ht status).

Definition reachable (ht : hash_table) : Prop := exists ht0, ht_init ht0 /\ rtc ht_step ht0 ht.

(** The bound a table with eviction respects. *)
Definition bounded (ht : hash_table) : Prop :=
  0 < max_entries ht -> evict_mode ht <> EVICT_NONE -> total_count ht <= max_entries ht.

Lemma create_spec em sz mx t ht t' :
  flb_hash_table_create em sz mx t = (Some ht, t') ->
  wf ht /\ bounded ht /\ contents ht = ∅ /\ entries ht = [] /\ total_count ht = 0.
Proof.
  unfold flb_hash_table_create. destruct (Z.leb_spec sz 0); [done|].
  destruct (flb_malloc t) as [[] t1]; simpl; [|done].
  destruct (flb_malloc t1) as [[] t2]; simpl; [|done]. intros [= <- <-].
  split_and!; [|unfold bounded; simpl; lia|done..]. split; simpl; try done.
  - by rewrite length_replicate.
  - constructor.
  - intros a. rewrite lookup_empty. split; [by intros ?%not_elem_of_nil|by intros [? ?]].
  - intros a. rewrite lookup_empty. by intros [? ?].
  - intros i c Hc. apply lookup_replicate in Hc as [-> _]. done.
Qed.

(** An empty table may change the way it reads keys. *)
Lemma set_case_wf ht status : wf ht -> entries ht = [] ->
  wf (flb_hash_table_set_case_sensitivity ht status).
Proof.
  intros Hw He.
  assert (Hh : forall a e, heap ht !! a = Some e -> False).
  { intros a e Ha. assert (a ∈ entries ht) as Hin by (apply wf_dom; eauto).
    rewrite He in Hin. by apply not_elem_of_nil in Hin. }
  split; simpl; try apply Hw.
  - intros a e Ha. by destruct (Hh a e).
  - intros a b ea eb ka kb Ha. by destruct (Hh a ea).
Qed.

Lemma create_ttl_spec ttl em sz mx t ht t' :
  flb_hash_table_create_with_ttl ttl em sz mx t = (Some ht, t') ->
  wf ht /\ bounded ht.
Proof.
  unfold flb_hash_table_create_with_ttl.
  destruct (flb_hash_table_create em sz mx t) as [[ht0|] t0] eqn:E; [|done].
  apply create_spec in E as (Hw & Hb & _). intros [= <- <-]. split; [|exact Hb].
  split; simpl; try apply Hw. intros a e He. destruct (wf_entry _ Hw _ _ He). by split.
Qed.

Lemma entry_free_bounded ht a : bounded ht -> bounded (flb_hash_table_entry_free ht a).
Proof.
  unfold bounded. destruct (entry_free_conf ht a) as (-> & -> & _). intros H H1 H2.
  specialize (H H1 H2). unfold flb_hash_table_entry_free.
  destruct (heap ht !! a); simpl; lia.
Qed.

Lemma step_invariant ht ht' : wf ht /\ bounded ht -> ht_step ht ht' -> wf ht' /\ bounded ht'.
Proof.
  intros [Hw Hb] Hs.
  assert (Hfree : forall a, wf (flb_hash_table_entry_free ht a) /\
                            bounded (flb_hash_table_entry_free ht a)).
  { intros a. split; [by apply entry_free_wf|by apply entry_free_bounded]. }
  assert (Hhit : forall a e, heap ht !! a = Some e ->
    wf (update_entry ht a (add_hit e)) /\ bounded (update_entry ht a (add_hit e))).
  { intros a e He. split; [by apply add_hit_contents|exact Hb]. }
  destruct Hs as [k v mem sz now rnd t ret ht' t' Hsafe E|k now t r ht' t' E
    |k t r ht' t' E|k t ret ht' t' E|k ptr t ret ht' t' E|status He].
  - destruct k as [k|]; [|by simplify_eq/=].
    destruct (decide (k = [])) as [->|Hk]; [by simplify_eq/=|].
    apply add_spec in E as (Hw' & Hconf & Htot & _); [|by auto..]. split; [done|].
    unfold bounded. injection Hconf as -> -> _ _. intros H1 H2.
    pose proof (evict_room ht rnd Hw H1 H2 (Hb H1 H2)). lia.
  - apply get_cases in E as [->|[[a ->]|(a & e & He & ->)]]; auto.
  - revert E. unfold flb_hash_table_get_ptr.
    destruct (hash_get_entry ht k t) as [[[[id a]|] t1]|]; [..|done]; simpl;
      [|by intros [= <- <- <-]].
    destruct (heap ht !! a) as [e|] eqn:He; [|done]. intros [= <- <- <-]. auto.
  - apply del_cases in E as [->|[a ->]]; auto.
  - apply del_ptr_cases in E as [->|[a ->]]; auto.
  - split; [by apply set_case_wf|exact Hb].
Qed.

(** C14: every table a client can reach from a created one, by any sequence
    of insertions, lookups, deletions and evictions that return, is well
    formed: each entry is linked in the list of all entries and in the one
    chain its hash selects, chains hold nothing else, the counters are the
    lengths of the lists, and no two entries that have a key have the same
    key; and a table with a capacity and an eviction mode never holds more
    than its capacity.  Keys are any bytes and allocations may fail, that of
    the copy of a key included, which leaves an entry without a key (a later
    comparison with it does not return); only the lower-case buffer for the
    hash of a case-insensitive key of 63 bytes or more is taken to be
    allocated in an insertion, and the sensitivity is set while the table is
    empty. *)
Theorem hash_table_invariant ht : reachable ht -> wf ht /\ bounded ht.
Proof.
  intros (ht0 & Hi & Hr).
  assert (H0 : wf ht0 /\ bounded ht0).
  { destruct Hi as [em sz mx t ht0 t' E|ttl em sz mx t ht0 t' E].
    - apply create_spec in E. tauto.
    - by apply create_ttl_spec in E. }
  clear Hi. induction Hr as [|x y z Hxy _ IH]; [done|]. eauto using step_invariant.
Qed.

(** C34: with memory available, a table whose keys were all copied and have
    no NUL byte, a key of the same kind that is not empty and a value that is
    either a pointer to keep (size 0) or a buffer of the caller of at least
    [sz] bytes (0 < sz < 2^63, not a block of the table), [flb_hash_table_add]
    returns and implements the update of a finite map: it returns the bucket
    of the key, the table stays well formed and its contents become those
    left by the eviction with the key bound to the new value (a copy of the
    bytes, or the pointer when the size is 0), whether the key was present
    or not and whatever keys share its bucket. *)
Theorem add_refines_insert ht k v mem sz now rnd :
  wf ht -> plain ht -> no_nul k -> k <> [] -> value_given v mem sz ->
  exists ht', flb_hash_table_add ht (Some k) v mem sz now rnd [] =
      Some (Z.of_nat (bucket ht (cfl_hash_64bits (canon ht k))), ht', []) /\
    wf ht' /\ plain ht' /\
    contents ht' = <[canon ht k := stored v mem sz]> (contents (evict_if_full ht rnd)).
Proof.
  intros Hw Hp Hn Hk Hg. destruct (add_total ht k v mem sz now rnd Hw Hp Hg) as [[[ret ht'] t'] E].
  rewrite E. apply add_spec in E as (Hw' & _ & _ & H); [|done..|right; right; done].
  destruct H as (-> & -> & Hp' & Hc); [done|by apply evict_plain|done..|]. eauto.
Qed.

(** [flb_hash_table_get] and [flb_hash_table_del] implement lookup and
    deletion of the finite map: a lookup that succeeds returns the value the
    map binds to the key and leaves the contents unchanged; one that fails
    means the map has no such key, or that the entry outlived the time to
    live and has been removed; a deletion removes the key and succeeds exactly
    when it was there. *)
Theorem get_del_refine ht k now :
  wf ht -> plain ht -> k <> [] ->
  (exists r ht' t', flb_hash_table_get ht (Some k) now [] = Some (r, ht', t') /\
   match r with
   | Some (_, e) => contents ht !! canon ht k = Some (value_of e) /\ contents ht' = contents ht
   | None => contents ht' = delete (canon ht k) (contents ht) /\
             forall v, contents ht !! canon ht k = Some v ->
               exists a e, heap ht !! a = Some e /\ value_of e = v /\
                 0 < cache_ttl ht /\ created e + cache_ttl ht < now
   end) /\
  (exists ret ht' t', flb_hash_table_del ht (Some k) [] = Some (ret, ht', t') /\
   contents ht' = delete (canon ht k) (contents ht) /\
   ret = if bool_decide (is_Some (contents ht !! canon ht k)) then 0 else -1).
Proof.
  intros Hw Hp Hk. assert (Hs : hash_total (case_sensitivity ht) k []) by (right; right; done). split.
  - destruct (get_total ht k now [] Hw Hp Hk) as [[[r ht'] t'] E]. exists r, ht', t'.
    split; [done|]. apply get_spec in E; [|done..]. destruct r as [[id e]|]; [|done]. tauto.
  - destruct (del_total ht k [] Hw Hp) as [[[ret ht'] t'] E]. exists ret, ht', t'.
    split; [done|]. by apply del_spec in E.
Qed.

(** Eviction removes one entry exactly when the table is at its capacity
    and has an eviction mode: the oldest entry, one with the fewest hits, or
    some entry, by the mode; the contents lose that entry's key and nothing
    else. *)
Theorem eviction_victim ht rnd : wf ht ->
  exists v, victim ht v /\
    contents (evict_if_full ht rnd) =
      match v with
      | None => contents ht
      | Some a => match heap ht !! a with
                  | Some e => without ht e
                  | None => contents ht
                  end
      end.
Proof.
  intros Hw. destruct (evict_if_full_spec ht rnd Hw) as (v & Hv & ->).
  exists v. split; [done|]. destruct v as [a|]; [|done].
  destruct (heap ht !! a) as [e|] eqn:He; [by apply entry_free_contents|].
  unfold flb_hash_table_entry_free. by rewrite He.
Qed.

(** *** Destruction *)

Lemma free_all ht l : wf ht ->
  wf (foldl flb_hash_table_entry_free ht l) /\
  size (foldl flb_hash_table_entry_free ht l) = size ht /\
  forall a, heap (foldl flb_hash_table_entry_free ht l) !! a =
            if bool_decide (a ∈ l) then None else heap ht !! a.
Proof.
  revert ht. induction l as [|x l IH]; intros ht Hw; cbn [foldl].
  { split_and!; [done..|]. intros a. rewrite bool_decide_false; [done|]. apply not_elem_of_nil. }
  destruct (IH _ (entry_free_wf ht x Hw)) as (H1 & H2 & H3).
  destruct (entry_free_conf ht x) as (_ & _ & _ & Hs & _).
  split_and!; [done|congruence|]. intros a. rewrite H3.
  assert (Hh : heap (flb_hash_table_entry_free ht x) !! a =
               if decide (x = a) then None else heap ht !! a).
  { unfold flb_hash_table_entry_free. destruct (heap ht !! x) as [e|] eqn:E; simpl.
    - rewrite lookup_delete. by repeat case_decide.
    - case_decide as Hd; [|done]. by rewrite <- Hd. }
  rewrite Hh. destruct (decide (x = a)) as [->|Hne].
  - rewrite (bool_decide_true (a ∈ a :: l)) by apply list_elem_of_here. by case_match.
  - destruct (bool_decide_reflect (a ∈ l)) as [Hin|Hin].
    + rewrite bool_decide_true; [done|]. by apply list_elem_of_further.
    + rewrite bool_decide_false; [done|]. rewrite elem_of_cons. naive_solver.
Qed.

(** Destroying a table releases every entry, and no entry twice. *)
Lemma destroy_releases_all ht : wf ht -> heap (flb_hash_table_destroy ht) = ∅.
Proof.
  intros Hw. unfold flb_hash_table_destroy.
  assert (Hgo : forall n i h, wf h -> size h = size ht -> (i + n = Z.to_nat (size ht))%nat ->
    (forall a e, heap h !! a = Some e -> (i <= e_table e)%nat) ->
    heap (foldl (λ h i, foldl flb_hash_table_entry_free h (chains (chain_at h i))) h (seq i n)) = ∅).
  { induction n as [|n IH]; intros i h Hh Hsz Hi Hge; simpl.
    - apply map_empty. intros a. apply eq_None_not_Some. intros [e He].
      pose proof (Hge _ _ He) as H1. destruct (wf_entry _ Hh _ _ He) as [_ Ht].
      pose proof (bucket_lt h (hash e) (wf_size _ Hh)). rewrite <- Ht, Hsz in H. lia.
    - destruct (free_all h (chains (chain_at h i)) Hh) as (H1 & H2 & H3).
      apply IH; [done|congruence|lia|]. intros a e He. rewrite H3 in He.
      destruct (bool_decide_reflect (a ∈ chains (chain_at h i))) as [|Hni]; [done|].
      pose proof (Hge _ _ He). destruct (decide (e_table e = i)) as [Heq|]; [|lia].
      exfalso. apply Hni. apply chain_elem; [done|rewrite Hsz; lia|eauto]. }
  apply (Hgo (Z.to_nat (size ht)) 0%nat ht Hw eq_refl); [lia|]. intros; lia.
Qed.

End Ops.

(** *** Witnesses and a counterexample *)

Definition ex_hash (k : bytes) : Z := 7.

Definition ex_empty : hash_table :=
  {| evict_mode := EVICT_OLDER; max_entries := 1; total_count := 0; cache_ttl := 0;
     case_sensitivity := true; size := 2; entries := [];
     table := replicate 2 {| count := 0; chains := [] |}; heap := ∅; next := 0%nat |}.

Lemma ex_empty_create : flb_hash_table_create EVICT_OLDER 2 1 [] = (Some ex_empty, []).
Proof. reflexivity. Qed.

Lemma ex_empty_wf : wf ex_hash ex_empty.
Proof. eapply create_spec. apply ex_empty_create. Qed.

Lemma ex_empty_plain : plain ex_empty.
Proof. intros a e. simpl. by rewrite lookup_empty. Qed.

Lemma ex_key_ok : no_nul (str "abc") /\ str "abc" <> [].
Proof. split; [repeat constructor; done|done]. Qed.

Lemma ex_value_given : value_given (PExt 5) [1; 2; 3] 2.
Proof. right. split_and!; [lia|lia|simpl; lia|]. by exists 5. Qed.

(** The table after one insertion: the result of [flb_hash_table_add]. *)
Definition table_of (r : option (Z * hash_table * tape)) : hash_table :=
  match r with Some (_, ht, _) => ht | None => ex_empty end.

Definition ex_full : hash_table :=
  table_of (flb_hash_table_add ex_hash ex_empty (Some (str "abc")) (PExt 5) [] 0 10 0 []).

Lemma ex_full_step : ht_step ex_hash ex_empty ex_full.
Proof.
  eapply (step_add ex_hash ex_empty (Some (str "abc")) (PExt 5) [] 0 10 0 []);
    [intros b _; left; reflexivity|vm_compute; reflexivity].
Qed.

Lemma ex_full_wf : wf ex_hash ex_full.
Proof.
  eapply (step_invariant ex_hash ex_empty ex_full); [|apply ex_full_step].
  destruct (create_spec ex_hash _ _ _ _ _ _ ex_empty_create); tauto.
Qed.

Lemma hash_table_invariant_witness : wf ex_hash ex_full /\ bounded ex_full.
Proof.
  apply (hash_table_invariant ex_hash ex_full). exists ex_empty.
  split; [eapply init_create; exact ex_empty_create|].
  apply rtc_once, ex_full_step.
Defined.

Lemma add_refines_insert_witness :
  exists ht', flb_hash_table_add ex_hash ex_empty (Some (str "abc")) (PExt 5) [1; 2; 3] 2 10 0 [] =
      Some (Z.of_nat (bucket ex_empty (ex_hash (canon ex_empty (str "abc")))), ht', []) /\
    wf ex_hash ht' /\ plain ht' /\
    contents ht' = <[canon ex_empty (str "abc") := stored (PExt 5) [1; 2; 3] 2]>
                     (contents (evict_if_full ex_empty 0)).
Proof.
  apply (add_refines_insert ex_hash ex_empty (str "abc") (PExt 5) [1; 2; 3] 2 10 0 ex_empty_wf
           ex_empty_plain); [apply ex_key_ok|apply ex_key_ok|apply ex_value_given].
Defined.

(** The lookup and the deletion of a key on a table that holds it. *)
Example ex_get_del :
  match flb_hash_table_get ex_hash ex_full (Some (str "abc")) 3 [] with
  | Some (Some (_, e), _, _) => contents ex_full !! str "abc" = Some (value_of e)
  | _ => False
  end /\
  contents (table_of (flb_hash_table_del ex_hash ex_full (Some (str "abc")) [])) = ∅.
Proof. vm_compute. done. Qed.

(** A key that could not be copied is linked without one: the insertion
    reports success, and the next operation on a key of that length in that
    bucket compares with NULL. *)
Definition ex_keyless : hash_table :=
  table_of (flb_hash_table_add ex_hash ex_empty (Some (str "abc")) (PExt 5) [] 0 10 0 [true; false]).

Theorem failed_key_copy_faults :
  option_map fst (flb_hash_table_add ex_hash ex_empty (Some (str "abc")) (PExt 5) [] 0 10 0
                    [true; false]) = Some (1, ex_keyless) /\
  total_count ex_keyless = 1 /\ contents ex_keyless = ∅ /\
  flb_hash_table_get ex_hash ex_keyless (Some (str "xyz")) 11 [] = None /\
  flb_hash_table_del_ptr ex_hash ex_keyless (str "b") (PExt 5) [] = None.
Proof. vm_compute. done. Qed.

(** The value of a key is freed before the new one is copied: giving a key
    its own stored value again, as obtained from a lookup, copies from the
    freed block.  A negative size asks for a copy of nearly 2^64 bytes. *)
Definition ex_copy : hash_table :=
  table_of (flb_hash_table_add ex_hash
    {| evict_mode := EVICT_NONE; max_entries := 0; total_count := 0; cache_ttl := 0;
       case_sensitivity := true; size := 2; entries := [];
       table := replicate 2 {| count := 0; chains := [] |}; heap := ∅; next := 0%nat |}
    (Some (str "abc")) (PExt 5) [1; 2; 3] 2 10 0 []).

Theorem own_value_faults :
  option_map (λ r, fst (fst r)) (flb_hash_table_get_ptr ex_hash ex_copy (Some (str "abc")) [])
    = Some (PBlk 0) /\
  flb_hash_table_add ex_hash ex_copy (Some (str "abc")) (PBlk 0) [] 2 11 0 [] = None /\
  is_Some (flb_hash_table_add ex_hash ex_copy (Some (str "xyz")) (PBlk 0) [] 2 11 0 []) /\
  flb_hash_table_add ex_hash ex_copy (Some (str "abc")) (PExt 5) [1; 2; 3] (-2) 11 0 [] = None /\
  is_Some (flb_hash_table_add ex_hash ex_copy (Some (str "abc")) (PExt 5) [1; 2; 3] (-2) 11 0 [false]).
Proof. vm_compute. eauto 10. Qed.

(** [flb_hash_table_del_ptr] does not compare lengths: a table that
    holds a pointer under the key abc loses it when asked to delete that
    pointer under the key ab, provided both keys fall into the same bucket,
    whereas [flb_hash_table_del] of ab rightly finds nothing. *)
Theorem del_ptr_deletes_by_prefix :
  contents ex_full !! str "abc" = Some (HRef (PExt 5)) /\
  contents ex_full !! str "ab" = None /\
  option_map (λ r, fst (fst r)) (flb_hash_table_del ex_hash ex_full (Some (str "ab")) [])
    = Some (-1) /\
  option_map (λ r, fst (fst r)) (flb_hash_table_del_ptr ex_hash ex_full (str "ab") (PExt 5) [])
    = Some 0 /\
  contents (table_of (flb_hash_table_del_ptr ex_hash ex_full (str "ab") (PExt 5) [])) = ∅.
Proof. vm_compute. done. Qed.

End HashTable.
