(* ===== verification/Scheduler.v ===== *)
(** * The retry scheduler

    Models the part of src/flb_scheduler.c that delays the retries of failed
    flushes: the capped exponential backoff with jitter, the two queues of
    requests (armed in the event loop, or waiting for the frame check), their
    promotion and their invalidation, and the ids of timer coroutines.

    Parameters of the environment: [now] is [time(NULL)], [fds] tells for each
    [mk_event_timeout_create] whether it succeeds, [samples] is the sequence
    of results of [rand()], [t] the allocation tape.

    The code computes [base * ipow(2, n)] in double precision.  Every
    intermediate value is an integer below 2^31 times a power of two, which a
    double holds exactly up to 2^1023; beyond, the double is infinite and the
    exact integer is larger than any [int] cap, so the minimum with the cap is
    the same: the model computes in [Z]. *)

From S2P Require Import Prelude.

Module Scheduler.

Definition RAND_MAX : Z := 2 ^ 31 - 1.
Definition FLB_SCHED_REQUEST_FRAME : Z := 10.

(** ** Backoff *)

Definition xmin (a b : Z) : Z := if a <? b then a else b.

(** The loop of [random_uniform] on the coming results of [rand()]. *)
Fixpoint draw (limit : Z) (samples : list Z) : option Z :=
  match samples with
  | [] => None
  | ra :: rest => if (ra <? 0) || (limit <=? ra) then draw limit rest else Some ra
  end.

(** [None]: the range is empty (a division by zero in the code), or no sample
    falls below the limit. *)
Definition random_uniform (min max : Z) (samples : list Z) : option Z :=
  let range := max - min + 1 in
  if range =? 0 then None else
  let copies := Z.quot RAND_MAX range in
  let limit := range * copies in
  ra ← draw limit samples; Some (Z.quot ra copies + min).

(** [for (;;)] of [ipow], by the bits of the exponent. *)
Fixpoint ipow_loop (result base : Z) (exp : positive) : Z :=
  match exp with
  | xH => result * base
  | xO exp' => ipow_loop result (base * base) exp'
  | xI exp' => ipow_loop (result * base) (base * base) exp'
  end.

(** A negative exponent never becomes zero by arithmetic shifts. *)
Definition ipow (base exp : Z) : option Z :=
  match exp with
  | Z0 => Some 1
  | Zpos p => Some (ipow_loop 1 base p)
  | Zneg _ => None
  end.

Definition backoff_full_jitter (base cap n : Z) (samples : list Z) : option Z :=
  p ← ipow 2 n;
  let temp := xmin cap (base * p) in
  random_uniform base temp samples.

(** ** Requests *)

(** [armed] is the delay of the timeout created for the request, if any;
    [data] names the task retry, [timer] the timer context. *)
Record flb_sched_request := {
  fd_set : bool;
  armed : option Z;
  created : Z;
  timeout : Z;
  data : nat;
  timer : nat;
}.

Record flb_sched := {
  requests : list flb_sched_request;
  requests_wait : list flb_sched_request;
  timers : list nat;             (* active timer contexts *)
  timers_drop : list nat;        (* invalidated, released by the cleanup *)
  next_timer : nat;
}.

Record sched_config := {
  is_shutting_down : bool;
  sched_base : Z;
  sched_cap : Z;
}.

Definition with_requests (s : flb_sched) (r w : list flb_sched_request) : flb_sched :=
  {| requests := r; requests_wait := w; timers := timers s; timers_drop := timers_drop s;
     next_timer := next_timer s |}.

Definition with_timers (s : flb_sched) (a d : list nat) (n : nat) : flb_sched :=
  {| requests := requests s; requests_wait := requests_wait s; timers := a;
     timers_drop := d; next_timer := n |}.

Definition arm (seconds : Z) (r : flb_sched_request) : flb_sched_request :=
  {| fd_set := true; armed := Some seconds; created := created r; timeout := timeout r;
     data := data r; timer := timer r |}.

(** [fd_ok]: the event loop gave a file descriptor. *)
Definition schedule_request_now (seconds : Z) (fd_ok : bool) (r : flb_sched_request)
    (s : flb_sched) : Z * flb_sched :=
  if fd_ok then (0, with_requests s (requests s ++ [arm seconds r]) (requests_wait s))
  else (-1, s).

Definition schedule_request_wait (r : flb_sched_request) (s : flb_sched) : Z * flb_sched :=
  (0, with_requests s (requests s) (requests_wait s ++ [r])).

(** One request of the wait list: unlinked and armed, or failed to arm, or
    left.  The result is the delay it should be armed with, if due. *)
Definition promote_delay (now : Z) (r : flb_sched_request) : option Z :=
  let passed := i32 (now - created r) in
  if timeout r <? passed then Some 1
  else if timeout r <=? passed + FLB_SCHED_REQUEST_FRAME then Some (Z.abs (passed - timeout r))
  else None.

(** The loop over the wait list: what stays, what failed, and the state. *)
Fixpoint promote_loop (now : Z) (wait : list flb_sched_request) (fds : tape)
    (kept failed : list flb_sched_request) (s : flb_sched)
    : list flb_sched_request * list flb_sched_request * flb_sched * tape :=
  match wait with
  | [] => (kept, failed, s, fds)
  | r :: wait' =>
      match promote_delay now r with
      | None => promote_loop now wait' fds (kept ++ [r]) failed s
      | Some secs =>
          let (ok, fds) := flb_malloc fds in
          let (ret, s') := schedule_request_now secs ok r s in
          if negb (ret =? 0) then promote_loop now wait' fds kept (failed ++ [r]) s'
          else promote_loop now wait' fds kept failed s'
      end
  end.

Definition schedule_request_promote (now : Z) (fds : tape) (s : flb_sched) : flb_sched * tape :=
  let '(kept, failed, s', fds) := promote_loop now (requests_wait s) fds [] [] s in
  (with_requests s' (requests s') (kept ++ failed), fds).

(** ** Timers *)

Definition flb_sched_timer_create (s : flb_sched) (t : tape) : option nat * flb_sched * tape :=
  let (ok, t) := flb_malloc t in
  if ok then (Some (next_timer s),
              with_timers s (timers s ++ [next_timer s]) (timers_drop s) (S (next_timer s)), t)
  else (None, s, t).

Definition unlink (a : nat) (l : list nat) : list nat := filter (λ x : nat, x <> a) l.

Definition flb_sched_timer_invalidate (a : nat) (s : flb_sched) : flb_sched :=
  with_timers s (unlink a (timers s)) (unlink a (timers_drop s) ++ [a]) (next_timer s).

Definition flb_sched_timer_destroy (a : nat) (s : flb_sched) : flb_sched :=
  with_timers s (unlink a (timers s)) (unlink a (timers_drop s)) (next_timer s).

Definition flb_sched_timer_cleanup (s : flb_sched) : Z * flb_sched :=
  (Z.of_nat (length (timers_drop s)),
   foldl (λ s a, flb_sched_timer_destroy a s) s (timers_drop s)).

(** ** Creating, destroying and invalidating requests *)

(** [None] in place of the result: the random draw does not return. *)
Definition flb_sched_request_create (cfg : sched_config) (d : nat) (tries now : Z)
    (samples : list Z) (fds t : tape) (s : flb_sched)
    : option Z * flb_sched * tape :=
  match flb_sched_timer_create s t with
  | (None, s, t) => (Some (-1), s, t)
  | (Some tm, s, t) =>
      let (ok, t) := flb_malloc t in
      if negb ok then (Some (-1), s, t) else
      match (if is_shutting_down cfg then Some 0
             else backoff_full_jitter (sched_base cfg) (sched_cap cfg) tries samples) with
      | None => (None, s, t)
      | Some seconds =>
          let seconds := seconds + 1 in
          let r := {| fd_set := false; armed := None; created := now; timeout := seconds;
                      data := d; timer := tm |} in
          if FLB_SCHED_REQUEST_FRAME <? seconds then
            (Some seconds, snd (schedule_request_wait r s), t)
          else
            let (ret, s) := schedule_request_now seconds (fst (flb_malloc fds)) r s in
            if ret =? -1 then (Some (-1), flb_sched_timer_destroy tm s, t)
            else (Some seconds, s, t)
      end
  end.

Definition flb_sched_retry_now (d : nat) (now : Z) (fds t : tape) (s : flb_sched)
    : Z * flb_sched * tape :=
  match flb_sched_timer_create s t with
  | (None, s, t) => (-1, s, t)
  | (Some tm, s, t) =>
      let (ok, t) := flb_malloc t in
      if negb ok then (-1, flb_sched_timer_destroy tm s, t) else
      let r := {| fd_set := false; armed := None; created := now; timeout := 0;
                  data := d; timer := tm |} in
      let (ret, s) := schedule_request_now 0 (fst (flb_malloc fds)) r s in
      if ret =? -1 then (-1, flb_sched_timer_destroy tm s, t) else (0, s, t)
  end.

(** The first request with these data: the list without it, and the request. *)
Fixpoint take_request (d : nat) (l : list flb_sched_request)
    : option (flb_sched_request * list flb_sched_request) :=
  match l with
  | [] => None
  | r :: l' => if Nat.eqb (data r) d then Some (r, l')
               else '(x, rest) ← take_request d l'; Some (x, r :: rest)
  end.

(** [flb_sched_request_destroy] unlinks the request and invalidates its
    timer; here the caller has taken the request out of its list. *)
Definition flb_sched_request_destroy (r : flb_sched_request) (s : flb_sched) : flb_sched :=
  flb_sched_timer_invalidate (timer r) s.

Definition flb_sched_request_invalidate (d : nat) (s : flb_sched) : Z * flb_sched :=
  match take_request d (requests s) with
  | Some (r, rest) => (0, flb_sched_request_destroy r (with_requests s rest (requests_wait s)))
  | None =>
      match take_request d (requests_wait s) with
      | Some (r, rest) => (0, flb_sched_request_destroy r (with_requests s (requests s) rest))
      | None => (-1, s)
      end
  end.

(** ** Timer coroutine ids *)

(** Ids in use, in list order; the search tries 0, 1, 2, ... *)
Fixpoint coro_id_loop (used : list Z) (id : Z) (fuel : nat) : Z :=
  match fuel with
  | O => id
  | S fuel' =>
      if id <? UINT32_MAX then
        if bool_decide (id ∈ used) then coro_id_loop used (id + 1) fuel' else id
      else id
  end.

(** As many attempts as there are ids in use, and one more, are enough
    ([coro_id_fresh]). *)
Definition sched_timer_coro_get_id (used : list Z) : Z :=
  coro_id_loop used 0 (S (length used)).

Definition sched_timer_coro_get_by_id (used : list Z) (id : Z) : option nat :=
  fst <$> list_find (λ x, x = id) used.

(** ** Facts *)

Lemma ipow_loop_spec r b p : ipow_loop r b p = r * b ^ Zpos p.
Proof.
  revert r b. induction p as [p IH|p IH|]; intros r b; simpl ipow_loop.
  - rewrite IH, <- Z.pow_2_r, <- Z.pow_mul_r by lia.
    replace (Z.pos p~1) with (1 + 2 * Z.pos p) by lia.
    rewrite Z.pow_add_r, Z.pow_1_r by lia. lia.
  - rewrite IH, <- Z.pow_2_r, <- Z.pow_mul_r by lia.
    by replace (Z.pos p~0) with (2 * Z.pos p) by lia.
  - by rewrite Z.pow_1_r.
Qed.

Lemma ipow_spec b n : 0 <= n -> ipow b n = Some (b ^ n).
Proof.
  intros Hn. destruct n as [|p|p]; simpl; [done| |lia].
  by rewrite ipow_loop_spec, Z.mul_1_l.
Qed.

Lemma draw_Some limit samples ra :
  draw limit samples = Some ra -> 0 <= ra < limit.
Proof.
  induction samples as [|x l IH]; simpl; [done|].
  zcase; simpl; try done. intros [= <-]. lia.
Qed.

Lemma draw_exists limit samples x :
  x ∈ samples -> 0 <= x < limit -> is_Some (draw limit samples).
Proof.
  induction samples as [|y l IH]; simpl; [by intros ?%not_elem_of_nil|].
  rewrite elem_of_cons. intros [<-|Hx] Hb; zcase; simpl; eauto; lia.
Qed.

Lemma random_uniform_spec lo hi samples x :
  0 <= lo <= hi -> hi <= RAND_MAX - 1 ->
  x ∈ samples -> 0 <= x < (hi - lo + 1) * (RAND_MAX / (hi - lo + 1)) ->
  exists v, random_uniform lo hi samples = Some v /\ lo <= v <= hi.
Proof.
  intros Hlo Hhi Hx Hb. unfold random_uniform.
  destruct (Z.eqb_spec (hi - lo + 1) 0) as [|_]; [lia|].
  set (n := hi - lo + 1) in *. unfold RAND_MAX in *.
  rewrite Z.quot_div_nonneg by lia. set (c := (2 ^ 31 - 1) / n) in *.
  assert (Hc : 0 < c) by (apply Z.div_str_pos; lia).
  destruct (draw_exists (n * c) samples x Hx Hb) as [ra Hra].
  rewrite Hra. simpl. pose proof (draw_Some _ _ _ Hra).
  exists (Z.quot ra c + lo). split; [done|]. rewrite Z.quot_div_nonneg by lia.
  assert (0 <= ra / c) by (apply Z.div_pos; lia).
  assert (ra / c < n) by (apply Z.div_lt_upper_bound; lia). lia.
Qed.

Lemma xmin_spec a b : xmin a b = Z.min a b.
Proof. unfold xmin. zcase; lia. Qed.

(** ** Promotion *)

(** What identifies a request, whether it is armed or not. *)
Definition ident (r : flb_sched_request) := (created r, timeout r, data r, timer r).

Lemma arm_ident secs r : ident (arm secs r) = ident r.
Proof. done. Qed.

Lemma promote_loop_spec now wait fds kept failed s kept' failed' s' fds' :
  promote_loop now wait fds kept failed s = (kept', failed', s', fds') ->
  exists k f p,
    kept' = kept ++ k /\ failed' = failed ++ f /\
    requests s' = requests s ++ p /\
    Permutation (map ident wait) (map ident k ++ map ident f ++ map ident p) /\
    Forall (λ r, promote_delay now r = None) k /\
    Forall (λ r, exists d r0, r0 ∈ wait /\ promote_delay now r0 = Some d /\ r = arm d r0) p /\
    (fds = [] -> f = [] /\ fds' = []).
Proof.
  revert fds kept failed s. induction wait as [|r wait IH]; intros fds kept failed s; simpl.
  { intros [= <- <- <- <-]. exists [], [], []. rewrite !app_nil_r.
    split_and!; try done. }
  assert (Hmono : forall p, Forall (λ r1, exists d r0, r0 ∈ wait /\ promote_delay now r0 = Some d /\ r1 = arm d r0) p ->
    Forall (λ r1, exists d r0, r0 ∈ r :: wait /\ promote_delay now r0 = Some d /\ r1 = arm d r0) p).
  { intros p Hp. eapply Forall_impl; [exact Hp|]. intros x (d & r0 & H1 & H2 & H3).
    exists d, r0. split_and!; [by apply list_elem_of_further|done..]. }
  destruct (promote_delay now r) as [secs|] eqn:Ed.
  - destruct (flb_malloc fds) as [[] fds1] eqn:Em; simpl; intros H;
      apply IH in H as (k & f & p & H1 & H2 & H3 & H4 & H5 & H6 & H7); clear IH.
    + exists k, f, (arm secs r :: p). simpl in H3. rewrite <- app_assoc in H3.
      split_and!; try done.
      * simpl. rewrite H4, arm_ident. by rewrite !Permutation_middle.
      * constructor; [|by apply Hmono]. exists secs, r.
        split_and!; [apply list_elem_of_here|done..].
      * intros ->. simpl in Em. injection Em as <-. auto.
    + exists k, (r :: f), p. rewrite <- app_assoc in H2.
      split_and!; try done.
      * simpl. rewrite H4. by rewrite Permutation_middle.
      * by apply Hmono.
      * intros ->. simpl in Em. done.
  - intros H. apply IH in H as (k & f & p & H1 & H2 & H3 & H4 & H5 & H6 & H7); clear IH.
    exists (r :: k), f, p. rewrite <- app_assoc in H1.
    split_and!; try done.
    + simpl. by rewrite H4.
    + by constructor.
    + by apply Hmono.
Qed.

(** The delays a due request is armed with: the rest of its timeout, exactly,
    or one second when the deadline has passed. *)
Lemma promote_delay_spec now r d :
  INT_MIN <= now - created r <= INT_MAX ->
  promote_delay now r = Some d ->
  0 <= d /\ ((now - created r <= timeout r /\ now + d = created r + timeout r
              /\ d <= FLB_SCHED_REQUEST_FRAME) \/
             (timeout r < now - created r /\ d = 1)).
Proof.
  intros Hr. unfold promote_delay. rewrite (i32_small _ Hr).
  unfold FLB_SCHED_REQUEST_FRAME. zcase; intros [= <-]; lia.
Qed.

Lemma promote_delay_None now r :
  INT_MIN <= now - created r <= INT_MAX ->
  promote_delay now r = None <->
  now + FLB_SCHED_REQUEST_FRAME < created r + timeout r.
Proof.
  intros Hr. unfold promote_delay. rewrite (i32_small _ Hr).
  unfold FLB_SCHED_REQUEST_FRAME. zcase; split; intros; (done || lia).
Qed.

Lemma take_request_spec d l :
  match take_request d l with
  | Some (r, rest) => data r = d /\ exists l1 l2, l = l1 ++ r :: l2 /\ rest = l1 ++ l2 /\
                        Forall (λ x, data x <> d) l1
  | None => Forall (λ x, data x <> d) l
  end.
Proof.
  induction l as [|x l IH]; simpl; [done|].
  destruct (Nat.eqb_spec (data x) d) as [Hd|Hd].
  - split; [done|]. exists [], l. done.
  - destruct (take_request d l) as [[r rest]|]; simpl.
    + destruct IH as (Hr & l1 & l2 & -> & -> & Hf). split; [done|].
      exists (x :: l1), l2. split_and!; [done..|]. by constructor.
    + by constructor.
Qed.

(** ** Coroutine ids *)

(** A request that is accepted is in a queue. *)
Lemma request_create_queued cfg d tries now samples fds t s secs s' t' :
  flb_sched_request_create cfg d tries now samples fds t s = (Some secs, s', t') -> secs <> -1 ->
  exists r, r ∈ requests s' ++ requests_wait s' /\ data r = d /\ timeout r = secs.
Proof.
  unfold flb_sched_request_create. intros E Hs.
  destruct (flb_sched_timer_create s t) as [[[tm|] s1] t1]; [|by simplify_eq].
  destruct (flb_malloc t1) as [[] t2]; simpl in E; [|by simplify_eq].
  destruct (if is_shutting_down cfg then _ else _) as [x|]; [|done].
  set (r := {| fd_set := false |}) in E.
  destruct (FLB_SCHED_REQUEST_FRAME <? x + 1).
  - simplify_eq. exists r. split; [|done]. simpl. rewrite !elem_of_app, list_elem_of_singleton. auto.
  - unfold schedule_request_now in E. destruct (fst (flb_malloc fds)); simpl in E; [|by simplify_eq].
    simplify_eq. exists (arm (x + 1) r). split; [|done]. simpl.
    rewrite !elem_of_app, list_elem_of_singleton. auto.
Qed.

Lemma coro_id_loop_spec used id fuel :
  NoDup used -> 0 <= id -> (forall j, 0 <= j < id -> j ∈ used) ->
  (length used < Z.to_nat id + fuel)%nat ->
  Z.of_nat (length used) < UINT32_MAX ->
  let r := coro_id_loop used id fuel in
  (r ∉ used) /\ (0 <= r <= Z.of_nat (length used)).
Proof.
  intros Hn. revert id. induction fuel as [|fuel IH]; intros id Hid Hall Hf Hlen; simpl.
  all: assert (Hle : (Z.to_nat id <= length used)%nat).
  all: try (replace (Z.to_nat id) with (length (seqZ 0 id)) by (rewrite length_seqZ; lia);
    apply (submseteq_length (seqZ 0 id) used), NoDup_submseteq;
      [apply NoDup_seqZ|intros j Hj; apply elem_of_seqZ in Hj; apply Hall; lia]).
  - lia.
  - destruct (Z.ltb_spec id UINT32_MAX); [|lia].
    destruct (bool_decide_reflect (id ∈ used)) as [Hin|Hni]; [|split; [done|lia]].
    apply IH; [lia| |lia|done]. intros j Hj. destruct (decide (j = id)) as [->|]; [done|].
    apply Hall. lia.
Qed.

(** The id handed to a new timer coroutine is not in use, and stays below the
    number of coroutines: ids are reused. *)
Lemma coro_id_fresh used :
  NoDup used -> Z.of_nat (length used) < UINT32_MAX ->
  (sched_timer_coro_get_id used ∉ used) /\
  (0 <= sched_timer_coro_get_id used <= Z.of_nat (length used)).
Proof.
  intros Hn Hl. apply coro_id_loop_spec; try done; [|simpl; lia]. intros j Hj. lia.
Qed.

Lemma coro_get_by_id_spec used id k :
  sched_timer_coro_get_by_id used id = Some k -> used !! k = Some id.
Proof.
  unfold sched_timer_coro_get_by_id. intros H.
  destruct (list_find _ used) as [[i x]|] eqn:E; simplify_eq/=.
  apply list_find_Some in E as (H & -> & _). done.
Qed.

Lemma backoff_spec base cap n samples x :
  1 <= base <= cap -> cap <= 2 ^ 30 -> 0 <= n ->
  x ∈ samples -> 0 <= x < 2 ^ 30 - 1 ->
  exists v, backoff_full_jitter base cap n samples = Some v /\
    base <= v <= Z.min cap (base * 2 ^ n).
Proof.
  intros Hb Hc Hn Hx Hr. unfold backoff_full_jitter. rewrite ipow_spec by done. simpl.
  rewrite xmin_spec. set (hi := Z.min cap (base * 2 ^ n)).
  assert (1 <= 2 ^ n) by (pose proof (Z.pow_pos_nonneg 2 n); lia).
  assert (Hhi : base <= hi <= cap) by (unfold hi; nia).
  apply (random_uniform_spec base hi samples x); [lia|unfold RAND_MAX; lia|done|].
  split; [lia|]. eapply Z.lt_le_trans; [apply Hr|].
  unfold RAND_MAX. set (m := hi - base + 1).
  pose proof (Z.div_mod (2 ^ 31 - 1) m). pose proof (Z.mod_pos_bound (2 ^ 31 - 1) m). lia.
Qed.

(** ** Properties *)

(** The request is created or refused, whatever fails, once one of the random
    samples can be used. *)
Lemma request_create_returns cfg d tries now samples x fds t s :
  1 <= sched_base cfg <= sched_cap cfg -> sched_cap cfg <= 2 ^ 30 -> 0 <= tries ->
  x ∈ samples -> 0 <= x < 2 ^ 30 - 1 ->
  exists ret s' t', flb_sched_request_create cfg d tries now samples fds t s = (Some ret, s', t').
Proof.
  intros Hb Hc Ht Hx Hr. unfold flb_sched_request_create.
  destruct (flb_sched_timer_create s t) as [[[tm|] s1] t1]; [|eauto].
  destruct (flb_malloc t1) as [[] t2]; simpl; [|eauto].
  destruct (backoff_spec _ _ _ _ _ Hb Hc Ht Hx Hr) as (v & -> & _).
  destruct (is_shutting_down cfg); cbn zeta iota; (destruct (FLB_SCHED_REQUEST_FRAME <? _); [eauto|]);
    destruct (schedule_request_now _ _ _ _) as [r0 s2]; destruct (r0 =? -1); eauto.
Qed.

(** With a cap just below the base the range of the draw is empty, and the code
    divides by it: nothing in the configuration excludes that. *)
Theorem backoff_divides_by_zero base n samples :
  1 <= base -> 0 <= n -> backoff_full_jitter base (base - 1) n samples = None.
Proof.
  intros Hb Hn. unfold backoff_full_jitter. rewrite ipow_spec by done. simpl. rewrite xmin_spec.
  assert (1 <= 2 ^ n) by (pose proof (Z.pow_pos_nonneg 2 n); lia).
  rewrite Z.min_l by nia. unfold random_uniform. zcase; [done|lia].
Qed.


(** Creating a retry request either places it, with a delay between
    base + 1 and cap + 1 seconds (1 during shutdown), in exactly one queue,
    the armed one when the delay is at most the frame of 10 seconds and the
    waiting one otherwise; or, when the event loop has no descriptor left,
    reports -1 and leaves both queues and the active timers as they were. *)
Theorem request_create_places cfg d tries now samples x fds s :
  1 <= sched_base cfg <= sched_cap cfg -> sched_cap cfg <= 2 ^ 30 -> 0 <= tries ->
  x ∈ samples -> 0 <= x < 2 ^ 30 - 1 -> next_timer s ∉ timers s ->
  exists ret s', flb_sched_request_create cfg d tries now samples fds [] s = (Some ret, s', []) /\
    ((exists secs r, ret = secs /\ data r = d /\ timeout r = secs /\ created r = now /\
        (if is_shutting_down cfg then secs = 1
         else sched_base cfg + 1 <= secs <= sched_cap cfg + 1) /\
        (if FLB_SCHED_REQUEST_FRAME <? secs
         then requests s' = requests s /\ requests_wait s' = requests_wait s ++ [r] /\ armed r = None
         else requests s' = requests s ++ [r] /\ requests_wait s' = requests_wait s
              /\ armed r = Some secs)) \/
     (ret = -1 /\ fst (flb_malloc fds) = false /\
      requests s' = requests s /\ requests_wait s' = requests_wait s /\ timers s' = timers s)).
Proof.
  intros Hb Hc Ht Hx Hr Hfresh. unfold flb_sched_request_create. simpl.
  assert (Hd : exists secs, (if is_shutting_down cfg then Some 0
      else backoff_full_jitter (sched_base cfg) (sched_cap cfg) tries samples) = Some secs /\
      (if is_shutting_down cfg then secs + 1 = 1
       else sched_base cfg + 1 <= secs + 1 <= sched_cap cfg + 1) /\ 0 <= secs).
  { destruct (is_shutting_down cfg); [by exists 0|].
    destruct (backoff_spec _ _ _ _ _ Hb Hc Ht Hx Hr) as (v & Hv & Hbd). exists v.
    split_and!; [done|lia..]. }
  destruct Hd as (secs & -> & Hsecs & H0). cbn zeta.
  set (r := {| fd_set := false; armed := None; created := now; timeout := secs + 1;
               data := d; timer := next_timer s |}).
  destruct (Z.ltb_spec FLB_SCHED_REQUEST_FRAME (secs + 1)) as [Hf|Hf].
  - eexists _, _. split; [done|]. left. exists (secs + 1), r.
    destruct (Z.ltb_spec FLB_SCHED_REQUEST_FRAME (secs + 1)); [|lia]. by split_and!.
  - unfold schedule_request_now. destruct (fst (flb_malloc fds)) eqn:Efd; simpl.
    + eexists _, _. split; [done|]. left. exists (secs + 1), (arm (secs + 1) r).
      destruct (Z.ltb_spec FLB_SCHED_REQUEST_FRAME (secs + 1)); [lia|]. by split_and!.
    + eexists _, _. split; [done|]. right. split_and!; try done. simpl.
      unfold unlink. rewrite filter_app, (filter_ne_notin _ _ Hfresh).
      by rewrite filter_cons_False, filter_nil, app_nil_r by tauto.
Qed.

(** The frame check loses no request, even when descriptors run out:
    the requests of both queues, before and after, are the same; one stays
    waiting only if more than a frame separates it from its deadline (or its
    timeout could not be created), and each promoted one is armed with
    exactly what is left of its timeout, or with one second if its deadline
    has passed. *)
Theorem promote_keeps_requests now fds s s' fds' :
  Forall (λ r, INT_MIN <= now - created r <= INT_MAX) (requests_wait s) ->
  schedule_request_promote now fds s = (s', fds') ->
  Permutation (map ident (requests s' ++ requests_wait s'))
              (map ident (requests s ++ requests_wait s)) /\
  (fds = [] -> Forall (λ r, now + FLB_SCHED_REQUEST_FRAME < created r + timeout r)
                 (requests_wait s')) /\
  exists promoted, requests s' = requests s ++ promoted /\
    Forall (λ r, exists secs, armed r = Some secs /\ 0 <= secs /\
      (now + secs = created r + timeout r \/
       (created r + timeout r < now /\ secs = 1))) promoted.
Proof.
  intros Hrange. unfold schedule_request_promote.
  destruct (promote_loop now (requests_wait s) fds [] [] s) as [[[kept failed] s1] fds1] eqn:E.
  intros [= <- <-]. simpl.
  pose proof E as E'. apply promote_loop_spec in E' as (k & f & p & -> & -> & Hreq & Hperm & Hk & Hp & Hnil).
  rewrite !app_nil_l. rewrite Hreq. split_and!.
  - rewrite !map_app, Hperm, <- !app_assoc. apply Permutation_app_head.
    rewrite (app_assoc (map ident k) (map ident f)). apply Permutation_app_comm.
  - intros ->. destruct (Hnil eq_refl) as [-> _]. rewrite app_nil_r.
    assert (Hsub : Forall (λ r, INT_MIN <= now - created r <= INT_MAX) k).
    { apply Forall_forall. intros r Hr.
      assert (Hin : ident r ∈ map ident (requests_wait s)).
      { rewrite Hperm, elem_of_app, !elem_of_map. eauto. }
      apply elem_of_map in Hin as (r0 & Hid & Hr0). rewrite Forall_forall in Hrange.
      specialize (Hrange _ Hr0). unfold ident in Hid. congruence. }
    clear -Hk Hsub. induction Hk as [|r k Hr _ IH]; constructor.
    + apply Forall_cons in Hsub as [H _]. by apply promote_delay_None.
    + apply Forall_cons in Hsub as [_ H]. by apply IH.
  - exists p. split; [done|]. eapply Forall_impl; [exact Hp|].
    intros r (d & r0 & Hr0 & Hd & ->). exists d. simpl. rewrite Forall_forall in Hrange.
    pose proof (promote_delay_spec now r0 d (Hrange _ Hr0) Hd). split; [done|]. lia.
Qed.

(** Invalidating the request of a task retry removes exactly one
    request with these data, the armed one if there is one, moves its timer
    to the ones to be dropped so that a pending event of it is ignored, and
    leaves every other request in its place; without such a request nothing
    changes. *)
Theorem request_invalidate_removes d s :
  let '(ret, s') := flb_sched_request_invalidate d s in
  (ret = -1 /\ s' = s /\ Forall (λ r, data r <> d) (requests s ++ requests_wait s)) \/
  (ret = 0 /\ exists r l1 l2, data r = d /\ (timer r ∈ timers_drop s') /\
     (timer r ∉ timers s') /\
     ((requests s = l1 ++ r :: l2 /\ requests s' = l1 ++ l2 /\
       requests_wait s' = requests_wait s) \/
      (requests_wait s = l1 ++ r :: l2 /\ requests_wait s' = l1 ++ l2 /\
       requests s' = requests s /\ Forall (λ x, data x <> d) (requests s)))).
Proof.
  unfold flb_sched_request_invalidate.
  assert (Hun : forall a l, a ∉ unlink a l).
  { intros a l. unfold unlink. rewrite list_elem_of_filter. tauto. }
  assert (Hlast : forall (a : nat) l, a ∈ l ++ [a]).
  { intros a l. apply elem_of_app. right. by apply list_elem_of_singleton. }
  pose proof (take_request_spec d (requests s)) as H1.
  destruct (take_request d (requests s)) as [[r rest]|].
  - destruct H1 as (Hd & l1 & l2 & He & -> & Hf). right. split; [done|].
    exists r, l1, l2. simpl. split_and!; [done|apply Hlast|apply Hun|]. by left.
  - pose proof (take_request_spec d (requests_wait s)) as H2.
    destruct (take_request d (requests_wait s)) as [[r rest]|].
    + destruct H2 as (Hd & l1 & l2 & He & -> & Hf). right. split; [done|].
      exists r, l1, l2. simpl. split_and!; [done|apply Hlast|apply Hun|]. by right.
    + left. split_and!; [done..|]. by apply Forall_app.
Qed.

(** *** Witnesses *)

Definition ex_cfg : sched_config :=
  {| is_shutting_down := false; sched_base := 5; sched_cap := 2000 |}.

Definition ex_req : flb_sched_request :=
  {| fd_set := false; armed := None; created := 100; timeout := 25; data := 3%nat; timer := 0%nat |}.

Definition ex_sched : flb_sched :=
  {| requests := []; requests_wait := [ex_req]; timers := [0%nat]; timers_drop := [];
     next_timer := 1%nat |}.


Lemma request_create_places_witness :
  exists ret s', flb_sched_request_create ex_cfg 7 1 200 [123456] [] [] ex_sched = (Some ret, s', []) /\
    ((exists secs r, ret = secs /\ data r = 7%nat /\ timeout r = secs /\ created r = 200 /\
        (if is_shutting_down ex_cfg then secs = 1
         else sched_base ex_cfg + 1 <= secs <= sched_cap ex_cfg + 1) /\
        (if FLB_SCHED_REQUEST_FRAME <? secs
         then requests s' = requests ex_sched /\ requests_wait s' = requests_wait ex_sched ++ [r] /\ armed r = None
         else requests s' = requests ex_sched ++ [r] /\ requests_wait s' = requests_wait ex_sched
              /\ armed r = Some secs)) \/
     (ret = -1 /\ fst (flb_malloc []) = false /\
      requests s' = requests ex_sched /\ requests_wait s' = requests_wait ex_sched /\
      timers s' = timers ex_sched)).
Proof.
  apply (request_create_places ex_cfg 7 1 200 [123456] 123456 [] ex_sched); simpl; try lia.
  - apply list_elem_of_here.
  - rewrite list_elem_of_singleton. discriminate.
Defined.

Lemma promote_keeps_requests_witness :
  exists promoted, requests (fst (schedule_request_promote 117 [] ex_sched))
    = requests ex_sched ++ promoted /\
    Forall (λ r, exists secs, armed r = Some secs /\ 0 <= secs /\
      (117 + secs = created r + timeout r \/
       (created r + timeout r < 117 /\ secs = 1))) promoted.
Proof.
  apply (promote_keeps_requests 117 [] ex_sched _ []); [|vm_compute; reflexivity].
  repeat constructor; vm_compute; discriminate.
Defined.

End Scheduler.
