(* ===== verification/Task.v ===== *)
(** * Tasks: delivery of a chunk to its outputs, results and retries

    Models src/flb_task.c and include/fluent-bit/flb_task.h (task ids, routes,
    retries, the users count), the task map of src/flb_config.c and the handler
    of output results of src/flb_engine.c ([handle_output_event]).

    Tasks and retries live in a heap and are named by addresses; the scheduler
    is that of Scheduler.v.  Calls into components that are not part of this
    file (metrics, the chunk storage, the flush queues of an output) are
    recorded, in order, in a trace of effects.  One of them is the call of a
    synchronous output for the next task in its queue
    ([E_singleplex_flush_next]): what it does to that task is the subject of
    Singleplex.v and is not part of the states here. *)

From S2P Require Import Prelude Router RoutesMask Scheduler.

Module Task.
Import Scheduler.

(** ** The event word an output sends when it finishes *)

Definition FLB_ERROR : Z := 0.
Definition FLB_OK : Z := 1.
Definition FLB_RETRY : Z := 2.
Definition FLB_ENGINE_TASK : Z := 2.

Definition FLB_TASK_RET (val : Z) : Z := Z.shiftr val 28.
Definition FLB_TASK_ID (val : Z) : Z := Z.shiftr (u32 (Z.land val 0xfffc000)) 14.
Definition FLB_TASK_OUT (val : Z) : Z := Z.land val 0x3fff.
Definition FLB_TASK_SET (ret task_id out_id : Z) : Z :=
  u32 (Z.lor (Z.lor (Z.shiftl ret 28) (Z.shiftl task_id 14)) out_id).

Definition FLB_BITS_U64_SET (a b : Z) : Z := Z.lor (u64 (Z.shiftl a 32)) b.
Definition FLB_BITS_U64_HIGH (val : Z) : Z := Z.shiftr val 32.
Definition FLB_BITS_U64_LOW (val : Z) : Z := Z.land val 0xffffffff.

(** ** State *)

Definition FLB_TASK_NEW : Z := 0.
Definition FLB_TASK_RUNNING : Z := 1.
Definition FLB_TASK_ROUTE_INACTIVE : Z := 0.
Definition FLB_TASK_ROUTE_ACTIVE : Z := 1.
Definition FLB_TASK_ROUTE_DROPPED : Z := 2.
Definition FLB_OUT_RETRY_NONE : Z := 0.
Definition FLB_CONFIG_DEFAULT_TASK_MAP_SIZE_LIMIT : Z := 16384.
Definition FLB_CONFIG_DEFAULT_TASK_MAP_SIZE_GROWTH_SiZE : Z := 256.

Record flb_task_route := { rt_status : Z; rt_out : nat }.

(** [rty_addr] is the address the scheduler holds as the data of a request. *)
Record flb_task_retry := { rty_addr : nat; attempts : Z; o_ins : nat }.

Record flb_task := {
  t_id : nat;
  ref_id : Z;
  status : Z;
  users : Z;
  total_events : Z;         (* of the event chunk *)
  ev_size : Z;
  ic : nat;                 (* the input chunk *)
  records : Z;
  routes : list flb_task_route;
  retries : list flb_task_retry;
  i_ins : nat;
}.

Record output := {
  o_id : Z;
  retry_limit : Z;
  o_sync : bool;            (* FLB_OUTPUT_SYNCHRONOUS *)
  o_threaded : bool;
  o_has_latency : bool;
}.

Inductive metric :=
  M_PROC_RECORDS | M_PROC_BYTES | M_RETRIES_FAILED | M_DROPPED_RECORDS
| M_RETRIES | M_RETRIED_RECORDS | M_ERRORS.

#[export] Instance metric_eq_dec : EqDecision metric.
Proof. solve_decision. Defined.

Inductive effect :=
| E_flush_finished (out_id : Z)
| E_singleplex_flush_next (out : nat)
| E_metric (m : metric) (out : nat) (v : Z)
| E_latency (out : nat)
| E_capacity (out : nat)
| E_chunk_set_up_down (c : nat)
| E_chunk_down (c : nat)
| E_chunk_destroy (c : nat) (del : bool)
| E_set_limits (input : nat).

Record engine := {
  task_map : list (option nat);          (* config->task_map *)
  tasks : gmap nat flb_task;
  in_tasks : list (list nat);            (* i_ins->tasks, per input *)
  outputs : list output;
  sched : flb_sched;
  next_addr : nat;
  effects : list effect;
}.

Definition set_map (m : list (option nat)) (w : engine) : engine :=
  {| task_map := m; tasks := tasks w; in_tasks := in_tasks w; outputs := outputs w;
     sched := sched w; next_addr := next_addr w; effects := effects w |}.
Definition set_tasks (m : gmap nat flb_task) (w : engine) : engine :=
  {| task_map := task_map w; tasks := m; in_tasks := in_tasks w; outputs := outputs w;
     sched := sched w; next_addr := next_addr w; effects := effects w |}.
Definition set_in_tasks (l : list (list nat)) (w : engine) : engine :=
  {| task_map := task_map w; tasks := tasks w; in_tasks := l; outputs := outputs w;
     sched := sched w; next_addr := next_addr w; effects := effects w |}.
Definition set_sched (s : flb_sched) (w : engine) : engine :=
  {| task_map := task_map w; tasks := tasks w; in_tasks := in_tasks w; outputs := outputs w;
     sched := s; next_addr := next_addr w; effects := effects w |}.
Definition bump (w : engine) : engine :=
  {| task_map := task_map w; tasks := tasks w; in_tasks := in_tasks w; outputs := outputs w;
     sched := sched w; next_addr := S (next_addr w); effects := effects w |}.
Definition emit (e : effect) (w : engine) : engine :=
  {| task_map := task_map w; tasks := tasks w; in_tasks := in_tasks w; outputs := outputs w;
     sched := sched w; next_addr := next_addr w; effects := effects w ++ [e] |}.

Definition set_retries (l : list flb_task_retry) (k : flb_task) : flb_task :=
  {| t_id := t_id k; ref_id := ref_id k; status := status k; users := users k;
     total_events := total_events k; ev_size := ev_size k; ic := ic k; records := records k;
     routes := routes k; retries := l; i_ins := i_ins k |}.
Definition set_routes (l : list flb_task_route) (k : flb_task) : flb_task :=
  {| t_id := t_id k; ref_id := ref_id k; status := status k; users := users k;
     total_events := total_events k; ev_size := ev_size k; ic := ic k; records := records k;
     routes := l; retries := retries k; i_ins := i_ins k |}.
Definition set_users (n : Z) (k : flb_task) : flb_task :=
  {| t_id := t_id k; ref_id := ref_id k; status := status k; users := n;
     total_events := total_events k; ev_size := ev_size k; ic := ic k; records := records k;
     routes := routes k; retries := retries k; i_ins := i_ins k |}.

Definition update_task (a : nat) (f : flb_task -> flb_task) (w : engine) : engine :=
  set_tasks (alter f a (tasks w)) w.

(** ** The task map (src/flb_config.c) *)

Definition flb_config_task_map_resize (new_size : Z) (w : engine) (t : tape) : Z * engine * tape :=
  if new_size =? Z.of_nat (length (task_map w)) then (0, w, t)
  else if new_size =? 0 then (0, set_map [] w, t)
  else
    let (ok, t) := flb_malloc t in
    if negb ok then (-1, w, t)
    else (0, set_map (take (Z.to_nat new_size) (task_map w)
                      ++ replicate (Z.to_nat new_size - length (task_map w)) None) w, t).

Definition flb_config_task_map_grow (w : engine) (t : tape) : Z * engine * tape :=
  if FLB_CONFIG_DEFAULT_TASK_MAP_SIZE_LIMIT <=? Z.of_nat (length (task_map w)) then (-1, w, t)
  else flb_config_task_map_resize
         (Z.of_nat (length (task_map w)) + FLB_CONFIG_DEFAULT_TASK_MAP_SIZE_GROWTH_SiZE) w t.

(** The lowest free position. *)
Fixpoint first_free (m : list (option nat)) : nat :=
  match m with
  | None :: _ => O
  | Some _ :: m' => S (first_free m')
  | [] => O
  end.

(** [None] is the result -1. *)
Definition map_get_task_id (w : engine) (t : tape) : option nat * engine * tape :=
  let i := first_free (task_map w) in
  if Nat.ltb i (length (task_map w)) then (Some i, w, t)
  else match flb_config_task_map_grow w t with
       | (0, w, t) => (Some i, w, t)
       | (_, w, t) => (None, w, t)
       end.

Definition map_set_task_id (id task : nat) (w : engine) : engine :=
  set_map (<[id := Some task]> (task_map w)) w.

Definition map_free_task_id (id : nat) (w : engine) : engine :=
  set_map (<[id := None]> (task_map w)) w.

Definition flb_task_map_get_task_id := map_get_task_id.

(** ** Retries *)

(** Unlink the retry with this address from a task and from the scheduler. *)
Definition flb_task_retry_destroy (task : nat) (r : flb_task_retry) (w : engine) : engine :=
  let w := set_sched (snd (flb_sched_request_invalidate (rty_addr r) (sched w))) w in
  update_task task
    (λ k, set_retries (filter (λ x, rty_addr x <> rty_addr r) (retries k)) k) w.

(** The first retry of an output. *)
Fixpoint find_retry (out : nat) (l : list flb_task_retry) : option flb_task_retry :=
  match l with
  | [] => None
  | r :: l' => if Nat.eqb (o_ins r) out then Some r else find_retry out l'
  end.

Definition flb_task_retry_count (k : flb_task) (out : nat) : Z :=
  match find_retry out (retries k) with
  | Some r => attempts r
  | None => -1
  end.

Definition flb_task_retry_clean (task out : nat) (w : engine) : Z * engine :=
  match tasks w !! task with
  | None => (-1, w)
  | Some k =>
      match find_retry out (retries k) with
      | Some r => (0, flb_task_retry_destroy task r w)
      | None => (-1, w)
      end
  end.

Definition bump_attempts (addr : nat) (l : list flb_task_retry) : list flb_task_retry :=
  map (λ r, if Nat.eqb (rty_addr r) addr
            then {| rty_addr := rty_addr r; attempts := attempts r + 1; o_ins := o_ins r |}
            else r) l.

(** The chunk may be put down, once the retry is registered. *)
Definition retry_chunk_down (k : flb_task) (w : engine) : engine :=
  let w := if users k <=? 1 then emit (E_chunk_set_up_down (ic k)) w else w in
  if Nat.eqb (length (routes k)) 1 then emit (E_chunk_down (ic k)) w else w.

(** The address and the number of attempts of the retry, [None] for NULL. *)
Definition flb_task_retry_create (task out : nat) (w : engine) (t : tape)
    : option (nat * Z) * engine * tape :=
  match tasks w !! task, outputs w !! out with
  | Some k, Some o =>
      match find_retry out (retries k) with
      | Some r =>
          if (retry_limit o <=? attempts r) && (0 <=? retry_limit o) then
            (None, flb_task_retry_destroy task r w, t)
          else
            let w := update_task task (λ k, set_retries (bump_attempts (rty_addr r) (retries k)) k) w in
            (Some (rty_addr r, attempts r + 1), retry_chunk_down k w, t)
      | None =>
          let (ok, t) := flb_malloc t in
          if negb ok then (None, w, t) else
          let a := next_addr w in
          let r := {| rty_addr := a; attempts := 1; o_ins := out |} in
          let w := update_task task (λ k, set_retries (retries k ++ [r]) k) (bump w) in
          (Some (a, 1), retry_chunk_down k w, t)
      end
  | _, _ => (None, w, t)
  end.

(** ** Destruction and the users count *)

Definition flb_task_destroy (task : nat) (del : bool) (w : engine) : engine :=
  match tasks w !! task with
  | None => w
  | Some k =>
      let w := map_free_task_id (t_id k) w in
      let w := update_task task (set_routes []) w in
      let w := set_in_tasks (alter (filter (λ x : nat, x <> task)) (i_ins k) (in_tasks w)) w in
      let w := emit (E_chunk_destroy (ic k) del) w in
      let w := foldl (λ w r, flb_task_retry_destroy task r w) w (retries k) in
      let w := emit (E_set_limits (i_ins k)) w in
      set_tasks (delete task (tasks w)) w
  end.

Definition flb_task_users_release (task : nat) (w : engine) : engine :=
  match tasks w !! task with
  | None => w
  | Some k => if (users k =? 0) && Nat.eqb (length (retries k)) 0
              then flb_task_destroy task true w else w
  end.

Definition flb_task_users_inc (task : nat) (w : engine) : engine :=
  update_task task (λ k, set_users (users k + 1) k) w.

Definition flb_task_users_dec (task : nat) (release_check : bool) (w : engine) : engine :=
  let w := update_task task (λ k, set_users (users k - 1) k) w in
  if release_check then flb_task_users_release task w else w.

(** [None]: the scheduler does not return. *)
Definition flb_task_retry_reschedule (task : nat) (r : flb_task_retry) (cfg : sched_config)
    (now : Z) (samples : list Z) (fds : tape) (w : engine) (t : tape) : option (Z * engine * tape) :=
  match flb_sched_request_create cfg (rty_addr r) (attempts r) now samples fds t (sched w) with
  | (None, _, _) => None
  | (Some secs, s, t) =>
      let w := set_sched s w in
      if secs =? -1 then
        let w := flb_task_retry_destroy task r w in
        match tasks w !! task with
        | Some k => if (users k =? 0) && Nat.eqb (length (retries k)) 0
                    then Some (-1, flb_task_destroy task true w, t) else Some (-1, w, t)
        | None => Some (-1, w, t)
        end
      else Some (0, w, t)
  end.

(** ** Routes of a task *)

Definition flb_task_get_active_route_count (k : flb_task) : Z :=
  foldl (λ n r, if rt_status r =? FLB_TASK_ROUTE_ACTIVE then n + 1 else n) 0 (routes k).

Definition flb_task_get_route_status (k : flb_task) (out : nat) : Z :=
  match list_find (λ r, rt_out r = out) (routes k) with
  | Some (_, r) => rt_status r
  | None => FLB_TASK_ROUTE_INACTIVE
  end.

Fixpoint set_first_route (out : nat) (new_status : Z) (l : list flb_task_route)
    : list flb_task_route :=
  match l with
  | [] => []
  | r :: l' => if Nat.eqb (rt_out r) out
               then {| rt_status := new_status; rt_out := rt_out r |} :: l'
               else r :: set_first_route out new_status l'
  end.

Definition flb_task_set_route_status (task out : nat) (new_status : Z) (w : engine) : engine :=
  update_task task (λ k, set_routes (set_first_route out new_status (routes k)) k) w.

Definition flb_task_activate_route (task out : nat) := flb_task_set_route_status task out FLB_TASK_ROUTE_ACTIVE.
Definition flb_task_deactivate_route (task out : nat) := flb_task_set_route_status task out FLB_TASK_ROUTE_INACTIVE.
Definition flb_task_drop_route (task out : nat) := flb_task_set_route_status task out FLB_TASK_ROUTE_DROPPED.

(** Tasks with a running user or a pending retry. *)
Definition flb_task_running_count (w : engine) : Z :=
  foldl (λ n a, match tasks w !! a with
                | Some k => if (0 <? users k) || negb (Nat.eqb (length (retries k)) 0)
                            then n + 1 else n
                | None => n
                end) 0 (concat (in_tasks w)).

(** ** Creation *)

Definition task_alloc (w : engine) (t : tape) : option nat * engine * tape :=
  let (ok, t) := flb_malloc t in
  if negb ok then (None, w, t) else
  match map_get_task_id w t with
  | (None, w, t) => (None, w, t)
  | (Some id, w, t) =>
      let a := next_addr w in
      let k := {| t_id := id; ref_id := 0; status := FLB_TASK_NEW; users := 0;
                  total_events := 0; ev_size := 0; ic := 0%nat; records := 0;
                  routes := []; retries := []; i_ins := 0%nat |} in
      (Some a, set_tasks (<[a := k]> (tasks w)) (map_set_task_id id a (bump w)), t)
  end.

(** The routes of a task: [direct] are those of the API or the configuration,
    otherwise [take] tells which outputs are in the route mask and handle the
    type of the event.  [None]: the node of a direct route could not be
    allocated.  The status of a direct route is never initialised: [junk]. *)
Fixpoint direct_routes (junk : Z) (direct : list nat) (t : tape) : option (list flb_task_route) * tape :=
  match direct with
  | [] => (Some [], t)
  | out :: rest =>
      let (ok, t) := flb_malloc t in
      if negb ok then (None, t)
      else let (l, t) := direct_routes junk rest t in
           (cons {| rt_status := junk; rt_out := out |} <$> l, t)
  end.

Fixpoint mask_routes (takes : nat -> bool) (i : nat) (outs : list output) (t : tape)
    : list flb_task_route * tape :=
  match outs with
  | [] => ([], t)
  | _ :: outs' =>
      if takes i then
        let (ok, t) := flb_malloc t in
        let (l, t) := mask_routes takes (S i) outs' t in
        (if ok then {| rt_status := FLB_TASK_ROUTE_INACTIVE; rt_out := i |} :: l else l, t)
      else mask_routes takes (S i) outs' t
  end.

(** The chunk a task is made for. *)
Record task_chunk := { c_addr : nat; c_records : Z; c_size : Z; c_input : nat }.

(** The chunk context and the copy of the tag. *)
Definition flb_event_chunk_create (t : tape) : bool * tape :=
  let (ok, t) := flb_malloc t in
  if negb ok then (false, t) else flb_malloc t.

(** The task and the error flag. *)
Definition flb_task_create (ref : Z) (c : task_chunk) (junk : Z) (direct : list nat)
    (takes : nat -> bool) (w : engine) (t : tape) : option nat * bool * engine * tape :=
  match task_alloc w t with
  | (None, w, t) => (None, true, w, t)
  | (Some a, w, t) =>
      let (ok, t) := flb_event_chunk_create t in
      if negb ok then (None, true, set_tasks (delete a (tasks w)) w, t) else
      let w := update_task a (λ k,
        {| t_id := t_id k; ref_id := ref; status := status k; users := users k;
           total_events := c_records c; ev_size := c_size c; ic := c_addr c;
           records := c_records c; routes := []; retries := []; i_ins := c_input c |}) w in
      let w := set_in_tasks (alter (λ l, l ++ [a]) (c_input c) (in_tasks w)) w in
      match direct with
      | _ :: _ =>
          match direct_routes junk direct t with
          | (None, t) => (None, false, flb_task_destroy a true w, t)
          | (Some l, t) => (Some a, false, update_task a (set_routes l) w, t)
          end
      | [] =>
          let (l, t) := mask_routes takes 0 (outputs w) t in
          let w := update_task a (set_routes l) w in
          match l with
          | [] => (None, false, flb_task_destroy a true w, t)
          | _ => (Some a, false, w, t)
          end
      end
  end.

(** The outputs of the routing components, seen by [flb_task_create]: those
    that handle the type of the chunk and whose bit is set in its mask. *)
Definition route_takes {regex} (event_type : Z) (mask : list Z)
    (cfg : RoutesMask.mask_config)
    (outs : list (Z * Routes.flb_output_instance (regex := regex))) (i : nat) : bool :=
  match outs !! i with
  | Some (id, o) =>
      Routes.flb_router_match_type event_type o
      && RoutesMask.flb_routes_mask_get_bit mask id cfg
  | None => false
  end.

(** ** Results of outputs (src/flb_engine.c) *)

Definition flb_output_get_instance (w : engine) (out_id : Z) : option nat :=
  fst <$> list_find (λ o, o_id o = out_id) (outputs w).

(** The environment of one event: clock, random samples, descriptors. *)
Record event_env := {
  ee_cfg : sched_config;
  ee_now : Z;
  ee_samples : list Z;
  ee_fds : tape;
}.

Definition finish_ok (task out : nat) (k : flb_task) (o : output) (w : engine) : engine :=
  let w := emit (E_metric M_PROC_RECORDS out (total_events k)) w in
  let w := emit (E_metric M_PROC_BYTES out (ev_size k)) w in
  let w := if o_has_latency o then emit (E_latency out) w else w in
  let w := emit (E_capacity out) w in
  let w := snd (flb_task_retry_clean task out w) in
  flb_task_users_dec task true w.

Definition finish_error (task out : nat) (k : flb_task) (w : engine) : engine :=
  let w := emit (E_metric M_ERRORS out 1) w in
  let w := emit (E_metric M_DROPPED_RECORDS out (records k)) w in
  let w := emit (E_capacity out) w in
  let w := snd (flb_task_retry_clean task out w) in
  flb_task_users_dec task true w.

(** [None]: the scheduler does not return (see Scheduler.v). *)
Definition finish_retry (task out : nat) (k : flb_task) (o : output) (env : event_env)
    (w : engine) (t : tape) : option (engine * tape) :=
  if retry_limit o =? FLB_OUT_RETRY_NONE then
    let w := emit (E_metric M_DROPPED_RECORDS out (records k)) w in
    let w := emit (E_capacity out) w in
    let w := snd (flb_task_retry_clean task out w) in
    Some (flb_task_users_dec task true w, t)
  else
    match flb_task_retry_create task out w t with
    | (None, w, t) =>
        let w := emit (E_metric M_RETRIES_FAILED out 1) w in
        let w := emit (E_metric M_DROPPED_RECORDS out (records k)) w in
        let w := emit (E_capacity out) w in
        let w := snd (flb_task_retry_clean task out w) in
        Some (flb_task_users_dec task true w, t)
    | (Some (addr, n), w, t) =>
        let w := flb_task_users_dec task false w in
        match flb_sched_request_create (ee_cfg env) addr n (ee_now env)
                (ee_samples env) (ee_fds env) t (sched w) with
        | (None, _, _) => None
        | (Some secs, s, t) =>
            let w := set_sched s w in
            if secs =? -1 then
              let w := flb_task_retry_destroy task {| rty_addr := addr; attempts := n; o_ins := out |} w in
              Some (flb_task_users_release task w, t)
            else
              let w := emit (E_metric M_RETRIES out 1) w in
              let w := emit (E_metric M_RETRIED_RECORDS out (records k)) w in
              Some (emit (E_capacity out) w, t)
        end
    end.

(** The task and output the word names must exist: the code dereferences
    them without a test; [None] stands for that too. *)
Definition handle_output_event (val : Z) (env : event_env) (w : engine) (t : tape)
    : option (Z * engine * tape) :=
  let type := FLB_BITS_U64_HIGH val in
  let key := FLB_BITS_U64_LOW val in
  if negb (type =? FLB_ENGINE_TASK) then Some (-1, w, t) else
  let ret := FLB_TASK_RET key in
  let task_id := FLB_TASK_ID key in
  let out_id := FLB_TASK_OUT key in
  match task_map w !! Z.to_nat task_id, flb_output_get_instance w out_id with
  | Some (Some task), Some out =>
      match tasks w !! task, outputs w !! out with
      | Some k, Some o =>
          let w := if o_threaded o then w else emit (E_flush_finished out_id) w in
          let w := if o_sync o && ((ret =? FLB_OK) || (ret =? FLB_RETRY) || (ret =? FLB_ERROR))
                   then emit (E_singleplex_flush_next out) w else w in
          if ret =? FLB_OK then Some (0, finish_ok task out k o w, t)
          else if ret =? FLB_RETRY then
            '(w, t) ← finish_retry task out k o env w t; Some (0, w, t)
          else if ret =? FLB_ERROR then Some (0, finish_error task out k w, t)
          else Some (0, w, t)
      | _, _ => None
      end
  | _, _ => None
  end.

(** ** The queue of an output that takes one task at a time *)

Record flb_task_queue := { pending : list nat; in_progress : list nat }.

Definition flb_task_queue_create (t : tape) : option flb_task_queue * tape :=
  let (ok, t) := flb_malloc t in
  if ok then (Some {| pending := []; in_progress := [] |}, t) else (None, t).

(** Every queued element is released; what is left of the lists. *)
Definition flb_task_queue_destroy (q : flb_task_queue) : flb_task_queue :=
  let p := foldl (λ l x, filter (λ y : nat, y <> x) l) (pending q) (pending q) in
  let i := foldl (λ l x, filter (λ y : nat, y <> x) l) (in_progress q) (in_progress q) in
  {| pending := p; in_progress := i |}.

(** ** Event words *)

Lemma task_word_fields ret id out :
  0 <= ret < 2 ^ 4 -> 0 <= id < 2 ^ 14 -> 0 <= out < 2 ^ 14 ->
  FLB_TASK_SET ret id out = ret * 2 ^ 28 + id * 2 ^ 14 + out.
Proof.
  intros Hr Hi Ho. unfold FLB_TASK_SET. rewrite !Z.shiftl_mul_pow2 by lia.
  rewrite (lor_shift_add 28) by lia.
  replace (ret * 2 ^ 28 + id * 2 ^ 14) with ((ret * 2 ^ 14 + id) * 2 ^ 14) by lia.
  rewrite (lor_shift_add 14) by lia. rewrite u32_small; lia.
Qed.

Lemma task_word_decode ret id out :
  0 <= ret < 2 ^ 4 -> 0 <= id < 2 ^ 14 -> 0 <= out < 2 ^ 14 ->
  let w := FLB_TASK_SET ret id out in
  FLB_TASK_RET w = ret /\ FLB_TASK_ID w = id /\ FLB_TASK_OUT w = out /\ 0 <= w < 2 ^ 32.
Proof.
  intros Hr Hi Ho w. unfold w. rewrite task_word_fields by done.
  unfold FLB_TASK_RET, FLB_TASK_ID, FLB_TASK_OUT.
  change 0x3fff with (Z.ones 14). rewrite Z.land_ones by lia.
  replace 0xfffc000 with (Z.shiftl (Z.ones 14) 14) by done.
  rewrite Z.shiftr_div_pow2 by lia. split_and!.
  - symmetry. apply (Z.div_unique _ _ _ (id * 2 ^ 14 + out)); lia.
  - set (x := ret * 2 ^ 28 + id * 2 ^ 14 + out).
    assert (Hl : Z.land x (Z.shiftl (Z.ones 14) 14) = Z.shiftl (Z.land (Z.shiftr x 14) (Z.ones 14)) 14).
    { apply Z.bits_inj'. intros n Hn. rewrite Z.land_spec, !Z.shiftl_spec by lia.
      destruct (Z_lt_dec n 14).
      - rewrite !(Z.testbit_neg_r _ (n - 14)) by lia. apply andb_false_r.
      - rewrite Z.land_spec, Z.shiftr_spec by lia. by replace (n - 14 + 14) with n by lia. }
    rewrite Hl, Z.land_ones, (Z.shiftr_div_pow2 x) by lia.
    replace (x / 2 ^ 14 mod 2 ^ 14) with id.
    + assert (Hs : 0 <= Z.shiftl id 14 < 2 ^ 32) by (rewrite Z.shiftl_mul_pow2; lia).
      rewrite u32_small by done. by rewrite Z.shiftr_shiftl_l, Z.sub_diag, Z.shiftl_0_r by lia.
    + apply (Z.mod_unique _ _ ret); [lia|].
      assert (x / 2 ^ 14 = ret * 2 ^ 14 + id); [|lia].
      symmetry. apply (Z.div_unique _ _ _ out); unfold x; lia.
  - symmetry. apply (Z.mod_unique _ _ (ret * 2 ^ 14 + id)); lia.
  - lia.
  - lia.
Qed.

Lemma u64_word_decode a b : 0 <= a < 2 ^ 32 -> 0 <= b < 2 ^ 32 ->
  FLB_BITS_U64_HIGH (FLB_BITS_U64_SET a b) = a /\ FLB_BITS_U64_LOW (FLB_BITS_U64_SET a b) = b.
Proof.
  intros Ha Hb. unfold FLB_BITS_U64_SET, FLB_BITS_U64_HIGH, FLB_BITS_U64_LOW.
  rewrite u64_small by (rewrite Z.shiftl_mul_pow2 by lia; lia).
  rewrite Z.shiftr_lor, Z.land_lor_distr_l. split.
  - rewrite Z.shiftr_shiftl_l, Z.sub_diag, Z.shiftl_0_r by lia.
    by rewrite Z.shiftr_div_pow2, Z.div_small, Z.lor_0_r by lia.
  - change 0xffffffff with (Z.ones 32). rewrite !Z.land_ones by lia.
    rewrite Z.shiftl_mul_pow2, Z.mod_mul, Z.mod_small by lia. apply Z.lor_0_l.
Qed.

(** ** The task map *)

(** The sizes the map goes through: it starts at 2048 and grows by 256. *)
Definition map_size_ok (w : engine) : Prop :=
  Z.of_nat (length (task_map w)) <= FLB_CONFIG_DEFAULT_TASK_MAP_SIZE_LIMIT /\
  (Z.of_nat (length (task_map w))) mod FLB_CONFIG_DEFAULT_TASK_MAP_SIZE_GROWTH_SiZE = 0.

Lemma first_free_spec m :
  (forall j, (j < first_free m)%nat -> exists a, m !! j = Some (Some a)) /\
  ((first_free m < length m)%nat -> m !! first_free m = Some None) /\
  (first_free m <= length m)%nat.
Proof.
  induction m as [|[a|] m (IH1 & IH2 & IH3)]; simpl.
  - split_and!; [intros; lia|lia|lia].
  - split_and!; [|intros; apply IH2; lia|lia].
    intros [|j] Hj; [eauto|]. apply IH1. lia.
  - split_and!; [intros; lia|done|lia].
Qed.

Lemma grow_spec w t ret w' t' :
  map_size_ok w -> flb_config_task_map_grow w t = (ret, w', t') ->
  (ret = 0 /\ map_size_ok w' /\
   task_map w' = task_map w ++ replicate 256 None /\ tasks w' = tasks w) \/
  (ret = -1 /\ w' = w /\
   (Z.of_nat (length (task_map w)) = FLB_CONFIG_DEFAULT_TASK_MAP_SIZE_LIMIT \/ t <> [])).
Proof.
  intros [Hle Hmod]. unfold flb_config_task_map_grow, flb_config_task_map_resize.
  unfold map_size_ok, FLB_CONFIG_DEFAULT_TASK_MAP_SIZE_LIMIT,
    FLB_CONFIG_DEFAULT_TASK_MAP_SIZE_GROWTH_SiZE in *.
  set (n := length (task_map w)) in *.
  destruct (Z.leb_spec 16384 (Z.of_nat n)).
  { intros [= <- <- <-]. right. split_and!; [done..|]. left. lia. }
  destruct (Z.eqb_spec (Z.of_nat n + 256) (Z.of_nat n)); [lia|].
  destruct (Z.eqb_spec (Z.of_nat n + 256) 0); [lia|].
  destruct t as [|[] t]; simpl; intros [= <- <- <-].
  3:{ right. split_and!; [done..|]. by right. }
  all: left; assert (Hm : take (Z.to_nat (Z.of_nat n + 256)) (task_map w)
      ++ replicate (Z.to_nat (Z.of_nat n + 256) - n) None = task_map w ++ replicate 256 None)
    by (rewrite take_ge by (fold n; lia); do 2 f_equal; lia).
  all: cbn [task_map set_map tasks]; rewrite Hm, length_app, length_replicate; fold n.
  all: assert (Hd : Z.of_nat n = 256 * (Z.of_nat n / 256)) by (apply Z_div_exact_full_2; lia).
  all: split_and!; [done| |rewrite Nat2Z.inj_add, <- Zplus_mod_idemp_l, Hmod; done|done..].
  all: assert (Z.of_nat n / 256 < 64) by (apply Z.div_lt_upper_bound; lia); lia.
Qed.

Lemma map_get_spec w t r w' t' :
  map_size_ok w -> map_get_task_id w t = (r, w', t') ->
  map_size_ok w' /\ tasks w' = tasks w /\
  match r with
  | Some i => task_map w' !! i = Some None /\ Z.of_nat i < 2 ^ 14 /\
              (forall j, (j < i)%nat -> exists a, task_map w' !! j = Some (Some a)) /\
              (forall j x, task_map w !! j = Some x -> task_map w' !! j = Some x)
  | None => w' = w /\ (forall j, (j < length (task_map w))%nat -> exists a, task_map w !! j = Some (Some a)) /\
            (Z.of_nat (length (task_map w)) = FLB_CONFIG_DEFAULT_TASK_MAP_SIZE_LIMIT \/ t <> [])
  end.
Proof.
  intros Hok. unfold map_get_task_id.
  destruct (first_free_spec (task_map w)) as (H1 & H2 & H3).
  set (i := first_free (task_map w)) in *.
  destruct (Nat.ltb_spec i (length (task_map w))) as [Hlt|Hge].
  - intros [= <- <- <-]. split; [done|]. split; [done|].
    split_and!; [by apply H2| |done..].
    pose proof (proj1 Hok). unfold FLB_CONFIG_DEFAULT_TASK_MAP_SIZE_LIMIT in *. lia.
  - assert (Hi : i = length (task_map w)) by lia.
    destruct (flb_config_task_map_grow w t) as [[ret w1] t1] eqn:E.
    apply grow_spec in E as [(-> & Hok' & Hm & Ht)|(-> & -> & Hwhy)]; [| |done].
    + intros [= <- <- <-]. split; [done|]. split; [done|].
      pose proof (proj1 Hok') as Hlen. rewrite Hm in Hlen |- *.
      rewrite length_app, length_replicate in Hlen.
      unfold FLB_CONFIG_DEFAULT_TASK_MAP_SIZE_LIMIT in *. split_and!.
      * rewrite lookup_app_r by lia. apply lookup_replicate. split; [done|lia].
      * lia.
      * intros j Hj. rewrite lookup_app_l by lia. auto.
      * intros j x Hj. by apply lookup_app_l_Some.
    + intros [= <- <- <-]. split; [done|]. split; [done|].
      split_and!; [done| |done]. intros j Hj. apply H1. lia.
Qed.

(** ** Retries *)

(** What the handler keeps true of the retries of every task: one retry per
    output, addresses of their own, and no more attempts than the limit of
    the output allows. *)
Definition retry_ok (w : engine) (r : flb_task_retry) : Prop :=
  (rty_addr r < next_addr w)%nat /\ 1 <= attempts r /\
  forall o, outputs w !! o_ins r = Some o -> 0 < retry_limit o -> attempts r <= retry_limit o.

Definition task_retries_ok (w : engine) (l : list flb_task_retry) : Prop :=
  NoDup (map o_ins l) /\ NoDup (map rty_addr l) /\ Forall (retry_ok w) l.

Definition retries_ok (w : engine) : Prop :=
  forall a k, tasks w !! a = Some k -> task_retries_ok w (retries k).

Lemma find_retry_spec out l :
  match find_retry out l with
  | Some r => r ∈ l /\ o_ins r = out
  | None => forall r, r ∈ l -> o_ins r <> out
  end.
Proof.
  induction l as [|x l IH]; simpl; [by intros r ?%not_elem_of_nil|].
  destruct (Nat.eqb_spec (o_ins x) out) as [Hx|Hx].
  - split; [apply list_elem_of_here|done].
  - destruct (find_retry out l) as [r|].
    + destruct IH. split; [by apply list_elem_of_further|done].
    + intros r [->|Hr]%elem_of_cons; auto.
Qed.

(** Removing the retry found for an output removes the retries of it. *)
Lemma destroy_found w out r l :
  task_retries_ok w l -> find_retry out l = Some r ->
  filter (λ x, rty_addr x <> rty_addr r) l = filter (λ x, o_ins x <> out) l.
Proof.
  intros (Ho & Ha & _) Hf. pose proof (find_retry_spec out l) as H. rewrite Hf in H.
  destruct H as [Hin Hout]. apply filter_ext_in. intros x Hx. split; intros Hne Heq; apply Hne.
  - assert (x = r) as ->; [|done]. eapply (NoDup_map_inj o_ins); eauto. congruence.
  - assert (x = r) as ->; [|done]. by eapply (NoDup_map_inj rty_addr).
Qed.

Lemma no_retry_filter out l :
  find_retry out l = None -> filter (λ x, o_ins x <> out) l = l.
Proof.
  intros Hf. pose proof (find_retry_spec out l) as H. rewrite Hf in H.
  induction l as [|x l IH]; [done|].
  simpl in Hf. destruct (Nat.eqb_spec (o_ins x) out) as [|Hx]; [done|].
  rewrite filter_cons, decide_True by done. f_equal. apply IH; [done|].
  intros r Hr. apply H. by apply list_elem_of_further.
Qed.

Lemma filter_map_NoDup {A B} (f : A -> B) (P : A -> Prop) `{forall x, Decision (P x)} (l : list A) :
  NoDup (map f l) -> NoDup (map f (filter P l)).
Proof.
  induction l as [|x l IH]; [done|]. intros [Hx Hn]%NoDup_cons.
  rewrite filter_cons. case_decide; [|auto]. simpl. constructor; [|auto].
  intros (y & Hy & [_ Hin]%list_elem_of_filter)%elem_of_map. apply Hx. apply elem_of_map. eauto.
Qed.

Lemma retries_ok_filter w (P : flb_task_retry -> Prop) `{forall x, Decision (P x)} l :
  task_retries_ok w l -> task_retries_ok w (filter P l).
Proof.
  intros (H1 & H2 & H3). split_and!; [by apply filter_map_NoDup..|].
  rewrite Forall_forall in H3 |- *. intros x [_ Hx]%list_elem_of_filter. auto.
Qed.

(** The parts of the state [retries_ok] depends on. *)
Lemma task_retries_ok_ext w w' l :
  outputs w' = outputs w -> (next_addr w <= next_addr w')%nat ->
  task_retries_ok w l -> task_retries_ok w' l.
Proof.
  intros Ho Hn (H1 & H2 & H3). split_and!; [done..|]. eapply Forall_impl; [exact H3|].
  intros r (Ha & Hb & Hc). unfold retry_ok. rewrite Ho. split_and!; [lia|done..].
Qed.

Lemma update_retries_ok w w' task f :
  retries_ok w -> outputs w' = outputs w -> (next_addr w <= next_addr w')%nat ->
  tasks w' = alter f task (tasks w) ->
  (forall k, tasks w !! task = Some k -> task_retries_ok w (retries k) -> task_retries_ok w' (retries (f k))) ->
  retries_ok w'.
Proof.
  intros Hok Ho Hn Ht Hf a k Hk. rewrite Ht, lookup_alter in Hk.
  case_decide as Hd.
  - subst a. destruct (tasks w !! task) as [k0|] eqn:E; simplify_eq/=.
    apply Hf; [done|]. by apply (Hok task).
  - eapply task_retries_ok_ext; [done..|]. by apply (Hok a).
Qed.

(** [flb_task_retry_clean] on a well-formed task. *)
Lemma retry_clean_spec task out w k :
  retries_ok w -> tasks w !! task = Some k ->
  let w' := snd (flb_task_retry_clean task out w) in
  tasks w' = <[task := set_retries (filter (λ x, o_ins x <> out) (retries k)) k]> (tasks w) /\
  task_map w' = task_map w /\ outputs w' = outputs w /\ next_addr w' = next_addr w /\
  effects w' = effects w /\ in_tasks w' = in_tasks w.
Proof.
  intros Hok Hk. unfold flb_task_retry_clean. rewrite Hk.
  destruct (find_retry out (retries k)) as [r|] eqn:Hf; simpl.
  - split_and!; try done. rewrite (alter_Some _ _ _ _ Hk). do 2 f_equal.
    eapply destroy_found; [by apply (Hok task)|done].
  - split_and!; try done. rewrite (no_retry_filter _ _ Hf), insert_id; [done|].
    rewrite Hk. by destruct k.
Qed.

(** The task after its output [out] is done with it, before the release. *)
Definition settled (out : nat) (k : flb_task) : flb_task :=
  set_users (users k - 1) (set_retries (filter (λ x, o_ins x <> out) (retries k)) k).

Lemma destroy_spec task w k :
  tasks w !! task = Some k -> retries k = [] ->
  let w' := flb_task_destroy task true w in
  tasks w' = delete task (tasks w) /\ task_map w' = <[t_id k := None]> (task_map w) /\
  effects w' = effects w ++ [E_chunk_destroy (ic k) true; E_set_limits (i_ins k)] /\
  outputs w' = outputs w /\ next_addr w' = next_addr w.
Proof.
  intros Hk E. unfold flb_task_destroy. rewrite Hk, E. simpl. split_and!; try done.
  - apply map_eq. intros j. rewrite !lookup_delete. case_decide; [done|].
    by rewrite lookup_alter_ne.
  - by rewrite <- app_assoc.
Qed.

(** Releasing a task destroys it when nothing uses it and no retry is left. *)
Lemma release_spec task w k :
  tasks w !! task = Some k ->
  let w' := flb_task_users_release task w in
  if (users k =? 0) && bool_decide (retries k = [])
  then tasks w' = delete task (tasks w) /\ task_map w' = <[t_id k := None]> (task_map w) /\
       effects w' = effects w ++ [E_chunk_destroy (ic k) true; E_set_limits (i_ins k)] /\
       outputs w' = outputs w /\ next_addr w' = next_addr w
  else w' = w.
Proof.
  intros Hk. unfold flb_task_users_release. rewrite Hk.
  assert (Hc : Nat.eqb (length (retries k)) 0 = bool_decide (retries k = [])).
  { destruct (retries k); [done|]. by rewrite bool_decide_false. }
  rewrite Hc. destruct (_ && bool_decide _) eqn:E; [|done].
  apply andb_true_iff in E as [_ E%bool_decide_eq_true]. by apply destroy_spec.
Qed.

(** Cleaning the retry of an output and dropping its use of the task. *)
Lemma settle_spec task out w k :
  retries_ok w -> tasks w !! task = Some k ->
  let w' := flb_task_users_dec task true (snd (flb_task_retry_clean task out w)) in
  outputs w' = outputs w /\ next_addr w' = next_addr w /\
  if (users k =? 1) && bool_decide (retries (settled out k) = [])
  then tasks w' = delete task (tasks w) /\ task_map w' = <[t_id k := None]> (task_map w) /\
       effects w' = effects w ++ [E_chunk_destroy (ic k) true; E_set_limits (i_ins k)]
  else tasks w' = <[task := settled out k]> (tasks w) /\ task_map w' = task_map w /\
       effects w' = effects w.
Proof.
  intros Hok Hk. destruct (retry_clean_spec task out w k Hok Hk) as (H1 & H2 & H3 & H4 & H5 & H6).
  set (w1 := snd (flb_task_retry_clean task out w)) in *. clearbody w1.
  assert (Hk1 : tasks (update_task task (λ k0, set_users (users k0 - 1) k0) w1)
                = <[task := settled out k]> (tasks w)).
  { unfold update_task. simpl. rewrite H1.
    erewrite alter_Some by apply lookup_insert_eq. by rewrite insert_insert_eq. }
  unfold flb_task_users_dec. set (w2 := update_task task _ w1) in *.
  assert (Hw2 : task_map w2 = task_map w1 /\ outputs w2 = outputs w1 /\
                next_addr w2 = next_addr w1 /\ effects w2 = effects w1) by done.
  destruct Hw2 as (W2 & W3 & W4 & W5). clearbody w2.
  assert (Hl : tasks w2 !! task = Some (settled out k)) by (rewrite Hk1; apply lookup_insert_eq).
  pose proof (release_spec task w2 _ Hl) as Hr. simpl in Hr.
  replace (users k - 1 =? 0) with (users k =? 1) in Hr by (zcase; lia).
  simpl. destruct (_ && _).
  - destruct Hr as (R1 & R2 & R3 & R4 & R5).
    rewrite R1, R2, R3, R4, R5, Hk1, delete_insert_eq. split_and!; congruence.
  - rewrite Hr, Hk1. split_and!; congruence.
Qed.

(** Effects only. *)
Lemma emit_facts e w :
  tasks (emit e w) = tasks w /\ task_map (emit e w) = task_map w /\
  outputs (emit e w) = outputs w /\ next_addr (emit e w) = next_addr w /\
  sched (emit e w) = sched w /\ effects (emit e w) = effects w ++ [e].
Proof. done. Qed.

Lemma retries_ok_emit e w : retries_ok w -> retries_ok (emit e w).
Proof. done. Qed.
#[local] Hint Resolve retries_ok_emit : flb.

Lemma settle_retries_ok task out w k :
  retries_ok w -> tasks w !! task = Some k ->
  retries_ok (flb_task_users_dec task true (snd (flb_task_retry_clean task out w))).
Proof.
  intros Hok Hk. destruct (settle_spec task out w k Hok Hk) as (Ho & Hn & Hc).
  set (w' := flb_task_users_dec task true _) in *. clearbody w'.
  intros a k' Ha. eapply task_retries_ok_ext; [exact Ho|lia|].
  destruct (_ && _); destruct Hc as (Ht & _ & _); rewrite Ht in Ha.
  - apply lookup_delete_Some in Ha as [_ Ha]. by apply (Hok a).
  - apply lookup_insert_Some in Ha as [[<- <-]|[_ Ha]]; [|by apply (Hok a)].
    unfold settled; simpl. apply retries_ok_filter. by apply (Hok task).
Qed.

(** Records a trace counts for an output as processed, dropped or retried. *)
Definition counts (out : nat) (e : effect) : Z :=
  match e with
  | E_metric m o v =>
      if Nat.eqb o out &&
         bool_decide (m = M_PROC_RECORDS \/ m = M_DROPPED_RECORDS \/ m = M_RETRIED_RECORDS)
      then v else 0
  | _ => 0
  end.

Fixpoint counted (out : nat) (l : list effect) : Z :=
  match l with
  | [] => 0
  | e :: l' => counts out e + counted out l'
  end.

Lemma counted_app out l1 l2 : counted out (l1 ++ l2) = counted out l1 + counted out l2.
Proof. induction l1; simpl; lia. Qed.

(** The other outputs' retries are not touched. *)
Lemma bump_attempts_others x l :
  NoDup (map rty_addr l) -> x ∈ l ->
  filter (λ y, o_ins y <> o_ins x) (bump_attempts (rty_addr x) l)
  = filter (λ y, o_ins y <> o_ins x) l.
Proof.
  intros Hn Hx. unfold bump_attempts.
  assert (Hl : forall y, y ∈ l -> rty_addr y = rty_addr x -> y = x).
  { intros y Hy. by apply (NoDup_map_inj rty_addr l). }
  clear Hn Hx. induction l as [|y l IH]; [done|].
  simpl map. destruct (Nat.eqb_spec (rty_addr y) (rty_addr x)) as [E|E].
  - assert (y = x) as -> by (apply Hl; [apply list_elem_of_here|done]).
    rewrite !filter_cons_False by (simpl; tauto). apply IH. intros; apply Hl; [|done].
    by apply list_elem_of_further.
  - rewrite !filter_cons. rewrite IH; [done|]. intros z Hz. apply Hl. by apply list_elem_of_further.
Qed.

Lemma bump_attempts_maps addr l :
  map o_ins (bump_attempts addr l) = map o_ins l /\
  map rty_addr (bump_attempts addr l) = map rty_addr l.
Proof.
  unfold bump_attempts. rewrite !map_map. split; apply map_ext; intros r; by case_match.
Qed.

Lemma retry_chunk_down_facts k w :
  let w' := retry_chunk_down k w in
  tasks w' = tasks w /\ task_map w' = task_map w /\ outputs w' = outputs w /\
  next_addr w' = next_addr w /\ sched w' = sched w /\
  forall x, counted x (effects w') = counted x (effects w).
Proof.
  unfold retry_chunk_down. destruct (users k <=? 1), (Nat.eqb _ 1); split_and!; try done;
    intros x; simpl; rewrite ?counted_app; simpl; lia.
Qed.

(** One more attempt, within the limit. *)
Lemma bump_retries_ok w l x o :
  task_retries_ok w l -> x ∈ l -> outputs w !! o_ins x = Some o ->
  (0 < retry_limit o -> attempts x + 1 <= retry_limit o) ->
  task_retries_ok w (bump_attempts (rty_addr x) l).
Proof.
  intros (H1 & H2 & H3) Hin Ho Hlt. rewrite Forall_forall in H3.
  destruct (bump_attempts_maps (rty_addr x) l) as [B1 B2].
  split_and!; [by rewrite B1|by rewrite B2|].
  apply Forall_forall. intros y (z & -> & Hz)%elem_of_map. pose proof (H3 z Hz) as (Z1 & Z2 & Z3).
  destruct (Nat.eqb_spec (rty_addr z) (rty_addr x)) as [Heq|]; [|done].
  assert (z = x) as -> by (by eapply (NoDup_map_inj rty_addr)).
  split_and!; simpl; [done|lia|]. intros o' Ho' Hp. rewrite Ho in Ho'. injection Ho' as <-. auto.
Qed.

(** A first attempt, at a new address. *)
Lemma append_retry_ok w l out a :
  task_retries_ok w l -> (forall r, r ∈ l -> o_ins r <> out /\ rty_addr r <> a) -> (a < next_addr w)%nat ->
  task_retries_ok w (l ++ [{| rty_addr := a; attempts := 1; o_ins := out |}]).
Proof.
  intros (H1 & H2 & H3) Hnew Ha.
  assert (Happ : forall f : flb_task_retry -> nat, NoDup (map f l) ->
    (forall r, r ∈ l -> f r <> f {| rty_addr := a; attempts := 1; o_ins := out |}) ->
    NoDup (map f (l ++ [{| rty_addr := a; attempts := 1; o_ins := out |}]))).
  { intros f Hn Hf. rewrite map_app. apply NoDup_app. split_and!; [done| |apply NoDup_singleton].
    intros y (z & -> & Hz)%elem_of_map Hs%list_elem_of_singleton. by apply (Hf z). }
  split_and!; [apply Happ; [done|]; naive_solver|apply Happ; [done|]; naive_solver|].
  apply Forall_app. split; [done|]. apply Forall_singleton.
  split_and!; simpl; [lia..|]. intros. lia.
Qed.

(** Putting a list of retries with one of [out] into a task. *)
Lemma put_retry_ok task out k w w0 l addr n :
  retries_ok w -> tasks w !! task = Some k ->
  outputs w0 = outputs w -> task_map w0 = task_map w -> effects w0 = effects w ->
  (next_addr w <= next_addr w0)%nat -> tasks w0 = <[task := set_retries l k]> (tasks w) ->
  task_retries_ok w0 l -> {| rty_addr := addr; attempts := n; o_ins := out |} ∈ l ->
  filter (λ x, o_ins x <> out) l = filter (λ x, o_ins x <> out) (retries k) ->
  let w' := retry_chunk_down k w0 in
  outputs w' = outputs w /\ retries_ok w' /\ task_map w' = task_map w /\
  (forall x, counted x (effects w') = counted x (effects w)) /\
  exists l, tasks w' = <[task := set_retries l k]> (tasks w) /\
    {| rty_addr := addr; attempts := n; o_ins := out |} ∈ l /\
    filter (λ x, o_ins x <> out) l = filter (λ x, o_ins x <> out) (retries k).
Proof.
  intros Hok Hk Ho Hm He Hn Ht Hl Hin Hf. destruct (retry_chunk_down_facts k w0) as (D1 & D2 & D3 & D4 & _ & D6).
  split_and!; [congruence| |congruence|intros x; by rewrite D6, He|exists l; by rewrite D1].
  apply (update_retries_ok w _ task (set_retries l)); [done|congruence|by rewrite D4| |].
  - rewrite D1, Ht. symmetry. by apply alter_Some.
  - intros k0 Hk0 _. simpl. apply (task_retries_ok_ext w0); [done|by rewrite D4|done].
Qed.

(** Every outcome of [flb_task_retry_create]. *)
Lemma retry_create_spec task out w t r w' t' k o :
  retries_ok w -> tasks w !! task = Some k -> outputs w !! out = Some o ->
  0 <> retry_limit o ->
  flb_task_retry_create task out w t = (r, w', t') ->
  outputs w' = outputs w /\ retries_ok w' /\ task_map w' = task_map w /\
  match r with
  | Some (addr, n) =>
      n = match find_retry out (retries k) with Some x => attempts x + 1 | None => 1 end /\
      (0 < retry_limit o -> n <= retry_limit o) /\
      (forall x, counted x (effects w') = counted x (effects w)) /\
      exists l, tasks w' = <[task := set_retries l k]> (tasks w) /\
        {| rty_addr := addr; attempts := n; o_ins := out |} ∈ l /\
        filter (λ x, o_ins x <> out) l = filter (λ x, o_ins x <> out) (retries k)
  | None =>
      tasks w' = <[task := set_retries (filter (λ x, o_ins x <> out) (retries k)) k]> (tasks w) /\
      effects w' = effects w /\
      (t <> [] \/ (0 < retry_limit o /\ exists x, find_retry out (retries k) = Some x /\
                    attempts x = retry_limit o))
  end.
Proof.
  intros Hok Hk Ho Hlim. unfold flb_task_retry_create. rewrite Hk, Ho.
  pose proof (Hok task k Hk) as Hrk.
  pose proof (find_retry_spec out (retries k)) as Hf.
  destruct (find_retry out (retries k)) as [x|] eqn:Ef.
  - destruct Hf as [Hin Hout]. pose proof Hrk as (_ & Hna & Hall).
    rewrite Forall_forall in Hall. destruct (Hall x Hin) as (_ & _ & Hx3).
    rewrite Hout in Hx3. specialize (Hx3 o Ho).
    destruct (Z.leb_spec (retry_limit o) (attempts x)), (Z.leb_spec 0 (retry_limit o)); cbn [andb].
    1:{ intros [= <- <- <-]. split_and!; try done.
        - eapply (update_retries_ok w _ task); [exact Hok|done..|]. intros k0 _ H1. apply retries_ok_filter. exact H1.
        - etrans; [exact (alter_Some _ _ _ _ Hk)|]. do 2 f_equal. by apply (destroy_found w).
        - right. split; [lia|]. exists x. split; [done|]. lia. }
    all: assert (Hlt : 0 < retry_limit o -> attempts x + 1 <= retry_limit o) by lia; intros [= <- <- <-];
      match goal with |- context [retry_chunk_down _ ?w1] =>
      destruct (put_retry_ok task out k w w1 (bump_attempts (rty_addr x) (retries k)) (rty_addr x) (attempts x + 1))
        as (P1 & P2 & P3 & P4 & P5) end;
      [exact Hok|exact Hk|..|split_and!; [exact P1|exact P2|exact P3|done|exact Hlt|exact P4|exact P5]];
      try first [done|exact (alter_Some _ _ _ _ Hk)|(apply (bump_retries_ok _ _ _ o); by rewrite ?Hout)
            |(rewrite <- Hout; by apply bump_attempts_others)].
    all: apply elem_of_map; exists x; rewrite Nat.eqb_refl; by rewrite <- Hout.
  - destruct (flb_malloc t) as [[] t1] eqn:Em; cbn [negb]; intros [= <- <- <-].
    2:{ split_and!; try done; [|by left; intros ->].
        rewrite (no_retry_filter _ _ Ef), insert_id; [done|]. rewrite Hk. by destruct k. }
    match goal with |- context [retry_chunk_down _ ?w1] =>
      destruct (put_retry_ok task out k w w1 (retries k ++ [{| rty_addr := next_addr w; attempts := 1; o_ins := out |}])
      (next_addr w) 1) as (P1 & P2 & P3 & P4 & P5) end;
      [exact Hok|exact Hk|..|split_and!; [exact P1|exact P2|exact P3|done|lia|exact P4|exact P5]];
      try first [done|exact (alter_Some _ _ _ _ Hk)|simpl; lia|(apply elem_of_app; right; by apply list_elem_of_singleton)].
    + apply append_retry_ok; [apply (task_retries_ok_ext w); [done|simpl; lia|done]| |simpl; lia].
      destruct Hrk as (_ & _ & Hold). rewrite Forall_forall in Hold. intros z Hz.
      split; [by apply Hf|]. destruct (Hold z Hz) as [Hlt _]. lia.
    + by rewrite filter_app, filter_cons_False, filter_nil, app_nil_r by (simpl; tauto).
Qed.

(** ** The handler of results *)

(** The word of a result, as an output builds it. *)
Definition result_word (ret id out_id : Z) : Z :=
  FLB_BITS_U64_SET FLB_ENGINE_TASK (FLB_TASK_SET ret id out_id).

Definition is_result (ret : Z) : Prop := ret = FLB_ERROR \/ ret = FLB_OK \/ ret = FLB_RETRY.

Lemma is_result_range ret : is_result ret -> 0 <= ret < 2 ^ 4.
Proof. unfold is_result, FLB_ERROR, FLB_OK, FLB_RETRY. lia. Qed.

Lemma result_word_decode ret id out_id :
  0 <= ret < 2 ^ 4 -> 0 <= id < 2 ^ 14 -> 0 <= out_id < 2 ^ 14 ->
  FLB_BITS_U64_HIGH (result_word ret id out_id) = FLB_ENGINE_TASK /\
  FLB_TASK_RET (FLB_BITS_U64_LOW (result_word ret id out_id)) = ret /\
  FLB_TASK_ID (FLB_BITS_U64_LOW (result_word ret id out_id)) = id /\
  FLB_TASK_OUT (FLB_BITS_U64_LOW (result_word ret id out_id)) = out_id.
Proof.
  intros Hr Hi Ho. destruct (task_word_decode ret id out_id Hr Hi Ho) as (H1 & H2 & H3 & H4).
  unfold result_word.
  destruct (u64_word_decode FLB_ENGINE_TASK (FLB_TASK_SET ret id out_id)) as [-> ->];
    [unfold FLB_ENGINE_TASK; lia|exact H4|]. by split_and!.
Qed.

(** A result the handler can act on: the task and the output it names. *)
Record addressed (w : engine) (id out_id : Z) (task out : nat) (k : flb_task) (o : output) : Prop := {
  ad_id : 0 <= id < 2 ^ 14;
  ad_out_id : 0 <= out_id < 2 ^ 14;
  ad_task : task_map w !! Z.to_nat id = Some (Some task);
  ad_out : flb_output_get_instance w out_id = Some out;
  ad_k : tasks w !! task = Some k;
  ad_o : outputs w !! out = Some o;
}.

(** What the handler does before it looks at the result changes no state. *)
Definition preamble (ret out_id : Z) (out : nat) (o : output) (w : engine) : engine :=
  let w := if o_threaded o then w else emit (E_flush_finished out_id) w in
  if o_sync o && ((ret =? FLB_OK) || (ret =? FLB_RETRY) || (ret =? FLB_ERROR))
  then emit (E_singleplex_flush_next out) w else w.

Lemma preamble_facts ret out_id out o w :
  let w' := preamble ret out_id out o w in
  tasks w' = tasks w /\ task_map w' = task_map w /\ outputs w' = outputs w /\
  next_addr w' = next_addr w /\ sched w' = sched w /\
  exists pre, effects w' = effects w ++ pre /\ forall x, counted x pre = 0.
Proof.
  unfold preamble. destruct (o_threaded o), (o_sync o && _); simpl; split_and!; try done.
  - exists [E_singleplex_flush_next out]. done.
  - exists []. by rewrite app_nil_r.
  - exists [E_flush_finished out_id; E_singleplex_flush_next out]. by rewrite <- app_assoc.
  - exists [E_flush_finished out_id]. done.
Qed.

Lemma handle_result ret id out_id task out k o env w t :
  is_result ret -> addressed w id out_id task out k o ->
  handle_output_event (result_word ret id out_id) env w t =
  let w := preamble ret out_id out o w in
  if ret =? FLB_OK then Some (0, finish_ok task out k o w, t)
  else if ret =? FLB_RETRY then
    '(w, t) ← finish_retry task out k o env w t; Some (0, w, t)
  else Some (0, finish_error task out k w, t).
Proof.
  intros Hret [Hid Hoid Ht Ho Hk Hout]. unfold handle_output_event.
  destruct (result_word_decode ret id out_id) as (-> & -> & -> & ->); [by apply is_result_range|done..|].
  rewrite Z.eqb_refl. simpl negb. cbv iota. rewrite Ht, Ho, Hk, Hout. unfold preamble. cbv zeta.
  destruct (ret =? FLB_OK) eqn:Ek; [done|]. destruct (ret =? FLB_RETRY) eqn:Er; [done|].
  destruct (Z.eqb_spec ret FLB_ERROR); [done|].
  destruct Hret as [H|[H|H]]; subst ret; done.
Qed.

Lemma retries_ok_same w w' :
  tasks w' = tasks w -> outputs w' = outputs w -> next_addr w' = next_addr w ->
  retries_ok w -> retries_ok w'.
Proof.
  intros Ht Ho Hn Hok a k Hk. rewrite Ht in Hk.
  eapply task_retries_ok_ext; [exact Ho|lia|by apply (Hok a)].
Qed.

(** A task whose output is done: what is left of it, and what is counted. *)
Definition settles (task out : nat) (k : flb_task) (w w' : engine) : Prop :=
  if (users k =? 1) && bool_decide (retries (settled out k) = [])
  then tasks w' = delete task (tasks w) /\ task_map w' = <[t_id k := None]> (task_map w)
  else tasks w' = <[task := settled out k]> (tasks w) /\ task_map w' = task_map w.

Lemma settle_step task out k w0 w w' :
  retries_ok w -> tasks w !! task = Some k ->
  tasks w = tasks w0 -> task_map w = task_map w0 ->
  w' = flb_task_users_dec task true (snd (flb_task_retry_clean task out w)) ->
  settles task out k w0 w' /\ retries_ok w' /\ outputs w' = outputs w /\
  forall x, counted x (effects w') = counted x (effects w).
Proof.
  intros Hok Hk Ht Hm ->. pose proof (settle_retries_ok task out w k Hok Hk) as Hr.
  destruct (settle_spec task out w k Hok Hk) as (Ho & Hn & Hc).
  unfold settles. rewrite <- Ht, <- Hm.
  destruct (_ && _); destruct Hc as (H1 & H2 & H3); split_and!; try done; intros x; rewrite H3;
    [|done]. rewrite counted_app. simpl. lia.
Qed.

(** [settles] does not see an intermediate rewrite of the retries of [out]. *)
Lemma settled_filter out l k :
  filter (λ x, o_ins x <> out) l = filter (λ x, o_ins x <> out) (retries k) ->
  settled out (set_retries l k) = settled out k.
Proof. intros H. unfold settled. simpl. by rewrite H. Qed.

Lemma settles_through task out k l w w1 w' :
  tasks w1 = <[task := set_retries l k]> (tasks w) -> task_map w1 = task_map w ->
  filter (λ x, o_ins x <> out) l = filter (λ x, o_ins x <> out) (retries k) ->
  settles task out (set_retries l k) w1 w' -> settles task out k w w'.
Proof.
  intros Ht Hm Hf. unfold settles. rewrite (settled_filter _ _ _ Hf), Ht, Hm. simpl.
  by rewrite delete_insert_eq, insert_insert_eq.
Qed.

(** The result leaves a retry in the task and a request in the scheduler. *)
Definition retried (task out : nat) (k : flb_task) (o : output) (w w' : engine) : Prop :=
  exists l r, tasks w' = <[task := set_users (users k - 1) (set_retries l k)]> (tasks w) /\
    task_map w' = task_map w /\ r ∈ l /\ o_ins r = out /\
    filter (λ x, o_ins x <> out) l = filter (λ x, o_ins x <> out) (retries k) /\
    attempts r = match find_retry out (retries k) with Some x => attempts x + 1 | None => 1 end /\
    (0 < retry_limit o -> attempts r <= retry_limit o) /\
    exists q, q ∈ requests (sched w') ++ requests_wait (sched w') /\ data q = rty_addr r.

(** The scheduler refused the retry: only then is nothing counted. *)
Definition uncounted (out : nat) (w w' : engine) : Prop :=
  counted out (effects w') = counted out (effects w).

Lemma finish_ok_spec task out k o w :
  retries_ok w -> tasks w !! task = Some k ->
  let w' := finish_ok task out k o w in
  settles task out k w w' /\ retries_ok w' /\ outputs w' = outputs w /\
  counted out (effects w') = counted out (effects w) + total_events k.
Proof.
  intros Hok Hk w'. unfold w', finish_ok.
  edestruct (settle_step task out k w) as (H1 & H2 & H3 & H4);
    [| | | |reflexivity|split_and!; [exact H1|exact H2|rewrite H3|rewrite H4]].
  all: destruct (o_has_latency o); try done; simpl; rewrite !counted_app; simpl;
    rewrite Nat.eqb_refl; simpl; lia.
Qed.

Lemma finish_error_spec task out k w :
  retries_ok w -> tasks w !! task = Some k ->
  let w' := finish_error task out k w in
  settles task out k w w' /\ retries_ok w' /\ outputs w' = outputs w /\
  counted out (effects w') = counted out (effects w) + records k.
Proof.
  intros Hok Hk w'. unfold w', finish_error.
  edestruct (settle_step task out k w) as (H1 & H2 & H3 & H4);
    [| | | |reflexivity|split_and!; [exact H1|exact H2|rewrite H3|rewrite H4]]; try done.
  simpl. rewrite !counted_app. simpl. rewrite Nat.eqb_refl. simpl. lia.
Qed.

(** The retry that could not be scheduled is destroyed and the task released. *)
Lemma unscheduled_spec task out addr n l k w :
  retries_ok w -> tasks w !! task = Some (set_users (users k - 1) (set_retries l k)) ->
  {| rty_addr := addr; attempts := n; o_ins := out |} ∈ l ->
  let r := {| rty_addr := addr; attempts := n; o_ins := out |} in
  let w' := flb_task_users_release task (flb_task_retry_destroy task r w) in
  settles task out (set_retries l k) w w' /\ retries_ok w' /\ outputs w' = outputs w /\
  uncounted out w w'.
Proof.
  intros Hok Hk Hin r.
  assert (Hf : find_retry out l = Some r).
  { pose proof (find_retry_spec out l) as H. pose proof (Hok _ _ Hk) as (Hno & _). simpl in Hno.
    destruct (find_retry out l) as [x|].
    - destruct H as [Hx Ho]. f_equal. by apply (NoDup_map_inj o_ins l).
    - by destruct (H r Hin). }
  assert (Hd : flb_task_retry_destroy task r w = snd (flb_task_retry_clean task out w)).
  { unfold flb_task_retry_clean. rewrite Hk. simpl. by rewrite Hf. }
  rewrite Hd. clear Hd.
  destruct (retry_clean_spec task out w _ Hok Hk) as (H1 & H2 & H3 & H4 & H5 & H6).
  set (w1 := snd (flb_task_retry_clean task out w)) in *. clearbody w1.
  assert (Hl : tasks w1 !! task = Some (settled out (set_retries l k)))
    by (rewrite H1; apply lookup_insert_eq).
  assert (Hok1 : retries_ok w1).
  { eapply (update_retries_ok w w1 task (set_retries (filter (λ x, o_ins x <> out) l)));
      [done..|lia| |].
    - by rewrite H1, (alter_Some _ _ _ _ Hk).
    - intros k0 Hk0 Hr0. simplify_eq. eapply task_retries_ok_ext; [exact H3|lia|].
      simpl in Hr0 |- *. by apply retries_ok_filter. }
  pose proof (release_spec task w1 _ Hl) as Hr. simpl in Hr.
  replace (users k - 1 =? 0) with (users k =? 1) in Hr by (zcase; lia).
  unfold settles, uncounted. simpl. destruct (_ && _).
  - destruct Hr as (R1 & R2 & R3 & R4 & R5). rewrite R1, R2, R3, R4, H1, H2, H3, H5.
    rewrite delete_insert_eq, counted_app. simpl. split_and!; try done; [|lia].
    intros a k0 Hk0. rewrite R1 in Hk0. apply lookup_delete_Some in Hk0 as [_ Hk0].
    eapply task_retries_ok_ext; [exact R4|lia|by apply (Hok1 a)].
  - rewrite Hr, H1, H2, H3, H5. by split_and!.
Qed.

(** How a result ends: counted and settled, counted and retried, or settled
    without being counted because the scheduler did not take the retry. *)
Inductive outcome (task out : nat) (k : flb_task) (o : output) (ret : Z) (w w' : engine) : Prop :=
| out_settled :
    settles task out k w w' ->
    counted out (effects w') = counted out (effects w)
      + (if ret =? FLB_OK then total_events k else records k) ->
    outcome task out k o ret w w'
| out_retried :
    ret = FLB_RETRY -> retry_limit o <> 0 -> retried task out k o w w' ->
    counted out (effects w') = counted out (effects w) + records k ->
    outcome task out k o ret w w'
| out_unscheduled :
    ret = FLB_RETRY -> retry_limit o <> 0 -> settles task out k w w' -> uncounted out w w' ->
    outcome task out k o ret w w'.

Lemma settled_counted task out k w0 w v :
  retries_ok w -> tasks w !! task = Some k -> tasks w = tasks w0 -> task_map w = task_map w0 ->
  counted out (effects w) = counted out (effects w0) + v ->
  let w' := flb_task_users_dec task true (snd (flb_task_retry_clean task out w)) in
  settles task out k w0 w' /\ retries_ok w' /\
  counted out (effects w') = counted out (effects w0) + v.
Proof.
  intros Hok Hk Ht Hm Hc w'. destruct (settle_step task out k w0 w w' Hok Hk Ht Hm eq_refl)
    as (H1 & H2 & _ & H4). split_and!; [done..|]. by rewrite H4.
Qed.

(** One user less, while the task has a retry. *)
Lemma users_dec_keeps task l k w w1 :
  retries_ok w1 -> tasks w1 = <[task := set_retries l k]> (tasks w) ->
  let w2 := flb_task_users_dec task false w1 in
  tasks w2 = <[task := set_users (users k - 1) (set_retries l k)]> (tasks w) /\ retries_ok w2 /\
  task_map w2 = task_map w1 /\ effects w2 = effects w1.
Proof.
  intros Hok Ht w2. split_and!; try done.
  - unfold w2, flb_task_users_dec, update_task. simpl. rewrite Ht.
    erewrite alter_Some by apply lookup_insert_eq. by rewrite insert_insert_eq.
  - eapply (update_retries_ok w1 w2 task); [done..|]. by intros k0 _ ?.
Qed.

Lemma finish_retry_spec task out k o env w t w' t' :
  retries_ok w -> tasks w !! task = Some k -> outputs w !! out = Some o ->
  finish_retry task out k o env w t = Some (w', t') ->
  retries_ok w' /\ outcome task out k o FLB_RETRY w w'.
Proof.
  intros Hok Hk Ho. unfold finish_retry.
  destruct (Z.eqb_spec (retry_limit o) FLB_OUT_RETRY_NONE) as [Hz|Hz].
  { intros [= <- <-]. edestruct (settled_counted task out k w) as (H1 & H2 & H3).
    6: { split; [exact H2|apply out_settled; [exact H1|exact H3]]. }
    all: try done. simpl. rewrite !counted_app. simpl. rewrite Nat.eqb_refl. simpl. lia. }
  assert (Hz' : 0 <> retry_limit o) by (unfold FLB_OUT_RETRY_NONE in Hz; lia).
  destruct (flb_task_retry_create task out w t) as [[[[addr n]|] w1] t1] eqn:Ec;
    apply (retry_create_spec _ _ _ _ _ _ _ k o) in Ec; try done;
    destruct Ec as (Eo & Ehok & Em & Ec).
  - destruct Ec as (En & Elim & Ecnt & l & Et & Ein & Ef).
    destruct (users_dec_keeps task l k w w1 Ehok Et) as (Ht2 & Hok2 & W2 & W5).
    set (w2 := flb_task_users_dec task false w1) in *. clearbody w2.
    destruct (flb_sched_request_create _ _ _ _ _ _ _ _) as [[[secs|] s] t2] eqn:Es; [|done].
    destruct (Z.eqb_spec secs (-1)) as [|Hsecs]; intros [= <- <-].
    + destruct (unscheduled_spec task out addr n l k (set_sched s w2)) as (U1 & U2 & U3 & U4);
        [done|simpl; rewrite Ht2; apply lookup_insert_eq|done|].
      split; [done|]. apply out_unscheduled; [done..| |].
      * eapply (settles_through _ _ _ l w w1); [done..|].
        unfold settles in *. simpl in U1. rewrite Ht2, W2, delete_insert_eq, insert_insert_eq in U1.
        by rewrite Et, delete_insert_eq, insert_insert_eq.
      * unfold uncounted in *. rewrite U4. simpl. by rewrite W5, Ecnt.
    + split; [done|].
      destruct (request_create_queued _ _ _ _ _ _ _ _ _ _ _ Es Hsecs) as (q & Hq & Hdat & _).
      apply out_retried; [done..| |].
      * eexists l, _. simpl. split_and!; [done|by rewrite W2|exact Ein|done..|].
        by exists q.
      * simpl. rewrite !counted_app. simpl. rewrite Nat.eqb_refl. simpl. rewrite W5, Ecnt. lia.
  - destruct Ec as (Et & Ee & _). intros [= <- <-].
    edestruct (settled_counted task out
      (set_retries (filter (λ x, o_ins x <> out) (retries k)) k) w1) as (H1 & H2 & H3).
    6: { split; [exact H2|]. apply out_settled.
         - eapply settles_through; [exact Et|exact Em| |exact H1].
           rewrite list_filter_filter. apply filter_ext_in. naive_solver.
         - etrans; [exact H3|]. rewrite Ee. reflexivity. }
    all: try done.
    + simpl. rewrite Et. apply lookup_insert_eq.
    + simpl. rewrite !counted_app. simpl. rewrite Nat.eqb_refl. simpl. lia.
Qed.

(** What the scheduler needs to answer: its bounds, and a usable sample. *)
Definition env_ok (env : event_env) : Prop :=
  1 <= sched_base (ee_cfg env) <= sched_cap (ee_cfg env) /\ sched_cap (ee_cfg env) <= 2 ^ 30 /\
  exists x, x ∈ ee_samples env /\ 0 <= x < 2 ^ 30 - 1.

Lemma finish_retry_returns task out k o env w t :
  env_ok env -> retries_ok w -> tasks w !! task = Some k -> outputs w !! out = Some o ->
  exists w' t', finish_retry task out k o env w t = Some (w', t').
Proof.
  intros (Hb & Hc & x & Hx & Hr) Hok Hk Ho. unfold finish_retry.
  destruct (Z.eqb_spec (retry_limit o) FLB_OUT_RETRY_NONE) as [|Hz]; [eauto|].
  assert (Hz' : 0 <> retry_limit o) by (unfold FLB_OUT_RETRY_NONE in Hz; lia).
  destruct (flb_task_retry_create task out w t) as [[[[addr n]|] w1] t1] eqn:Ec; [|eauto].
  apply (retry_create_spec _ _ _ _ _ _ _ k o) in Ec; try done.
  destruct Ec as (_ & Hok1 & _ & _ & _ & _ & l & Et & Ein & _).
  assert (Hn : 0 <= n).
  { assert (Hl : tasks w1 !! task = Some (set_retries l k)) by (rewrite Et; apply lookup_insert_eq).
    destruct (Hok1 _ _ Hl) as (_ & _ & Hall). rewrite Forall_forall in Hall.
    destruct (Hall _ Ein) as (_ & H1 & _). simpl in H1. lia. }
  edestruct (request_create_returns (ee_cfg env) addr n) as (ret & s' & t2 & Hret);
    [done..|exact Hx|done|]. rewrite Hret. destruct (ret =? -1); eauto.
Qed.

Lemma outcome_ext task out k o ret w w1 w' pre :
  tasks w1 = tasks w -> task_map w1 = task_map w -> effects w1 = effects w ++ pre ->
  counted out pre = 0 -> outcome task out k o ret w1 w' -> outcome task out k o ret w w'.
Proof.
  intros Ht Hm He Hp H.
  assert (Hc : counted out (effects w1) = counted out (effects w)) by (rewrite He, counted_app; lia).
  destruct H as [Hs H|Hr Hl (l & r & H1) H|Hr Hl Hs H]; unfold settles, uncounted in *;
    rewrite ?Ht, ?Hm, ?Hc in *.
  - by apply out_settled.
  - apply out_retried; try done. by exists l, r.
  - by apply out_unscheduled.
Qed.

(** The handler answers every result, keeps the retries well formed and ends
    the result in one of the three ways. *)
Lemma result_outcome ret id out_id task out k o env w t :
  is_result ret -> addressed w id out_id task out k o -> retries_ok w ->
  (ret = FLB_RETRY -> env_ok env) ->
  exists w' t', handle_output_event (result_word ret id out_id) env w t = Some (0, w', t') /\
    retries_ok w' /\ outcome task out k o ret w w'.
Proof.
  intros Hret Had Hok Henv. rewrite (handle_result _ _ _ _ _ _ _ _ _ _ Hret Had). cbv zeta.
  destruct (preamble_facts ret out_id out o w) as (P1 & P2 & P3 & P4 & P5 & pre & P6 & P7).
  set (w1 := preamble ret out_id out o w) in *. clearbody w1.
  pose proof (retries_ok_same _ _ P1 P3 P4 Hok) as Hok1.
  pose proof (ad_k _ _ _ _ _ _ _ Had) as Hk. rewrite <- P1 in Hk.
  pose proof (ad_o _ _ _ _ _ _ _ Had) as Ho. rewrite <- P3 in Ho.
  destruct (Z.eqb_spec ret FLB_OK) as [->|Hnok].
  { destruct (finish_ok_spec task out k o w1 Hok1 Hk) as (H1 & H2 & _ & H3).
    eexists _, _. split; [done|]. split; [done|]. eapply outcome_ext; [done..|].
    by apply out_settled. }
  destruct (Z.eqb_spec ret FLB_RETRY) as [->|Hnr].
  { destruct (finish_retry_returns task out k o env w1 t) as (w' & t' & Hf); [auto..|].
    rewrite Hf. exists w', t'. split; [done|].
    apply finish_retry_spec in Hf as [H1 H2]; [|done..]. split; [done|].
    by eapply outcome_ext. }
  destruct (finish_error_spec task out k w1 Hok1 Hk) as (H1 & H2 & _ & H3).
  eexists _, _. split; [done|]. split; [done|]. eapply outcome_ext; [done..|].
  apply out_settled; [done|]. destruct (Z.eqb_spec ret FLB_OK); done.
Qed.

Lemma mask_routes_spec takes i outs :
  mask_routes takes i outs [] =
  (map (λ j, {| rt_status := FLB_TASK_ROUTE_INACTIVE; rt_out := j |})
       (List.filter takes (seq i (length outs))), []).
Proof.
  revert i. induction outs as [|o outs IH]; intros i; [done|]. simpl.
  destruct (takes i); simpl; by rewrite IH.
Qed.

(** ** Properties *)

(** The word an output sends when it is done names its result, its task
    and itself: for every task id and output id the engine can hand out (14
    bits each) and every result code, the engine reads back what was sent. *)
Theorem event_word_roundtrip ret id out_id :
  0 <= ret < 2 ^ 4 -> 0 <= id < 2 ^ 14 -> 0 <= out_id < 2 ^ 14 ->
  let val := FLB_BITS_U64_SET FLB_ENGINE_TASK (FLB_TASK_SET ret id out_id) in
  FLB_BITS_U64_HIGH val = FLB_ENGINE_TASK /\
  FLB_TASK_RET (FLB_BITS_U64_LOW val) = ret /\
  FLB_TASK_ID (FLB_BITS_U64_LOW val) = id /\
  FLB_TASK_OUT (FLB_BITS_U64_LOW val) = out_id.
Proof. apply result_word_decode. Qed.

(** A new task gets the lowest free id, and the id fits the event word:
    all lower slots are taken, the slot was free, every other slot is kept and
    the map never outgrows the ids a word can carry.  Creation fails only when
    an allocation does or when all 16384 ids are taken, and then no slot and no
    task changed. *)
Theorem task_id_lowest_free w t r w' t' :
  map_size_ok w -> task_alloc w t = (r, w', t') ->
  map_size_ok w' /\
  match r with
  | Some a => exists k, tasks w' = <[a := k]> (tasks w) /\
      Z.of_nat (t_id k) < 2 ^ 14 /\ task_map w' !! t_id k = Some (Some a) /\
      (forall j, (j < t_id k)%nat -> exists b, task_map w' !! j = Some (Some b)) /\
      (forall j x, task_map w !! j = Some x -> j <> t_id k -> task_map w' !! j = Some x) /\
      (forall b, task_map w !! t_id k <> Some (Some b))
  | None => task_map w' = task_map w /\ tasks w' = tasks w /\
      (t <> [] \/ Z.of_nat (length (task_map w)) = FLB_CONFIG_DEFAULT_TASK_MAP_SIZE_LIMIT /\
         forall j, (j < length (task_map w))%nat -> exists b, task_map w !! j = Some (Some b))
  end.
Proof.
  intros Hok. unfold task_alloc. destruct (flb_malloc t) as [ok t1] eqn:Em.
  destruct ok; simpl.
  2:{ intros [= <- <- <-]. split_and!; [done..|]. left. by intros ->. }
  destruct (map_get_task_id w t1) as [[[id|] w1] t2] eqn:Eg;
    apply map_get_spec in Eg as (Hok1 & Ht & Hr); try done; intros [= <- <- <-].
  - destruct Hr as (H1 & H2 & H3 & H4). split.
    { unfold map_size_ok in *. simpl. by rewrite length_insert. }
    eexists. split; [simpl; by rewrite Ht|]. simpl. split_and!; [done| | | |].
    + apply list_lookup_insert_eq. by apply lookup_lt_Some in H1.
    + intros j Hj. rewrite list_lookup_insert_ne by lia. auto.
    + intros j x Hj Hne. rewrite list_lookup_insert_ne by done. auto.
    + intros b Hb. apply H4 in Hb. congruence.
  - destruct Hr as (-> & H1 & H2). split_and!; [done..|]. destruct H2 as [H2|H2]; [by right|].
    left. intros ->. by injection Em as <-.
Qed.

(** C33: when the settings of the backoff are in order (1 <= base <= cap <= 2^30,
    which the code does not check, and a draw of [rand()] that can be used), a
    RETRY result of an output that takes retries is answered, whatever
    allocations fail.  Afterwards every task still has at most one retry per
    output and none with more attempts than its limit, and either the task
    waits with a retry of one more attempt that the scheduler holds, or the
    output is done with the task; it is always done with it once the limit is
    reached.  (The next task in the queue of a synchronous output is started by
    a call that is only recorded.) *)
Theorem retry_result_bounded id out_id task out k o env w t :
  addressed w id out_id task out k o -> retries_ok w -> env_ok env -> retry_limit o <> 0 ->
  exists w' t', handle_output_event (result_word FLB_RETRY id out_id) env w t = Some (0, w', t') /\
    retries_ok w' /\
    (settles task out k w w' \/ retried task out k o w w') /\
    (forall x, find_retry out (retries k) = Some x -> attempts x = retry_limit o ->
       settles task out k w w').
Proof.
  intros Had Hok Henv Hlim.
  destruct (result_outcome FLB_RETRY id out_id task out k o env w t) as (w' & t' & H1 & H2 & H3);
    [by right; right|done..|].
  exists w', t'. split; [done|]. split; [done|].
  destruct H3 as [Hs _|_ _ Hr _|_ _ Hs _]; [auto| |auto]. split; [auto|].
  intros x Hx Hatt. destruct Hr as (l & r & _ & _ & _ & _ & _ & Hn & Hle & _).
  rewrite Hx in Hn.
  pose proof (Hok _ _ (ad_k _ _ _ _ _ _ _ Had)) as (_ & _ & Hall).
  pose proof (find_retry_spec out (retries k)) as Hf. rewrite Hx in Hf.
  rewrite Forall_forall in Hall. destruct (Hall x (proj1 Hf)) as (_ & Hp & _). lia.
Qed.

(** C12: an OK or ERROR result, or a RETRY of an output that takes no retries,
    ends that output's use of the task: its retry is gone, one user less; the
    task is destroyed and its id freed exactly when that was the last user and
    no other output waits to retry; no other task and no other id changes. *)
Theorem result_settles_task ret id out_id task out k o env w t :
  is_result ret -> (ret = FLB_RETRY -> retry_limit o = 0 /\ env_ok env) ->
  addressed w id out_id task out k o -> retries_ok w ->
  exists w' t', handle_output_event (result_word ret id out_id) env w t = Some (0, w', t') /\
    if (users k =? 1) && bool_decide (filter (λ r, o_ins r <> out) (retries k) = [])
    then tasks w' = delete task (tasks w) /\ task_map w' = <[t_id k := None]> (task_map w)
    else tasks w' = <[task := settled out k]> (tasks w) /\ task_map w' = task_map w.
Proof.
  intros Hret Hnone Had Hok.
  destruct (result_outcome ret id out_id task out k o env w t) as (w' & t' & H1 & H2 & H3);
    [done..|intros Hr; by destruct (Hnone Hr)|].
  exists w', t'. split; [done|].
  destruct H3 as [Hs _|Hr Hl _ _|Hr Hl _ _]; [exact Hs|destruct (Hnone Hr); lia..].
Qed.

(** Every result is counted once: the records of the task are added to
    exactly one of the output's processed, dropped and retried counters, except
    for a RETRY the scheduler does not take: the output is then done with the
    task and its records are lost without being counted. *)
Theorem result_counted_once ret id out_id task out k o env w t :
  is_result ret -> addressed w id out_id task out k o -> retries_ok w ->
  (ret = FLB_RETRY -> env_ok env) -> total_events k = records k ->
  exists w' t', handle_output_event (result_word ret id out_id) env w t = Some (0, w', t') /\
    (counted out (effects w') = counted out (effects w) + records k \/
     (ret = FLB_RETRY /\ settles task out k w w' /\
      counted out (effects w') = counted out (effects w))).
Proof.
  intros Hret Had Hok Henv Htot.
  destruct (result_outcome ret id out_id task out k o env w t) as (w' & t' & H1 & H2 & H3); [done..|].
  exists w', t'. split; [done|].
  destruct H3 as [_ Hc|_ _ _ Hc|Hr _ Hs Hc]; [|by left|by right].
  left. rewrite Hc. destruct (ret =? FLB_OK); by rewrite ?Htot.
Qed.

(** When the event chunk of a new task cannot be allocated the task is
    freed but the id it was given stays taken, by an address that no longer
    holds a task. *)
Theorem create_failure_keeps_id ref c junk direct takes w t t1 t2 :
  flb_malloc t = (true, t1) -> flb_event_chunk_create t1 = (false, t2) ->
  (first_free (task_map w) < length (task_map w))%nat ->
  exists w' t', flb_task_create ref c junk direct takes w t = (None, true, w', t') /\
    task_map w' !! first_free (task_map w) = Some (Some (next_addr w)) /\
    tasks w' !! next_addr w = None.
Proof.
  intros Hm Hev Hlt. unfold flb_task_create, task_alloc. rewrite Hm. simpl negb. cbv iota.
  unfold map_get_task_id. apply Nat.ltb_lt in Hlt as Hb. rewrite Hb. simpl. rewrite Hev. simpl.
  eexists _, _. split; [done|]. simpl. split; [by apply list_lookup_insert_eq|].
  apply lookup_delete_eq.
Qed.

(** For an input without direct routes, and with memory available, a new
    task has one inactive route for each output that takes the chunk, in the
    order of the outputs, no user and no retry, and is the last task of its
    input; if no output takes the chunk there is no task, the chunk is destroyed
    and the map has the ids it had. *)
Theorem create_task_routes ref c junk takes w :
  map_size_ok w -> (first_free (task_map w) < length (task_map w))%nat ->
  tasks w !! next_addr w = None ->
  let id := first_free (task_map w) in
  let a := next_addr w in
  let outs := List.filter takes (seq 0 (length (outputs w))) in
  exists w', flb_task_create ref c junk [] takes w [] =
      (if bool_decide (outs = []) then None else Some a, false, w', []) /\
    if bool_decide (outs = [])
    then task_map w' = task_map w /\ tasks w' = tasks w /\
         effects w' = effects w ++ [E_chunk_destroy (c_addr c) true; E_set_limits (c_input c)]
    else task_map w' = <[id := Some a]> (task_map w) /\ effects w' = effects w /\
         in_tasks w' = alter (λ l, l ++ [a]) (c_input c) (in_tasks w) /\
         exists k, tasks w' = <[a := k]> (tasks w) /\ t_id k = id /\
           users k = 0 /\ retries k = [] /\ records k = c_records c /\
           total_events k = records k /\
           routes k = map (λ j, {| rt_status := FLB_TASK_ROUTE_INACTIVE; rt_out := j |}) outs.
Proof.
  intros Hok Hlt Hfresh id a outs. destruct (first_free_spec (task_map w)) as (_ & Hfree & _).
  specialize (Hfree Hlt). unfold flb_task_create, task_alloc. simpl negb. cbv iota.
  unfold map_get_task_id. apply Nat.ltb_lt in Hlt as Hb. rewrite Hb. fold id a.
  cbv iota beta zeta delta [negb flb_malloc flb_event_chunk_create].
  match goal with |- context [set_in_tasks ?l ?x] => set (w1 := set_in_tasks l x) end.
  simpl outputs. rewrite mask_routes_spec. fold outs.
  set (k0 := {| t_id := id; ref_id := ref; status := FLB_TASK_NEW; users := 0;
                total_events := c_records c; ev_size := c_size c; ic := c_addr c;
                records := c_records c; routes := []; retries := []; i_ins := c_input c |}).
  assert (Ht1 : tasks w1 = <[a := k0]> (tasks w)).
  { unfold w1. simpl. erewrite alter_Some by apply lookup_insert_eq. by rewrite insert_insert_eq. }
  assert (Hw1 : task_map w1 = <[id := Some a]> (task_map w) /\ effects w1 = effects w /\
                in_tasks w1 = alter (λ l, l ++ [a]) (c_input c) (in_tasks w)) by done.
  destruct Hw1 as (M1 & E1 & I1). clearbody w1.
  destruct outs as [|j outs].
  - rewrite bool_decide_true by done. simpl map. cbv iota.
    eexists. split; [done|]. set (w2 := update_task a (set_routes []) w1).
    assert (Ht2 : tasks w2 = <[a := k0]> (tasks w)).
    { unfold w2. simpl. rewrite Ht1, (alter_Some _ a _ k0), insert_insert_eq by apply lookup_insert_eq.
      done. }
    assert (Hk2 : tasks w2 !! a = Some k0) by (rewrite Ht2; apply lookup_insert_eq).
    destruct (destroy_spec a w2 k0 Hk2 eq_refl) as (D1 & D2 & D3 & _ & _).
    rewrite D1, D2, D3, Ht2. split_and!.
    + unfold w2. simpl. rewrite M1, list_insert_insert_eq. by apply list_insert_id.
    + by apply delete_insert_id.
    + unfold w2. simpl. by rewrite E1.
  - rewrite bool_decide_false by done. simpl map. cbv iota.
    eexists. split; [done|]. simpl. split_and!; [done..|]. eexists. split.
    { rewrite Ht1, (alter_Some _ a _ k0), insert_insert_eq by apply lookup_insert_eq. done. }
    done.
Qed.

(** ** Witnesses *)

Definition ex_out (limit : Z) : output :=
  {| o_id := 3; retry_limit := limit; o_sync := true; o_threaded := false; o_has_latency := true |}.

(** One task, with id 1, used by one output that has tried once. *)
Definition ex_task : flb_task :=
  {| t_id := 1; ref_id := 0; status := FLB_TASK_RUNNING; users := 1; total_events := 10;
     ev_size := 400; ic := 0; records := 10;
     routes := [{| rt_status := FLB_TASK_ROUTE_ACTIVE; rt_out := 0 |}];
     retries := [{| rty_addr := 5; attempts := 1; o_ins := 0 |}]; i_ins := 0 |}.

Definition ex_engine (limit : Z) : engine :=
  {| task_map := Some 9%nat :: Some 4%nat :: replicate 254 None; tasks := {[ 4%nat := ex_task ]};
     in_tasks := [[4%nat]]; outputs := [ex_out limit]; sched := ex_sched; next_addr := 10;
     effects := [] |}.

Definition ex_env : event_env :=
  {| ee_cfg := ex_cfg; ee_now := 100; ee_samples := [123456]; ee_fds := [] |}.

Lemma ex_addressed limit : addressed (ex_engine limit) 1 3 4 0 ex_task (ex_out limit).
Proof. split; (lia || reflexivity). Qed.

Lemma ex_retries_ok limit : limit = 0 \/ 1 <= limit -> retries_ok (ex_engine limit).
Proof.
  intros Hl a k Ha. unfold ex_engine in Ha. simpl in Ha.
  apply (lookup_singleton_Some 4%nat) in Ha as [<- <-]. split_and!.
  - apply NoDup_singleton.
  - apply NoDup_singleton.
  - apply Forall_singleton. split_and!; simpl; [lia..|]. intros o [= <-]. simpl. lia.
Qed.

Lemma ex_env_ok : env_ok ex_env.
Proof.
  split; [simpl; lia|]. split; [simpl; lia|]. exists 123456. split; [apply list_elem_of_here|lia].
Qed.

Lemma event_word_roundtrip_witness :
  FLB_TASK_ID (FLB_BITS_U64_LOW (FLB_BITS_U64_SET FLB_ENGINE_TASK (FLB_TASK_SET FLB_RETRY 16383 77)))
  = 16383.
Proof. apply (event_word_roundtrip FLB_RETRY 16383 77); unfold FLB_RETRY; lia. Defined.

Lemma task_id_lowest_free_witness :
  exists k, tasks (task_alloc (ex_engine 2) []).1.2 = <[10%nat := k]> (tasks (ex_engine 2)) /\
    task_map (task_alloc (ex_engine 2) []).1.2 !! t_id k = Some (Some 10%nat).
Proof.
  destruct (task_id_lowest_free (ex_engine 2) [] (Some 10%nat) (task_alloc (ex_engine 2) []).1.2 [])
    as (_ & k & H1 & _ & H2 & _).
  - split; [vm_compute; discriminate|reflexivity].
  - reflexivity.
  - by exists k.
Defined.

Lemma retry_result_bounded_witness :
  exists w' t', handle_output_event (result_word FLB_RETRY 1 3) ex_env (ex_engine 1) [] = Some (0, w', t') /\
    settles 4 0 ex_task (ex_engine 1) w'.
Proof.
  destruct (retry_result_bounded 1 3 4 0 ex_task (ex_out 1) ex_env (ex_engine 1) [])
    as (w' & t' & H1 & _ & _ & H2).
  - apply ex_addressed.
  - apply ex_retries_ok. lia.
  - apply ex_env_ok.
  - simpl. lia.
  - exists w', t'. split; [done|]. by eapply H2.
Defined.

Lemma result_settles_task_witness :
  exists w' t', handle_output_event (result_word FLB_OK 1 3) ex_env (ex_engine 2) [] = Some (0, w', t') /\
    tasks w' = delete 4%nat (tasks (ex_engine 2)) /\
    task_map w' = <[1%nat := None]> (task_map (ex_engine 2)).
Proof.
  apply (result_settles_task FLB_OK 1 3 4 0 ex_task (ex_out 2) ex_env (ex_engine 2) []).
  - by right; left.
  - discriminate.
  - apply ex_addressed.
  - apply ex_retries_ok. lia.
Defined.

Lemma result_counted_once_witness :
  exists w' t', handle_output_event (result_word FLB_RETRY 1 3) ex_env (ex_engine 2) [] = Some (0, w', t') /\
    (counted 0 (effects w') = counted 0 (effects (ex_engine 2)) + 10 \/
     (FLB_RETRY = FLB_RETRY /\ settles 4 0 ex_task (ex_engine 2) w' /\
      counted 0 (effects w') = counted 0 (effects (ex_engine 2)))).
Proof.
  apply (result_counted_once FLB_RETRY 1 3 4 0 ex_task (ex_out 2) ex_env (ex_engine 2) []).
  - by right; right.
  - apply ex_addressed.
  - apply ex_retries_ok. lia.
  - intros _. apply ex_env_ok.
  - reflexivity.
Defined.

Lemma create_failure_keeps_id_witness :
  exists w' t', flb_task_create 0 {| c_addr := 7; c_records := 2; c_size := 90; c_input := 0 |}
      0 [] (λ _, true) (ex_engine 2) [true; true; false] = (None, true, w', t') /\
    task_map w' !! 2%nat = Some (Some 10%nat) /\ tasks w' !! 10%nat = None.
Proof.
  apply (create_failure_keeps_id 0 {| c_addr := 7; c_records := 2; c_size := 90; c_input := 0 |}
    0 [] (λ _, true) (ex_engine 2) [true; true; false] [true; false] []).
  - reflexivity.
  - reflexivity.
  - simpl. lia.
Defined.

Lemma create_task_routes_witness :
  exists w', flb_task_create 0 {| c_addr := 7; c_records := 2; c_size := 90; c_input := 0 |}
      0 [] (λ _, true) (ex_engine 2) [] = (Some 10%nat, false, w', []) /\
    exists k, tasks w' = <[10%nat := k]> (tasks (ex_engine 2)) /\ t_id k = 2%nat.
Proof.
  destruct (create_task_routes 0 {| c_addr := 7; c_records := 2; c_size := 90; c_input := 0 |}
    0 (λ _, true) (ex_engine 2)) as (w' & H1 & _ & _ & _ & k & H2 & H3 & _).
  - split; [vm_compute; discriminate|reflexivity].
  - simpl. lia.
  - reflexivity.
  - exists w'. split; [exact H1|]. by exists k.
Defined.

End Task.
