(* ===== verification/InputChunk.v ===== *)
(** * Input chunks: buffered data, its size per output, and the limits

    Models the space and limit management of src/flb_input_chunk.c: how much
    filesystem space the chunks routed to an output take ([fs_chunks_size]),
    how old chunks are dropped to make room for new data, the memory ring
    buffer, and the pausing and resuming of inputs.

    Chunks and tasks are named by addresses.  What the storage library knows of
    a chunk (its sizes, whether it is in memory, whether bringing it to memory
    would succeed) are fields of the chunk. *)

From S2P Require Import Prelude Router RoutesMask Scheduler Task.

Module InputChunk.
Import RoutesMask.

Definition CIO_STORE_FS : Z := 0.
Definition FLB_STORAGE_FS : Z := CIO_STORE_FS.
Definition FLB_STORAGE_MEM : Z := 1.
Definition FLB_STORAGE_MEMRB : Z := 10.
Definition FLB_INPUT_RUNNING : Z := 1.
Definition FLB_INPUT_PAUSED : Z := 0.

Record flb_input_chunk := {
  event_type : Z;
  fs_counted : bool;
  ck_in : nat;
  task : option nat;
  routes_mask : list Z;
  cio_fs : bool;              (* the stream is on the filesystem *)
  cio_up : bool;
  cio_real : Z;               (* [cio_chunk_get_real_size] *)
  cio_data : Z;               (* content bytes, 0 as seen while down *)
  cio_meta : Z;
  cio_up_ok : bool;           (* would [cio_chunk_up] succeed *)
  cio_force_ok : bool;        (* would [cio_chunk_up_force] succeed *)
  cio_tag : option bytes;
  cio_records : Z;            (* [flb_mp_count] of the content, -1 on error *)
}.

Record flb_input_instance := {
  in_chunks : list nat;       (* in->chunks, oldest first *)
  storage_type : Z;
  cio_type : Z;               (* storage->type *)
  pause_on_chunks : bool;     (* storage_pause_on_chunks_overlimit *)
  mem_buf_limit : Z;
  mem_chunks_size : Z;
  mem_buf_status : Z;
  storage_buf_status : Z;
  cb_resume : bool;
}.

Record flb_output_instance := {
  out_id : Z;
  total_limit_size : Z;       (* size_t, (size_t) -1 for no limit *)
  fs_chunks_size : Z;
  fs_backlog_chunks_size : Z;
}.

Inductive chunk_event :=
| C_dropped_records (out : nat) (n : Z)
| C_ht_del (in_ : nat) (ty : Z) (tag : bytes) (chunk : nat)
| C_close (chunk : nat) (del : bool)
| C_task_destroy (task : nat)
| C_pause (in_ : nat)
| C_resume (in_ : nat).

Record store := {
  chunks : gmap nat flb_input_chunk;
  tasks : gmap nat Task.flb_task;
  inputs : list flb_input_instance;
  outs : list flb_output_instance;
  mcfg : mask_config;
  max_chunks_up : Z;
  is_running : bool;
  is_ingestion_active : bool;
  log : list chunk_event;
}.

Definition set_chunks (m : gmap nat flb_input_chunk) (w : store) : store :=
  {| chunks := m; tasks := tasks w; inputs := inputs w; outs := outs w; mcfg := mcfg w;
     max_chunks_up := max_chunks_up w; is_running := is_running w;
     is_ingestion_active := is_ingestion_active w; log := log w |}.
Definition set_tasks (m : gmap nat Task.flb_task) (w : store) : store :=
  {| chunks := chunks w; tasks := m; inputs := inputs w; outs := outs w; mcfg := mcfg w;
     max_chunks_up := max_chunks_up w; is_running := is_running w;
     is_ingestion_active := is_ingestion_active w; log := log w |}.
Definition set_inputs (l : list flb_input_instance) (w : store) : store :=
  {| chunks := chunks w; tasks := tasks w; inputs := l; outs := outs w; mcfg := mcfg w;
     max_chunks_up := max_chunks_up w; is_running := is_running w;
     is_ingestion_active := is_ingestion_active w; log := log w |}.
Definition set_outs (l : list flb_output_instance) (w : store) : store :=
  {| chunks := chunks w; tasks := tasks w; inputs := inputs w; outs := l; mcfg := mcfg w;
     max_chunks_up := max_chunks_up w; is_running := is_running w;
     is_ingestion_active := is_ingestion_active w; log := log w |}.
Definition emit (e : chunk_event) (w : store) : store :=
  {| chunks := chunks w; tasks := tasks w; inputs := inputs w; outs := outs w; mcfg := mcfg w;
     max_chunks_up := max_chunks_up w; is_running := is_running w;
     is_ingestion_active := is_ingestion_active w; log := log w ++ [e] |}.

Definition set_up (b : bool) (c : flb_input_chunk) : flb_input_chunk :=
  {| event_type := event_type c; fs_counted := fs_counted c; ck_in := ck_in c; task := task c;
     routes_mask := routes_mask c; cio_fs := cio_fs c; cio_up := b; cio_real := cio_real c;
     cio_data := cio_data c; cio_meta := cio_meta c; cio_up_ok := cio_up_ok c;
     cio_force_ok := cio_force_ok c; cio_tag := cio_tag c; cio_records := cio_records c |}.
Definition set_mask (m : list Z) (c : flb_input_chunk) : flb_input_chunk :=
  {| event_type := event_type c; fs_counted := fs_counted c; ck_in := ck_in c; task := task c;
     routes_mask := m; cio_fs := cio_fs c; cio_up := cio_up c; cio_real := cio_real c;
     cio_data := cio_data c; cio_meta := cio_meta c; cio_up_ok := cio_up_ok c;
     cio_force_ok := cio_force_ok c; cio_tag := cio_tag c; cio_records := cio_records c |}.
Definition set_counted (c : flb_input_chunk) : flb_input_chunk :=
  {| event_type := event_type c; fs_counted := true; ck_in := ck_in c; task := task c;
     routes_mask := routes_mask c; cio_fs := cio_fs c; cio_up := cio_up c; cio_real := cio_real c;
     cio_data := cio_data c; cio_meta := cio_meta c; cio_up_ok := cio_up_ok c;
     cio_force_ok := cio_force_ok c; cio_tag := cio_tag c; cio_records := cio_records c |}.

Definition set_in_chunks (l : list nat) (i : flb_input_instance) : flb_input_instance :=
  {| in_chunks := l; storage_type := storage_type i; cio_type := cio_type i;
     pause_on_chunks := pause_on_chunks i; mem_buf_limit := mem_buf_limit i;
     mem_chunks_size := mem_chunks_size i; mem_buf_status := mem_buf_status i;
     storage_buf_status := storage_buf_status i; cb_resume := cb_resume i |}.
Definition set_mem_size (n : Z) (i : flb_input_instance) : flb_input_instance :=
  {| in_chunks := in_chunks i; storage_type := storage_type i; cio_type := cio_type i;
     pause_on_chunks := pause_on_chunks i; mem_buf_limit := mem_buf_limit i;
     mem_chunks_size := n; mem_buf_status := mem_buf_status i;
     storage_buf_status := storage_buf_status i; cb_resume := cb_resume i |}.
Definition set_mem_status (n : Z) (i : flb_input_instance) : flb_input_instance :=
  {| in_chunks := in_chunks i; storage_type := storage_type i; cio_type := cio_type i;
     pause_on_chunks := pause_on_chunks i; mem_buf_limit := mem_buf_limit i;
     mem_chunks_size := mem_chunks_size i; mem_buf_status := n;
     storage_buf_status := storage_buf_status i; cb_resume := cb_resume i |}.
Definition set_storage_status (n : Z) (i : flb_input_instance) : flb_input_instance :=
  {| in_chunks := in_chunks i; storage_type := storage_type i; cio_type := cio_type i;
     pause_on_chunks := pause_on_chunks i; mem_buf_limit := mem_buf_limit i;
     mem_chunks_size := mem_chunks_size i; mem_buf_status := mem_buf_status i;
     storage_buf_status := n; cb_resume := cb_resume i |}.

Definition set_fs_size (n : Z) (o : flb_output_instance) : flb_output_instance :=
  {| out_id := out_id o; total_limit_size := total_limit_size o; fs_chunks_size := n;
     fs_backlog_chunks_size := fs_backlog_chunks_size o |}.
Definition set_backlog_size (n : Z) (o : flb_output_instance) : flb_output_instance :=
  {| out_id := out_id o; total_limit_size := total_limit_size o; fs_chunks_size := fs_chunks_size o;
     fs_backlog_chunks_size := n |}.

Definition update_input (i : nat) (f : flb_input_instance -> flb_input_instance) (w : store) : store :=
  set_inputs (alter f i (inputs w)) w.
Definition update_chunk (a : nat) (f : flb_input_chunk -> flb_input_chunk) (w : store) : store :=
  set_chunks (alter f a (chunks w)) w.
Definition update_out (i : nat) (f : flb_output_instance -> flb_output_instance) (w : store) : store :=
  set_outs (alter f i (outs w)) w.

(** ** Sizes *)

Definition flb_input_chunk_get_size (c : flb_input_chunk) : Z := if cio_up c then cio_data c else 0.

Definition flb_input_chunk_get_real_size (c : flb_input_chunk) : Z :=
  let size := cio_real c in
  if negb (size =? 0) then size
  else
    let size := flb_input_chunk_get_size c in
    if size =? 0 then -1
    else size + cio_meta c + 2 + 4 + 16 + 2.

Definition unlimited (o : flb_output_instance) : bool := total_limit_size o =? u64 (-1).

Definition routed (w : store) (c : flb_input_chunk) (o : flb_output_instance) : bool :=
  flb_routes_mask_get_bit (routes_mask c) (out_id o) (mcfg w).

(** [-1] when the content cannot be brought to memory. *)
Definition get_input_chunk_record_count (c : flb_input_chunk) : Z :=
  if cio_up c then cio_records c
  else if cio_force_ok c then cio_records c
  else -1.

Definition flb_input_chunk_is_up (c : flb_input_chunk) : bool := cio_up c.

(** [cio_chunk_down], [cio_chunk_up] act on filesystem chunks only. *)
Definition cio_chunk_down (c : flb_input_chunk) : flb_input_chunk :=
  if cio_fs c then set_up false c else c.
Definition cio_chunk_up (c : flb_input_chunk) : flb_input_chunk :=
  if cio_fs c && cio_up_ok c then set_up true c else c.

Definition flb_input_chunk_down (a : nat) (w : store) : store :=
  update_chunk a (λ c, if cio_up c then cio_chunk_down c else c) w.
Definition flb_input_chunk_set_up (a : nat) (w : store) : store :=
  update_chunk a (λ c, if cio_up c then c else cio_chunk_up c) w.

(** Bytes of the chunks of an input that are in memory. *)
Definition flb_input_chunk_total_size (i : nat) (w : store) : Z :=
  match inputs w !! i with
  | None => 0
  | Some ii =>
      foldl (λ total a, match chunks w !! a with
                        | Some c => if cio_up c && (0 <? cio_data c) then total + cio_data c else total
                        | None => total
                        end) 0 (in_chunks ii)
  end.

(** Filesystem chunks in memory, over all inputs. *)
Definition total_chunks_up (w : store) : Z :=
  Z.of_nat (size (filter (λ p, cio_fs (snd p) && cio_up (snd p) = true) (chunks w))).

(** ** Limits of an input *)

Definition flb_input_chunk_is_mem_overlimit (i : flb_input_instance) : bool :=
  if mem_buf_limit i <=? 0 then false
  else mem_buf_limit i <=? mem_chunks_size i.

Definition flb_input_chunk_is_storage_overlimit (w : store) (i : flb_input_instance) : bool :=
  if cio_type i =? FLB_STORAGE_FS then
    if pause_on_chunks i then max_chunks_up w <=? total_chunks_up w else false
  else false.

Definition flb_input_buf_paused (i : flb_input_instance) : bool :=
  (mem_buf_status i =? FLB_INPUT_PAUSED) || (storage_buf_status i =? FLB_INPUT_PAUSED).

Definition flb_input_pause (i : nat) (w : store) : store :=
  match inputs w !! i with
  | Some ii => if flb_input_buf_paused ii then w else emit (C_pause i) w
  | None => w
  end.

Definition flb_input_resume (i : nat) (w : store) : store := emit (C_resume i) w.

Definition set_limits_mem (i : nat) (w : store) : store :=
  match inputs w !! i with
  | None => w
  | Some ii =>
      if negb (flb_input_chunk_is_mem_overlimit ii) && is_running w && is_ingestion_active w
         && (mem_buf_status ii =? FLB_INPUT_PAUSED) then
        let w := update_input i (set_mem_status FLB_INPUT_RUNNING) w in
        if cb_resume ii then flb_input_resume i w else w
      else w
  end.

Definition set_limits_storage (i : nat) (w : store) : store :=
  match inputs w !! i with
  | None => w
  | Some ii =>
      if negb (flb_input_chunk_is_storage_overlimit w ii) && is_running w && is_ingestion_active w
         && (storage_buf_status ii =? FLB_INPUT_PAUSED) then
        let w := update_input i (set_storage_status FLB_INPUT_RUNNING) w in
        if cb_resume ii then flb_input_resume i w else w
      else w
  end.

Definition flb_input_chunk_set_limits (i : nat) (w : store) : Z * store :=
  let total := flb_input_chunk_total_size i w in
  let w := update_input i (set_mem_size total) w in
  let w := set_limits_mem i w in
  let w := set_limits_storage i w in
  (total, w).

Definition flb_input_chunk_protect (i : nat) (w : store) : bool * store :=
  match inputs w !! i with
  | None => (false, w)
  | Some ii =>
      if flb_input_chunk_is_storage_overlimit w ii then
        (true, update_input i (set_storage_status FLB_INPUT_PAUSED) (flb_input_pause i w))
      else if cio_type ii =? FLB_STORAGE_FS then (false, w)
      else if flb_input_chunk_is_mem_overlimit ii then
        if storage_type ii =? FLB_STORAGE_MEMRB then (false, w)
        else (true, update_input i (set_mem_status FLB_INPUT_PAUSED) (flb_input_pause i w))
      else (false, w)
  end.

Definition flb_input_chunk_set_up_down (a : nat) (w : store) : bool * store :=
  match chunks w !! a with
  | None => (true, w)
  | Some c =>
      let i := ck_in c in
      let w := update_input i (set_mem_size (flb_input_chunk_total_size i w)) w in
      match inputs w !! i with
      | None => (true, w)
      | Some ii =>
          if flb_input_chunk_is_mem_overlimit ii && cio_up c then
            let w := update_chunk a cio_chunk_down w in
            (false, update_input i (set_mem_size (flb_input_chunk_total_size i w)) w)
          else (true, w)
      end
  end.

(** ** Destroying chunks *)

(** The output gives up the bytes of the chunk. *)
Definition uncount (w : store) (c : flb_input_chunk) (o : flb_output_instance) : flb_output_instance :=
  if unlimited o then o
  else
    let bytes := flb_input_chunk_get_real_size c in
    if bytes =? -1 then o
    else if routed w c o && fs_counted c
         then set_fs_size (u64 (fs_chunks_size o - bytes)) o else o.

Definition has_chunk_table (ty : Z) : bool :=
  (ty =? Routes.FLB_INPUT_LOGS) || (ty =? Routes.FLB_INPUT_METRICS)
  || (ty =? Routes.FLB_INPUT_TRACES) || (ty =? Routes.FLB_INPUT_PROFILES).

Definition flb_input_chunk_destroy (a : nat) (del : bool) (w : store) : store :=
  match chunks w !! a with
  | None => w
  | Some c =>
      let c := if cio_up c then c else cio_chunk_up c in
      let w := set_outs (map (uncount w c) (outs w)) w in
      let c := if cio_up c then c
               else if cio_fs c && cio_force_ok c then set_up true c else c in
      let w := match (if cio_up c then cio_tag c else None) with
               | Some tag => if del && has_chunk_table (event_type c)
                             then emit (C_ht_del (ck_in c) (event_type c) tag a) w else w
               | None => w
               end in
      let w := emit (C_close a del) w in
      let w := update_input (ck_in c) (λ i, set_in_chunks (filter (λ x : nat, x <> a) (in_chunks i)) i) w in
      set_chunks (delete a (chunks w)) w
  end.

(** What [flb_task_destroy] (Task.v) does to this store. *)
Definition flb_task_destroy (t : nat) (del : bool) (w : store) : store :=
  match tasks w !! t with
  | None => w
  | Some k =>
      let w := emit (C_task_destroy t) w in
      let w := flb_input_chunk_destroy (Task.ic k) del w in
      let w := snd (flb_input_chunk_set_limits (Task.i_ins k) w) in
      set_tasks (delete t (tasks w)) w
  end.

Definition flb_input_chunk_update_output_instances (a : nat) (chunk_size : Z) (w : store) : store :=
  match chunks w !! a with
  | None => w
  | Some c =>
      let hit o := negb (unlimited o) && routed w c o in
      let w' := set_outs (map (λ o, if hit o then set_fs_size (u64 (fs_chunks_size o + chunk_size)) o
                                    else o) (outs w)) w in
      if existsb hit (outs w) then update_chunk a set_counted w' else w'
  end.

(** ** Making room in the queue of an output *)

Definition flb_input_chunk_is_task_safe_delete (w : store) (t : option nat) : bool :=
  match t with
  | None => true
  | Some t => match tasks w !! t with
              | Some k => Task.users k =? 0
              | None => true
              end
  end.

(** Whether the chunk may be taken from the output, the records of the route
    that was dropped for it. *)
Definition flb_input_chunk_drop_task_route (t : option nat) (out : nat) (w : store)
    : bool * Z * store :=
  match t with
  | None => (true, 0, w)
  | Some t =>
      match tasks w !! t with
      | None => (true, 0, w)
      | Some k =>
          if Task.users k =? 0 then (true, 0, w)
          else if Task.flb_task_get_route_status k out =? Task.FLB_TASK_ROUTE_INACTIVE then
            (true, Task.records k,
             set_tasks (alter (λ k, Task.set_routes
               (Task.set_first_route out Task.FLB_TASK_ROUTE_DROPPED (Task.routes k)) k) t (tasks w)) w)
          else (false, 0, w)
      end
  end.

Definition flb_input_chunk_safe_delete (new old : nat) (c : flb_input_chunk) (o_id : Z)
    (cfg : mask_config) : bool :=
  if Nat.eqb new old then false
  else flb_routes_mask_get_bit (routes_mask c) o_id cfg.

Inductive release_scope := SCOPE_LOCAL | SCOPE_GLOBAL.

(** The destruction of a released chunk; the second component tells whether it
    happened. *)
Definition release_destroy (a : nat) (c : flb_input_chunk) (w : store) : store * bool :=
  match task c with
  | Some t =>
      match tasks w !! t with
      | Some k => if Task.users k =? 0 then (flb_task_destroy t true w, true) else (w, false)
      | None => (w, false)
      end
  | None => (flb_input_chunk_destroy a true w, true)
  end.

(** One chunk that passed the tests: the bytes released. *)
Definition release_chunk (a : nat) (c : flb_input_chunk) (out : nat) (o : flb_output_instance)
    (scope : release_scope) (dropped : Z) (w : store) : Z * store :=
  let chunk_size := flb_input_chunk_get_real_size c in
  let '(w, destroy, released) :=
    match scope with
    | SCOPE_LOCAL =>
        let mask := flb_routes_mask_clear_bit (routes_mask c) (out_id o) (mcfg w) in
        let w := update_chunk a (set_mask mask) w in
        let w := update_out out (λ o, set_fs_size (u64 (fs_chunks_size o - chunk_size)) o) w in
        (w, bool_decide (flb_routes_mask_is_empty mask (mcfg w) = Some true), true)
    | SCOPE_GLOBAL => (w, true, false)
    end in
  let w := if dropped =? 0 then
             let n := get_input_chunk_record_count c in
             if n =? -1 then w else emit (C_dropped_records out n) w
           else w in
  let '(w, destroyed) := if destroy then release_destroy a c w else (w, false) in
  (if released || destroyed then chunk_size else 0, w).

Fixpoint release_loop (new out : nat) (scope : release_scope) (required : Z) (l : list nat)
    (released : Z) (w : store) : Z * store :=
  match l with
  | [] => (released, w)
  | a :: l' =>
      match chunks w !! a, outs w !! out with
      | Some c, Some o =>
          if negb (routed w c o) then release_loop new out scope required l' released w
          else if negb (flb_input_chunk_safe_delete new a c (out_id o) (mcfg w)) then
            release_loop new out scope required l' released w
          else
            let '(ok, dropped, w) := flb_input_chunk_drop_task_route (task c) out w in
            if negb ok then release_loop new out scope required l' released w
            else
              let '(n, w) := release_chunk a c out o scope dropped w in
              if required <=? released + n then (released + n, w)
              else release_loop new out scope required l' (released + n) w
      | _, _ => release_loop new out scope required l' released w
      end
  end.

(** The space still required. *)
Definition flb_input_chunk_release_space (new inp out : nat) (required : Z) (scope : release_scope)
    (w : store) : Z * store :=
  match inputs w !! inp with
  | None => (required, w)
  | Some ii =>
      let '(released, w) := release_loop new out scope required (in_chunks ii) 0 w in
      (required - released, w)
  end.

Section Backlog.
(** The storage backlog plugin: for an output and a space, the space it could
    not release and the new size of its queue. *)
Variable sb_release_output_queue_space : nat -> Z -> Z -> Z * Z.
(** [config->storage_input_plugin]. *)
Variable backlog : nat.

Fixpoint release_inputs (new own out : nat) (l : list nat) (required : Z) (w : store) : Z * store :=
  match l with
  | [] => (required, w)
  | i :: l' =>
      let '(required, w) :=
        if Nat.eqb i own then (required, w)
        else flb_input_chunk_release_space new i out required SCOPE_LOCAL w in
      if required <=? 0 then (required, w) else release_inputs new own out l' required w
  end.

Definition flb_input_chunk_release_space_compound (new out : nat) (release_local : bool) (w : store)
    : Z * store :=
  match chunks w !! new with
  | None => (0, w)
  | Some c =>
      let required := flb_input_chunk_get_real_size c in
      let '(required, w) :=
        if 0 <? required
        then flb_input_chunk_release_space new backlog out required SCOPE_GLOBAL w
        else (required, w) in
      let '(required, w) :=
        if 0 <? required then
          match outs w !! out with
          | Some o =>
              let '(rest, size) := sb_release_output_queue_space out required (fs_backlog_chunks_size o) in
              (rest, update_out out (set_backlog_size size) w)
          | None => (required, w)
          end
        else (required, w) in
      let '(required, w) :=
        if release_local && (0 <? required)
        then flb_input_chunk_release_space new (ck_in c) out required SCOPE_LOCAL w
        else (required, w) in
      let '(required, w) :=
        if 0 <? required
        then release_inputs new (ck_in c) out (seq 0 (length (inputs w))) required w
        else (required, w) in
      (if required <? 0 then 0 else required, w)
  end.

(** [1 << id] on an [int]; the C standard leaves 31 and above undefined. *)
Definition out_bit (id : Z) : Z := i32 (Z.shiftl 1 id).

Fixpoint find_space_loop (new : nat) (overlimit : Z) (l : list nat) (count : Z) (w : store)
    : Z * store :=
  match l with
  | [] => (count, w)
  | i :: l' =>
      match chunks w !! new, outs w !! i with
      | Some c, Some o =>
          if unlimited o || (Z.land (out_bit (out_id o)) overlimit =? 0) || negb (routed w c o)
          then find_space_loop new overlimit l' count w
          else
            let '(rest, w) := flb_input_chunk_release_space_compound new i true w in
            find_space_loop new overlimit l' (if rest =? 0 then count else count + 1) w
      | _, _ => find_space_loop new overlimit l' count w
      end
  end.

(** The size of the new data is an argument of the code, which ignores it. *)
Definition flb_input_chunk_find_space_new_data (new : nat) (chunk_size overlimit : Z) (w : store)
    : Z * store :=
  find_space_loop new overlimit (seq 0 (length (outs w))) 0 w.

Definition flb_input_chunk_has_overlimit_routes (new : nat) (chunk_size : Z) (w : store) : Z :=
  match chunks w !! new with
  | None => 0
  | Some c =>
      foldl (λ overlimit o,
               if unlimited o || negb (routed w c o) then overlimit
               else if total_limit_size o <? u64 (fs_chunks_size o + fs_backlog_chunks_size o + chunk_size)
                    then Z.lor overlimit (out_bit (out_id o)) else overlimit) 0 (outs w)
  end.

Definition flb_input_chunk_place_new_chunk (new : nat) (chunk_size : Z) (w : store) : bool * store :=
  match chunks w !! new with
  | None => (false, w)
  | Some c =>
      match inputs w !! ck_in c with
      | None => (false, w)
      | Some ii =>
          let overlimit := flb_input_chunk_has_overlimit_routes new chunk_size w in
          let '(result, w) :=
            if (storage_type ii =? CIO_STORE_FS) && negb (overlimit =? 0)
            then flb_input_chunk_find_space_new_data new chunk_size overlimit w
            else (0, w) in
          if negb (result =? 0) then (false, w)
          else (match chunks w !! new with
                | Some c => bool_decide (flb_routes_mask_is_empty (routes_mask c) (mcfg w) <> Some true)
                | None => false
                end, w)
      end
  end.
End Backlog.

(** ** The memory ring buffer *)

Record memrb_counts := { released_space : Z; removed_chunks : Z }.

(** [released_space] is signed and [required_space] is not: the comparison is
    unsigned. *)
Fixpoint memrb_loop (required : Z) (l : list nat) (n : memrb_counts) (w : store)
    : memrb_counts * store :=
  match l with
  | [] => (n, w)
  | a :: l' =>
      match chunks w !! a with
      | None => memrb_loop required l' n w
      | Some c =>
          if negb (flb_input_chunk_is_task_safe_delete w (task c)) then memrb_loop required l' n w
          else
            let chunk_size := flb_input_chunk_get_real_size c in
            let '(w, released) := release_destroy a c w in
            let n := if released
                     then {| released_space := released_space n + chunk_size;
                             removed_chunks := removed_chunks n + 1 |} else n in
            if required <=? u64 (released_space n) then (n, w) else memrb_loop required l' n w
      end
  end.

(** The status, the chunks and the bytes dropped. *)
Definition memrb_input_chunk_release_space (inp : nat) (required : Z) (w : store)
    : Z * Z * Z * store :=
  match inputs w !! inp with
  | None => (-1, 0, 0, w)
  | Some ii =>
      let '(n, w) := memrb_loop required (in_chunks ii) {| released_space := 0; removed_chunks := 0 |} w in
      (if required <=? u64 (released_space n) then 0 else -1,
       removed_chunks n, u64 (released_space n), w)
  end.

(** ** Sums over the chunks *)

Definition msum (f : flb_input_chunk -> Z) (m : gmap nat flb_input_chunk) : Z :=
  map_fold (λ _ c acc, f c + acc) 0 m.

Lemma msum_insert f a c m : m !! a = None -> msum f (<[a := c]> m) = f c + msum f m.
Proof. intros H. unfold msum.
  rewrite (map_fold_insert_L (λ (_ : nat) c acc, f c + acc)); [done|intros; lia|done]. Qed.

Lemma msum_delete f a c m : m !! a = Some c -> msum f m = f c + msum f (delete a m).
Proof.
  intros H. rewrite <- (insert_delete_id m a c H) at 1. apply msum_insert. apply lookup_delete_eq.
Qed.

Lemma msum_ext f g m : (forall a c, m !! a = Some c -> f c = g c) -> msum f m = msum g m.
Proof.
  induction m as [|a c m Ha IH] using map_ind; intros H; [done|].
  rewrite !msum_insert by done. f_equal.
  - apply (H a). apply lookup_insert_eq.
  - apply IH. intros b d Hb. apply (H b). rewrite lookup_insert_ne; [done|]. intros ->. congruence.
Qed.

Lemma msum_alter f a c g m : m !! a = Some c -> msum f (alter g a m) = msum f m - f c + f (g c).
Proof.
  intros H. rewrite (msum_delete f a c m H).
  rewrite (msum_delete f a (g c) (alter g a m)) by (rewrite lookup_alter_eq, H; done).
  rewrite delete_alter_eq. lia.
Qed.

(** ** Well-formed stores *)

(** The bytes a chunk takes from an output. *)
Definition weight (cfg : mask_config) (id : Z) (c : flb_input_chunk) : Z :=
  if flb_routes_mask_get_bit (routes_mask c) id cfg && fs_counted c
  then flb_input_chunk_get_real_size c else 0.

(** Every limited output has in [fs_chunks_size] the size of the chunks that
    are routed to it.  [new] is the chunk room is made for: it may not have been
    counted yet. *)
Record store_ok (new : nat) (w : store) : Prop := {
  so_cfg : wf_config (mcfg w);
  so_mask : forall a c, chunks w !! a = Some c -> wf_mask (mcfg w) (routes_mask c);
  so_ids : NoDup (map out_id (outs w));
  so_task : forall a c t, chunks w !! a = Some c -> task c = Some t ->
            exists k, tasks w !! t = Some k /\ Task.ic k = a;
  so_counted : forall a c o, a <> new -> chunks w !! a = Some c -> o ∈ outs w ->
               unlimited o = false -> routed w c o = true ->
               fs_counted c = true /\ 0 < cio_real c;
  so_fs : forall o, o ∈ outs w -> unlimited o = false ->
          fs_chunks_size o = u64 (msum (weight (mcfg w) (out_id o)) (chunks w));
}.

(** What a step on chunk [a] leaves alone. *)
Record frame (a : nat) (w w' : store) : Prop := {
  fr_cfg : mcfg w' = mcfg w;
  fr_ids : map out_id (outs w') = map out_id (outs w);
  fr_lim : map total_limit_size (outs w') = map total_limit_size (outs w);
  fr_chunks : forall b, b <> a -> chunks w' !! b = chunks w !! b;
  fr_tasks : forall b c t, b <> a -> chunks w !! b = Some c -> task c = Some t ->
             tasks w' !! t = tasks w !! t;
}.

Lemma frame_refl a w : frame a w w.
Proof. by split. Qed.

Lemma frame_trans a w1 w2 w3 : frame a w1 w2 -> frame a w2 w3 -> frame a w1 w3.
Proof.
  intros [A1 A2 A3 A4 A5] [B1 B2 B3 B4 B5]. split; try congruence.
  - intros b Hb. by rewrite B4, A4.
  - intros b c t Hb Hc Ht. rewrite (B5 b c t), (A5 b c t); try done. by rewrite A4.
Qed.

(** Inputs and the log play no role. *)
Lemma store_ok_same new w w' :
  chunks w' = chunks w -> tasks w' = tasks w -> outs w' = outs w -> mcfg w' = mcfg w ->
  store_ok new w -> store_ok new w'.
Proof.
  intros H1 H2 H3 H4 [A1 A2 A3 A4 A5 A6]. split; unfold routed in *; rewrite ?H1, ?H2, ?H3, ?H4; try done.
Qed.

Lemma frame_same a w w' :
  chunks w' = chunks w -> tasks w' = tasks w -> outs w' = outs w -> mcfg w' = mcfg w -> frame a w w'.
Proof. intros H1 H2 H3 H4. split; by rewrite ?H1, ?H2, ?H3, ?H4. Qed.

Lemma set_limits_same i w :
  let w' := snd (flb_input_chunk_set_limits i w) in
  chunks w' = chunks w /\ tasks w' = tasks w /\ outs w' = outs w /\ mcfg w' = mcfg w.
Proof.
  unfold flb_input_chunk_set_limits, set_limits_mem, set_limits_storage, flb_input_resume.
  simpl. repeat (case_match; simpl; try done).
Qed.

Lemma real_size_pos c : 0 < cio_real c -> flb_input_chunk_get_real_size c = cio_real c.
Proof.
  intros H. unfold flb_input_chunk_get_real_size.
  destruct (Z.eqb_spec (cio_real c) 0); [lia|done].
Qed.

Lemma uncount_id w c o : out_id (uncount w c o) = out_id o.
Proof. unfold uncount. by repeat case_match. Qed.

Lemma uncount_limit w c o : total_limit_size (uncount w c o) = total_limit_size o.
Proof. unfold uncount. by repeat case_match. Qed.

(** The chunks, tasks, outputs after destroying a chunk. *)
Lemma destroy_effect a del w c :
  chunks w !! a = Some c ->
  let w' := flb_input_chunk_destroy a del w in
  let c' := if cio_up c then c else cio_chunk_up c in
  chunks w' = delete a (chunks w) /\ tasks w' = tasks w /\ mcfg w' = mcfg w /\
  outs w' = map (uncount w c') (outs w).
Proof.
  intros Hc. unfold flb_input_chunk_destroy. rewrite Hc. cbv zeta.
  set (c' := if cio_up c then c else cio_chunk_up c).
  destruct (if cio_up _ then _ else None) as [tag|]; [|done].
  by destruct (del && _).
Qed.

Lemma woken_weight c : let c' := if cio_up c then c else cio_chunk_up c in
  routes_mask c' = routes_mask c /\ fs_counted c' = fs_counted c /\ cio_real c' = cio_real c.
Proof.
  cbv zeta. unfold cio_chunk_up. destruct (cio_up c); [done|].
  by destruct (cio_fs c && cio_up_ok c).
Qed.

(** Chunks other than [a]: what [frame] needs of outputs and chunks. *)
Lemma destroy_frame a del w : frame a w (flb_input_chunk_destroy a del w).
Proof.
  destruct (chunks w !! a) as [c|] eqn:Hc.
  - destruct (destroy_effect a del w c Hc) as (H1 & H2 & H3 & H4). split; [done| | | |by rewrite H2].
    + rewrite H4, map_map. apply map_ext. intros o. apply uncount_id.
    + rewrite H4, map_map. apply map_ext. intros o. apply uncount_limit.
    + intros b Hb. by rewrite H1, lookup_delete_ne.
  - unfold flb_input_chunk_destroy. rewrite Hc. apply frame_refl.
Qed.

(** A limited output gives up exactly the weight of the chunk. *)
Lemma uncount_weight w c o s :
  unlimited o = false ->
  (routed w c o = true -> fs_counted c = true /\ 0 < cio_real c) ->
  fs_chunks_size o = u64 (weight (mcfg w) (out_id o) c + s) ->
  let c' := if cio_up c then c else cio_chunk_up c in
  fs_chunks_size (uncount w c' o) = u64 s.
Proof.
  intros Hu Hr Hs c'. destruct (woken_weight c) as (W1 & W2 & W3). fold c' in W1, W2, W3.
  unfold uncount. rewrite Hu. unfold routed, weight in *. rewrite W1, W2.
  destruct (flb_routes_mask_get_bit (routes_mask c) (out_id o) (mcfg w)); simpl in *.
  - destruct (Hr eq_refl) as [Hf Hp]. rewrite Hf in *. rewrite (real_size_pos c Hp) in Hs.
    rewrite real_size_pos by (rewrite W3; lia). rewrite W3. zcase; [lia|]. simpl. rewrite Hs.
    unfold u64. rewrite Zminus_mod_idemp_l. f_equal. lia.
  - by destruct (_ =? -1); rewrite Hs.
Qed.

Lemma destroy_ok new a del w :
  store_ok new w -> a <> new -> store_ok new (flb_input_chunk_destroy a del w).
Proof.
  intros Hok Ha. destruct (chunks w !! a) as [c|] eqn:Hc.
  2:{ unfold flb_input_chunk_destroy. by rewrite Hc. }
  destruct (destroy_effect a del w c Hc) as (H1 & H2 & H3 & H4).
  destruct (destroy_frame a del w) as [_ F2 _ F4 _].
  set (w' := flb_input_chunk_destroy a del w) in *. clearbody w'.
  destruct Hok as [A1 A2 A3 A4 A5 A6]. split.
  - by rewrite H3.
  - intros b d Hb. rewrite H1 in Hb. apply lookup_delete_Some in Hb as [_ Hb]. rewrite H3. eauto.
  - by rewrite F2.
  - intros b d t Hb Ht. rewrite H1 in Hb. apply lookup_delete_Some in Hb as [_ Hb]. rewrite H2. eauto.
  - intros b d o Hn Hb Ho Hu Hr. rewrite H1 in Hb. apply lookup_delete_Some in Hb as [_ Hb].
    rewrite H4 in Ho. apply elem_of_map in Ho as (o0 & -> & Ho0). apply (A5 b d o0); try done.
    + unfold unlimited in *. by rewrite uncount_limit in Hu.
    + unfold routed in *. by rewrite uncount_id, H3 in Hr.
  - intros o Ho Hu. rewrite H4 in Ho. apply elem_of_map in Ho as (o0 & -> & Ho0). rewrite uncount_id, H1, H3.
    assert (Hu0 : unlimited o0 = false) by (unfold unlimited in *; by rewrite uncount_limit in Hu).
    apply uncount_weight; [done|eauto|]. rewrite (A6 o0 Ho0 Hu0). by rewrite (msum_delete _ a c _ Hc).
Qed.

(** Destroying the task of a chunk destroys the chunk and nothing else. *)
Lemma task_destroy_ok new a t del w k :
  store_ok new w -> a <> new -> tasks w !! t = Some k -> Task.ic k = a ->
  store_ok new (flb_task_destroy t del w) /\ frame a w (flb_task_destroy t del w) /\
  chunks (flb_task_destroy t del w) !! a = None /\
  outs (flb_task_destroy t del w) = outs (flb_input_chunk_destroy a del w).
Proof.
  intros Hok Ha Ht Hic. unfold flb_task_destroy. rewrite Ht, Hic. cbv zeta.
  set (w1 := emit (C_task_destroy t) w).
  assert (Hok1 : store_ok new w1) by (by apply (store_ok_same new w)).
  pose proof (destroy_ok new a del w1 Hok1 Ha) as Hok2.
  pose proof (destroy_frame a del w1) as Hfr.
  assert (Hgone : chunks (flb_input_chunk_destroy a del w1) !! a = None).
  { destruct (chunks w1 !! a) as [c|] eqn:Hc.
    - destruct (destroy_effect a del w1 c Hc) as (-> & _). apply lookup_delete_eq.
    - unfold flb_input_chunk_destroy. by rewrite Hc. }
  assert (Hts : tasks (flb_input_chunk_destroy a del w1) = tasks w).
  { destruct (chunks w1 !! a) as [c|] eqn:Hc.
    - by destruct (destroy_effect a del w1 c Hc) as (_ & -> & _).
    - unfold flb_input_chunk_destroy. by rewrite Hc. }
  assert (Houts : outs (flb_input_chunk_destroy a del w1) = outs (flb_input_chunk_destroy a del w)).
  { destruct (chunks w !! a) as [c|] eqn:Hc.
    - destruct (destroy_effect a del w1 c Hc) as (_ & _ & _ & ->).
      by destruct (destroy_effect a del w c Hc) as (_ & _ & _ & ->).
    - unfold flb_input_chunk_destroy. simpl. by rewrite Hc. }
  set (w2 := flb_input_chunk_destroy a del w1) in *. clearbody w2.
  destruct (set_limits_same (Task.i_ins k) w2) as (S1 & S2 & S3 & S4).
  set (w3 := snd _) in *. clearbody w3.
  pose proof (store_ok_same new w2 w3 S1 S2 S3 S4 Hok2) as [A1 A2 A3 A4 A5 A6].
  assert (Hother : forall b c t', chunks w3 !! b = Some c -> task c = Some t' -> t' <> t).
  { intros b c t' Hb Ht' ->. destruct (A4 b c t Hb Ht') as (k' & Hk' & Hic').
    rewrite S2, Hts, Ht in Hk'. simplify_eq. rewrite S1 in Hb. congruence. }
  split_and!; [|  |simpl; by rewrite S1|simpl; by rewrite S3].
  - split; try done. intros b c t' Hb Ht'. simpl. rewrite lookup_delete_ne by (symmetry; by eapply Hother).
    by apply (A4 b c).
  - destruct Hfr as [F1 F2 F3 F4 F5]. split; simpl.
    + by rewrite S4, F1.
    + by rewrite S3, F2.
    + by rewrite S3, F3.
    + intros b Hb. by rewrite S1, F4.
    + intros b c t' Hb Hc Ht'. rewrite S2, Hts. rewrite lookup_delete_ne; [done|]. intros <-.
      eapply (Hother b c t); [|done|done]. by rewrite S1, F4.
Qed.

Lemma release_destroy_ok new a c0 c w w' b :
  store_ok new w -> a <> new -> chunks w !! a = Some c -> task c0 = task c ->
  release_destroy a c0 w = (w', b) ->
  store_ok new w' /\ frame a w w' /\
  (if b then chunks w' !! a = None /\ outs w' = outs (flb_input_chunk_destroy a true w) else w' = w).
Proof.
  intros Hok Ha Hc Ht. unfold release_destroy. rewrite Ht.
  destruct (task c) as [t|] eqn:Hct.
  - destruct (so_task _ _ Hok a c t Hc Hct) as (k & Hk & Hic). rewrite Hk.
    destruct (Task.users k =? 0); intros [= <- <-]; [|split_and!; [done|apply frame_refl|done]].
    destruct (task_destroy_ok new a t true w k Hok Ha Hk Hic) as (H1 & H2 & H3 & H4).
    by split_and!.
  - intros [= <- <-]. split_and!; [by apply destroy_ok|apply destroy_frame| |done].
    destruct (destroy_effect a true w c Hc) as (-> & _). apply lookup_delete_eq.
Qed.

(** Taking the chunk away from the output, before it is destroyed. *)
Definition take_from (a out : nat) (c : flb_input_chunk) (o : flb_output_instance) (w : store) : store :=
  update_out out (λ o, set_fs_size (u64 (fs_chunks_size o - flb_input_chunk_get_real_size c)) o)
    (update_chunk a (set_mask (flb_routes_mask_clear_bit (routes_mask c) (out_id o) (mcfg w))) w).

Lemma map_lookup_Some {A B} (f : A -> B) (l : list A) i y :
  map f l !! i = Some y <-> exists x, l !! i = Some x /\ y = f x.
Proof.
  change (map f l) with (f <$> l). rewrite list_lookup_fmap_Some. naive_solver.
Qed.

Lemma map_alter {A B} (g : A -> B) (f : A -> A) i (l : list A) :
  (forall x, g (f x) = g x) -> map g (alter f i l) = map g l.
Proof.
  intros H. revert i. induction l as [|x l IH]; intros [|i]; simpl; try done.
  - by rewrite H.
  - f_equal. apply IH.
Qed.

Lemma take_from_frame a out c o w : frame a w (take_from a out c o w).
Proof.
  split; simpl; [done|by apply map_alter..| |done].
  intros b Hb. by rewrite lookup_alter_ne.
Qed.

Lemma get_bit_in_slots mask v cfg : flb_routes_mask_get_bit mask v cfg = true -> in_slots cfg v = true.
Proof. rewrite get_bit_spec. by intros [? _]%andb_true_iff. Qed.

Lemma list_elem_of_alter {A} (f : A -> A) i (l : list A) x :
  x ∈ alter f i l -> (exists y, l !! i = Some y /\ x = f y) \/ (exists j, j <> i /\ l !! j = Some x).
Proof.
  intros [j Hj]%list_elem_of_lookup. destruct (decide (j = i)) as [->|Hne].
  - left. rewrite list_lookup_alter_eq in Hj. destruct (l !! i) as [y|]; [|done].
    simplify_eq/=. eauto.
  - right. exists j. rewrite list_lookup_alter_ne in Hj by done. done.
Qed.

(** An output that was changed has the id and the limit it had. *)
Lemma altered_out f out (l : list flb_output_instance) o :
  (forall x, out_id (f x) = out_id x /\ unlimited (f x) = unlimited x) -> o ∈ alter f out l ->
  exists o0, o0 ∈ l /\ out_id o = out_id o0 /\ unlimited o = unlimited o0.
Proof.
  intros Hf [(y & Hy & ->)|(j & _ & Hj)]%list_elem_of_alter.
  - exists y. destruct (Hf y). split_and!; [by eapply list_elem_of_lookup_2|done..].
  - exists o. split_and!; [by eapply list_elem_of_lookup_2|done..].
Qed.

Lemma take_from_ok new a out c o w :
  store_ok new w -> a <> new -> chunks w !! a = Some c -> outs w !! out = Some o ->
  unlimited o = false -> routed w c o = true -> store_ok new (take_from a out c o w).
Proof.
  intros Hok Ha Hc Ho Hu Hr. pose proof (so_mask _ _ Hok a c Hc) as Hm.
  pose proof (so_cfg _ _ Hok) as Hcfg.
  assert (Hslot : in_slots (mcfg w) (out_id o) = true) by (by apply get_bit_in_slots in Hr).
  assert (Hbit : forall v, flb_routes_mask_get_bit
      (flb_routes_mask_clear_bit (routes_mask c) (out_id o) (mcfg w)) v (mcfg w)
      = if out_id o =? v then false else flb_routes_mask_get_bit (routes_mask c) v (mcfg w)).
  { intros v. rewrite clear_bit_get by done. by rewrite Hslot. }
  set (m' := flb_routes_mask_clear_bit (routes_mask c) (out_id o) (mcfg w)) in *.
  assert (Hoi : o ∈ outs w) by (by eapply list_elem_of_lookup_2).
  destruct (so_counted _ _ Hok a c o Ha Hc Hoi Hu Hr) as [Hfc Hpos].
  assert (Hsize : flb_input_chunk_get_real_size c = cio_real c) by (by apply real_size_pos).
  destruct Hok as [A1 A2 A3 A4 A5 A6].
  assert (Hlook := lookup_alter_cases (set_mask m') a (chunks w) c Hc).
  split; simpl; fold m'.
  - done.
  - intros b d [[-> ->]|[_ Hb]]%Hlook; [|eauto]. simpl. by apply clear_bit_wf.
  - by rewrite map_alter.
  - intros b d t [[-> ->]|[_ Hb]]%Hlook Ht; [|eauto]. by apply (A4 a c).
  - intros b d o' Hn Hb Ho' Hu' Hr'. unfold routed in Hr'. simpl in Hr'.
    apply altered_out in Ho' as (o0 & Ho0 & Hid & Hul); [|done].
    rewrite Hid in Hr'. rewrite Hu' in Hul. symmetry in Hul.
    apply Hlook in Hb as [[-> ->]|[_ Hb]]; [|by apply (A5 b d o0)].
    simpl in Hr' |- *. rewrite Hbit in Hr'. destruct (_ =? _); [done|]. by apply (A5 a c o0).
  - intros o' Ho' Hu'. rewrite (msum_alter _ a c) by done.
    apply list_elem_of_alter in Ho' as [(y & Hy & ->)|(j & Hj & Hlj)].
    + assert (y = o) as -> by congruence. simpl. rewrite (A6 o Hoi Hu).
      unfold weight at 3 4. simpl. unfold routed in Hr. rewrite Hbit, Hr, Hfc, Z.eqb_refl. simpl.
      unfold u64. rewrite Zminus_mod_idemp_l. f_equal. lia.
    + assert (Ho'i : o' ∈ outs w) by (by eapply list_elem_of_lookup_2).
      rewrite (A6 o' Ho'i Hu'). f_equal. unfold weight at 3 4. simpl. rewrite Hbit.
      change (flb_input_chunk_get_real_size (set_mask m' c)) with (flb_input_chunk_get_real_size c).
      destruct (Z.eqb_spec (out_id o) (out_id o')) as [Heq|]; [|lia].
      exfalso. apply Hj. apply (NoDup_lookup (map out_id (outs w)) j out (out_id o)); [done| |].
      * apply map_lookup_Some. by exists o'.
      * apply map_lookup_Some. by exists o.
Qed.

(** A chunk that may be taken from an output: routed to it, and not being
    delivered to it. *)
Definition free_task (w : store) (out : nat) (c : flb_input_chunk) : Prop :=
  match task c with
  | None => True
  | Some t => forall k, tasks w !! t = Some k ->
      Task.users k = 0 \/ Task.flb_task_get_route_status k out = Task.FLB_TASK_ROUTE_INACTIVE
  end.

Definition available (w : store) (out a : nat) : Prop :=
  exists c o, chunks w !! a = Some c /\ outs w !! out = Some o /\ routed w c o = true /\
    free_task w out c.

Lemma drop_route_ok new a c out w ok dropped w' :
  store_ok new w -> chunks w !! a = Some c ->
  flb_input_chunk_drop_task_route (task c) out w = (ok, dropped, w') ->
  store_ok new w' /\ frame a w w' /\ chunks w' = chunks w /\ outs w' = outs w /\ mcfg w' = mcfg w /\
  (ok = true <-> free_task w out c).
Proof.
  intros Hok Hc. unfold flb_input_chunk_drop_task_route, free_task.
  assert (Hsame : store_ok new w /\ frame a w w /\ chunks w = chunks w /\ outs w = outs w /\ mcfg w = mcfg w)
    by (split_and!; try done; apply frame_refl).
  destruct (task c) as [t|] eqn:Ht.
  2:{ intros [= <- <- <-]. naive_solver. }
  destruct (so_task _ _ Hok a c t Hc Ht) as (k & Hk & Hic). rewrite Hk.
  destruct (Z.eqb_spec (Task.users k) 0) as [Hu|Hu].
  { intros [= <- <- <-]. do 5 (split; [apply Hsame|]). split; [|done].
    intros _ k' Hk'. left. congruence. }
  destruct (Z.eqb_spec (Task.flb_task_get_route_status k out) Task.FLB_TASK_ROUTE_INACTIVE) as [Hs|Hs].
  2:{ intros [= <- <- <-]. do 5 (split; [apply Hsame|]). split; [done|].
      intros H0. destruct (H0 k eq_refl); done. }
  intros [= <- <- <-]. destruct Hok as [A1 A2 A3 A4 A5 A6].
  split; [|split; [|do 3 (split; [done|])]].
  - split; try done. simpl. intros b d t' Hb Ht'. destruct (A4 b d t' Hb Ht') as (k' & Hk' & Hic').
    destruct (decide (t' = t)) as [->|Hne].
    + rewrite lookup_alter_eq, Hk'. simpl. eexists. split; [done|]. done.
    + rewrite lookup_alter_ne by done. eauto.
  - split; try done. simpl. intros b d t' Hb Hd Ht'. destruct (A4 b d t' Hd Ht') as (k' & Hk' & Hic').
    rewrite lookup_alter_ne; [done|]. intros ->. congruence.
  - split; [|done]. intros _ k' Hk'. right. congruence.
Qed.

(** Counting the records of a dropped chunk touches only the trace. *)
Definition log_dropped (c : flb_input_chunk) (out : nat) (dropped : Z) (w : store) : store :=
  if dropped =? 0 then
    if get_input_chunk_record_count c =? -1 then w
    else emit (C_dropped_records out (get_input_chunk_record_count c)) w
  else w.

Lemma log_dropped_same c out dropped w :
  let w' := log_dropped c out dropped w in
  chunks w' = chunks w /\ tasks w' = tasks w /\ outs w' = outs w /\ mcfg w' = mcfg w.
Proof. unfold log_dropped. by repeat case_match. Qed.

Lemma log_dropped_ok new a c out dropped w :
  store_ok new w ->
  store_ok new (log_dropped c out dropped w) /\ frame a w (log_dropped c out dropped w).
Proof.
  intros Hok. destruct (log_dropped_same c out dropped w) as (L1 & L2 & L3 & L4).
  split; [by eapply store_ok_same|by apply frame_same].
Qed.

(** The chunk as the output gave it up. *)
Lemma take_from_state new a c out o dropped w :
  store_ok new w -> chunks w !! a = Some c -> outs w !! out = Some o -> routed w c o = true ->
  let w2 := log_dropped c out dropped (take_from a out c o w) in
  let m' := flb_routes_mask_clear_bit (routes_mask c) (out_id o) (mcfg w) in
  chunks w2 !! a = Some (set_mask m' c) /\
  outs w2 !! out = Some (set_fs_size (u64 (fs_chunks_size o - flb_input_chunk_get_real_size c)) o) /\
  flb_routes_mask_get_bit m' (out_id o) (mcfg w) = false /\ mcfg w2 = mcfg w.
Proof.
  intros Hok Hc Ho Hr w2 m'.
  destruct (log_dropped_same c out dropped (take_from a out c o w)) as (L1 & _ & L3 & L4).
  unfold w2. rewrite L1, L3, L4. simpl. rewrite lookup_alter_eq, Hc, list_lookup_alter_eq, Ho.
  split_and!; try done. unfold m'. rewrite clear_bit_get; [|apply Hok|by eapply so_mask].
  by rewrite (get_bit_in_slots _ _ _ Hr), Z.eqb_refl.
Qed.

Lemma release_step new a c out o scope dropped w n w' :
  store_ok new w -> a <> new -> chunks w !! a = Some c -> outs w !! out = Some o ->
  unlimited o = false -> routed w c o = true ->
  release_chunk a c out o scope dropped w = (n, w') ->
  store_ok new w' /\ frame a w w' /\
  (scope = SCOPE_LOCAL ->
   n = flb_input_chunk_get_real_size c /\
   exists o', outs w' !! out = Some o' /\ fs_chunks_size o' = u64 (fs_chunks_size o - n) /\
     forall c', chunks w' !! a = Some c' -> routed w' c' o' = false).
Proof.
  intros Hok Ha Hc Ho Hu Hr. unfold release_chunk. destruct scope; cbv zeta beta iota.
  - pose proof (take_from_ok new a out c o w Hok Ha Hc Ho Hu Hr) as Hok1.
    pose proof (take_from_frame a out c o w) as Hf1.
    destruct (take_from_state new a c out o dropped w Hok Hc Ho Hr) as (Hc1 & Ho1 & Hcut & Hm1).
    destruct (log_dropped_ok new a c out dropped _ Hok1) as [Hok2 Hf2].
    fold (take_from a out c o w). fold (log_dropped c out dropped (take_from a out c o w)).
    set (w2 := log_dropped c out dropped _) in *. clearbody w2.
    set (m' := flb_routes_mask_clear_bit _ _ _) in *. set (o1 := set_fs_size _ o) in *.
    destruct (bool_decide _); [|intros [= <- <-]; split_and!; [done|by eapply frame_trans|]].
    + destruct (release_destroy a c w2) as [w3 b] eqn:Ed.
      eapply release_destroy_ok in Ed as (D1 & D2 & D3); [|done..].
      intros [= <- <-]. split_and!; [done|by do 2 (eapply frame_trans; [done|])|].
      intros _. split; [done|]. destruct b.
      * destruct D3 as [D3 D4]. destruct (destroy_effect a true _ _ Hc1) as (_ & _ & _ & E4).
        rewrite D4, E4. eexists. split.
        { apply map_lookup_Some. exists o1. done. }
        split; [|intros c' Hc'; congruence].
        unfold uncount, routed. rewrite Hm1.
        destruct (woken_weight (set_mask m' c)) as (-> & _). simpl. rewrite Hcut. simpl.
        by repeat case_match.
      * subst w3. exists o1. split_and!; [done..|]. intros c' Hc'. rewrite Hc1 in Hc'. simplify_eq.
        unfold routed. by rewrite Hm1.
    + intros _. split; [done|]. exists o1. split_and!; [done..|]. intros c' Hc'. rewrite Hc1 in Hc'.
      simplify_eq. unfold routed. by rewrite Hm1.
  - fold (log_dropped c out dropped w). destruct (log_dropped_ok new a c out dropped w Hok) as [Hok2 Hf2].
    destruct (log_dropped_same c out dropped w) as (L1 & _).
    destruct (release_destroy a c (log_dropped c out dropped w)) as [w3 b] eqn:Ed.
    eapply release_destroy_ok in Ed as (D1 & D2 & D3); [|try done..]; [|by rewrite L1].
    intros [= <- <-]. split_and!; [done|by eapply frame_trans|done].
Qed.

Lemma frame_out a w w' out o :
  frame a w w' -> outs w !! out = Some o ->
  exists o', outs w' !! out = Some o' /\ out_id o' = out_id o /\ unlimited o' = unlimited o.
Proof.
  intros [_ F2 F3 _ _] Ho.
  assert (H1 : map out_id (outs w') !! out = Some (out_id o))
    by (rewrite F2; apply map_lookup_Some; eauto).
  assert (H2 : map total_limit_size (outs w') !! out = Some (total_limit_size o))
    by (rewrite F3; apply map_lookup_Some; eauto).
  apply map_lookup_Some in H1 as (o' & Ho' & Hid). apply map_lookup_Some in H2 as (o2 & Ho2 & Hlim).
  exists o'. split_and!; [done..|]. unfold unlimited. congruence.
Qed.

Lemma frame_available a b w w' out :
  frame a w w' -> b <> a -> available w' out b <-> available w out b.
Proof.
  intros Hf Hb.
  assert (Hft : forall c, chunks w !! b = Some c -> free_task w' out c <-> free_task w out c).
  { intros c Hc. unfold free_task. destruct (task c) as [t|] eqn:Ht; [|done].
    by rewrite (fr_tasks _ _ _ Hf b c t). }
  unfold available, routed. rewrite (fr_chunks _ _ _ Hf b Hb), (fr_cfg _ _ _ Hf).
  split; intros (c & o & Hc & Ho & Hr & Hfree).
  - assert (H0 : map out_id (outs w) !! out = Some (out_id o))
      by (rewrite <- (fr_ids _ _ _ Hf); apply map_lookup_Some; eauto).
    apply map_lookup_Some in H0 as (o0 & Ho0 & Hid). exists c, o0. rewrite <- Hid.
    split_and!; [done..|]. by apply Hft.
  - destruct (frame_out _ _ _ _ _ Hf Ho) as (o' & Ho' & Hid & _). exists c, o'. rewrite Hid.
    split_and!; [done..|]. by apply Hft.
Qed.

(** What a run of the loop over [l] guarantees. *)
Definition released_ok (new out : nat) (scope : release_scope) (required : Z) (l : list nat)
    (released r : Z) (w w' : store) : Prop :=
  store_ok new w' /\ mcfg w' = mcfg w /\
  (forall o, outs w !! out = Some o ->
     exists o', outs w' !! out = Some o' /\ out_id o' = out_id o /\ unlimited o' = unlimited o /\
       (scope = SCOPE_LOCAL -> unlimited o = false ->
        fs_chunks_size o' = u64 (fs_chunks_size o - (r - released)))) /\
  (forall a, a ∉ l \/ a = new \/ ~ available w out a -> chunks w' !! a = chunks w !! a) /\
  (scope = SCOPE_LOCAL -> r < required -> forall a, a ∈ l -> a <> new ->
     available w out a -> ~ available w' out a).

(** Skipping a chunk that is not available. *)
Lemma released_skip new out scope required a l released r w w1 w' :
  frame a w w1 -> chunks w1 = chunks w -> outs w1 = outs w ->
  a = new \/ ~ available w out a -> a ∉ l ->
  released_ok new out scope required l released r w1 w' ->
  released_ok new out scope required (a :: l) released r w w'.
Proof.
  intros Hf Hc Ho Hskip Hal (H1 & H2 & H3 & H4 & H5). split; [done|].
  split; [by rewrite H2, (fr_cfg _ _ _ Hf)|]. split; [by rewrite <- Ho|]. split.
  - intros b Hb. rewrite <- Hc. destruct (decide (b = a)) as [->|Hne]; [apply H4; by left|].
    apply H4. rewrite (frame_available a b w w1 out Hf Hne). set_solver.
  - intros Hs Hr b Hb Hn Hav. apply elem_of_cons in Hb as [->|Hb]; [by destruct Hskip|].
    apply H5; try done. by apply (frame_available a b w w1 out Hf); [set_solver|].
Qed.

(** A chunk that was available is taken; the loop stops or goes on. *)
Lemma released_take new out scope required a l released n r w w1 w' c o :
  store_ok new w -> frame a w w1 -> store_ok new w1 -> a <> new -> a ∉ l ->
  chunks w !! a = Some c -> outs w !! out = Some o -> routed w c o = true -> free_task w out c ->
  (scope = SCOPE_LOCAL -> exists o', outs w1 !! out = Some o' /\
     fs_chunks_size o' = u64 (fs_chunks_size o - n) /\
     forall c', chunks w1 !! a = Some c' -> routed w1 c' o' = false) ->
  released_ok new out scope required l (released + n) r w1 w' ->
  released_ok new out scope required (a :: l) released r w w'.
Proof.
  intros Hok Hf Hok1 Ha Hal Hc Ho Hr Hfree Hloc (H1 & H2 & H3 & H4 & H5).
  assert (Hava : available w out a) by (by exists c, o).
  split; [done|]. split; [by rewrite H2, (fr_cfg _ _ _ Hf)|]. split; [|split].
  - intros o0 Ho0. assert (o0 = o) as -> by congruence.
    destruct (frame_out _ _ _ _ _ Hf Ho) as (o1 & Ho1 & Hid & Hul).
    destruct (H3 o1 Ho1) as (o' & Ho' & Hid' & Hul' & Hfs). exists o'.
    split_and!; [done|congruence..|]. intros Hs Hu. rewrite (Hfs Hs) by congruence.
    destruct (Hloc Hs) as (o2 & Ho2 & Hfs2 & _). assert (o2 = o1) as -> by congruence. rewrite Hfs2.
    unfold u64. rewrite Zminus_mod_idemp_l. f_equal. lia.
  - intros b Hb. assert (Hba : b <> a) by (intros ->; set_solver).
    rewrite <- (fr_chunks _ _ _ Hf b Hba). apply H4.
    rewrite (frame_available a b w w1 out Hf Hba). set_solver.
  - intros Hs Hlt b Hb Hn Hav. apply elem_of_cons in Hb as [->|Hb].
    + destruct (Hloc Hs) as (o1 & Ho1 & _ & Hgone). destruct (H3 o1 Ho1) as (o' & Ho' & Hid' & _ & _).
      assert (Hca : chunks w' !! a = chunks w1 !! a) by (apply H4; by left).
      intros (c' & o2 & K1 & K2 & K3 & _). assert (o2 = o') as -> by congruence.
      rewrite Hca in K1. specialize (Hgone c' K1). unfold routed in *. rewrite H2, Hid' in K3. congruence.
    + apply H5; try done. by apply (frame_available a b w w1 out Hf); [set_solver|].
Qed.

Lemma released_stop new out scope required l r w :
  store_ok new w -> l = [] \/ required <= r -> released_ok new out scope required l r r w w.
Proof.
  intros Hok Hstop. split; [done|]. split; [done|]. split; [|split; [done|]].
  - intros o Ho. exists o. split_and!; [done..|]. intros _ Hu. rewrite Z.sub_diag, Z.sub_0_r.
    rewrite (so_fs _ _ Hok o); [|by eapply list_elem_of_lookup_2|done].
    unfold u64. by rewrite Zmod_mod.
  - intros _ Hlt a Hin. destruct Hstop as [->|]; [by apply not_elem_of_nil in Hin|lia].
Qed.

Lemma release_loop_ok new out scope required l released w r w' o :
  store_ok new w -> outs w !! out = Some o -> unlimited o = false -> NoDup l ->
  release_loop new out scope required l released w = (r, w') ->
  released_ok new out scope required l released r w w'.
Proof.
  revert released w o. induction l as [|a l IH]; intros released w o Hok Ho Hu Hnd; simpl.
  { intros [= <- <-]. apply released_stop; auto. }
  apply NoDup_cons in Hnd as [Hal Hnd].
  assert (Hskip : forall w1, frame a w w1 -> chunks w1 = chunks w -> outs w1 = outs w ->
    store_ok new w1 -> a = new \/ ~ available w out a ->
    release_loop new out scope required l released w1 = (r, w') ->
    released_ok new out scope required (a :: l) released r w w').
  { intros w1 Hf Hc Ho1 Hok1 Hna Hl. eapply released_skip; [exact Hf|done..|].
    eapply IH; try done. by rewrite Ho1. }
  assert (Hstay := Hskip w (frame_refl a w) eq_refl eq_refl Hok).
  destruct (chunks w !! a) as [c|] eqn:Hc.
  2:{ apply Hstay. right. intros (c & ? & Hc' & _). congruence. }
  rewrite Ho. unfold flb_input_chunk_safe_delete.
  destruct (routed w c o) eqn:Hr; simpl.
  2:{ apply Hstay. right. intros (c' & o' & Hc' & Ho' & Hr' & _). congruence. }
  destruct (Nat.eqb_spec new a) as [->|Hne]; simpl; [apply Hstay; by left|].
  unfold routed in Hr. rewrite Hr. simpl.
  destruct (flb_input_chunk_drop_task_route (task c) out w) as [[ok dropped] w1] eqn:Ed.
  destruct (drop_route_ok new a c out w ok dropped w1 Hok Hc Ed) as (D1 & D2 & D3 & D4 & D5 & D6).
  destruct ok; simpl.
  2:{ apply (Hskip w1 D2 D3 D4 D1). right. intros (c' & o' & Hc' & _ & _ & Hfree).
      assert (c' = c) as -> by congruence. by apply D6 in Hfree. }
  destruct (release_chunk a c out o scope dropped w1) as [n w2] eqn:Er.
  assert (Hr1 : routed w1 c o = true) by (unfold routed; by rewrite D5).
  rewrite <- D3 in Hc. rewrite <- D4 in Ho.
  pose proof (release_step new a c out o scope dropped w1 n w2 D1 (not_eq_sym Hne) Hc Ho Hu Hr1 Er)
    as (S1 & S2 & S3).
  rewrite D3 in Hc. rewrite D4 in Ho.
  assert (Hf : frame a w w2) by (by eapply frame_trans).
  destruct (frame_out _ _ _ _ _ Hf Ho) as (o2 & Ho2 & _ & Hu2).
  assert (Hlocal : scope = SCOPE_LOCAL -> exists o', outs w2 !! out = Some o' /\
     fs_chunks_size o' = u64 (fs_chunks_size o - n) /\
     forall c', chunks w2 !! a = Some c' -> routed w2 c' o' = false).
  { intros Hs. destruct (S3 Hs) as (_ & o' & P1 & P2 & P3). eauto. }
  destruct (Z.leb_spec required (released + n)) as [Hle|Hlt].
  - intros [= <- <-]. eapply (released_take _ _ _ _ _ _ _ n _ w w2); try done; [by apply D6|].
    apply released_stop; auto.
  - intros Hl. eapply (released_take _ _ _ _ _ _ _ n _ w w2); try done; [by apply D6|].
    eapply IH; try done. by rewrite Hu2.
Qed.

(** ** The new chunk and the accounts, through the whole search for space *)

Record kept (new : nat) (w w' : store) : Prop := {
  kp_ok : store_ok new w';
  kp_new : chunks w' !! new = chunks w !! new;
  kp_cfg : mcfg w' = mcfg w;
  kp_ids : map out_id (outs w') = map out_id (outs w);
  kp_lim : map total_limit_size (outs w') = map total_limit_size (outs w);
}.

Lemma kept_refl new w : store_ok new w -> kept new w w.
Proof. by split. Qed.

Lemma kept_trans new w1 w2 w3 : kept new w1 w2 -> kept new w2 w3 -> kept new w1 w3.
Proof. intros [A1 A2 A3 A4 A5] [B1 B2 B3 B4 B5]. split; congruence. Qed.

Lemma kept_frame new a w w' : store_ok new w' -> frame a w w' -> a <> new -> kept new w w'.
Proof. intros Hok [F1 F2 F3 F4 _] Ha. split; try done. apply F4. congruence. Qed.

Lemma kept_limit new w w' out o :
  kept new w w' -> outs w !! out = Some o -> unlimited o = false ->
  exists o', outs w' !! out = Some o' /\ unlimited o' = false.
Proof.
  intros Hk Ho Hu. pose proof (kp_lim _ _ _ Hk) as Hl.
  assert (H : map total_limit_size (outs w') !! out = Some (total_limit_size o))
    by (rewrite Hl; apply map_lookup_Some; eauto).
  apply map_lookup_Some in H as (o' & Ho' & Heq). exists o'. split; [done|].
  unfold unlimited in *. by rewrite <- Heq.
Qed.

Lemma release_loop_kept new out scope required l released w r w' o :
  store_ok new w -> outs w !! out = Some o -> unlimited o = false ->
  release_loop new out scope required l released w = (r, w') -> kept new w w'.
Proof.
  revert released w o. induction l as [|a l IH]; intros released w o Hok Ho Hu; simpl.
  { intros [= <- <-]. by apply kept_refl. }
  destruct (chunks w !! a) as [c|] eqn:Hc; [|by apply (IH _ _ o)].
  rewrite Ho. unfold flb_input_chunk_safe_delete.
  destruct (routed w c o) eqn:Hr; simpl; [|by apply (IH _ _ o)].
  destruct (Nat.eqb_spec new a) as [->|Hne]; simpl; [by apply (IH _ _ o)|].
  unfold routed in Hr. rewrite Hr. simpl.
  destruct (flb_input_chunk_drop_task_route (task c) out w) as [[ok dropped] w1] eqn:Ed.
  destruct (drop_route_ok new a c out w ok dropped w1 Hok Hc Ed) as (D1 & D2 & D3 & D4 & D5 & _).
  pose proof (kept_frame new a w w1 D1 D2 (not_eq_sym Hne)) as K1.
  destruct ok; simpl.
  2:{ intros Hl. eapply kept_trans; [exact K1|]. eapply IH; [done| |done|done]. by rewrite D4. }
  destruct (release_chunk a c out o scope dropped w1) as [n w2] eqn:Er.
  rewrite <- D3 in Hc. rewrite <- D4 in Ho. rewrite <- D5 in Hr.
  destruct (release_step new a c out o scope dropped w1 n w2 D1 (not_eq_sym Hne) Hc Ho Hu Hr Er)
    as (S1 & S2 & _).
  pose proof (kept_frame new a w1 w2 S1 S2 (not_eq_sym Hne)) as K2.
  assert (K : kept new w w2) by (by eapply kept_trans).
  destruct (_ <=? _); [by intros [= <- <-]|]. intros Hl.
  rewrite D4 in Ho. destruct (kept_limit _ _ _ _ _ K Ho Hu) as (o2 & Ho2 & Hu2).
  eapply kept_trans; [exact K|]. by eapply IH.
Qed.

Lemma release_space_kept new inp out required scope w r w' o :
  store_ok new w -> outs w !! out = Some o -> unlimited o = false ->
  flb_input_chunk_release_space new inp out required scope w = (r, w') -> kept new w w'.
Proof.
  intros Hok Ho Hu. unfold flb_input_chunk_release_space.
  destruct (inputs w !! inp) as [ii|]; [|intros [= _ <-]; by apply kept_refl].
  destruct (release_loop _ _ _ _ _ _ _) as [n w1] eqn:El. intros [= _ <-].
  by eapply release_loop_kept.
Qed.

Lemma backlog_kept new out size w :
  store_ok new w -> kept new w (update_out out (set_backlog_size size) w).
Proof.
  intros Hok. split; simpl; [|done|done|by apply map_alter..].
  assert (Hin : forall o', o' ∈ alter (set_backlog_size size) out (outs w) ->
    exists o, o ∈ outs w /\ out_id o' = out_id o /\ unlimited o' = unlimited o /\
      fs_chunks_size o' = fs_chunks_size o).
  { intros o' [(y & Hy & ->)|(j & _ & Hj)]%list_elem_of_alter.
    - exists y. split; [by eapply list_elem_of_lookup_2|done].
    - exists o'. split; [by eapply list_elem_of_lookup_2|done]. }
  destruct Hok as [A1 A2 A3 A4 A5 A6]. split; simpl; try done.
  - by rewrite map_alter.
  - intros a c o' Hn Hc (o & Ho & Hid & Hul & _)%Hin Hu Hr. apply (A5 a c o); try done.
    + congruence.
    + unfold routed in *. by rewrite <- Hid.
  - intros o' (o & Ho & Hid & Hul & Hfs)%Hin Hu. rewrite Hfs, Hid. apply A6; [done|congruence].
Qed.

Lemma release_inputs_kept new own out l required w r w' o :
  store_ok new w -> outs w !! out = Some o -> unlimited o = false ->
  release_inputs new own out l required w = (r, w') -> kept new w w'.
Proof.
  revert required w o. induction l as [|i l IH]; intros required w o Hok Ho Hu; simpl.
  { intros [= _ <-]. by apply kept_refl. }
  destruct (if Nat.eqb i own then _ else _) as [req w1] eqn:E.
  assert (K : kept new w w1).
  { destruct (Nat.eqb i own); [simplify_eq; by apply kept_refl|]. by eapply release_space_kept. }
  destruct (req <=? 0); [by intros [= _ <-]|]. intros Hl.
  destruct (kept_limit _ _ _ _ _ K Ho Hu) as (o1 & Ho1 & Hu1).
  eapply kept_trans; [exact K|]. eapply IH; [apply K|done..].
Qed.

Lemma compound_kept sb backlog new out rl w r w' o :
  store_ok new w -> outs w !! out = Some o -> unlimited o = false ->
  flb_input_chunk_release_space_compound sb backlog new out rl w = (r, w') -> kept new w w'.
Proof.
  intros Hok Ho Hu. unfold flb_input_chunk_release_space_compound.
  destruct (chunks w !! new) as [c|]; [|intros [= _ <-]; by apply kept_refl]. cbv zeta.
  destruct (if 0 <? _ then flb_input_chunk_release_space _ _ _ _ _ _ else _) as [r1 w1] eqn:E1.
  assert (K1 : kept new w w1).
  { destruct (0 <? _); [by eapply release_space_kept|simplify_eq; by apply kept_refl]. }
  destruct (if 0 <? r1 then match outs w1 !! out with Some _ => _ | None => _ end else _)
    as [r2 w2] eqn:E2.
  assert (K2 : kept new w w2).
  { eapply kept_trans; [exact K1|]. destruct (0 <? r1); [|simplify_eq; apply kept_refl, K1].
    destruct (outs w1 !! out); [|simplify_eq; apply kept_refl, K1].
    destruct (sb _ _ _); simplify_eq. apply backlog_kept, K1. }
  destruct (if rl && (0 <? r2) then _ else _) as [r3 w3] eqn:E3.
  assert (K3 : kept new w w3).
  { destruct (rl && _); [|simplify_eq; done]. eapply kept_trans; [exact K2|].
    destruct (kept_limit _ _ _ _ _ K2 Ho Hu) as (o2 & Ho2 & Hu2).
    eapply release_space_kept; [apply K2|done..]. }
  destruct (if 0 <? r3 then _ else _) as [r4 w4] eqn:E4. intros [= _ <-].
  destruct (0 <? r3); [|simplify_eq; done]. eapply kept_trans; [exact K3|].
  destruct (kept_limit _ _ _ _ _ K3 Ho Hu) as (o3 & Ho3 & Hu3).
  eapply release_inputs_kept; [apply K3|done..].
Qed.

Lemma find_space_kept sb backlog new overlimit l count w r w' :
  store_ok new w -> find_space_loop sb backlog new overlimit l count w = (r, w') -> kept new w w'.
Proof.
  revert count w. induction l as [|i l IH]; intros count w Hok; simpl.
  { intros [= _ <-]. by apply kept_refl. }
  destruct (chunks w !! new) as [c|]; [|by apply IH].
  destruct (outs w !! i) as [o|] eqn:Ho; [|by apply IH].
  destruct (unlimited o) eqn:Hu; simpl; [by apply IH|].
  destruct (_ || _); [by apply IH|].
  destruct (flb_input_chunk_release_space_compound _ _ _ _ _ _) as [rest w1] eqn:Ec. intros Hl.
  pose proof (compound_kept _ _ _ _ _ _ _ _ _ Hok Ho Hu Ec) as K.
  eapply kept_trans; [exact K|]. eapply IH; [apply K|exact Hl].
Qed.

(** ** Properties of the accounts *)

(** C13: looking for room for new data keeps the accounts: whatever chunks
    and tasks are dropped, on all inputs and in the backlog, afterwards the
    [fs_chunks_size] of every limited output is again the size of the chunks
    routed to it.  The chunk room is made for is never dropped, nor is its mask
    changed, and when no limit is exceeded nothing happens at all. *)
Theorem place_new_chunk_accounts sb backlog new size w r w' :
  store_ok new w -> flb_input_chunk_place_new_chunk sb backlog new size w = (r, w') ->
  store_ok new w' /\ chunks w' !! new = chunks w !! new /\ mcfg w' = mcfg w /\
  (flb_input_chunk_has_overlimit_routes new size w = 0 -> w' = w).
Proof.
  intros Hok. unfold flb_input_chunk_place_new_chunk.
  destruct (chunks w !! new) as [c|] eqn:Hc; [|intros [= _ <-]; by split_and!].
  destruct (inputs w !! ck_in c) as [ii|]; [|intros [= _ <-]; by split_and!].
  destruct (if _ && _ then _ else _) as [res w1] eqn:E. intros Hr.
  assert (w' = w1) as -> by (destruct (negb (res =? 0)); by injection Hr). clear Hr.
  destruct (_ =? CIO_STORE_FS); simpl in E; [|simplify_eq; by split_and!].
  destruct (Z.eqb_spec (flb_input_chunk_has_overlimit_routes new size w) 0) as [Hz|Hz];
    simpl in E; [simplify_eq; by split_and!|].
  apply find_space_kept in E as [K1 K2 K3 _ _]; [|done]. rewrite Hc in K2. by split_and!.
Qed.

(** What counting the chunk [c] does to an output. *)
Definition grown (w : store) (c : flb_input_chunk) (o : flb_output_instance) : flb_output_instance :=
  if negb (unlimited o) && routed w c o then set_fs_size (u64 (fs_chunks_size o + cio_real c)) o else o.

Lemma grown_outs w c o' :
  o' ∈ map (grown w c) (outs w) ->
  exists o, o ∈ outs w /\ o' = grown w c o /\ out_id o' = out_id o /\ unlimited o' = unlimited o.
Proof.
  intros (o & -> & Ho)%elem_of_map. exists o. unfold grown. split; [done|]. by destruct (_ && _).
Qed.

Lemma grown_ids w c : NoDup (map out_id (outs w)) -> NoDup (map out_id (map (grown w c) (outs w))).
Proof.
  intros H. rewrite map_map. erewrite map_ext; [exact H|]. intros o. unfold grown. by destruct (_ && _).
Qed.

(** Some limited output takes the chunk: it counts from now on. *)
Lemma count_taken new w c n :
  store_ok new w -> chunks w !! new = Some c -> fs_counted c = false -> 0 < cio_real c ->
  store_ok n (update_chunk new set_counted (set_outs (map (grown w c) (outs w)) w)).
Proof.
  intros [A1 A2 A3 A4 A5 A6] Hc Hf Hp. pose proof (real_size_pos c Hp) as Hsize.
  assert (Hw0 : forall id, weight (mcfg w) id c = 0).
  { intros id. unfold weight. by rewrite Hf, andb_false_r. }
  assert (Hlook : forall b d, alter set_counted new (chunks w) !! b = Some d ->
    (b = new /\ d = set_counted c) \/ (b <> new /\ chunks w !! b = Some d)).
  { intros b d Hb. destruct (decide (b = new)) as [->|Hne].
    - rewrite lookup_alter_eq, Hc in Hb. simplify_eq/=. by left.
    - rewrite lookup_alter_ne in Hb by done. by right. }
  split; simpl; try done.
  - intros b d [[-> ->]|[_ Hb]]%Hlook; [by apply (A2 new c)|eauto].
  - by apply grown_ids.
  - intros b d t [[-> ->]|[_ Hb]]%Hlook Ht; [by apply (A4 new c)|eauto].
  - intros b d o' _ [[-> ->]|[Hb Hd]]%Hlook (o & Ho & _ & Hid & Hul)%grown_outs Hu Hr; [by split|].
    apply (A5 b d o); try done; [congruence|]. unfold routed in *. simpl in Hr. congruence.
  - intros o' (o & Ho & -> & Hid & Hul)%grown_outs Hu. rewrite Hid.
    assert (Huo : unlimited o = false) by congruence.
    rewrite (msum_alter _ new c) by done. rewrite Hw0.
    unfold weight at 2. simpl. rewrite andb_true_r.
    change (flb_input_chunk_get_real_size (set_counted c)) with (flb_input_chunk_get_real_size c).
    unfold grown, routed. rewrite Huo. simpl.
    destruct (flb_routes_mask_get_bit _ _ _); simpl; rewrite (A6 o Ho Huo).
    + rewrite Hsize. unfold u64. rewrite Zplus_mod_idemp_l. f_equal. lia.
    + f_equal. lia.
Qed.

(** No limited output takes it: nothing is counted. *)
Lemma count_not_taken new w c n :
  store_ok new w -> chunks w !! new = Some c ->
  existsb (λ o, negb (unlimited o) && routed w c o) (outs w) = false ->
  store_ok n (set_outs (map (grown w c) (outs w)) w).
Proof.
  intros [A1 A2 A3 A4 A5 A6] Hc Hex.
  assert (Hno : forall o, o ∈ outs w -> unlimited o = false -> routed w c o = false).
  { intros o Ho Hu. destruct (routed w c o) eqn:Hr; [|done].
    assert (existsb (λ o, negb (unlimited o) && routed w c o) (outs w) = true); [|congruence].
    apply existsb_exists. exists o. rewrite <- list_elem_of_In, Hu, Hr. done. }
  split; simpl; try done.
  - by apply grown_ids.
  - intros b d o' _ Hb (o & Ho & _ & Hid & Hul)%grown_outs Hu Hr.
    assert (Huo : unlimited o = false) by congruence.
    assert (Hro : routed w d o = true) by (unfold routed in *; simpl in Hr; congruence).
    destruct (decide (b = new)) as [->|Hne]; [|by apply (A5 b d o)].
    assert (d = c) as -> by congruence. specialize (Hno o Ho Huo). congruence.
  - intros o' (o & Ho & -> & Hid & Hul)%grown_outs Hu. rewrite Hid.
    assert (Huo : unlimited o = false) by congruence. rewrite <- (A6 o Ho Huo).
    unfold grown. by rewrite Huo, (Hno o Ho Huo).
Qed.

(** Counting a chunk once its data is written completes the accounts:
    every limited output it is routed to grows by the size of the chunk, and no
    chunk is left uncounted. *)
Theorem count_new_chunk new w c :
  store_ok new w -> chunks w !! new = Some c -> fs_counted c = false -> 0 < cio_real c ->
  forall n, store_ok n (flb_input_chunk_update_output_instances new (flb_input_chunk_get_real_size c) w).
Proof.
  intros Hok Hc Hf Hp n.
  unfold flb_input_chunk_update_output_instances. rewrite Hc, (real_size_pos c Hp). cbv zeta.
  destruct (existsb _ (outs w)) eqn:Hex; [by apply (count_taken new)|by apply (count_not_taken new)].
Qed.

(** Releasing space of an output on one input (local scope) reports
    what it did: the size of the output falls by exactly the space reported as
    released; chunks of other inputs, chunks not routed to the output, the new
    chunk and every chunk being delivered to the output are untouched; and if
    space is still missing, no chunk of the input is left that could be taken. *)
Theorem release_space_local new inp out required w ii o r w' :
  store_ok new w -> inputs w !! inp = Some ii -> NoDup (in_chunks ii) ->
  outs w !! out = Some o -> unlimited o = false ->
  flb_input_chunk_release_space new inp out required SCOPE_LOCAL w = (r, w') ->
  (exists o', outs w' !! out = Some o' /\ out_id o' = out_id o /\
     fs_chunks_size o' = u64 (fs_chunks_size o - (required - r))) /\
  (forall a, a ∉ in_chunks ii \/ a = new \/ ~ available w out a -> chunks w' !! a = chunks w !! a) /\
  (0 < r -> forall a, a ∈ in_chunks ii -> a <> new -> available w out a -> ~ available w' out a).
Proof.
  intros Hok Hi Hnd Ho Hu. unfold flb_input_chunk_release_space. rewrite Hi.
  destruct (release_loop _ _ _ _ _ _ _) as [n w1] eqn:El. intros [= <- <-].
  destruct (release_loop_ok _ _ _ _ _ _ _ _ _ _ Hok Ho Hu Hnd El) as (_ & _ & H3 & H4 & H5).
  destruct (H3 o Ho) as (o' & Ho' & Hid & _ & Hfs). split_and!.
  - exists o'. split_and!; [done..|]. rewrite (Hfs eq_refl Hu). do 2 f_equal. lia.
  - done.
  - intros Hr. apply H5; [done|lia].
Qed.

(** ** The memory ring buffer *)

Definition idle (w : store) (c : flb_input_chunk) : bool := flb_input_chunk_is_task_safe_delete w (task c).

Definition size_of (w : store) (a : nat) : Z :=
  match chunks w !! a with Some c => flb_input_chunk_get_real_size c | None => 0 end.

Fixpoint sizes (w : store) (l : list nat) : Z :=
  match l with [] => 0 | a :: l' => size_of w a + sizes w l' end.

Lemma sizes_ext w w' l : (forall a, a ∈ l -> chunks w' !! a = chunks w !! a) -> sizes w' l = sizes w l.
Proof.
  induction l as [|a l IH]; intros H; simpl; [done|]. unfold size_of.
  rewrite (H a) by apply list_elem_of_here. rewrite IH; [done|].
  intros b Hb. apply H. by apply list_elem_of_further.
Qed.

Lemma frame_idle a b w w' c : frame a w w' -> b <> a -> chunks w !! b = Some c -> idle w' c = idle w c.
Proof.
  intros Hf Hb Hc. unfold idle, flb_input_chunk_is_task_safe_delete.
  destruct (task c) as [t|] eqn:Ht; [|done]. by rewrite (fr_tasks _ _ _ Hf b c t).
Qed.

(** The chunks [rem] that one run of the loop over [l] removed. *)
Definition memrb_ok (required : Z) (l rem : list nat) (n n' : memrb_counts) (w w' : store) : Prop :=
  sublist rem l /\
  (forall a, a ∈ rem -> chunks w' !! a = None /\ exists c, chunks w !! a = Some c /\ idle w c = true) /\
  (forall a, a ∉ rem -> chunks w' !! a = chunks w !! a) /\
  released_space n' = released_space n + sizes w rem /\
  removed_chunks n' = removed_chunks n + Z.of_nat (length rem) /\
  (u64 (released_space n') < required -> forall a c, a ∈ l -> chunks w !! a = Some c ->
     idle w c = true -> a ∈ rem).

Lemma memrb_skip required a l rem n n' w w' :
  (forall c, chunks w !! a = Some c -> idle w c = false) ->
  memrb_ok required l rem n n' w w' -> memrb_ok required (a :: l) rem n n' w w'.
Proof.
  intros Ha (H1 & H2 & H3 & H4 & H5 & H6). do 5 (split; [done || by apply sublist_cons|]).
  intros Hlt b c Hb Hc Hi. apply elem_of_cons in Hb as [->|Hb]; [|by eapply H6].
  rewrite (Ha c Hc) in Hi. done.
Qed.

Lemma memrb_take required a l rem n n1 n' w w1 w' c :
  chunks w !! a = Some c -> idle w c = true -> a ∉ l -> frame a w w1 -> chunks w1 !! a = None ->
  released_space n1 = released_space n + flb_input_chunk_get_real_size c ->
  removed_chunks n1 = removed_chunks n + 1 ->
  memrb_ok required l rem n1 n' w1 w' -> memrb_ok required (a :: l) (a :: rem) n n' w w'.
Proof.
  intros Hc Hi Hal Hf Hgone Hr1 Hc1 (H1 & H2 & H3 & H4 & H5 & H6).
  assert (Har : a ∉ rem) by (intros Hin; apply Hal; eapply elem_of_sublist; eauto).
  assert (Hne : forall b, b ∈ l -> b <> a) by (intros b Hb ->; done).
  assert (Hrl : forall b, b ∈ rem -> b <> a) by (intros b Hb ->; done).
  split; [by apply sublist_skip|]. split; [|split; [|split; [|split]]].
  - intros b [->|Hb]%elem_of_cons.
    + rewrite H3 by done. eauto.
    + destruct (H2 b Hb) as (K1 & d & K2 & K3). split; [done|]. exists d.
      rewrite (fr_chunks _ _ _ Hf b) in K2 by auto. split; [done|].
      by rewrite <- (frame_idle a b w w1 d Hf) by auto.
  - intros b Hb. apply not_elem_of_cons in Hb as [Hba Hb]. rewrite H3 by done.
    by apply (fr_chunks _ _ _ Hf).
  - simpl. unfold size_of at 1. rewrite Hc, H4, Hr1, (sizes_ext w w1 rem); [lia|].
    intros b Hb. apply (fr_chunks _ _ _ Hf). auto.
  - simpl length. lia.
  - intros Hlt b d Hb Hd Hid. apply elem_of_cons in Hb as [->|Hb]; [apply list_elem_of_here|].
    apply list_elem_of_further. apply (H6 Hlt b d Hb).
    + by rewrite (fr_chunks _ _ _ Hf b) by auto.
    + by rewrite (frame_idle a b w w1 d Hf) by auto.
Qed.

Lemma memrb_loop_ok new required l n w n' w' :
  store_ok new w -> new ∉ l -> NoDup l -> memrb_loop required l n w = (n', w') ->
  exists rem, memrb_ok required l rem n n' w w' /\ store_ok new w'.
Proof.
  revert n w. induction l as [|a l IH]; intros n w Hok Hnew Hnd; simpl.
  { intros [= <- <-]. exists []. split; [|done]. split; [done|]. simpl.
    split_and!; try done; try lia; set_solver. }
  apply NoDup_cons in Hnd as [Hal Hnd]. apply not_elem_of_cons in Hnew as [Hna Hnew].
  assert (Hskip : (forall c, chunks w !! a = Some c -> idle w c = false) ->
    memrb_loop required l n w = (n', w') ->
    exists rem, memrb_ok required (a :: l) rem n n' w w' /\ store_ok new w').
  { intros Ha Hl. destruct (IH n w Hok Hnew Hnd Hl) as (rem & Hrem & Hok').
    exists rem. split; [by apply memrb_skip|done]. }
  destruct (chunks w !! a) as [c|] eqn:Hc; [|apply Hskip; by intros c Hc'].
  fold (idle w c). destruct (idle w c) eqn:Hi; simpl; [|apply Hskip; intros c' Hc'; congruence].
  destruct (release_destroy a c w) as [w1 b] eqn:Ed. pose proof Ed as Ed'.
  apply (release_destroy_ok new a c c) in Ed as (D1 & D2 & D3); try done.
  assert (b = true) as ->.
  { unfold release_destroy, idle, flb_input_chunk_is_task_safe_delete in *.
    destruct (task c) as [t|] eqn:Ht; [|by injection Ed'].
    destruct (so_task _ _ Hok a c t Hc Ht) as (k & Hk & _). rewrite Hk in Hi, Ed'.
    rewrite Hi in Ed'. by injection Ed'. }
  destruct D3 as [D3 _].
  set (n1 := {| released_space := released_space n + flb_input_chunk_get_real_size c;
                removed_chunks := removed_chunks n + 1 |}).
  destruct (Z.leb_spec required (u64 (released_space n1))) as [Hle|Hlt].
  - intros [= <- <-]. exists [a]. split; [|done].
    apply (memrb_take _ _ _ [] _ n1 _ _ w1 _ c); try done.
    split; [apply sublist_nil_l|]. split; [intros b Hb; by apply not_elem_of_nil in Hb|].
    split; [done|]. split; [simpl; lia|]. split; [simpl; lia|]. intros Hlt. lia.
  - intros Hl. destruct (IH n1 w1 D1 Hnew Hnd Hl) as (rem & Hrem & Hok').
    exists (a :: rem). split; [|done]. by apply (memrb_take _ _ _ _ _ n1 _ _ w1 _ c).
Qed.

(** The memory ring buffer drops the oldest idle chunks until the space
    is there: the reported bytes and chunks are those of the chunks removed, a
    chunk whose task is being delivered is never removed, the accounts of the
    outputs still hold, and failure means that no idle chunk is left. *)
Theorem memrb_release_reports new inp required w ii ret nchunks nbytes w' :
  store_ok new w -> inputs w !! inp = Some ii -> NoDup (in_chunks ii) -> new ∉ in_chunks ii ->
  memrb_input_chunk_release_space inp required w = (ret, nchunks, nbytes, w') ->
  exists removed, sublist removed (in_chunks ii) /\ store_ok new w' /\
    (forall a, a ∈ removed -> chunks w' !! a = None /\
       exists c, chunks w !! a = Some c /\ idle w c = true) /\
    (forall a, a ∉ removed -> chunks w' !! a = chunks w !! a) /\
    nbytes = u64 (sizes w removed) /\ nchunks = Z.of_nat (length removed) /\
    (ret = 0 /\ required <= nbytes \/
     ret = -1 /\ nbytes < required /\
     forall a c, a ∈ in_chunks ii -> chunks w !! a = Some c -> idle w c = true -> a ∈ removed).
Proof.
  intros Hok Hi Hnd Hnew. unfold memrb_input_chunk_release_space. rewrite Hi.
  destruct (memrb_loop _ _ _ _) as [n w1] eqn:El. intros [= <- <- <- <-].
  destruct (memrb_loop_ok new _ _ _ _ _ _ Hok Hnew Hnd El)
    as (rem & (H1 & H2 & H3 & H4 & H5 & H6) & Hok'). simpl in H4, H5.
  rewrite ?Z.add_0_l in H4, H5. exists rem. rewrite H4, H5. rewrite H4 in H6.
  do 6 (split; [done|]).
  destruct (Z.leb_spec required (u64 (sizes w rem))); [by left|]. right.
  split; [done|]. split; [done|]. eauto.
Qed.

(** A chunk without data has size -1; the unsigned comparison takes it for
    more than any space, so the ring buffer reports success after dropping it,
    and 2^64 - 1 bytes. *)
Example memrb_empty_chunk :
  let c := {| event_type := 0; fs_counted := false; ck_in := 0; task := None; routes_mask := [0];
              cio_fs := false; cio_up := true; cio_real := 0; cio_data := 0; cio_meta := 4;
              cio_up_ok := true; cio_force_ok := true; cio_tag := None; cio_records := 0 |} in
  let i := {| in_chunks := [7%nat]; storage_type := FLB_STORAGE_MEMRB; cio_type := FLB_STORAGE_MEM;
              pause_on_chunks := false; mem_buf_limit := 10; mem_chunks_size := 20;
              mem_buf_status := FLB_INPUT_RUNNING; storage_buf_status := FLB_INPUT_RUNNING;
              cb_resume := true |} in
  let w := {| chunks := {[ 7%nat := c ]}; tasks := ∅; inputs := [i]; outs := [];
              mcfg := {| route_mask_size := 1; route_mask_slots := 64; route_empty_mask := Some [0] |};
              max_chunks_up := 128; is_running := true; is_ingestion_active := true; log := [] |} in
  fst (memrb_input_chunk_release_space 0 4096 w) = (0, 1, 2 ^ 64 - 1).
Proof. vm_compute. reflexivity. Qed.

(** ** Pausing and resuming *)

Lemma storage_overlimit_inputs w w' i :
  chunks w' = chunks w -> max_chunks_up w' = max_chunks_up w ->
  flb_input_chunk_is_storage_overlimit w' i = flb_input_chunk_is_storage_overlimit w i.
Proof. intros H1 H2. unfold flb_input_chunk_is_storage_overlimit, total_chunks_up. by rewrite H1, H2. Qed.

Definition lifted_mem (w : store) (ii : flb_input_instance) : bool :=
  negb (flb_input_chunk_is_mem_overlimit ii) && is_running w && is_ingestion_active w
  && (mem_buf_status ii =? FLB_INPUT_PAUSED).

Definition lifted_storage (w : store) (ii : flb_input_instance) : bool :=
  negb (flb_input_chunk_is_storage_overlimit w ii) && is_running w && is_ingestion_active w
  && (storage_buf_status ii =? FLB_INPUT_PAUSED).

(** Notifications sent to the plugin when a pause ends. *)
Definition resumes (i : nat) (ii : flb_input_instance) (b : bool) : list chunk_event :=
  if b && cb_resume ii then [C_resume i] else [].

Lemma set_limits_mem_spec i w ii :
  inputs w !! i = Some ii ->
  let w' := set_limits_mem i w in
  inputs w' !! i = Some (if lifted_mem w ii then set_mem_status FLB_INPUT_RUNNING ii else ii) /\
  log w' = log w ++ resumes i ii (lifted_mem w ii) /\
  chunks w' = chunks w /\ max_chunks_up w' = max_chunks_up w /\
  is_running w' = is_running w /\ is_ingestion_active w' = is_ingestion_active w.
Proof.
  intros Hi. unfold set_limits_mem, resumes. rewrite Hi. fold (lifted_mem w ii).
  destruct (lifted_mem w ii); simpl; [|by rewrite app_nil_r].
  destruct (cb_resume ii); simpl; rewrite ?app_nil_r, list_lookup_alter_eq, Hi; done.
Qed.

Lemma set_limits_storage_spec i w ii :
  inputs w !! i = Some ii ->
  let w' := set_limits_storage i w in
  inputs w' !! i = Some (if lifted_storage w ii then set_storage_status FLB_INPUT_RUNNING ii else ii) /\
  log w' = log w ++ resumes i ii (lifted_storage w ii).
Proof.
  intros Hi. unfold set_limits_storage, resumes. rewrite Hi. fold (lifted_storage w ii).
  destruct (lifted_storage w ii); simpl; [|by rewrite app_nil_r].
  destruct (cb_resume ii); simpl; rewrite ?app_nil_r, list_lookup_alter_eq, Hi; done.
Qed.

(** Adjusting the limits of an input records the bytes its chunks hold
    in memory and lifts each pause, for memory and for storage, exactly when it
    is set, the engine runs, ingestion is on and that limit is no longer
    exceeded; the plugin is told to resume once per pause lifted, also when the
    input stays paused for the other reason.  No pause is ever set. *)
Theorem set_limits_lifts_pauses i w ii total w' :
  inputs w !! i = Some ii -> flb_input_chunk_set_limits i w = (total, w') ->
  let i1 := set_mem_size total ii in
  let lm := lifted_mem w i1 in
  let ls := lifted_storage w i1 in
  total = flb_input_chunk_total_size i w /\
  exists ii', inputs w' !! i = Some ii' /\ in_chunks ii' = in_chunks ii /\ mem_chunks_size ii' = total /\
    mem_buf_status ii' = (if lm then FLB_INPUT_RUNNING else mem_buf_status ii) /\
    storage_buf_status ii' = (if ls then FLB_INPUT_RUNNING else storage_buf_status ii) /\
    log w' = log w ++ resumes i ii lm ++ resumes i ii ls.
Proof.
  intros Hi. unfold flb_input_chunk_set_limits. intros [= <- <-].
  set (total := flb_input_chunk_total_size i w). split; [done|].
  set (i1 := set_mem_size total ii). set (lm := lifted_mem w i1). set (ls := lifted_storage w i1).
  set (w1 := update_input i (set_mem_size total) w).
  assert (H1 : inputs w1 !! i = Some i1) by (simpl; by rewrite list_lookup_alter_eq, Hi).
  destruct (set_limits_mem_spec i w1 i1 H1) as (M1 & M2 & M3 & M4 & M5 & M6).
  change (lifted_mem w1 i1) with lm in M1, M2.
  set (w2 := set_limits_mem i w1) in *. clearbody w2.
  set (i2 := if lm then set_mem_status FLB_INPUT_RUNNING i1 else i1) in *.
  destruct (set_limits_storage_spec i w2 i2 M1) as (S1 & S2).
  assert (Hls : lifted_storage w2 i2 = ls).
  { unfold ls, lifted_storage. rewrite (storage_overlimit_inputs w w2), M5, M6 by done.
    unfold i2. by destruct lm. }
  rewrite Hls in S1, S2. eexists. split; [exact S1|]. rewrite S2, M2.
  unfold i2, resumes. simpl. rewrite <- app_assoc.
  destruct lm, ls; split_and!; done.
Qed.

(** After a write the input is paused exactly when its storage has too
    many chunks in memory, or when it buffers in plain memory and is over its
    limit (not for filesystem storage, not for the ring buffer); the plugin is
    notified only if it was not paused yet, and otherwise nothing changes. *)
Theorem protect_pauses i w ii b w' :
  inputs w !! i = Some ii -> flb_input_chunk_protect i w = (b, w') ->
  b = flb_input_chunk_is_storage_overlimit w ii
      || (negb (cio_type ii =? FLB_STORAGE_FS) && flb_input_chunk_is_mem_overlimit ii
          && negb (storage_type ii =? FLB_STORAGE_MEMRB)) /\
  (if b then exists ii', inputs w' !! i = Some ii' /\ flb_input_buf_paused ii' = true /\
        in_chunks ii' = in_chunks ii /\ chunks w' = chunks w /\
        log w' = log w ++ (if flb_input_buf_paused ii then [] else [C_pause i])
   else w' = w).
Proof.
  intros Hi. unfold flb_input_chunk_protect. rewrite Hi.
  assert (Hp : forall f, exists ii', inputs (update_input i f (flb_input_pause i w)) !! i = Some ii' /\
      ii' = f ii /\ log (update_input i f (flb_input_pause i w))
        = log w ++ (if flb_input_buf_paused ii then [] else [C_pause i])
      /\ chunks (update_input i f (flb_input_pause i w)) = chunks w).
  { intros f. unfold flb_input_pause. rewrite Hi. exists (f ii).
    destruct (flb_input_buf_paused ii); simpl; rewrite list_lookup_alter_eq, Hi, ?app_nil_r; done. }
  destruct (flb_input_chunk_is_storage_overlimit w ii); cbn [orb].
  { intros [= <- <-]. split; [done|].
    destruct (Hp (set_storage_status FLB_INPUT_PAUSED)) as (ii' & H1 & -> & H2 & H3).
    eexists. split; [exact H1|]. split_and!; try done. unfold flb_input_buf_paused. simpl.
    by rewrite orb_true_r. }
  destruct (cio_type ii =? FLB_STORAGE_FS); cbn [negb andb]; [by intros [= <- <-]|].
  destruct (flb_input_chunk_is_mem_overlimit ii); cbn [negb andb]; [|by intros [= <- <-]].
  destruct (storage_type ii =? FLB_STORAGE_MEMRB); cbn [negb andb]; [by intros [= <- <-]|].
  intros [= <- <-]. split; [done|].
  destruct (Hp (set_mem_status FLB_INPUT_PAUSED)) as (ii' & H1 & -> & H2 & H3).
  eexists. split; [exact H1|]. by split_and!.
Qed.

(** ** Witnesses *)

(** One output, with id 2, limited to 1200 bytes; an old chunk of 1000 bytes
    and a new chunk of 500 bytes are routed to it. *)
Definition ex_chunk (counted : bool) (real : Z) : flb_input_chunk :=
  {| event_type := 0; fs_counted := counted; ck_in := 0; task := None; routes_mask := [4];
     cio_fs := true; cio_up := true; cio_real := real; cio_data := real; cio_meta := 4;
     cio_up_ok := true; cio_force_ok := true; cio_tag := Some (str "app"); cio_records := 3 |}.

Definition ex_input (ty : Z) (l : list nat) : flb_input_instance :=
  {| in_chunks := l; storage_type := ty; cio_type := FLB_STORAGE_FS; pause_on_chunks := true;
     mem_buf_limit := 100000; mem_chunks_size := 0; mem_buf_status := FLB_INPUT_PAUSED;
     storage_buf_status := FLB_INPUT_PAUSED; cb_resume := true |}.

Definition ex_store (ty : Z) (l : list nat) : store :=
  {| chunks := {[ 1%nat := ex_chunk true 1000; 9%nat := ex_chunk false 500 ]}; tasks := ∅;
     inputs := [ex_input ty l];
     outs := [{| out_id := 2; total_limit_size := 1200; fs_chunks_size := 1000;
                 fs_backlog_chunks_size := 0 |}];
     mcfg := {| route_mask_size := 1; route_mask_slots := 64; route_empty_mask := Some [0] |};
     max_chunks_up := 1; is_running := true; is_ingestion_active := true; log := [] |}.

Lemma ex_lookup ty l a c : chunks (ex_store ty l) !! a = Some c ->
  (a = 1%nat /\ c = ex_chunk true 1000) \/ (a = 9%nat /\ c = ex_chunk false 500).
Proof.
  intros H. change (chunks (ex_store ty l))
    with (<[1%nat := ex_chunk true 1000]> {[9%nat := ex_chunk false 500]} : gmap nat flb_input_chunk) in H.
  apply lookup_insert_Some in H as [[<- <-]|[_ H]]; [by left|].
  apply lookup_singleton_Some in H as [<- <-]. by right.
Qed.

Lemma ex_store_ok ty l : store_ok 9 (ex_store ty l).
Proof.
  split.
  - split; [simpl; lia|done].
  - intros a c [[_ ->]|[_ ->]]%ex_lookup; (split; [done|]); apply Forall_singleton; lia.
  - apply NoDup_singleton.
  - intros a c t [[_ ->]|[_ ->]]%ex_lookup; done.
  - intros a c o Hn [[-> ->]|[-> ->]]%ex_lookup _ _ _; [split; [done|simpl; lia]|done].
  - intros o Ho _. apply list_elem_of_singleton in Ho as ->. vm_compute. reflexivity.
Qed.

Definition ex_sb (_ : nat) (required size : Z) : Z * Z := (required, size).

Lemma place_new_chunk_accounts_witness :
  let w' := snd (flb_input_chunk_place_new_chunk ex_sb 5 9 500 (ex_store CIO_STORE_FS [1; 9]%nat)) in
  store_ok 9 w' /\ chunks w' !! 1%nat = None.
Proof.
  split; [|vm_compute; reflexivity].
  eapply (place_new_chunk_accounts ex_sb 5 9 500 (ex_store CIO_STORE_FS [1; 9]%nat)); [apply ex_store_ok|].
  apply surjective_pairing.
Defined.

Lemma count_new_chunk_witness :
  store_ok 0 (flb_input_chunk_update_output_instances 9 500 (ex_store CIO_STORE_FS [1; 9]%nat)).
Proof.
  apply (count_new_chunk 9 (ex_store CIO_STORE_FS [1; 9]%nat) (ex_chunk false 500)).
  - apply ex_store_ok.
  - reflexivity.
  - reflexivity.
  - simpl. lia.
Defined.

Lemma release_space_local_witness :
  let w' := snd (flb_input_chunk_release_space 9 0 0 500 SCOPE_LOCAL (ex_store CIO_STORE_FS [1; 9]%nat)) in
  exists o', outs w' !! 0%nat = Some o' /\ out_id o' = 2 /\ fs_chunks_size o' = u64 (1000 - (500 - -500)).
Proof.
  destruct (release_space_local 9 0 0 500 (ex_store CIO_STORE_FS [1; 9]%nat)
    (ex_input CIO_STORE_FS [1; 9]%nat)
    {| out_id := 2; total_limit_size := 1200; fs_chunks_size := 1000; fs_backlog_chunks_size := 0 |}
    (-500) (snd (flb_input_chunk_release_space 9 0 0 500 SCOPE_LOCAL (ex_store CIO_STORE_FS [1; 9]%nat))))
    as [H _].
  - apply ex_store_ok.
  - reflexivity.
  - simpl. apply NoDup_cons. rewrite list_elem_of_singleton. split; [done|apply NoDup_singleton].
  - reflexivity.
  - reflexivity.
  - vm_compute. reflexivity.
  - exact H.
Defined.

Lemma memrb_release_reports_witness :
  exists removed, sublist removed [1%nat] /\
    chunks (snd (memrb_input_chunk_release_space 0 700 (ex_store FLB_STORAGE_MEMRB [1%nat]))) !! 1%nat = None /\
    1000 = u64 (sizes (ex_store FLB_STORAGE_MEMRB [1%nat]) removed).
Proof.
  destruct (memrb_release_reports 9 0 700 (ex_store FLB_STORAGE_MEMRB [1%nat])
    (ex_input FLB_STORAGE_MEMRB [1%nat]) 0 1 1000
    (snd (memrb_input_chunk_release_space 0 700 (ex_store FLB_STORAGE_MEMRB [1%nat]))))
    as (removed & H1 & _ & _ & _ & H2 & _).
  - apply ex_store_ok.
  - reflexivity.
  - apply NoDup_singleton.
  - intros H%list_elem_of_singleton. discriminate.
  - vm_compute. reflexivity.
  - exists removed. split; [done|]. split; [vm_compute; reflexivity|done].
Defined.

(** The pause for memory is lifted and the plugin resumed while the input
    stays paused for storage. *)
Lemma set_limits_lifts_pauses_witness :
  let w' := snd (flb_input_chunk_set_limits 0 (ex_store CIO_STORE_FS [1; 9]%nat)) in
  exists ii', inputs w' !! 0%nat = Some ii' /\ flb_input_buf_paused ii' = true /\
    log w' = [C_resume 0].
Proof.
  destruct (set_limits_lifts_pauses 0 (ex_store CIO_STORE_FS [1; 9]%nat)
    (ex_input CIO_STORE_FS [1; 9]%nat) 1500
    (snd (flb_input_chunk_set_limits 0 (ex_store CIO_STORE_FS [1; 9]%nat))))
    as (_ & ii' & H1 & _ & _ & H2 & H3 & H4).
  - reflexivity.
  - vm_compute. reflexivity.
  - exists ii'. split; [exact H1|]. split.
    + unfold flb_input_buf_paused. apply orb_true_iff. right. rewrite H3. vm_compute. reflexivity.
    + rewrite H4. vm_compute. reflexivity.
Defined.

Lemma protect_pauses_witness :
  exists ii', inputs (snd (flb_input_chunk_protect 0 (ex_store CIO_STORE_FS [1; 9]%nat))) !! 0%nat = Some ii' /\
    flb_input_buf_paused ii' = true.
Proof.
  destruct (protect_pauses 0 (ex_store CIO_STORE_FS [1; 9]%nat) (ex_input CIO_STORE_FS [1; 9]%nat) true
    (snd (flb_input_chunk_protect 0 (ex_store CIO_STORE_FS [1; 9]%nat))))
    as (_ & ii' & H1 & H2 & _).
  - reflexivity.
  - vm_compute. reflexivity.
  - by exists ii'.
Defined.

End InputChunk.
