(* ===== verification/Singleplex.v ===== *)
(** * Synchronous outputs: one task at a time

    Models the singleplex queue of src/flb_output.c: an output with the flag
    FLB_OUTPUT_SYNCHRONOUS gets the next task only when the previous one has
    finished.  The users of a task and its retries are those of Task.v.

    [flushing] are the tasks handed to the output whose result has not come
    back; [freed] are the queue nodes released, and [stale] records that the
    code read a node after releasing it. *)

From S2P Require Import Prelude Router RoutesMask Scheduler Task.

Module Singleplex.

Record flb_task_enqueued := {
  q_addr : nat;
  q_task : nat;
  q_retry : option Task.flb_task_retry;
}.

Record out_queue := {
  eng : Task.engine;
  pending : list flb_task_enqueued;
  in_progress : list flb_task_enqueued;
  flushing : list nat;
  freed : list nat;
  stale : bool;
  next_node : nat;
}.

Definition set_eng (w : Task.engine) (s : out_queue) : out_queue :=
  {| eng := w; pending := pending s; in_progress := in_progress s; flushing := flushing s;
     freed := freed s; stale := stale s; next_node := next_node s |}.
Definition set_lists (p i : list flb_task_enqueued) (s : out_queue) : out_queue :=
  {| eng := eng s; pending := p; in_progress := i; flushing := flushing s;
     freed := freed s; stale := stale s; next_node := next_node s |}.
Definition launch (task : nat) (s : out_queue) : out_queue :=
  {| eng := eng s; pending := pending s; in_progress := in_progress s;
     flushing := flushing s ++ [task]; freed := freed s; stale := stale s; next_node := next_node s |}.
Definition free_node (a : nat) (s : out_queue) : out_queue :=
  {| eng := eng s; pending := pending s; in_progress := in_progress s; flushing := flushing s;
     freed := a :: freed s; stale := stale s; next_node := next_node s |}.
Definition read_node (a : nat) (s : out_queue) : out_queue :=
  {| eng := eng s; pending := pending s; in_progress := in_progress s; flushing := flushing s;
     freed := freed s; stale := stale s || bool_decide (a ∈ freed s); next_node := next_node s |}.
Definition fresh_node (s : out_queue) : out_queue :=
  {| eng := eng s; pending := pending s; in_progress := in_progress s; flushing := flushing s;
     freed := freed s; stale := stale s; next_node := S (next_node s) |}.
Definition finished (task : nat) (s : out_queue) : out_queue :=
  {| eng := eng s; pending := pending s; in_progress := in_progress s;
     flushing := filter (λ x : nat, x <> task) (flushing s); freed := freed s; stale := stale s;
     next_node := next_node s |}.

(** How an attempt to hand a task to the output ends.  In a threaded output
    any failure is one of the thread pool. *)
Inductive flush_outcome := F_ok | F_create_fail | F_send_fail.

Definition next_outcome (t : list flush_outcome) : flush_outcome * list flush_outcome :=
  match t with [] => (F_ok, []) | o :: t' => (o, t') end.

Section Queue.
(** The output of the queue. *)
Variable threaded : bool.

(** The result, the state and the outcomes left; [None]: out of fuel. *)
Definition result := option (Z * out_queue * list flush_outcome).

Section Rec.
Variable flush_one : out_queue -> list flush_outcome -> result.

Definition singleplex_flush_next (s : out_queue) (t : list flush_outcome) : result :=
  let s := match in_progress s with
           | [] => s
           | q :: rest => free_node (q_addr q) (set_lists (pending s) rest s)
           end in
  match pending s with
  | [] => Some (0, s, t)
  | _ :: _ => flush_one s t
  end.

Definition output_task_flush (task : nat) (s : out_queue) (t : list flush_outcome) : result :=
  let (o, t) := next_outcome t in
  let inc s := set_eng (Task.flb_task_users_inc task (eng s)) s in
  let dec s := set_eng (Task.flb_task_users_dec task false (eng s)) s in
  if threaded then
    match o with
    | F_ok => Some (0, launch task (inc s), t)
    | _ => '(_, s, t) ← singleplex_flush_next (dec (inc s)) t; Some (0, s, t)
    end
  else
    match o with
    | F_create_fail => Some (-1, s, t)
    | F_ok => Some (0, launch task (inc s), t)
    | F_send_fail => '(_, s, t) ← singleplex_flush_next (dec (inc s)) t; Some (-1, s, t)
    end.

End Rec.

Fixpoint flb_output_task_queue_flush_one (fuel : nat) (s : out_queue) (t : list flush_outcome)
    : result :=
  match fuel with
  | O => None
  | S fuel =>
      match pending s with
      | [] => Some (-1, s, t)
      | q :: rest =>
          let s := set_lists rest (in_progress s ++ [q]) s in
          let s := set_eng (Task.flb_task_users_dec (q_task q) false (eng s)) s in
          '(ret, s, t) ← output_task_flush (flb_output_task_queue_flush_one fuel) (q_task q) s t;
          if ret =? -1 then
            let s := read_node (q_addr q) s in
            let s := match q_retry q with
                     | Some r => set_eng (Task.flb_task_retry_destroy (q_task q) r (eng s)) s
                     | None => s
                     end in
            '(_, s, t) ← singleplex_flush_next (flb_output_task_queue_flush_one fuel) s t;
            Some (-1, s, t)
          else Some (ret, s, t)
      end
  end.

(** Every nested call takes a node out of [pending]. *)
Definition fuel_of (s : out_queue) : nat := S (length (pending s)).

Definition flb_output_task_singleplex_flush_next (s : out_queue) (t : list flush_outcome) : result :=
  singleplex_flush_next (flb_output_task_queue_flush_one (fuel_of s)) s t.

Definition flb_output_task_flush (task : nat) (s : out_queue) (t : list flush_outcome) : result :=
  output_task_flush (flb_output_task_queue_flush_one (fuel_of s)) task s t.

Definition flb_output_task_queue_enqueue (task : nat) (retry : option Task.flb_task_retry)
    (s : out_queue) (m : tape) : Z * out_queue * tape :=
  let (ok, m) := flb_malloc m in
  if ok then
    let q := {| q_addr := next_node s; q_task := task; q_retry := retry |} in
    (0, set_lists (pending s ++ [q]) (in_progress s) (fresh_node s), m)
  else
    (-1, match retry with
         | Some r => set_eng (Task.flb_task_retry_destroy task r (eng s)) s
         | None => s
         end, m).

Definition flb_output_task_singleplex_enqueue (task : nat) (retry : option Task.flb_task_retry)
    (s : out_queue) (t : list flush_outcome) (m : tape)
    : option (Z * out_queue * list flush_outcome * tape) :=
  let s := set_eng (Task.flb_task_users_inc task (eng s)) s in
  let '(ret, s, m) := flb_output_task_queue_enqueue task retry s m in
  if ret =? -1 then Some (-1, s, t, m)
  else match in_progress s with
       | [] => '(ret, s, t) ← flb_output_task_queue_flush_one (fuel_of s) s t; Some (ret, s, t, m)
       | _ :: _ => Some (0, s, t, m)
       end.

(** The engine's part: a result of the running task came back. *)
Definition task_finished (task : nat) (s : out_queue) (t : list flush_outcome) : result :=
  flb_output_task_singleplex_flush_next (finished task s) t.

End Queue.

(** ** Termination *)

Section Proofs.
Variable threaded : bool.
Abbreviation flush_one := (flb_output_task_queue_flush_one threaded).

(** A call that returns, with no more nodes pending than [n]. *)
Definition returns (r : result) (n : nat) : Prop :=
  exists ret s t, r = Some (ret, s, t) /\ (length (pending s) <= n)%nat.

Lemma flush_next_returns rec s t n :
  (forall s t, (length (pending s) <= n)%nat -> returns (rec s t) n) ->
  (length (pending s) <= n)%nat -> returns (singleplex_flush_next rec s t) n.
Proof.
  intros Hrec Hs. unfold singleplex_flush_next. set (s1 := match in_progress s with [] => s | _ => _ end).
  assert (Hp : pending s1 = pending s) by (unfold s1; by destruct (in_progress s)).
  destruct (pending s1) as [|q rest] eqn:E.
  - eexists _, _, _. split; [done|]. rewrite E. simpl. lia.
  - apply Hrec. rewrite E, Hp. done.
Qed.

Lemma task_flush_returns rec task s t n :
  (forall s t, (length (pending s) <= n)%nat -> returns (rec s t) n) ->
  (length (pending s) <= n)%nat -> returns (output_task_flush threaded rec task s t) n.
Proof.
  intros Hrec Hs. unfold output_task_flush. destruct (next_outcome t) as [o t'].
  set (s2 := set_eng _ (set_eng _ s)).
  assert (Hn : returns (singleplex_flush_next rec s2 t') n) by (by apply flush_next_returns).
  destruct Hn as (ret & s' & t'' & -> & Hl).
  assert (forall r : Z, returns (Some (r, s', t'')) n) by (intros r; by exists r, s', t'').
  assert (returns (Some (0, launch task (set_eng (Task.flb_task_users_inc task (eng s)) s), t')) n)
    by (by eexists _, _, _).
  destruct threaded, o; simpl; auto. by eexists _, _, _.
Qed.

(** The fuel of the callers is enough, whatever fails. *)
Lemma flush_one_returns fuel s t :
  (length (pending s) < fuel)%nat -> returns (flush_one fuel s t) (Nat.pred (length (pending s))).
Proof.
  revert s t. induction fuel as [|fuel IH]; intros s t Hf; [lia|]. simpl.
  destruct (pending s) as [|q rest] eqn:E; simpl in *.
  { eexists _, _, _. split; [done|]. by rewrite E. }
  assert (Hrec : forall s t, (length (pending s) <= length rest)%nat ->
    returns (flush_one fuel s t) (length rest)).
  { intros s0 t0 H0. destruct (IH s0 t0 ltac:(lia)) as (ret & s' & t' & Hr & Hl).
    exists ret, s', t'. split; [done|]. lia. }
  set (s1 := set_eng _ _).
  destruct (task_flush_returns (flush_one fuel) (q_task q) s1 t (length rest) Hrec) as
    (ret & s2 & t2 & -> & Hl2); [done|]. simpl.
  destruct (ret =? -1); [|by exists ret, s2, t2].
  set (s3 := match q_retry q with Some _ => _ | None => _ end).
  assert (Hp3 : pending s3 = pending s2) by (unfold s3; by destruct (q_retry q)).
  destruct (flush_next_returns (flush_one fuel) s3 t2 (length rest) Hrec) as (r & s4 & t4 & -> & Hl4);
    [by rewrite Hp3|]. simpl. by exists (-1), s4, t4.
Qed.

Lemma finished_returns task s t : exists r, task_finished threaded task s t = Some r.
Proof.
  unfold task_finished, flb_output_task_singleplex_flush_next.
  destruct (flush_next_returns (flush_one (fuel_of (finished task s))) (finished task s) t
    (length (pending s))) as (ret & s' & t' & -> & _); [|done|by eexists].
  intros s0 t0 H0. destruct (flush_one_returns (fuel_of (finished task s)) s0 t0)
    as (r & s1 & t1 & Hr & Hl); [unfold fuel_of; simpl; lia|]. exists r, s1, t1. split; [done|]. lia.
Qed.

Lemma enqueue_returns task retry s t m :
  exists r, flb_output_task_singleplex_enqueue threaded task retry s t m = Some r.
Proof.
  unfold flb_output_task_singleplex_enqueue.
  destruct (flb_output_task_queue_enqueue _ _ _ _) as [[ret s1] m1].
  destruct (ret =? -1); [by eexists|]. destruct (in_progress s1); [|by eexists].
  destruct (flush_one_returns (fuel_of s1) s1 t) as (r & s2 & t2 & -> & _); [unfold fuel_of; lia|].
  by eexists.
Qed.

(** ** One task at a time *)

Definition nodes (s : out_queue) : list flb_task_enqueued := in_progress s ++ pending s.

Record inv (s : out_queue) : Prop := {
  inv_flushing : flushing s = map q_task (in_progress s);
  inv_one : (length (in_progress s) <= 1)%nat;
  inv_busy : in_progress s = [] -> pending s = [];
  inv_stale : stale s = false;
  inv_nodup : NoDup (map q_addr (nodes s));
  inv_live : Forall (λ q, (q_addr q < next_node s)%nat /\ q_addr q ∉ freed s) (nodes s);
  inv_freed : Forall (λ a, (a < next_node s)%nat) (freed s);
}.

(** Handing a task over never fails between creating and sending it. *)
Definition no_send (t : list flush_outcome) : Prop := threaded = true \/ F_send_fail ∉ t.

Lemma no_send_tail t : no_send t -> no_send (snd (next_outcome t)).
Proof. destruct t as [|o t]; [done|]. intros [H|H]; [by left|]. right. set_solver. Qed.

(** The queue between two tasks: nothing in progress. *)
Record idle (s : out_queue) : Prop := {
  idle_none : in_progress s = [];
  idle_flushing : flushing s = [];
  idle_stale : stale s = false;
  idle_nodup : NoDup (map q_addr (pending s));
  idle_live : Forall (λ q, (q_addr q < next_node s)%nat /\ q_addr q ∉ freed s) (pending s);
  idle_freed : Forall (λ a, (a < next_node s)%nat) (freed s);
}.

(** What [flush_one] does to an idle queue, for one amount of fuel. *)
Definition starts (r : result) (l : list flb_task_enqueued) (t : list flush_outcome) : Prop :=
  exists ret s t' k, r = Some (ret, s, t') /\ inv s /\ nodes s = drop k l /\ (t = [] -> k = O).

(** The node in progress is done, or could not be started: the next one. *)
Lemma next_after rec s t q :
  (forall s' t', idle s' -> no_send t' -> pending s' = pending s -> pending s' <> [] ->
     starts (rec s' t') (pending s') t') ->
  in_progress s = [q] -> flushing s = [] -> stale s = false ->
  NoDup (map q_addr (q :: pending s)) ->
  Forall (λ q, (q_addr q < next_node s)%nat /\ q_addr q ∉ freed s) (q :: pending s) ->
  Forall (λ a, (a < next_node s)%nat) (freed s) -> no_send t ->
  starts (singleplex_flush_next rec s t) (pending s) t.
Proof.
  intros Hrec Hip Hfl Hst Hnd Hlive Hfreed Ht. unfold singleplex_flush_next. rewrite Hip.
  set (s1 := free_node (q_addr q) (set_lists (pending s) [] s)).
  simpl in Hnd. apply NoDup_cons in Hnd as [Hq Hnd]. apply Forall_cons in Hlive as [[Hq1 Hq2] Hlive].
  assert (Hlive1 : Forall (λ q, (q_addr q < next_node s1)%nat /\ q_addr q ∉ freed s1) (pending s)).
  { rewrite Forall_forall in Hlive |- *. intros p Hp. destruct (Hlive p Hp) as [P1 P2].
    split; [done|]. simpl. apply not_elem_of_cons. split; [|done]. intros Heq. apply Hq. rewrite <- Heq.
    rewrite list_elem_of_In. apply in_map. by rewrite <- list_elem_of_In. }
  assert (Hidle : idle s1).
  { split; simpl; try done. apply Forall_cons. split; [done|]. done. }
  change (pending s) with (pending s1). destruct (pending s1) as [|p rest] eqn:Ep.
  - exists 0, s1, t, O. split; [done|]. split; [|by split]. destruct Hidle as [I1 I2 I3 I4 I5 I6].
    split; unfold nodes; rewrite ?I1, ?I2, ?Ep; simpl; try done; [lia|apply NoDup_nil_2].
  - rewrite <- Ep. apply Hrec; [done..|]. by rewrite Ep.
Qed.

(** The ways of handing a task over. *)
Lemma task_flush_cases th rec task s t :
  let t' := snd (next_outcome t) in
  let s1 := set_eng (Task.flb_task_users_inc task (eng s)) s in
  let s2 := set_eng (Task.flb_task_users_dec task false (eng s1)) s1 in
  (output_task_flush th rec task s t = Some (0, launch task s1, t')) \/
  (t <> [] /\ th = true /\ output_task_flush th rec task s t =
     ('(_, s, t) ← singleplex_flush_next rec s2 t'; Some (0, s, t))) \/
  (t <> [] /\ th = false /\ output_task_flush th rec task s t = Some (-1, s, t')) \/
  (F_send_fail ∈ t /\ th = false).
Proof.
  destruct t as [|o t]; [by left; destruct th|].
  unfold output_task_flush. simpl. destruct o; [by left; destruct th|..].
  - destruct th; [right; left; by split_and!|right; right; left; by split_and!].
  - destruct th; [right; left; by split_and!|right; right; right]. split; [apply list_elem_of_here|done].
Qed.

Lemma flush_one_starts fuel s t :
  idle s -> no_send t -> (length (pending s) < fuel)%nat -> pending s <> [] ->
  starts (flush_one fuel s t) (pending s) t.
Proof.
  revert s t. induction fuel as [|fuel IH]; intros s t Hi Ht Hf Hne; [lia|]. simpl.
  destruct (pending s) as [|q rest] eqn:Ep; [done|]. simpl in Hf.
  destruct Hi as [I1 I2 I3 I4 I5 I6]. rewrite I1. simpl app.
  set (s1 := set_eng _ _). rewrite Ep in I4, I5.
  pose proof (no_send_tail t Ht) as Ht'.
  assert (Hnext : forall s2, in_progress s2 = [q] -> pending s2 = rest -> flushing s2 = [] ->
    stale s2 = false -> freed s2 = freed s -> next_node s2 = next_node s ->
    starts (singleplex_flush_next (flush_one fuel) s2 (snd (next_outcome t))) rest
      (snd (next_outcome t))).
  { intros s2 J1 J2 J3 J4 J5 J6.
    assert (H : starts (singleplex_flush_next (flush_one fuel) s2 (snd (next_outcome t))) (pending s2)
                  (snd (next_outcome t))); [|by rewrite J2 in H].
    apply (next_after _ _ _ q); rewrite ?J1, ?J2, ?J3, ?J5, ?J6; try done.
    intros s3 t3 Hi3 Ht3 Hp3 Hne3. apply IH; [done..| |done]. rewrite Hp3. lia. }
  destruct (task_flush_cases threaded (flush_one fuel) (q_task q) s1 t)
    as [->|[(Hnt & Hth & ->)|[(Hnt & Hth & ->)|[Hsend Hth]]]]; simpl.
  - eexists _, _, _, O. split; [done|]. split; [|by split]. by split; simpl; rewrite ?I2.
  - match goal with |- context [singleplex_flush_next _ ?x _] =>
      destruct (Hnext x) as (ret & s' & t' & k & -> & H2 & H3 & H4); try done end.
    simpl. by exists 0, s', t', (S k).
  - assert (Hst : stale (read_node (q_addr q) s1) = false).
    { simpl. rewrite I3. apply Forall_cons in I5 as [[_ Hq] _]. by rewrite bool_decide_false. }
    destruct (q_retry q) as [r|].
    all: match goal with |- context [singleplex_flush_next _ ?x _] =>
      destruct (Hnext x) as (ret & s' & t' & k & -> & H2 & H3 & H4); try done end.
    all: simpl; by exists (-1), s', t', (S k).
  - destruct Ht; [congruence|done].
Qed.

(** ** Reachable queues *)

Inductive step : out_queue -> out_queue -> Prop :=
| step_enqueue task retry s t m ret s' t' m' :
    no_send t ->
    flb_output_task_singleplex_enqueue threaded task retry s t m = Some (ret, s', t', m') ->
    step s s'
| step_finished task s t ret s' t' :
    task ∈ flushing s -> no_send t ->
    task_finished threaded task s t = Some (ret, s', t') -> step s s'.

Inductive reachable (w : Task.engine) : out_queue -> Prop :=
| reach_init : reachable w {| eng := w; pending := []; in_progress := []; flushing := []; freed := [];
                              stale := false; next_node := 0 |}
| reach_step s s' : reachable w s -> step s s' -> reachable w s'.

(** The running task of a well-formed queue. *)
Lemma inv_running s task : inv s -> task ∈ flushing s ->
  exists q, in_progress s = [q] /\ q_task q = task /\ flushing (finished task s) = [].
Proof.
  intros Hi Hin. rewrite (inv_flushing _ Hi) in Hin. pose proof (inv_one _ Hi) as H1.
  pose proof (inv_flushing _ Hi) as Hf.
  destruct (in_progress s) as [|q [|q2 l]] eqn:E; simpl in *; [by apply not_elem_of_nil in Hin| |lia].
  apply list_elem_of_singleton in Hin as ->. exists q. split_and!; [done..|]. rewrite Hf.
  rewrite filter_cons_False by (intros H; by apply H). done.
Qed.

Lemma finished_starts s task t : inv s -> task ∈ flushing s -> no_send t ->
  starts (task_finished threaded task s t) (pending s) t.
Proof.
  intros Hi Hin Ht. destruct (inv_running s task Hi Hin) as (q & Hq & Hqt & Hfl).
  destruct Hi as [I1 I2 I3 I4 I5 I6 I7]. unfold nodes in I5, I6. rewrite Hq in I5, I6.
  unfold task_finished, flb_output_task_singleplex_flush_next.
  change (pending s) with (pending (finished task s)).
  apply (next_after _ _ _ q); try done. intros s' t' Hi' Ht' Hp' Hne'.
  apply flush_one_starts; [done..| |done]. rewrite Hp'. unfold fuel_of. lia.
Qed.

Lemma enqueue_inv task retry s t m ret s' t' m' :
  inv s -> no_send t ->
  flb_output_task_singleplex_enqueue threaded task retry s t m = Some (ret, s', t', m') ->
  inv s' /\ (m = [] -> t = [] -> exists q, q_task q = task /\ nodes s' = nodes s ++ [q]).
Proof.
  intros Hi Ht. unfold flb_output_task_singleplex_enqueue, flb_output_task_queue_enqueue.
  destruct (flb_malloc m) as [[] m1] eqn:Em.
  2:{ simpl. intros E.
      assert (inv s') by (destruct Hi; destruct retry; injection E as <- <- <- <-; by split).
      split; [done|]. intros ->. done. }
  set (q := {| q_addr := _; q_task := task; q_retry := retry |}).
  set (s1 := set_lists _ _ _).
  assert (Hnew : q_addr q = next_node s) by done.
  assert (Hnodes : NoDup (map q_addr (nodes s ++ [q])) /\
    Forall (λ p, (q_addr p < S (next_node s))%nat /\ q_addr p ∉ freed s) (nodes s ++ [q]) /\
    Forall (λ a, (a < S (next_node s))%nat) (freed s)).
  { destruct Hi as [I1 I2 I3 I4 I5 I6 I7]. rewrite Forall_forall in I6. rewrite Forall_forall in I7.
    split_and!.
    - rewrite map_app. apply NoDup_app. split_and!; [done| |apply NoDup_singleton].
      intros a Ha Hs. apply list_elem_of_singleton in Hs as ->.
      apply elem_of_map in Ha as (p & Hp & Hin). destruct (I6 p Hin) as [Hlt _]. simpl in Hp. lia.
    - apply Forall_app. split; [|apply Forall_singleton; split; [simpl; lia|]].
      + apply Forall_forall. intros p Hp. destruct (I6 p Hp). split; [lia|done].
      + intros Hf. specialize (I7 _ Hf). simpl in I7. lia.
    - apply Forall_forall. intros a Ha. specialize (I7 a Ha). lia. }
  destruct Hnodes as (N1 & N2 & N3). unfold nodes in *. rewrite <- app_assoc in N1, N2.
  change (0 =? -1) with false. cbv iota. change (in_progress s1) with (in_progress s).
  destruct (in_progress s) as [|p ps] eqn:Ep.
  - pose proof (inv_busy _ Hi Ep) as Hpend. rewrite Hpend in *. simpl in N1, N2.
    assert (Hidle : idle s1).
    { split; unfold s1; simpl; rewrite ?Ep, ?Hpend; try done; [|apply Hi].
      rewrite (inv_flushing _ Hi), Ep. done. }
    assert (Hp1 : pending s1 = [q]) by (unfold s1; simpl; by rewrite Hpend).
    destruct (flush_one_starts (fuel_of s1) s1 t) as (r & s2 & t2 & k & -> & H2 & H3 & H4);
      [done..|unfold fuel_of; lia|by rewrite Hp1|].
    cbn [mbind option_bind]. intros [= <- <- <- <-]. split; [done|]. intros _ Ht0. rewrite (H4 Ht0), Hp1 in H3.
    exists q. split; [done|]. exact H3.
  - intros [= <- <- <- <-]. split; [|intros _ _; exists q; split; [done|];
      unfold s1; simpl; by rewrite Ep, <- (app_assoc ps)].
    destruct Hi as [I1 I2 I3 I4 I5 I6 I7]. split; unfold nodes, s1; simpl; rewrite ?Ep in *; done.
Qed.

Lemma reachable_inv w s : reachable w s -> inv s.
Proof.
  induction 1 as [|s s' _ IH Hstep].
  - split; try done; [simpl; lia|apply NoDup_nil_2].
  - destruct Hstep as [task retry s t m ret s' t' m' Ht E|task s t ret s' t' Hin Ht E].
    + by eapply enqueue_inv in E as [? _].
    + destruct (finished_starts s task t IH Hin Ht) as (r & s2 & t2 & k & H1 & H2 & _).
      congruence.
Qed.

End Proofs.

(** ** Properties *)

(** C37: a synchronous output is given one task at a time, while the sends on the pipe
    of its coroutines succeed.  In every state the queue reaches, for any sequence
    of tasks, results and failures to create a flush or, of an output with worker
    threads, to hand it over, at most one task is being flushed, it is the one the
    queue holds as in progress, tasks wait only while one runs, and no node is used
    after it was released.  Every operation returns, failures of the send included.
    Without worker threads a failure of the send on the pipe (flb_output.c:436) is
    left out of the reachable states: it can start a second task, see
    [send_failure_runs_two]. *)
Theorem singleplex_one_at_a_time threaded w s :
  reachable threaded w s ->
  (length (flushing s) <= 1)%nat /\ flushing s = map q_task (in_progress s) /\
  (flushing s = [] -> pending s = []) /\ stale s = false /\
  (forall task retry t m, exists r, flb_output_task_singleplex_enqueue threaded task retry s t m = Some r) /\
  (forall task t, exists r, task_finished threaded task s t = Some r).
Proof.
  intros Hr. apply reachable_inv in Hr as [I1 I2 I3 I4 _ _ _]. split_and!.
  - by rewrite I1, length_map.
  - done.
  - rewrite I1. intros H. apply I3. by apply map_eq_nil in H.
  - done.
  - intros. apply enqueue_returns.
  - intros. apply finished_returns.
Qed.

(** Tasks run in the order they were queued and none is forgotten: when
    the running task finishes, the tasks left are those that waited, in order,
    less a prefix that could not be started (nothing, when nothing fails), and
    if any is left one of them is running. *)
Theorem singleplex_next_in_order threaded w s task t :
  reachable threaded w s -> task ∈ flushing s -> no_send threaded t ->
  exists ret s' t' k, task_finished threaded task s t = Some (ret, s', t') /\
    in_progress s' ++ pending s' = drop k (pending s) /\ (t = [] -> k = O) /\
    (in_progress s' = [] -> pending s' = []) /\ flushing s' = map q_task (in_progress s').
Proof.
  intros Hr Hin Ht. apply reachable_inv in Hr.
  destruct (finished_starts threaded s task t Hr Hin Ht) as (ret & s' & t' & k & H1 & H2 & H3 & H4).
  exists ret, s', t', k. split_and!; [done..|apply H2|apply H2].
Qed.

Definition ex_engine : Task.engine :=
  {| Task.task_map := []; Task.tasks := ∅; Task.in_tasks := []; Task.outputs := [];
     Task.sched := Scheduler.ex_sched; Task.next_addr := 0; Task.effects := [] |}.

Definition node (a task : nat) : flb_task_enqueued := {| q_addr := a; q_task := task; q_retry := None |}.

(** The queue after task 1 was started and tasks 2 to [n] were queued. *)
Definition ex_waiting (n : nat) : out_queue :=
  {| eng := Task.set_tasks ∅ ex_engine; pending := map (λ i, node i (S i)) (seq 1 (n - 1));
     in_progress := [node 0 1]; flushing := [1%nat]; freed := []; stale := false; next_node := n |}.

Definition ex_queue : out_queue := ex_waiting 4.

Lemma ex_queue_reachable threaded : reachable threaded ex_engine ex_queue.
Proof.
  assert (Hnil : no_send threaded []) by (right; apply not_elem_of_nil).
  apply (reach_step _ _ (ex_waiting 3));
    [|by apply (step_enqueue _ 4 None _ [] [] 0 _ [] [] Hnil); destruct threaded].
  apply (reach_step _ _ (ex_waiting 2));
    [|by apply (step_enqueue _ 3 None _ [] [] 0 _ [] [] Hnil); destruct threaded].
  apply (reach_step _ _ (ex_waiting 1));
    [|by apply (step_enqueue _ 2 None _ [] [] 0 _ [] [] Hnil); destruct threaded].
  eapply reach_step; [apply reach_init|].
  by apply (step_enqueue _ 1 None _ [] [] 0 _ [] [] Hnil); destruct threaded.
Qed.

(** When a created flush cannot be sent to the engine, both
    [flb_output_task_flush] and its caller start the next task: two tasks of a
    synchronous output run at once, and the caller reads the node of the failed
    task after it was released. *)
Theorem send_failure_runs_two :
  reachable false ex_engine ex_queue /\
  exists s' t', task_finished false 1 ex_queue [F_send_fail] = Some (-1, s', t') /\
    flushing s' = [3%nat; 4%nat] /\ stale s' = true.
Proof.
  split; [apply ex_queue_reachable|]. eexists _, _. split; [vm_compute; reflexivity|].
  vm_compute. split; reflexivity.
Qed.

(** Queueing fails for lack of memory: the task keeps the user added for it. *)
Example enqueue_failure_keeps_user :
  let s := {| eng := Task.ex_engine 2; pending := []; in_progress := []; flushing := []; freed := [];
              stale := false; next_node := 0 |} in
  exists s' t m, flb_output_task_singleplex_enqueue false 4 None s [] [false] = Some (-1, s', t, m) /\
    Task.users <$> (Task.tasks (eng s') !! 4%nat) = Some (Task.users Task.ex_task + 1).
Proof. eexists _, _, _. split; [reflexivity|]. vm_compute. reflexivity. Qed.

Lemma singleplex_one_at_a_time_witness : (length (flushing ex_queue) <= 1)%nat.
Proof. apply (singleplex_one_at_a_time true ex_engine). apply ex_queue_reachable. Defined.

Lemma singleplex_next_in_order_witness :
  exists ret s' t' k, task_finished false 1 ex_queue [F_create_fail] = Some (ret, s', t') /\
    in_progress s' ++ pending s' = drop k [node 1 2; node 2 3; node 3 4].
Proof.
  destruct (singleplex_next_in_order false ex_engine ex_queue 1 [F_create_fail])
    as (ret & s' & t' & k & H1 & H2 & _).
  - apply ex_queue_reachable.
  - apply list_elem_of_here.
  - right. intros H%list_elem_of_singleton. discriminate.
  - by exists ret, s', t', k.
Defined.

End Singleplex.
