(* ===== verification/Base64.v ===== *)
(** * Base64: the encoder and decoder used by the plugins and the HTTP client

    Models src/flb_base64.c.  The buffers are lists of bytes; the functions
    return their result, the value of [*olen] (when they set it) and the bytes
    written to [dst]. *)

From S2P Require Import Prelude.

Module Base64.

Definition FLB_BASE64_ERR_BUFFER_TOO_SMALL : Z := - 0x2A.
Definition FLB_BASE64_ERR_INVALID_CHARACTER : Z := - 0x2C.
Definition BASE64_SIZE_T_MAX : Z := u64 (-1).

Definition base64_enc_map : bytes :=
  str "ABCDEFGHIJKLMNOPQRSTUVWXYZabcdefghijklmnopqrstuvwxyz0123456789+/".

Definition base64_dec_map : list Z :=
  [127; 127; 127; 127; 127; 127; 127; 127; 127; 127;
   127; 127; 127; 127; 127; 127; 127; 127; 127; 127;
   127; 127; 127; 127; 127; 127; 127; 127; 127; 127;
   127; 127; 127; 127; 127; 127; 127; 127; 127; 127;
   127; 127; 127;  62; 127; 127; 127;  63;  52;  53;
    54;  55;  56;  57;  58;  59;  60;  61; 127; 127;
   127;  64; 127; 127; 127;   0;   1;   2;   3;   4;
     5;   6;   7;   8;   9;  10;  11;  12;  13;  14;
    15;  16;  17;  18;  19;  20;  21;  22;  23;  24;
    25; 127; 127; 127; 127; 127; 127;  26;  27;  28;
    29;  30;  31;  32;  33;  34;  35;  36;  37;  38;
    39;  40;  41;  42;  43;  44;  45;  46;  47;  48;
    49;  50;  51; 127; 127; 127; 127; 127].

Definition enc (v : Z) : Z := nth (Z.to_nat v) base64_enc_map 0.
Definition dec (c : Z) : Z := nth (Z.to_nat c) base64_dec_map 127.

(** ** Encoding *)

Fixpoint encode_loop (src : bytes) : bytes :=
  match src with
  | C1 :: C2 :: C3 :: rest =>
      enc (Z.land (Z.shiftr C1 2) 0x3F)
      :: enc (Z.land (Z.shiftl (Z.land C1 3) 4 + Z.shiftr C2 4) 0x3F)
      :: enc (Z.land (Z.shiftl (Z.land C2 15) 2 + Z.shiftr C3 6) 0x3F)
      :: enc (Z.land C3 0x3F) :: encode_loop rest
  | [C1; C2] =>
      [enc (Z.land (Z.shiftr C1 2) 0x3F);
       enc (Z.land (Z.shiftl (Z.land C1 3) 4 + Z.shiftr C2 4) 0x3F);
       enc (Z.land (Z.shiftl (Z.land C2 15) 2) 0x3F);
       ch "="]
  | [C1] =>
      [enc (Z.land (Z.shiftr C1 2) 0x3F);
       enc (Z.land (Z.shiftl (Z.land C1 3) 4 + Z.shiftr 0 4) 0x3F);
       ch "="; ch "="]
  | [] => []
  end.

(** [dst] tells whether the destination is not NULL. *)
Definition flb_base64_encode (dst : bool) (dlen : Z) (src : bytes) : Z * Z * bytes :=
  let slen := Z.of_nat (length src) in
  if slen =? 0 then (0, 0, [])
  else
    let n := slen / 3 + (if slen mod 3 =? 0 then 0 else 1) in
    if (BASE64_SIZE_T_MAX - 1) / 4 <? n then
      (FLB_BASE64_ERR_BUFFER_TOO_SMALL, BASE64_SIZE_T_MAX, [])
    else
      let n := n * 4 in
      if (dlen <? n + 1) || negb dst then (FLB_BASE64_ERR_BUFFER_TOO_SMALL, n + 1, [])
      else
        let out := encode_loop src in
        (0, Z.of_nat (length out), out ++ [0]).

(** ** Decoding *)

(** The first pass: [n] characters so far, [j] of them padding, after [x]
    spaces in a row.  [None]: invalid character. *)
Fixpoint check_loop (src : bytes) (n j x : Z) : option (Z * Z) :=
  match src with
  | [] => Some (n, j)
  | c :: rest =>
      if c =? 32 then check_loop rest n j (u32 (x + 1))
      else if (c =? 13) && match rest with d :: _ => d =? 10 | [] => false end then
        check_loop rest n j 0
      else if c =? 10 then check_loop rest n j 0
      else if negb (x =? 0) then None
      else
        let j := if c =? ch "=" then j + 1 else j in
        if (c =? ch "=") && (2 <? j) then None
        else if (127 <? c) || (dec c =? 127) then None
        else if (dec c <? 64) && negb (j =? 0) then None
        else check_loop rest (n + 1) j 0
  end.

Definition is_blank (c : Z) : bool := (c =? 13) || (c =? 10) || (c =? 32).

(** The second pass: [n] characters of the current group, their bits in [x]. *)
Fixpoint decode_loop (src : bytes) (j n x : Z) : bytes :=
  match src with
  | [] => []
  | c :: rest =>
      if is_blank c then decode_loop rest j n x
      else
        let j := u32 (j - (if dec c =? 64 then 1 else 0)) in
        let x := Z.lor (u32 (Z.shiftl x 6)) (Z.land (dec c) 0x3F) in
        if n + 1 =? 4 then
          (if 0 <? j then [u8 (Z.shiftr x 16)] else [])
          ++ (if 1 <? j then [u8 (Z.shiftr x 8)] else [])
          ++ (if 2 <? j then [u8 x] else [])
          ++ decode_loop rest j 0 x
        else decode_loop rest j (n + 1) x
  end.

(** [*olen] is left alone on an invalid character: [None]. *)
Definition flb_base64_decode (dst : bool) (dlen : Z) (src : bytes) : Z * option Z * bytes :=
  match check_loop src 0 0 0 with
  | None => (FLB_BASE64_ERR_INVALID_CHARACTER, None, [])
  | Some (n, j) =>
      if n =? 0 then (0, Some 0, [])
      else
        let n := 6 * Z.shiftr n 3 + Z.shiftr (6 * Z.land n 7 + 7) 3 in
        let n := u64 (n - j) in
        if negb dst || (dlen <? n) then (FLB_BASE64_ERR_BUFFER_TOO_SMALL, Some n, [])
        else
          let out := decode_loop src 3 0 0 in
          (0, Some (Z.of_nat (length out)), out)
  end.

(** ** The tables *)

(** A property of the first [n] naturals, decided by evaluation. *)
Lemma below_forall (P : Z -> bool) (n : nat) :
  forallb (λ i, P (Z.of_nat i)) (seq 0 n) = true -> forall z, 0 <= z < Z.of_nat n -> P z = true.
Proof.
  intros H z Hz. rewrite forallb_forall in H. specialize (H (Z.to_nat z)).
  rewrite Z2Nat.id in H by lia. apply H. apply in_seq. lia.
Qed.

(** Encoded characters are data for the decoder, and decode to themselves. *)
Definition data_char (c v : Z) : bool :=
  negb (is_blank c) && negb (c =? ch "=") && negb (127 <? c) && (dec c =? v).

Lemma enc_dec v : 0 <= v < 64 -> data_char (enc v) v = true.
Proof. apply (below_forall (λ v, data_char (enc v) v) 64). vm_compute. reflexivity. Qed.

Lemma dec_pad c : is_byte c -> (dec c =? 64) = (c =? ch "=").
Proof.
  intros H. apply Bool.eqb_prop.
  apply (below_forall (λ c, Bool.eqb (dec c =? 64) (c =? ch "=")) 256); [vm_compute; reflexivity|done].
Qed.

Lemma dec_range c : is_byte c -> dec c = 127 \/ 0 <= dec c <= 64.
Proof.
  intros H.
  assert (Hb : (dec c =? 127) || ((0 <=? dec c) && (dec c <=? 64)) = true).
  { apply (below_forall (λ c, (dec c =? 127) || ((0 <=? dec c) && (dec c <=? 64))) 256);
      [vm_compute; reflexivity|done]. }
  apply orb_true_iff in Hb as [Hb|Hb]; [left; lia|right; lia].
Qed.

(** ** The characters that count *)

Definition sig (src : bytes) : bytes := List.filter (λ c, negb (is_blank c)) src.

(** Data, then at most two paddings, [j] of them seen. *)
Fixpoint wf_sig (j : Z) (l : bytes) : Prop :=
  match l with
  | [] => True
  | c :: r => if c =? ch "=" then j + 1 <= 2 /\ wf_sig (j + 1) r
              else 0 <= dec c < 64 /\ j = 0 /\ wf_sig 0 r
  end.

Fixpoint pads (l : bytes) : Z :=
  match l with [] => 0 | c :: r => (if c =? ch "=" then 1 else 0) + pads r end.

Lemma check_loop_sig src n j x n' j' :
  is_bytes src -> 0 <= j <= 2 -> check_loop src n j x = Some (n', j') ->
  wf_sig j (sig src) /\ n' = n + Z.of_nat (length (sig src)) /\ j' = j + pads (sig src).
Proof.
  revert n j x. induction src as [|c src IH]; intros n j x Hb Hj; simpl.
  { intros [= <- <-]. split_and!; [done|lia..]. }
  apply Forall_cons in Hb as [Hc Hb]. unfold is_blank.
  destruct (Z.eqb_spec c 32) as [->|H32]; simpl; [by apply IH|].
  destruct (Z.eqb_spec c 10) as [->|H10]; simpl; [by apply IH|].
  destruct (Z.eqb_spec c 13) as [->|H13]; simpl.
  { destruct (match src with d :: _ => d =? 10 | [] => false end); [by apply IH|].
    destruct (negb (x =? 0)); done. }
  destruct (negb (x =? 0)); [done|].
  destruct (Z.eqb_spec c (ch "=")) as [->|Hpad]; simpl.
  - destruct (Z.ltb_spec 2 (j + 1)); [done|]. intros E.
    apply IH in E as (K1 & K2 & K3); [|done|lia]. split_and!; [lia|done|lia..].
  - destruct (Z.ltb_spec 127 c); simpl; [done|].
    destruct (Z.eqb_spec (dec c) 127); [done|].
    pose proof (dec_pad c Hc) as Hp. destruct (Z.eqb_spec c (ch "=")) as [|_]; [done|].
    apply Z.eqb_neq in Hp. destruct (dec_range c Hc); [done|].
    destruct (Z.ltb_spec (dec c) 64); simpl; [|lia].
    destruct (Z.eqb_spec j 0) as [->|]; [|done]. intros E.
    apply IH in E as (K1 & K2 & K3); [|done|lia]. split_and!; [lia..|done|lia|lia].
Qed.

Lemma decode_loop_sig src j n x : decode_loop src j n x = decode_loop (sig src) j n x.
Proof.
  revert j n x. induction src as [|c src IH]; intros j n x; simpl; [done|].
  destruct (is_blank c) eqn:E; simpl; [apply IH|]. rewrite E.
  destruct (n + 1 =? 4); by rewrite IH.
Qed.

(** After a padding only paddings may follow. *)
Lemma wf_sig_pad j l : 1 <= j <= 2 -> wf_sig j l -> l = [] \/ j = 1 /\ l = [ch "="].
Proof.
  intros Hj. destruct l as [|c l]; simpl; [by left|].
  destruct (Z.eqb_spec c (ch "=")) as [->|]; [|lia]. intros [H1 H2]. right.
  assert (j = 1) as -> by lia. split; [done|]. destruct l as [|d l]; [done|]. simpl in H2.
  destruct (d =? ch "="); lia.
Qed.

(** Bytes the second pass writes, from the middle of a group. *)
Lemma decode_length l n x : 0 <= n < 4 -> wf_sig 0 l -> Forall (λ c, is_blank c = false /\ is_byte c) l ->
  Z.of_nat (length (decode_loop l 3 n x))
  <= 3 * ((n + Z.of_nat (length l)) / 4) + (n + Z.of_nat (length l)) mod 4 - pads l.
Proof.
  revert n x. induction l as [|c l IH]; intros n x Hn Hw Hb.
  { simpl. rewrite Z.add_0_r, Z.div_small, Z.mod_small by lia. lia. }
  apply Forall_cons in Hb as [[Hc Hby] Hb]. cbn [wf_sig decode_loop length pads] in Hw |- *. rewrite Hc, (dec_pad c Hby).
  destruct (Z.eqb_spec c (ch "=")) as [->|Hpad].
  - destruct Hw as [_ Hw]. change (u32 (3 - 1)) with 2. simpl pads.
    apply wf_sig_pad in Hw as [->|[_ ->]]; [| |lia].
    + assert (n = 0 \/ n = 1 \/ n = 2 \/ n = 3) as [->|[->|[->| ->]]] by lia; vm_compute; discriminate.
    + assert (n = 0 \/ n = 1 \/ n = 2 \/ n = 3) as [->|[->|[->| ->]]] by lia; vm_compute; discriminate.
  - destruct Hw as (Hd & _ & Hw). change (u32 (3 - 0)) with 3. simpl pads.
    destruct (Z.eqb_spec (n + 1) 4) as [H4|H4].
    + simpl length. rewrite Nat2Z.inj_succ, Nat2Z.inj_succ, Nat2Z.inj_succ.
      specialize (IH 0 (Z.lor (u32 (Z.shiftl x 6)) (Z.land (dec c) 63)) ltac:(lia) Hw Hb).
      replace (n + Z.of_nat (S (length l))) with (0 + Z.of_nat (length l) + 1 * 4) by lia.
      rewrite Z.div_add, Z.mod_add by lia. lia.
    + specialize (IH (n + 1) (Z.lor (u32 (Z.shiftl x 6)) (Z.land (dec c) 63)) ltac:(lia) Hw Hb).
      replace (n + Z.of_nat (S (length l))) with (n + 1 + Z.of_nat (length l)) by lia. lia.
Qed.

(** The size the decoder asks for, without the intermediate overflow. *)
Lemma decode_size n : 0 <= n ->
  6 * Z.shiftr n 3 + Z.shiftr (6 * Z.land n 7 + 7) 3 = 3 * (n / 4) + n mod 4.
Proof.
  intros Hn. change 7 with (Z.ones 3) at 1. rewrite Z.land_ones by lia.
  rewrite !Z.shiftr_div_pow2 by lia. change (2 ^ 3) with 8.
  Z.to_euclidean_division_equations. lia.
Qed.

Lemma pads_range l : 0 <= pads l <= Z.of_nat (length l).
Proof. induction l as [|c l IH]; simpl length; simpl pads; [lia|]. destruct (c =? ch "="); lia. Qed.

Lemma sig_bytes src : is_bytes src -> Forall (λ c, is_blank c = false /\ is_byte c) (sig src).
Proof.
  intros H. unfold is_bytes in H. apply Forall_forall. intros c Hc.
  rewrite list_elem_of_In in Hc. apply filter_In in Hc as [Hin Hc].
  rewrite Forall_forall in H. split; [by destruct (is_blank c)|]. apply H. by rewrite list_elem_of_In.
Qed.

(** ** Round trip *)

Section ThreeByThree.
Variable P : bytes -> Prop.
Hypothesis P0 : P [].
Hypothesis P1 : forall a, P [a].
Hypothesis P2 : forall a b, P [a; b].
Hypothesis P3 : forall a b c l, P l -> P (a :: b :: c :: l).

Lemma bytes_ind3 l : P l.
Proof.
  assert (H : forall n l, (length l <= n)%nat -> P l); [|by apply (H (length l))].
  clear l. induction n as [|n IH]; intros [|a [|b [|c l]]] Hl; simpl in Hl; auto; try lia.
  apply P3. apply IH. lia.
Qed.
End ThreeByThree.

(** One data character of each pass. *)
Lemma check_data v rest n x' :
  0 <= v < 64 -> x' = 0 -> check_loop (enc v :: rest) n 0 x' = check_loop rest (n + 1) 0 0.
Proof.
  intros Hv ->. pose proof (enc_dec v Hv) as H. unfold data_char, is_blank in H.
  rewrite !andb_true_iff, !negb_true_iff, !orb_false_iff in H.
  destruct H as [[[[[H1 H2] H3] H4] H5] H6%Z.eqb_eq]. simpl. rewrite H3, H1, H2, H4. simpl.
  rewrite H5, H6. simpl. destruct (Z.eqb_spec v 127); [lia|]. by rewrite andb_false_r.
Qed.

Lemma shift_in x v : 0 <= v < 64 -> Z.lor (u32 (Z.shiftl x 6)) (Z.land v 0x3F) = u32 (x * 64 + v).
Proof.
  intros Hv. change 0x3F with (Z.ones 6). rewrite Z.land_ones, Z.mod_small by lia.
  rewrite Z.shiftl_mul_pow2 by lia. unfold u32.
  replace (x * 2 ^ 6 mod 2 ^ 32) with ((x mod 2 ^ 26) * 2 ^ 6)
    by (change (2 ^ 32) with (2 ^ 26 * 2 ^ 6); rewrite Z.mul_mod_distr_r; lia).
  rewrite lor_shift_add by lia. Z.to_euclidean_division_equations. lia.
Qed.

Lemma decode_data v rest n x :
  0 <= v < 64 -> n + 1 <> 4 ->
  decode_loop (enc v :: rest) 3 n x = decode_loop rest 3 (n + 1) (u32 (x * 64 + v)).
Proof.
  intros Hv Hn. pose proof (enc_dec v Hv) as H. unfold data_char in H.
  rewrite !andb_true_iff, !negb_true_iff in H. destruct H as [[[H1 H2] H3] H4%Z.eqb_eq].
  cbn [decode_loop]. rewrite H1, H4. destruct (Z.eqb_spec v 64); [lia|].
  rewrite shift_in by done. destruct (Z.eqb_spec (n + 1) 4); [lia|]. done.
Qed.

Lemma decode_last v rest x :
  0 <= v < 64 ->
  decode_loop (enc v :: rest) 3 3 x =
  u8 (Z.shiftr (u32 (x * 64 + v)) 16) :: u8 (Z.shiftr (u32 (x * 64 + v)) 8) :: u8 (u32 (x * 64 + v))
  :: decode_loop rest 3 0 (u32 (x * 64 + v)).
Proof.
  intros Hv. pose proof (enc_dec v Hv) as H. unfold data_char in H.
  rewrite !andb_true_iff, !negb_true_iff in H. destruct H as [[[H1 H2] H3] H4%Z.eqb_eq].
  cbn [decode_loop]. rewrite H1, H4. destruct (Z.eqb_spec v 64); [lia|].
  by rewrite shift_in by done.
Qed.

(** The six-bit groups of three bytes. *)
Lemma enc_groups a b c : is_byte a -> is_byte b -> is_byte c ->
  Z.land (Z.shiftr a 2) 0x3F = a / 4 /\
  Z.land (Z.shiftl (Z.land a 3) 4 + Z.shiftr b 4) 0x3F = (a mod 4) * 16 + b / 16 /\
  Z.land (Z.shiftl (Z.land b 15) 2 + Z.shiftr c 6) 0x3F = (b mod 16) * 4 + c / 64 /\
  Z.land c 0x3F = c mod 64.
Proof.
  unfold is_byte. intros Ha Hb Hc. change 0x3F with (Z.ones 6). change 3 with (Z.ones 2).
  change 15 with (Z.ones 4). rewrite !Z.land_ones by lia.
  rewrite !Z.shiftr_div_pow2, !Z.shiftl_mul_pow2 by lia.
  Z.to_euclidean_division_equations. lia.
Qed.

Lemma u32_step p v : u32 (u32 p * 64 + v) = u32 (p * 64 + v).
Proof. unfold u32. by rewrite Zplus_mod, Zmult_mod_idemp_l, <- Zplus_mod. Qed.

(** Only the last 24 bits shifted in matter. *)
Lemma low24 x a b c : is_byte a -> is_byte b -> is_byte c ->
  let y := u32 (x * 2 ^ 24 + (a * 2 ^ 16 + b * 2 ^ 8 + c)) in
  u8 (Z.shiftr y 16) = a /\ u8 (Z.shiftr y 8) = b /\ u8 y = c.
Proof.
  intros Ha Hb Hc y. unfold is_byte in *.
  assert (Hy : y = (x mod 2 ^ 8) * 2 ^ 24 + (a * 2 ^ 16 + b * 2 ^ 8 + c)).
  { unfold y, u32. symmetry. apply (Z.mod_unique _ _ (x / 2 ^ 8)).
    - left. pose proof (Z.mod_pos_bound x (2 ^ 8)). lia.
    - pose proof (Z.div_mod x (2 ^ 8)). lia. }
  pose proof (Z.mod_pos_bound x (2 ^ 8) ltac:(lia)) as Hx. rewrite Hy. clear Hy y.
  set (X := x mod 2 ^ 8) in *. clearbody X. unfold u8. rewrite !Z.shiftr_div_pow2 by lia.
  change (2 ^ 24) with 16777216. change (2 ^ 16) with 65536. change (2 ^ 8) with 256 in *.
  split_and!.
  - symmetry. apply (Z.mod_unique _ _ X); [lia|]. symmetry. apply (Z.div_unique _ _ _ (b * 256 + c)); lia.
  - symmetry. apply (Z.mod_unique _ _ (X * 256 + a)); [lia|]. symmetry. apply (Z.div_unique _ _ _ c); lia.
  - symmetry. apply (Z.mod_unique _ _ (X * 65536 + a * 256 + b)); lia.
Qed.

(** Four characters give back the three bytes, whatever was in [x]. *)
Lemma group_bytes a b c x : is_byte a -> is_byte b -> is_byte c ->
  let y := u32 (u32 (u32 (u32 (x * 64 + a / 4) * 64 + ((a mod 4) * 16 + b / 16)) * 64
                     + ((b mod 16) * 4 + c / 64)) * 64 + c mod 64) in
  u8 (Z.shiftr y 16) = a /\ u8 (Z.shiftr y 8) = b /\ u8 y = c.
Proof.
  intros Ha Hb Hc y.
  assert (Hy : y = u32 (x * 2 ^ 24 + (a * 2 ^ 16 + b * 2 ^ 8 + c))).
  { unfold y. rewrite (u32_step (x * 64 + a / 4)).
    rewrite (u32_step ((x * 64 + a / 4) * 64 + (a mod 4 * 16 + b / 16))), u32_step. f_equal.
    Z.to_euclidean_division_equations. lia. }
  rewrite Hy. by apply low24.
Qed.

(** The last group: paddings cut it to one or two bytes. *)
Lemma decode_pads1 x : decode_loop [ch "="] 3 3 x =
  let y := Z.lor (u32 (Z.shiftl x 6)) 0 in [u8 (Z.shiftr y 16); u8 (Z.shiftr y 8)].
Proof. reflexivity. Qed.

Lemma decode_pads2 x : decode_loop [ch "="; ch "="] 3 2 x =
  let y := Z.lor (u32 (Z.shiftl (Z.lor (u32 (Z.shiftl x 6)) 0) 6)) 0 in [u8 (Z.shiftr y 16)].
Proof. reflexivity. Qed.

Lemma pad_shift x : Z.lor (u32 (Z.shiftl x 6)) 0 = u32 (x * 64 + 0).
Proof. by rewrite Z.lor_0_r, Z.shiftl_mul_pow2, Z.add_0_r by lia. Qed.

Lemma group_range a b : is_byte a -> is_byte b ->
  0 <= a / 4 < 64 /\ 0 <= (a mod 4) * 16 + b / 16 < 64 /\ 0 <= (a mod 16) * 4 + b / 64 < 64 /\
  0 <= a mod 64 < 64.
Proof. unfold is_byte. intros Ha Hb. Z.to_euclidean_division_equations. lia. Qed.

Lemma decode_encode l x : is_bytes l -> decode_loop (encode_loop l) 3 0 x = l.
Proof.
  revert x. induction l as [|a|a b|a b c l IH] using bytes_ind3; intros x Hl; [done|..].
  - apply Forall_cons in Hl as [Hl _]. assert (H0 : is_byte 0) by (unfold is_byte; lia).
    cbn [encode_loop]. destruct (enc_groups a 0 0 Hl H0 H0) as (E1 & E2 & _). rewrite E1, E2.
    destruct (group_range a 0 Hl H0) as (R1 & R2 & _).
    rewrite !decode_data by (done || lia). simpl (0 + 1). simpl (1 + 1). rewrite decode_pads2.
    cbv zeta. rewrite !pad_shift. f_equal.
    destruct (group_bytes a 0 0 x Hl H0 H0) as (G & _). simpl in G. exact G.
  - apply Forall_cons in Hl as [Ha Hl]. apply Forall_cons in Hl as [Hb _].
    assert (H0 : is_byte 0) by (unfold is_byte; lia). cbn [encode_loop].
    destruct (enc_groups a b 0 Ha Hb H0) as (E1 & E2 & E3 & _). rewrite E1, E2.
    rewrite Z.add_0_r in E3. rewrite E3.
    destruct (group_range a b Ha Hb) as (R1 & R2 & _). destruct (group_range b 0 Hb H0) as (_ & _ & R3 & _).
    rewrite !decode_data by (done || lia). simpl (0 + 1). simpl (1 + 1). simpl (2 + 1).
    rewrite decode_pads1. cbv zeta. rewrite pad_shift.
    destruct (group_bytes a b 0 x Ha Hb H0) as (G1 & G2 & _).
    change (0 mod 64) with 0 in G1, G2. by rewrite G1, G2.
  - apply Forall_cons in Hl as [Ha Hl]. apply Forall_cons in Hl as [Hb Hl].
    apply Forall_cons in Hl as [Hc Hl]. cbn [encode_loop].
    destruct (enc_groups a b c Ha Hb Hc) as (E1 & E2 & E3 & E4). rewrite E1, E2, E3, E4.
    destruct (group_range a b Ha Hb) as (R1 & R2 & _). destruct (group_range b c Hb Hc) as (_ & _ & R3 & _).
    destruct (group_range c c Hc Hc) as (_ & _ & _ & R4).
    rewrite !decode_data by (done || lia). simpl (0 + 1). simpl (1 + 1). simpl (2 + 1).
    rewrite decode_last by done.
    destruct (group_bytes a b c x Ha Hb Hc) as (G1 & G2 & G3). by rewrite G1, G2, G3, IH.
Qed.

Lemma encode_length l : Z.of_nat (length (encode_loop l))
  = 4 * (Z.of_nat (length l) / 3 + (if Z.of_nat (length l) mod 3 =? 0 then 0 else 1)).
Proof.
  induction l as [|a|a b|a b c l IH] using bytes_ind3; [done..|].
  cbn [encode_loop length]. rewrite !Nat2Z.inj_succ, IH.
  replace (Z.succ (Z.succ (Z.succ (Z.of_nat (length l))))) with (Z.of_nat (length l) + 1 * 3) by lia.
  rewrite Z.div_add, Z.mod_add by lia. lia.
Qed.

(** The first pass accepts what the encoder writes. *)
Lemma check_encode l n : is_bytes l -> exists j, 0 <= j /\
  check_loop (encode_loop l) n 0 0 = Some (n + Z.of_nat (length (encode_loop l)), j) /\
  3 * Z.of_nat (length (encode_loop l)) = 4 * (Z.of_nat (length l) + j).
Proof.
  revert n. induction l as [|a|a b|a b c l IH] using bytes_ind3; intros n Hl.
  - exists 0. simpl. split_and!; [lia|f_equal; f_equal; lia|lia].
  - apply Forall_cons in Hl as [Ha _]. assert (H0 : is_byte 0) by (unfold is_byte; lia).
    exists 2. split; [lia|]. split; [|simpl; lia]. cbn [encode_loop].
    destruct (enc_groups a 0 0 Ha H0 H0) as (E1 & E2 & _). rewrite E1, E2.
    destruct (group_range a 0 Ha H0) as (R1 & R2 & _). rewrite !check_data by done.
    simpl. f_equal. f_equal. lia.
  - apply Forall_cons in Hl as [Ha Hl]. apply Forall_cons in Hl as [Hb _].
    assert (H0 : is_byte 0) by (unfold is_byte; lia).
    exists 1. split; [lia|]. split; [|simpl; lia]. cbn [encode_loop].
    destruct (enc_groups a b 0 Ha Hb H0) as (E1 & E2 & E3 & _). rewrite E1, E2.
    rewrite Z.add_0_r in E3. rewrite E3.
    destruct (group_range a b Ha Hb) as (R1 & R2 & _). destruct (group_range b 0 Hb H0) as (_ & _ & R3 & _).
    rewrite !check_data by done. simpl. f_equal. f_equal. lia.
  - apply Forall_cons in Hl as [Ha Hl]. apply Forall_cons in Hl as [Hb Hl].
    apply Forall_cons in Hl as [Hc Hl]. destruct (IH (n + 1 + 1 + 1 + 1) Hl) as (j & Hj & Hcheck & Hlen).
    exists j. split; [done|]. split; [|cbn [encode_loop length]; lia]. cbn [encode_loop].
    destruct (enc_groups a b c Ha Hb Hc) as (E1 & E2 & E3 & E4). rewrite E1, E2, E3, E4.
    destruct (group_range a b Ha Hb) as (R1 & R2 & _). destruct (group_range b c Hb Hc) as (_ & _ & R3 & _).
    destruct (group_range c c Hc Hc) as (_ & _ & _ & R4).
    rewrite !check_data by done. rewrite Hcheck. cbn [length]. f_equal. f_equal. lia.
Qed.

(** ** Properties *)

(** A buffer that is encoded and decoded comes back unchanged.  The
    encoder succeeds with every destination of at least 4 * ceil(n / 3) + 1
    bytes, writes that many characters and a terminator, and the decoder, given
    a destination as large as the original, succeeds on what was written. *)
Theorem base64_roundtrip src dlen dlen' :
  is_bytes src -> src <> [] -> Z.of_nat (length src) < 2 ^ 62 ->
  let n := 4 * (Z.of_nat (length src) / 3 + (if Z.of_nat (length src) mod 3 =? 0 then 0 else 1)) in
  n + 1 <= dlen -> Z.of_nat (length src) <= dlen' ->
  exists out, flb_base64_encode true dlen src = (0, n, out ++ [0]) /\ Z.of_nat (length out) = n /\
    flb_base64_decode true dlen' out = (0, Some (Z.of_nat (length src)), src).
Proof.
  intros Hb Hne Hlen n Hd Hd'. exists (encode_loop src).
  pose proof (encode_length src) as Hout. fold n in Hout.
  assert (Hpos : 1 <= Z.of_nat (length src)) by (destruct src; [done|simpl length; lia]).
  split_and!; [|done|].
  - unfold flb_base64_encode. destruct (Z.eqb_spec (Z.of_nat (length src)) 0); [lia|].
    fold n. set (q := Z.of_nat (length src) / 3 + _) in *.
    assert (Hq : q <= 2 ^ 61).
    { unfold q. destruct (_ mod 3 =? 0); Z.to_euclidean_division_equations; lia. }
    destruct (Z.ltb_spec ((BASE64_SIZE_T_MAX - 1) / 4) q) as [Hbig|_].
    { exfalso. change ((BASE64_SIZE_T_MAX - 1) / 4) with 4611686018427387903 in Hbig. lia. }
    destruct (Z.ltb_spec dlen (q * 4 + 1)); [lia|]. simpl. by rewrite Hout.
  - unfold flb_base64_decode. destruct (check_encode src 0 Hb) as (j & Hj & Hc & Hl).
    rewrite Hc. cbv iota beta. rewrite Z.add_0_l.
    destruct (Z.eqb_spec (Z.of_nat (length (encode_loop src))) 0) as [H0|Hn0]; [lia|].
    rewrite decode_size by lia. rewrite Hout.
    assert (Hsize : 3 * (n / 4) + n mod 4 - j = Z.of_nat (length src)).
    { rewrite Hout in Hl. unfold n in *. rewrite (Z.mul_comm 4), Z.div_mul, Z.mod_mul by lia. lia. }
    rewrite Hsize, u64_small by lia. destruct (Z.ltb_spec dlen' (Z.of_nat (length src))); [lia|].
    simpl. by rewrite decode_encode.
Qed.

(** The decoder is safe on any input: whatever bytes it is given, and
    whatever the size of the destination, it writes no more bytes than the
    destination holds, reports how many it wrote, and never writes on error. *)
Theorem base64_decode_in_bounds src dst dlen ret olen out :
  is_bytes src -> Z.of_nat (length src) < 2 ^ 62 -> 0 <= dlen ->
  flb_base64_decode dst dlen src = (ret, olen, out) ->
  Z.of_nat (length out) <= dlen /\
  (ret = 0 /\ olen = Some (Z.of_nat (length out)) \/ ret < 0 /\ out = []).
Proof.
  intros Hb Hlen Hd. unfold flb_base64_decode.
  destruct (check_loop src 0 0 0) as [[n j]|] eqn:Ec; [|intros [= <- <- <-]; split; [simpl; lia|]; by right].
  destruct (Z.eqb_spec n 0) as [|Hn]; [intros [= <- <- <-]; split; [simpl; lia|]; by left|].
  apply check_loop_sig in Ec as (Hw & Hns & Hjs); [|done|lia]. rewrite Z.add_0_l in Hns, Hjs.
  pose proof (decode_length (sig src) 0 0 ltac:(lia) Hw (sig_bytes src Hb)) as Hdl.
  rewrite Z.add_0_l, <- Hns, <- Hjs, <- decode_loop_sig in Hdl.
  rewrite decode_size by lia.
  assert (Hsl : Z.of_nat (length (sig src)) <= Z.of_nat (length src)).
  { apply inj_le. apply filter_length_le. }
  pose proof (pads_range (sig src)) as Hp.
  rewrite u64_small by (Z.to_euclidean_division_equations; lia).
  destruct (negb dst || _) eqn:E; intros [= <- <- <-]; [split; [simpl; lia|]; by right|].
  apply orb_false_iff in E as [_ E%Z.ltb_ge]. split; [lia|]. by left.
Qed.

Lemma base64_roundtrip_witness :
  exists out, flb_base64_encode true 9 (str "Man!") = (0, 8, out ++ [0]) /\ Z.of_nat (length out) = 8 /\
    flb_base64_decode true 4 out = (0, Some 4, str "Man!").
Proof.
  apply (base64_roundtrip (str "Man!") 9 4); try discriminate; try (vm_compute; congruence).
  repeat constructor; discriminate.
Defined.

Lemma base64_decode_in_bounds_witness :
  Z.of_nat (length (snd (flb_base64_decode true 1 (str "TQ==")))) <= 1.
Proof.
  apply (base64_decode_in_bounds (str "TQ==") true 1 0 (Some 1) [77]); try discriminate.
  - repeat constructor; discriminate.
  - vm_compute. reflexivity.
  - vm_compute. reflexivity.
Defined.

End Base64.
