(* ===== verification/EngineDispatch.v ===== *)
(** * Dispatch: chunks become tasks, tasks are handed to outputs

    Models src/flb_engine_dispatch.c (new chunks, the start of tasks, retries),
    [flb_engine_flush] of src/flb_engine.c, and the calls on chunks they make
    (src/flb_input_chunk.c).  Tasks are those of Task.v; synchronous outputs
    take tasks through the queue of Singleplex.v.

    What the dispatcher needs of an output is the class [TaskSink]; the theorems
    on dispatch are proved against it, and both ways to hand a task over, the
    queue and the direct flush, are instances. *)

From S2P Require Import Prelude Router RoutesMask Scheduler Task Singleplex.

Module Dispatch.
Import Singleplex.

(** ** State *)

(** What the storage (Chunk I/O) answers for the content of a chunk. *)
Inductive content := C_error | C_no_buffer | C_buffer (size diff : Z).

(** [dc_up]: the chunk is in memory; [dc_up_ret] and [dc_down_ok]: what the
    storage answers when it is to be brought there, or taken out of it.  [dc_tag] is the length of its tag, [None] when it cannot be read; [diff] is
    by how much its size on disk changes when it is brought up. *)
Record dchunk := {
  dc_addr : nat;
  dc_busy : bool;
  dc_up : bool;
  dc_up_ret : Z;
  dc_down_ok : bool;
  dc_content : content;
  dc_tag : option Z;
  dc_records : Z;
  dc_type : Z;
  dc_mask : list Z;
}.

Definition set_busy (b : bool) (c : dchunk) : dchunk :=
  {| dc_addr := dc_addr c; dc_busy := b; dc_up := dc_up c; dc_up_ret := dc_up_ret c;
     dc_down_ok := dc_down_ok c;
     dc_content := dc_content c; dc_tag := dc_tag c; dc_records := dc_records c;
     dc_type := dc_type c; dc_mask := dc_mask c |}.
Definition set_dc_up (b : bool) (c : dchunk) : dchunk :=
  {| dc_addr := dc_addr c; dc_busy := dc_busy c; dc_up := b; dc_up_ret := dc_up_ret c;
     dc_down_ok := dc_down_ok c;
     dc_content := dc_content c; dc_tag := dc_tag c; dc_records := dc_records c;
     dc_type := dc_type c; dc_mask := dc_mask c |}.

Record d_input := {
  di_plugin : option nat;
  di_direct : list nat;          (* routes_direct *)
  di_chunks : list dchunk;
}.

(** The flags of an output the dispatcher tests, besides those of [Task.output]. *)
Record out_flags := { no_multiplex : bool; test_formatter : bool }.

(** Calls out of the dispatcher, in order. *)
Inductive call :=
| D_hand (task out : nat) (retry : option nat)      (* the output takes the task *)
| D_test (task out : nat)                           (* the test formatter runs *)
| D_recount (chunk : nat) (diff : Z).               (* the outputs' sizes are updated *)

(** The queue of every output; the engine stored in a queue is not used. *)
Record dispatcher := {
  eng : Task.engine;
  inputs : list d_input;
  queues : list out_queue;
  flags : list out_flags;
  fates : list flush_outcome;
  mem : tape;
  calls : list call;
}.

Definition set_engine (w : Task.engine) (s : dispatcher) : dispatcher :=
  {| eng := w; inputs := inputs s; queues := queues s; flags := flags s; fates := fates s;
     mem := mem s; calls := calls s |}.
Definition set_mem (m : tape) (s : dispatcher) : dispatcher :=
  {| eng := eng s; inputs := inputs s; queues := queues s; flags := flags s; fates := fates s;
     mem := m; calls := calls s |}.
Definition set_inputs (l : list d_input) (s : dispatcher) : dispatcher :=
  {| eng := eng s; inputs := l; queues := queues s; flags := flags s; fates := fates s;
     mem := mem s; calls := calls s |}.
Definition log (e : call) (s : dispatcher) : dispatcher :=
  {| eng := eng s; inputs := inputs s; queues := queues s; flags := flags s; fates := fates s;
     mem := mem s; calls := calls s ++ [e] |}.
Definition after_give (out : nat) (q : out_queue) (t : list flush_outcome) (m : tape)
    (s : dispatcher) : dispatcher :=
  {| eng := Singleplex.eng q; inputs := inputs s; queues := <[out := q]> (queues s);
     flags := flags s; fates := t; mem := m; calls := calls s |}.

Definition set_chunks (l : list dchunk) (i : d_input) : d_input :=
  {| di_plugin := di_plugin i; di_direct := di_direct i; di_chunks := l |}.
Definition update_chunks (inp : nat) (f : list dchunk -> list dchunk) (s : dispatcher) : dispatcher :=
  set_inputs (alter (λ i, set_chunks (f (di_chunks i)) i) inp (inputs s)) s.

(** ** Chunks (src/flb_input_chunk.c) *)

Definition flb_input_chunk_set_up (c : dchunk) : Z * dchunk :=
  if dc_up c then (0, c)
  else (dc_up_ret c, if dc_up_ret c =? 0 then set_dc_up true c else c).

Definition flb_input_chunk_down (c : dchunk) : dchunk :=
  if dc_up c && dc_down_ok c then set_dc_up false c else c.

Definition flb_input_chunk_release_lock (c : dchunk) : Z * dchunk :=
  if dc_busy c then (0, set_busy false c) else (-1, c).

(** Whether there is a buffer, the size (which keeps its old value [size] when
    the content cannot be read), the chunk and the call to recount its size. *)
Definition flb_input_chunk_flush (c : dchunk) (size : Z) : bool * Z * dchunk * list call :=
  let (ret, c) := flb_input_chunk_set_up c in
  if ret =? -1 then (false, size, c, [])
  else match dc_content c with
       | C_error => (false, size, c, [])
       | C_no_buffer => (false, 0, c, [])
       | C_buffer n diff =>
           (true, n, set_busy true c, if diff =? 0 then [] else [D_recount (dc_addr c) diff])
       end.

(** ** Outputs *)

(** [flb_output_task_flush] for an output without the synchronous flag. *)
Definition task_flush (threaded : bool) (task : nat) (s : out_queue) (t : list flush_outcome)
    : Z * out_queue * list flush_outcome :=
  let (o, t) := next_outcome t in
  let inc s := Singleplex.set_eng (Task.flb_task_users_inc task (Singleplex.eng s)) s in
  let dec s := Singleplex.set_eng (Task.flb_task_users_dec task false (Singleplex.eng s)) s in
  if threaded then
    match o with
    | F_ok => (0, launch task (inc s), t)
    | _ => (0, dec (inc s), t)
    end
  else
    match o with
    | F_create_fail => (-1, s, t)
    | F_ok => (0, launch task (inc s), t)
    | F_send_fail => (-1, dec (inc s), t)
    end.

(** A way to hand over a task, and perhaps its retry. *)
Definition sink : Type :=
  nat -> option Task.flb_task_retry -> out_queue -> list flush_outcome -> tape ->
  option (Z * out_queue * list flush_outcome * tape).

Definition flush_sink (threaded : bool) : sink := λ task _ s t m,
  let '(ret, s, t) := task_flush threaded task s t in Some (ret, s, t, m).

Definition queue_sink (threaded : bool) : sink := λ task retry s t m,
  flb_output_task_singleplex_enqueue threaded task retry s t m.

Definition output_sink (o : Task.output) : sink :=
  if Task.o_sync o then queue_sink (Task.o_threaded o) else flush_sink (Task.o_threaded o).

(** What the dispatcher relies on: the output answers, and changes no more of
    the tasks than their users and retries. *)
Definition core (k : Task.flb_task) : Task.flb_task := Task.set_users 0 (Task.set_retries [] k).

Record engine_equiv (w w' : Task.engine) : Prop := {
  ee_map : Task.task_map w' = Task.task_map w;
  ee_in : Task.in_tasks w' = Task.in_tasks w;
  ee_outs : Task.outputs w' = Task.outputs w;
  ee_next : Task.next_addr w' = Task.next_addr w;
  ee_effects : Task.effects w' = Task.effects w;
  ee_tasks : forall a, core <$> Task.tasks w' !! a = core <$> Task.tasks w !! a;
}.

Class TaskSink (g : sink) : Prop := {
  sink_returns task retry s t m : exists r, g task retry s t m = Some r;
  sink_frame task retry s t m ret s' t' m' :
    g task retry s t m = Some (ret, s', t', m') ->
    engine_equiv (Singleplex.eng s) (Singleplex.eng s');
}.

Section Dispatch.
Context {regex : Type}.
(** The mask layout and the outputs of the router, which tell the routes of a
    chunk; the number of coroutines in the pool of a threaded output, which
    changes on its own: any function of what happened so far; and the byte an
    uninitialised route status holds. *)
Variable mcfg : RoutesMask.mask_config.
Variable router_outs : list (Z * Routes.flb_output_instance (regex := regex)).
Variable pool_coros : nat -> list call -> Z.
Variable junk : Z.

Definition flb_output_coros_size (out : nat) (s : dispatcher) : Z :=
  match Task.outputs (eng s) !! out, queues s !! out with
  | Some o, Some q => if Task.o_threaded o then pool_coros out (calls s)
                      else Z.of_nat (length (flushing q))
  | _, _ => 0
  end.

(** [None]: the output does not return, or there is no such output. *)
Definition give (task out : nat) (retry : option Task.flb_task_retry) (s : dispatcher)
    : option (Z * dispatcher) :=
  o ← Task.outputs (eng s) !! out; q ← queues s !! out;
  '(ret, q, t, m) ← output_sink o task retry (Singleplex.set_eng (eng s) q) (fates s) (mem s);
  Some (ret, log (D_hand task out (Task.rty_addr <$> retry)) (after_give out q t m s)).

(** ** The start of tasks *)

Fixpoint remove_route (out : nat) (l : list Task.flb_task_route) : list Task.flb_task_route :=
  match l with
  | [] => []
  | r :: l' => if Nat.eqb (Task.rt_out r) out then l' else r :: remove_route out l'
  end.

Definition set_status (st : Z) (k : Task.flb_task) : Task.flb_task :=
  {| Task.t_id := Task.t_id k; Task.ref_id := Task.ref_id k; Task.status := st;
     Task.users := Task.users k; Task.total_events := Task.total_events k;
     Task.ev_size := Task.ev_size k; Task.ic := Task.ic k; Task.records := Task.records k;
     Task.routes := Task.routes k; Task.retries := Task.retries k; Task.i_ins := Task.i_ins k |}.

Definition on_task (task : nat) (f : Task.flb_task -> Task.flb_task) (s : dispatcher) : dispatcher :=
  set_engine (Task.update_task task f (eng s)) s.

Definition is_test (s : dispatcher) (out : nat) : bool :=
  default false (test_formatter <$> flags s !! out).
Definition held_back (retry : Z) (s : dispatcher) (out : nat) : bool :=
  default false (no_multiplex <$> flags s !! out)
  && ((0 <? flb_output_coros_size out s) || (0 <? retry)).

Fixpoint start_routes (task : nat) (l : list Task.flb_task_route) (retry hits : Z)
    (s : dispatcher) : option (Z * dispatcher) :=
  match l with
  | [] => Some (hits, s)
  | r :: l =>
      let out := Task.rt_out r in
      if is_test s out then
        start_routes task l retry hits
          (on_task task (λ k, Task.set_routes (remove_route out (Task.routes k)) k)
             (log (D_test task out) s))
      else if held_back retry s out then start_routes task l retry hits s
      else '(_, s) ← give task out None s; start_routes task l retry (hits + 1) s
  end.

Fixpoint start_tasks (l : list nat) (retry : Z) (s : dispatcher) : option dispatcher :=
  match l with
  | [] => Some s
  | task :: l =>
      k ← Task.tasks (eng s) !! task;
      let retry := if Nat.eqb (length (Task.retries k)) 0 then retry else retry + 1 in
      if negb (Task.status k =? Task.FLB_TASK_NEW) then start_tasks l retry s
      else
        let s := on_task task (set_status Task.FLB_TASK_RUNNING) s in
        '(hits, s) ← start_routes task (Task.routes k) retry 0 s;
        let s := if hits =? 0 then on_task task (set_status Task.FLB_TASK_NEW) s else s in
        start_tasks l retry s
  end.

Definition input_tasks (inp : nat) (s : dispatcher) : list nat :=
  default [] (Task.in_tasks (eng s) !! inp).

Definition tasks_start (inp : nat) (s : dispatcher) : option dispatcher :=
  start_tasks (input_tasks inp s) 0 s.

(** ** New chunks *)

(** What the creation of a task needs of a chunk with content of this size. *)
Definition as_task_chunk (inp : nat) (c : dchunk) (size : Z) : Task.task_chunk :=
  {| Task.c_addr := dc_addr c; Task.c_records := dc_records c; Task.c_size := size;
     Task.c_input := inp |}.

Definition create_task (id : Z) (inp : nat) (direct : list nat) (c : dchunk) (size : Z) :=
  Task.flb_task_create id (as_task_chunk inp c size) junk direct
    (Task.route_takes (dc_type c) (dc_mask c) mcfg router_outs).

(** One turn of the loop: the loop ends, or the chunk stays in its list, or it
    is gone.  [size] is the variable of the loop that holds the last size read. *)
Inductive turn := T_break | T_keep (c : dchunk) | T_gone.

Definition dispatch_chunk (id : Z) (inp : nat) (direct : list nat) (c : dchunk) (size : Z)
    (s : dispatcher) : turn * Z * dispatcher :=
  if dc_busy c then (T_keep c, size, s)
  else
    let '(slot, w, m) := Task.flb_task_map_get_task_id (eng s) (mem s) in
    let s := set_mem m (set_engine w s) in
    match slot with
    | None => (T_break, size, s)
    | Some _ =>
        let '(buf, size, c, recount) := flb_input_chunk_flush c size in
        let s := foldl (λ s e, log e s) s recount in
        let unlock c := snd (flb_input_chunk_release_lock c) in
        if size =? 0 then (T_keep (unlock c), size, s)
        else if negb buf then (T_keep (unlock c), size, s)
        else match dc_tag c with
             | None => (T_keep (unlock c), size, s)
             | Some tag_len =>
                 if tag_len <=? 0 then (T_keep (unlock c), size, s)
                 else
                   let '(task, t_err, w, m) := create_task id inp direct c size (eng s) (mem s) in
                   let s := set_mem m (set_engine w s) in
                   match task with
                   | Some _ => (T_keep c, size, s)
                   | None => if t_err then (T_keep (flb_input_chunk_down (unlock c)), size, s)
                             else (T_gone, size, s)
                   end
             end
    end.

(** The chunks that remain, in order. *)
Fixpoint dispatch_chunks (id : Z) (inp : nat) (direct : list nat) (l : list dchunk) (size : Z)
    (s : dispatcher) : list dchunk * dispatcher :=
  match l with
  | [] => ([], s)
  | c :: rest =>
      match dispatch_chunk id inp direct c size s with
      | (T_break, _, s) => (c :: rest, s)
      | (T_keep c, size, s) =>
          let (l, s) := dispatch_chunks id inp direct rest size s in (c :: l, s)
      | (T_gone, size, s) => dispatch_chunks id inp direct rest size s
      end
  end.

(** ** Cleanup of tasks of test outputs *)

(** [flb_task_destroy], with the chunk it takes out of its input. *)
Definition destroy_task (task : nat) (s : dispatcher) : dispatcher :=
  match Task.tasks (eng s) !! task with
  | None => s
  | Some k =>
      update_chunks (Task.i_ins k) (filter (λ c, dc_addr c <> Task.ic k))
        (set_engine (Task.flb_task_destroy task true (eng s)) s)
  end.

Definition useless (k : Task.flb_task) : bool :=
  (Task.users k =? 0) && Nat.eqb (length (Task.retries k)) 0 && Nat.eqb (length (Task.routes k)) 0.

Definition cleanup_tasks (l : list nat) (s : dispatcher) : dispatcher :=
  foldl (λ s task, match Task.tasks (eng s) !! task with
                   | Some k => if useless k then destroy_task task s else s
                   | None => s
                   end) s l.

Definition flb_engine_dispatch (id : Z) (inp : nat) (s : dispatcher) : option dispatcher :=
  i ← inputs s !! inp;
  match di_plugin i with
  | None => Some s
  | Some _ =>
      let (l, s) := dispatch_chunks id inp (di_direct i) (di_chunks i) 0 s in
      let s := update_chunks inp (λ _, l) s in
      s ← tasks_start inp s;
      Some (cleanup_tasks (input_tasks inp s) s)
  end.

(** [flb_engine_flush]: [in_force] limits it to the inputs of one plugin. *)
Fixpoint flush_inputs (in_force : option nat) (inp n : nat) (s : dispatcher) : option dispatcher :=
  match n with
  | O => Some s
  | S n =>
      i ← inputs s !! inp;
      if bool_decide (in_force <> None) && negb (bool_decide (di_plugin i = in_force))
      then flush_inputs in_force (S inp) n s
      else s ← flb_engine_dispatch 0 inp s; flush_inputs in_force (S inp) n s
  end.

Definition flb_engine_flush (in_force : option nat) (s : dispatcher) : option dispatcher :=
  flush_inputs in_force 0 (length (inputs s)) s.

(** ** Retries *)

Definition find_chunk (inp addr : nat) (s : dispatcher) : option dchunk :=
  i ← inputs s !! inp; snd <$> list_find (λ c, dc_addr c = addr) (di_chunks i).

Definition put_chunk (inp : nat) (c : dchunk) (s : dispatcher) : dispatcher :=
  update_chunks inp (map (λ d, if Nat.eqb (dc_addr d) (dc_addr c) then c else d)) s.

Definition on_eng (f : Task.engine -> Task.engine) (s : dispatcher) : dispatcher :=
  set_engine (f (eng s)) s.

(** [None]: a part that is called does not return; the chunk of a task exists. *)
Definition flb_engine_dispatch_retry (task : nat) (retry : Task.flb_task_retry)
    (env : Task.event_env) (s : dispatcher) : option (Z * dispatcher) :=
  k ← Task.tasks (eng s) !! task;
  c ← find_chunk (Task.i_ins k) (Task.ic k) s;
  let (ret, c) := flb_input_chunk_set_up c in
  let s := put_chunk (Task.i_ins k) c s in
  if ret =? -1 then
    '(ret, w, m) ← Task.flb_task_retry_reschedule task retry (Task.ee_cfg env) (Task.ee_now env)
                     (Task.ee_samples env) (Task.ee_fds env) (eng s) (mem s);
    let gone := bool_decide (Task.tasks w !! task = None) in
    let s := set_mem m (set_engine w s) in
    let s := if gone then update_chunks (Task.i_ins k) (filter (λ c, dc_addr c <> Task.ic k)) s
             else s in
    Some (if ret =? -1 then -1 else 0, s)
  else
    let '(buf, size, c, recount) := flb_input_chunk_flush c 0 in
    let s := foldl (λ s e, log e s) (put_chunk (Task.i_ins k) c s) recount in
    if negb buf then Some (-1, on_eng (Task.flb_task_retry_destroy task retry) s)
    else
      o ← Task.outputs (eng s) !! Task.o_ins retry;
      '(ret, s) ← give task (Task.o_ins retry) (Some retry) s;
      if Task.o_sync o then Some (if ret =? -1 then -1 else 0, s)
      else if ret =? -1 then Some (-1, on_eng (Task.flb_task_retry_destroy task retry) s)
      else Some (0, s).

End Dispatch.

(** ** The outputs as sinks *)

#[export] Instance engine_equiv_equivalence : Equivalence engine_equiv.
Proof.
  split.
  - intros w. by split.
  - intros w w' []. by split.
  - intros w1 w2 w3 [] []. split; intros; congruence.
Qed.

Lemma update_equiv a f w :
  (forall k, core (f k) = core k) -> engine_equiv w (Task.update_task a f w).
Proof.
  intros Hf. split; try done. intros b. simpl. destruct (decide (b = a)) as [->|Hne].
  - rewrite lookup_alter_eq. by destruct (Task.tasks w !! a); simpl; rewrite ?Hf.
  - by rewrite lookup_alter_ne.
Qed.

Lemma users_inc_equiv a w : engine_equiv w (Task.flb_task_users_inc a w).
Proof. by apply update_equiv. Qed.

Lemma users_dec_equiv a w : engine_equiv w (Task.flb_task_users_dec a false w).
Proof. by apply update_equiv. Qed.

Lemma retry_destroy_equiv a r w : engine_equiv w (Task.flb_task_retry_destroy a r w).
Proof.
  unfold Task.flb_task_retry_destroy. etransitivity; [|by apply update_equiv]. by split.
Qed.

(** Several steps in a row. *)
Ltac equiv_steps :=
  first [ reflexivity | eassumption
        | etransitivity;
          [|first [ eassumption | apply users_inc_equiv | apply users_dec_equiv
                  | apply retry_destroy_equiv ]]; equiv_steps ].

Lemma task_flush_frame threaded task s t ret s' t' :
  task_flush threaded task s t = (ret, s', t') ->
  engine_equiv (Singleplex.eng s) (Singleplex.eng s').
Proof.
  unfold task_flush. destruct (next_outcome t) as [o t1].
  destruct threaded, o; intros [= <- <- <-]; simpl; equiv_steps.
Qed.

#[export] Instance flush_sink_ok threaded : TaskSink (flush_sink threaded).
Proof.
  split; intros task retry s t m; unfold flush_sink;
    destruct (task_flush threaded task s t) as [[ret s'] t'] eqn:E; [eauto|].
  intros ret' s2 t2 m2 [= <- <- <- <-]. by eapply task_flush_frame.
Qed.

(** A call of the queue that returns changes the engine this little. *)
Definition framed (s : out_queue) (r : result) : Prop :=
  forall ret s' t', r = Some (ret, s', t') -> engine_equiv (Singleplex.eng s) (Singleplex.eng s').

Lemma framed_step s1 s r :
  engine_equiv (Singleplex.eng s1) (Singleplex.eng s) -> framed s r -> framed s1 r.
Proof. intros H1 Hr ret s' t' H. etransitivity; [exact H1|]. by eapply Hr. Qed.

Lemma framed_bind s r ret' :
  framed s r -> framed s ('(_, s', t') ← r; Some (ret' : Z, s', t')).
Proof. intros Hr ret s' t' H. destruct r as [[[ret1 s1] t1]|]; simplify_eq/=. by eapply Hr. Qed.

Lemma flush_next_frame rec s t :
  (forall s t, framed s (rec s t)) -> framed s (singleplex_flush_next rec s t).
Proof.
  intros Hrec. unfold singleplex_flush_next. set (s1 := match in_progress s with [] => s | _ => _ end).
  assert (H1 : Singleplex.eng s1 = Singleplex.eng s) by (unfold s1; by destruct (in_progress s)).
  destruct (pending s1); [intros ret s' t' [= <- <- <-]; by rewrite H1|].
  eapply framed_step; [|apply Hrec]. by rewrite H1.
Qed.

Lemma queue_flush_frame threaded rec task s t :
  (forall s t, framed s (rec s t)) -> framed s (output_task_flush threaded rec task s t).
Proof.
  intros Hrec. unfold output_task_flush. destruct (next_outcome t) as [o t1].
  set (s2 := Singleplex.set_eng _ (Singleplex.set_eng _ s)).
  assert (H2 : engine_equiv (Singleplex.eng s) (Singleplex.eng s2)) by (simpl; equiv_steps).
  assert (Hn : forall r, framed s ('(_, s', t') ← singleplex_flush_next rec s2 t1; Some (r : Z, s', t'))).
  { intros r. apply framed_bind. eapply framed_step; [exact H2|]. by apply flush_next_frame. }
  destruct threaded, o; auto; intros ret s' t' [= <- <- <-]; simpl; equiv_steps.
Qed.

Lemma flush_one_frame threaded fuel s t :
  framed s (flb_output_task_queue_flush_one threaded fuel s t).
Proof.
  revert s t. induction fuel as [|fuel IH]; intros s t; [done|]. simpl.
  destruct (pending s) as [|q rest]; [by intros ret s' t' [= <- <- <-]|].
  set (s1 := Singleplex.set_eng _ _). intros ret s' t'.
  assert (H1 : engine_equiv (Singleplex.eng s) (Singleplex.eng s1)) by (simpl; equiv_steps).
  destruct (output_task_flush threaded _ (q_task q) s1 t) as [[[ret2 s2] t2]|] eqn:E2; [|done].
  apply queue_flush_frame in E2; [|done]. simpl.
  destruct (ret2 =? -1); [|intros [= <- <- <-]; equiv_steps].
  destruct (q_retry q) as [r|]; apply framed_bind;
    (eapply framed_step; [|apply flush_next_frame, IH]; simpl; equiv_steps).
Qed.

#[export] Instance queue_sink_ok threaded : TaskSink (queue_sink threaded).
Proof.
  split; intros task retry s t m; unfold queue_sink; [apply enqueue_returns|].
  intros ret s' t' m'. unfold flb_output_task_singleplex_enqueue, flb_output_task_queue_enqueue.
  destruct (flb_malloc m) as [[] m1]; cbn [Z.eqb in_progress set_lists fresh_node].
  - destruct (in_progress _); [|intros [= <- <- <- <-]; simpl; equiv_steps].
    destruct (flb_output_task_queue_flush_one threaded _ _ _) as [[[ret1 s1] t1]|] eqn:E; [|done].
    apply flush_one_frame in E. intros [= <- <- <- <-]. simpl in E. equiv_steps.
  - destruct retry; intros [= <- <- <- <-]; simpl; equiv_steps.
Qed.

#[export] Instance output_sink_ok o : TaskSink (output_sink o).
Proof. unfold output_sink. destruct (Task.o_sync o); apply _. Qed.

(** ** Creation of a task, whatever memory there is *)

Lemma destroy_in_tasks task del w k :
  Task.tasks w !! task = Some k ->
  Task.in_tasks (Task.flb_task_destroy task del w) =
  alter (filter (λ x : nat, x <> task)) (Task.i_ins k) (Task.in_tasks w).
Proof.
  intros Hk. unfold Task.flb_task_destroy. rewrite Hk. simpl.
  match goal with |- Task.in_tasks (foldl _ ?w0 _) = _ => set (w1 := w0) end.
  change (alter _ _ _) with (Task.in_tasks w1). clearbody w1. revert w1.
  induction (Task.retries k) as [|r l IH]; intros w1; simpl; [done|]. by rewrite IH.
Qed.

Lemma map_get_same w t r w' t' :
  Task.map_get_task_id w t = (r, w', t') ->
  Task.tasks w' = Task.tasks w /\ Task.in_tasks w' = Task.in_tasks w /\
  Task.outputs w' = Task.outputs w /\ Task.next_addr w' = Task.next_addr w /\
  Task.effects w' = Task.effects w.
Proof.
  unfold Task.map_get_task_id, Task.flb_config_task_map_grow, Task.flb_config_task_map_resize.
  destruct (Nat.ltb _ _); [by intros [= <- <- <-]|].
  destruct (Task.FLB_CONFIG_DEFAULT_TASK_MAP_SIZE_LIMIT <=? _); [by intros [= <- <- <-]|].
  destruct (_ =? Z.of_nat _); [by intros [= <- <- <-]|].
  destruct (_ =? 0); [by intros [= <- <- <-]|].
  destruct (flb_malloc t) as [[] t1]; by intros [= <- <- <-].
Qed.

Lemma direct_routes_outs junk direct t l t' :
  Task.direct_routes junk direct t = (Some l, t') -> map Task.rt_out l = direct.
Proof.
  revert t l t'. induction direct as [|out rest IH]; intros t l t'; simpl; [by intros [= <- <-]|].
  destruct (flb_malloc t) as [[] t1]; simpl; [|done].
  destruct (Task.direct_routes junk rest t1) as [[l1|] t2] eqn:E; simpl; [|done].
  intros [= <- <-]. simpl. f_equal. by eapply IH.
Qed.

Lemma mask_routes_outs takes i outs t l t' :
  Task.mask_routes takes i outs t = (l, t') ->
  Forall (λ r, (Task.rt_out r < i + length outs)%nat /\ takes (Task.rt_out r) = true) l.
Proof.
  revert i t l t'. induction outs as [|o outs IH]; intros i t l t'; simpl; [by intros [= <- <-]|].
  assert (Hup : forall l, Forall (λ r, (Task.rt_out r < S i + length outs)%nat /\ takes (Task.rt_out r) = true) l ->
    Forall (λ r, (Task.rt_out r < i + S (length outs))%nat /\ takes (Task.rt_out r) = true) l).
  { intros l0 H. eapply Forall_impl; [exact H|]. intros r [H1 H2]. split; [lia|done]. }
  destruct (takes i) eqn:Ei; [|intros H; by eapply Hup, IH].
  destruct (flb_malloc t) as [ok t1]. destruct (Task.mask_routes takes (S i) outs t1) as [l1 t2] eqn:E.
  apply IH, Hup in E. intros [= <- <-]. destruct ok; [|done]. constructor; [|done]. simpl. split; [lia|done].
Qed.

Definition tasks_of (w : Task.engine) (inp : nat) : list nat := default [] (Task.in_tasks w !! inp).

(** A task that exists is older than the next address. *)
Definition fresh_next (w : Task.engine) : Prop :=
  (forall a k, Task.tasks w !! a = Some k -> (a < Task.next_addr w)%nat) /\
  (forall inp, Task.next_addr w ∉ tasks_of w inp).

(** The state with the new task [a] taken out again. *)
Lemma destroy_new a k inp w w1 :
  fresh_next w -> a = Task.next_addr w ->
  Task.tasks w1 = <[a := k]> (Task.tasks w) -> Task.retries k = [] -> Task.i_ins k = inp ->
  Task.in_tasks w1 = alter (λ l, l ++ [a]) inp (Task.in_tasks w) ->
  let w2 := Task.flb_task_destroy a true w1 in
  Task.tasks w2 = Task.tasks w /\ Task.in_tasks w2 = Task.in_tasks w /\
  Task.outputs w2 = Task.outputs w1 /\ Task.next_addr w2 = Task.next_addr w1.
Proof.
  intros [Hf Hl] -> Ht Hr Hi Hin w2.
  assert (Hk : Task.tasks w1 !! Task.next_addr w = Some k) by (rewrite Ht; apply lookup_insert_eq).
  destruct (Task.destroy_spec _ w1 k Hk Hr) as (D1 & _ & _ & D4 & D5).
  unfold w2. rewrite D1, (destroy_in_tasks _ _ _ _ Hk), D4, D5, Ht, Hin, Hi. split_and!; try done.
  - apply delete_insert_id. destruct (Task.tasks w !! Task.next_addr w) as [k0|] eqn:E; [|done].
    apply Hf in E. lia.
  - apply list_eq. intros j. destruct (decide (j = inp)) as [->|Hne].
    + rewrite !list_lookup_alter_eq. destruct (Task.in_tasks w !! inp) as [l|] eqn:E; [|done]. simpl.
      f_equal. specialize (Hl inp). unfold tasks_of in Hl. rewrite E in Hl. simpl in Hl.
      rewrite filter_app, filter_cons_False, filter_nil, app_nil_r by auto.
      by apply filter_ne_notin.
    + by rewrite !list_lookup_alter_ne.
Qed.

(** A task is created, or everything but the task map is as before. *)
Definition created_ok (c : Task.task_chunk) (direct : list nat) (w : Task.engine) (r : option nat)
    (w' : Task.engine) : Prop :=
  Task.outputs w' = Task.outputs w /\ (Task.next_addr w <= Task.next_addr w')%nat /\
  match r with
  | Some a =>
      a = Task.next_addr w /\ (a < Task.next_addr w')%nat /\
      Task.in_tasks w' = alter (λ l, l ++ [a]) (Task.c_input c) (Task.in_tasks w) /\
      exists k, Task.tasks w' = <[a := k]> (Task.tasks w) /\ Task.ic k = Task.c_addr c /\
        Task.i_ins k = Task.c_input c /\
        Forall (λ r, Task.rt_out r ∈ direct \/ (Task.rt_out r < length (Task.outputs w))%nat) (Task.routes k)
  | None => Task.tasks w' = Task.tasks w /\ Task.in_tasks w' = Task.in_tasks w
  end.

Lemma created_none c direct w w' :
  Task.outputs w' = Task.outputs w -> (Task.next_addr w <= Task.next_addr w')%nat ->
  Task.tasks w' = Task.tasks w -> Task.in_tasks w' = Task.in_tasks w ->
  created_ok c direct w None w'.
Proof. unfold created_ok. auto. Qed.

Lemma task_create_spec ref c junk direct takes w t r err w' t' :
  fresh_next w -> Task.flb_task_create ref c junk direct takes w t = (r, err, w', t') ->
  created_ok c direct w r w'.
Proof.
  intros Hfresh. unfold Task.flb_task_create, Task.task_alloc.
  destruct (flb_malloc t) as [[] t1]; cbn [negb]; [|intros [= <- <- <- <-]; by apply created_none].
  destruct (Task.map_get_task_id w t1) as [[[id|] w1] t2] eqn:Eg;
    apply map_get_same in Eg as (G1 & G2 & G3 & G4 & _);
    [|intros [= <- <- <- <-]; apply created_none; (done || lia)].
  rewrite G1, G4.
  destruct (Task.flb_event_chunk_create t2) as [[] t3]; cbn [negb].
  2:{ intros [= <- <- <- <-]. apply created_none; simpl; [done|lia| |done].
      apply delete_insert_id. destruct (Task.tasks w !! Task.next_addr w) as [k0|] eqn:E; [|done].
      apply Hfresh in E. lia. }
  match goal with |- context [Task.set_in_tasks ?l ?x] => set (w2 := Task.set_in_tasks l x) end.
  assert (H2 : exists k, Task.tasks w2 = <[Task.next_addr w := k]> (Task.tasks w) /\ Task.ic k = Task.c_addr c /\
     Task.i_ins k = Task.c_input c /\ Task.retries k = [] /\ Task.outputs w2 = Task.outputs w /\
     Task.next_addr w2 = S (Task.next_addr w) /\
     Task.in_tasks w2 = alter (λ l, l ++ [Task.next_addr w]) (Task.c_input c) (Task.in_tasks w)).
  { eexists. unfold w2. simpl. rewrite G2, G4.
    erewrite alter_Some by apply lookup_insert_eq. rewrite insert_insert_eq. done. }
  destruct H2 as (k & T2 & K1 & K2 & K3 & O2 & N2 & I2). clearbody w2.
  assert (Hset : forall l, let w3 := Task.update_task (Task.next_addr w) (Task.set_routes l) w2 in
    Task.tasks w3 = <[Task.next_addr w := Task.set_routes l k]> (Task.tasks w)).
  { intros l. simpl. rewrite T2, (alter_Some _ _ _ k), insert_insert_eq by apply lookup_insert_eq. done. }
  assert (Hdone : forall l,
    Forall (λ r, Task.rt_out r ∈ direct \/ (Task.rt_out r < length (Task.outputs w))%nat) l ->
    created_ok c direct w (Some (Task.next_addr w))
      (Task.update_task (Task.next_addr w) (Task.set_routes l) w2)).
  { intros l Hl. unfold created_ok. rewrite Hset. simpl. rewrite O2, N2.
    split_and!; [done|lia|done|lia|done|]. by exists (Task.set_routes l k). }
  destruct direct as [|d direct].
  - rewrite O2. destruct (Task.mask_routes takes 0 (Task.outputs w) t3) as [l t4] eqn:Em.
    apply mask_routes_outs in Em. simpl in Em.
    destruct l as [|x l].
    + intros [= <- <- <- <-].
      destruct (destroy_new _ _ _ w _ Hfresh eq_refl (Hset []) K3 K2 I2) as (D1 & D2 & D3 & D4).
      apply created_none; [by rewrite D3|rewrite D4; simpl; lia|done..].
    + intros [= <- <- <- <-]. apply Hdone. eapply Forall_impl; [exact Em|]. naive_solver.
  - destruct (Task.direct_routes junk (d :: direct) t3) as [[l|] t4] eqn:Ed.
    + intros [= <- <- <- <-]. apply direct_routes_outs in Ed. apply Hdone.
      apply Forall_forall. intros x Hx. left. rewrite <- Ed. apply elem_of_map. eauto.
    + intros [= <- <- <- <-].
      destruct (destroy_new _ _ _ w _ Hfresh eq_refl T2 K3 K2 I2) as (D1 & D2 & D3 & D4).
      apply created_none; [by rewrite D3|rewrite D4; lia|done..].
Qed.

(** ** The invariant: a chunk is busy exactly when one task carries it *)

Record inv_on (w : Task.engine) (ch : nat -> list dchunk) : Prop := {
  io_fresh : forall a k, Task.tasks w !! a = Some k -> (a < Task.next_addr w)%nat;
  io_listed : forall inp a, a ∈ tasks_of w inp <-> exists k, Task.tasks w !! a = Some k /\ Task.i_ins k = inp;
  io_once : forall inp, NoDup (tasks_of w inp);
  io_addr : forall inp, NoDup (map dc_addr (ch inp));
  io_apart : forall i j c d, c ∈ ch i -> d ∈ ch j -> dc_addr c = dc_addr d -> i = j;
  io_task : forall a k, Task.tasks w !! a = Some k ->
    exists c, c ∈ ch (Task.i_ins k) /\ dc_addr c = Task.ic k /\ dc_busy c = true;
  io_busy : forall i c, c ∈ ch i -> dc_busy c = true ->
    exists a k, Task.tasks w !! a = Some k /\ Task.ic k = dc_addr c;
  io_one : forall a b ka kb, Task.tasks w !! a = Some ka -> Task.tasks w !! b = Some kb ->
    Task.ic ka = Task.ic kb -> a = b;
  io_routes : forall a k r, Task.tasks w !! a = Some k -> r ∈ Task.routes k ->
    (Task.rt_out r < length (Task.outputs w))%nat;
}.

(** A task that may have lost routes. *)
Record shrunk (k k' : Task.flb_task) : Prop := {
  sh_ic : Task.ic k' = Task.ic k;
  sh_in : Task.i_ins k' = Task.i_ins k;
  sh_routes : Task.routes k' ⊆ Task.routes k;
}.

#[export] Instance shrunk_preorder : PreOrder shrunk.
Proof.
  split; [by split|]. intros k1 k2 k3 [] []. split; [congruence..|]. etransitivity; eassumption.
Qed.

Definition tasks_shrunk (w w' : Task.engine) : Prop :=
  forall a, option_Forall2 shrunk (Task.tasks w !! a) (Task.tasks w' !! a).

#[export] Instance tasks_shrunk_preorder : PreOrder tasks_shrunk.
Proof.
  split; [intros w a; reflexivity|]. intros w1 w2 w3 H1 H2 a. etransitivity; [apply H1|apply H2].
Qed.

Lemma update_shrunk a f w :
  (forall k, shrunk k (f k)) -> tasks_shrunk w (Task.update_task a f w).
Proof.
  intros Hf b. simpl. destruct (decide (b = a)) as [->|Hne].
  - rewrite lookup_alter_eq. destruct (Task.tasks w !! a); constructor. auto.
  - by rewrite lookup_alter_ne.
Qed.

Lemma equiv_shrunk w w' : engine_equiv w w' -> tasks_shrunk w w'.
Proof.
  intros He a. pose proof (ee_tasks _ _ He a) as H.
  destruct (Task.tasks w' !! a) as [k'|], (Task.tasks w !! a) as [k|]; try done; constructor.
  assert (Hc : core k' = core k) by exact (f_equal (default (core k)) H).
  split; [exact (f_equal Task.ic Hc)|exact (f_equal Task.i_ins Hc)|].
  by rewrite (f_equal Task.routes Hc : Task.routes k' = Task.routes k).
Qed.

(** What the tasks carry, and where they go at most, decides the invariant. *)
Lemma inv_shrunk w w' ch :
  tasks_shrunk w w' ->
  Task.in_tasks w' = Task.in_tasks w -> length (Task.outputs w') = length (Task.outputs w) ->
  (Task.next_addr w <= Task.next_addr w')%nat -> inv_on w ch -> inv_on w' ch.
Proof.
  intros Ht Hi Ho Hn [A1 A2 A3 A4 A5 A6 A7 A8 A9].
  assert (Hback : forall a k', Task.tasks w' !! a = Some k' ->
            exists k, Task.tasks w !! a = Some k /\ shrunk k k').
  { intros a k' Hk. specialize (Ht a). rewrite Hk in Ht. inversion Ht; subst. eauto. }
  assert (Hforth : forall a k, Task.tasks w !! a = Some k ->
            exists k', Task.tasks w' !! a = Some k' /\ shrunk k k').
  { intros a k Hk. specialize (Ht a). rewrite Hk in Ht. inversion Ht; subst. eauto. }
  unfold tasks_of in *. split; unfold tasks_of; rewrite ?Hi, ?Ho; try done.
  - intros a k' (k & Hk & _)%Hback. specialize (A1 a k Hk). lia.
  - intros inp a. rewrite A2. split; [intros (k & Hk & Hin)|intros (k' & Hk & Hin)].
    + destruct (Hforth a k Hk) as (k' & Hk' & []). exists k'. split; congruence.
    + destruct (Hback a k' Hk) as (k & Hk0 & []). exists k. split; congruence.
  - intros a k' (k & Hk & [-> -> _])%Hback. eauto.
  - intros i c Hc Hb. destruct (A7 i c Hc Hb) as (a & k & Hk & Heq).
    destruct (Hforth a k Hk) as (k' & Hk' & [? _ _]). exists a, k'. split; congruence.
  - intros a b ka kb (ka' & Ha & [-> _ _])%Hback (kb' & Hb & [-> _ _])%Hback. eauto.
  - intros a k' r (k & Hk & [_ _ Hsub])%Hback Hr. apply Hsub in Hr. eauto.
Qed.

#[export] Instance inv_on_proper : Proper (engine_equiv ==> pointwise_relation nat eq ==> iff) inv_on.
Proof.
  assert (Hone : forall w w' ch ch', engine_equiv w w' -> pointwise_relation nat eq ch ch' ->
            inv_on w ch -> inv_on w' ch').
  { intros w w' ch ch' He Hc Hi. apply (inv_shrunk w w') in Hi;
      [|by apply equiv_shrunk|apply He|by rewrite (ee_outs _ _ He)|rewrite (ee_next _ _ He); lia].
    destruct Hi as [A1 A2 A3 A4 A5 A6 A7 A8 A9]. unfold pointwise_relation in Hc.
    split; try done; setoid_rewrite <- Hc; done. }
  intros w w' He ch ch' Hc. split; apply Hone; done.
Qed.

Definition upd (ch : nat -> list dchunk) (inp : nat) (l : list dchunk) : nat -> list dchunk :=
  λ j, if decide (j = inp) then l else ch j.

Definition absent (addr : nat) (ch : nat -> list dchunk) : Prop :=
  forall i d, d ∈ ch i -> dc_addr d <> addr.

Lemma upd_eq ch inp l : upd ch inp l inp = l.
Proof. unfold upd. by rewrite decide_True. Qed.

Lemma elem_of_upd ch inp l i d :
  d ∈ upd ch inp l i <-> (i = inp /\ d ∈ l) \/ (i <> inp /\ d ∈ ch i).
Proof. unfold upd. case_decide; naive_solver. Qed.

(** A chunk that is not busy can be taken out. *)
Lemma inv_drop w ch inp l1 c l2 :
  inv_on w (upd ch inp (l1 ++ c :: l2)) -> dc_busy c = false ->
  inv_on w (upd ch inp (l1 ++ l2)) /\ absent (dc_addr c) (upd ch inp (l1 ++ l2)).
Proof.
  intros [A1 A2 A3 A4 A5 A6 A7 A8 A9] Hb.
  assert (Hsub : forall i d, d ∈ upd ch inp (l1 ++ l2) i -> d ∈ upd ch inp (l1 ++ c :: l2) i).
  { intros i d. rewrite !elem_of_upd. set_solver. }
  assert (Hadd : forall i d, d ∈ upd ch inp (l1 ++ c :: l2) i -> d = c \/ d ∈ upd ch inp (l1 ++ l2) i).
  { intros i d. rewrite !elem_of_upd. set_solver. }
  assert (Hnd : NoDup (dc_addr c :: map dc_addr (l1 ++ l2))).
  { specialize (A4 inp). rewrite upd_eq in A4. rewrite !map_app in *. simpl in A4.
    by rewrite (Permutation_middle (map dc_addr l1)). }
  apply NoDup_cons in Hnd as [Hc Hnd]. split; [split|]; try done.
  - intros j. unfold upd. case_decide as Hj; [done|]. specialize (A4 j). unfold upd in A4.
    by rewrite decide_False in A4.
  - intros i j d e Hd He. apply A5; auto.
  - intros a k Hk. destruct (A6 a k Hk) as (d & Hd & Heq & Hbd). exists d. split; [|done].
    apply Hadd in Hd as [->|]; [congruence|done].
  - intros i d Hd. eauto.
  - intros i d Hd Heq. assert (i = inp) as ->.
    { apply (A5 i inp d c); [auto|rewrite elem_of_upd; set_solver|done]. }
    rewrite upd_eq in Hd. apply Hc. rewrite <- Heq. apply elem_of_map. eauto.
Qed.

Lemma add_chunk_apart ch inp l1 c l2 :
  (forall j, NoDup (map dc_addr (upd ch inp (l1 ++ l2) j))) ->
  (forall i j d e, d ∈ upd ch inp (l1 ++ l2) i -> e ∈ upd ch inp (l1 ++ l2) j -> dc_addr d = dc_addr e -> i = j) ->
  absent (dc_addr c) (upd ch inp (l1 ++ l2)) ->
  (forall j, NoDup (map dc_addr (upd ch inp (l1 ++ c :: l2) j))) /\
  (forall i j d e, d ∈ upd ch inp (l1 ++ c :: l2) i -> e ∈ upd ch inp (l1 ++ c :: l2) j -> dc_addr d = dc_addr e -> i = j) /\
  (forall i d, d ∈ upd ch inp (l1 ++ c :: l2) i <-> (i = inp /\ d = c) \/ d ∈ upd ch inp (l1 ++ l2) i).
Proof.
  intros H1 H2 H3.
  assert (Hm : forall i d, d ∈ upd ch inp (l1 ++ c :: l2) i <-> (i = inp /\ d = c) \/ d ∈ upd ch inp (l1 ++ l2) i).
  { intros i d. rewrite !elem_of_upd. set_solver. }
  split_and!; [| |done].
  - intros j. specialize (H1 j). unfold upd in *. case_decide as Hj; [|done]. subst j.
    rewrite !map_app in *. simpl. rewrite <- Permutation_middle. apply NoDup_cons. split; [|done].
    rewrite <- map_app. intros (d & Hd & Hin)%elem_of_map.
    apply (H3 inp d); [|done]. by rewrite decide_True.
  - intros i j d e [[-> ->]|Hd]%Hm [[-> ->]|He]%Hm Heq; [done| | |by eapply H2].
    + exfalso. by apply (H3 j e).
    + exfalso. by apply (H3 i d).
Qed.

Lemma inv_add_idle w ch inp l1 c l2 :
  inv_on w (upd ch inp (l1 ++ l2)) -> absent (dc_addr c) (upd ch inp (l1 ++ l2)) ->
  dc_busy c = false -> inv_on w (upd ch inp (l1 ++ c :: l2)).
Proof.
  intros [A1 A2 A3 A4 A5 A6 A7 A8 A9] Hab Hb.
  destruct (add_chunk_apart _ _ _ _ _ A4 A5 Hab) as (B4 & B5 & Hm). split; try done.
  - intros a k Hk. destruct (A6 a k Hk) as (d & Hd & Heq). exists d. rewrite Hm. auto.
  - intros i d [[-> ->]|Hd]%Hm Hbd; [congruence|eauto].
Qed.

(** A chunk and the new task that carries it. *)
Lemma inv_add_task w w' ch inp l1 c l2 k :
  inv_on w (upd ch inp (l1 ++ l2)) -> absent (dc_addr c) (upd ch inp (l1 ++ l2)) ->
  dc_busy c = true -> (inp < length (Task.in_tasks w))%nat ->
  (Task.next_addr w < Task.next_addr w')%nat -> Task.outputs w' = Task.outputs w ->
  Task.in_tasks w' = alter (λ l, l ++ [Task.next_addr w]) inp (Task.in_tasks w) ->
  Task.tasks w' = <[Task.next_addr w := k]> (Task.tasks w) ->
  Task.ic k = dc_addr c -> Task.i_ins k = inp ->
  Forall (λ r, (Task.rt_out r < length (Task.outputs w))%nat) (Task.routes k) ->
  inv_on w' (upd ch inp (l1 ++ c :: l2)).
Proof.
  intros [A1 A2 A3 A4 A5 A6 A7 A8 A9] Hab Hb Hlen Hn Ho Hi Ht Hic Hin Hr.
  destruct (add_chunk_apart _ _ _ _ _ A4 A5 Hab) as (B4 & B5 & Hm).
  assert (Hlook : forall a k', Task.tasks w' !! a = Some k' <->
            (a = Task.next_addr w /\ k' = k) \/ (a <> Task.next_addr w /\ Task.tasks w !! a = Some k')).
  { intros a k'. rewrite Ht, lookup_insert_Some. naive_solver. }
  assert (Hold : forall a k', Task.tasks w !! a = Some k' -> a <> Task.next_addr w).
  { intros a k' Hk ->. apply A1 in Hk. lia. }
  assert (Hno : forall a k', Task.tasks w !! a = Some k' -> Task.ic k' <> Task.ic k).
  { intros a k' Hk Heq. destruct (A6 a k' Hk) as (d & Hd & Hda & _). apply (Hab _ d Hd). congruence. }
  assert (Htl : forall j, tasks_of w' j = if decide (j = inp) then tasks_of w j ++ [Task.next_addr w] else tasks_of w j).
  { intros j. unfold tasks_of. rewrite Hi. case_decide as Hj; [|by rewrite list_lookup_alter_ne].
    subst j. rewrite list_lookup_alter_eq. destruct (lookup_lt_is_Some_2 _ _ Hlen) as [l ->]. done. }
  split; rewrite ?Ho; try done.
  - intros a k' [[-> ->]|[_ Hk]]%Hlook; [done|]. specialize (A1 a k' Hk). lia.
  - intros j a. rewrite Htl. setoid_rewrite Hlook. pose proof (A2 j a) as HA.
    case_decide as Hj; rewrite ?elem_of_app, ?list_elem_of_singleton, HA; naive_solver.
  - intros j. rewrite Htl. case_decide; [|done]. apply NoDup_app. split_and!; [done| |apply NoDup_singleton].
    intros a (k' & Hk & _)%A2 ->%list_elem_of_singleton. by apply (Hold _ _ Hk).
  - intros a k' [[-> ->]|[_ Hk]]%Hlook.
    + exists c. rewrite Hm. split_and!; [by left|done..].
    + destruct (A6 a k' Hk) as (d & Hd & Heq). exists d. rewrite Hm. auto.
  - intros i d [[-> ->]|Hd]%Hm Hbd.
    + exists (Task.next_addr w), k. rewrite Hlook. auto.
    + destruct (A7 i d Hd Hbd) as (a & k' & Hk & Heq). exists a, k'. rewrite Hlook. eauto 6.
  - intros a b ka kb [[-> ->]|[_ Ha]]%Hlook [[-> ->]|[_ Hb']]%Hlook Heq; [done| | |eauto].
    + by destruct (Hno b kb Hb').
    + by destruct (Hno a ka Ha).
  - intros a k' r [[-> ->]|[_ Hk]]%Hlook Hin'; [|eauto]. rewrite Forall_forall in Hr. auto.
Qed.

(** A task and the chunk it carries are taken out. *)
Lemma inv_remove_task w w' ch a k :
  inv_on w ch -> Task.tasks w !! a = Some k -> Task.tasks w' = delete a (Task.tasks w) ->
  Task.in_tasks w' = alter (filter (λ x : nat, x <> a)) (Task.i_ins k) (Task.in_tasks w) ->
  Task.outputs w' = Task.outputs w -> Task.next_addr w' = Task.next_addr w ->
  inv_on w' (upd ch (Task.i_ins k) (filter (λ c, dc_addr c <> Task.ic k) (ch (Task.i_ins k)))).
Proof.
  intros [A1 A2 A3 A4 A5 A6 A7 A8 A9] Hk Ht Hi Ho Hn.
  set (ch' := upd _ _ _).
  assert (Hm : forall i d, d ∈ ch' i <-> d ∈ ch i /\ ~ (i = Task.i_ins k /\ dc_addr d = Task.ic k)).
  { intros i d. unfold ch'. rewrite elem_of_upd, list_elem_of_filter.
    destruct (decide (i = Task.i_ins k)) as [->|]; naive_solver. }
  assert (Hlook : forall b kb, Task.tasks w' !! b = Some kb <-> b <> a /\ Task.tasks w !! b = Some kb).
  { intros b kb. rewrite Ht, lookup_delete_Some. naive_solver. }
  assert (Htl : forall j, tasks_of w' j = if decide (j = Task.i_ins k) then filter (λ x, x <> a) (tasks_of w j) else tasks_of w j).
  { intros j. unfold tasks_of. rewrite Hi. case_decide as Hj; [|by rewrite list_lookup_alter_ne].
    subst j. rewrite list_lookup_alter_eq. by destruct (Task.in_tasks w !! Task.i_ins k). }
  split; rewrite ?Ho, ?Hn.
  - intros b kb [_ Hb]%Hlook. eauto.
  - intros j b. rewrite Htl. setoid_rewrite Hlook. pose proof (A2 j b) as HA.
    case_decide as Hj; rewrite ?list_elem_of_filter, HA; naive_solver.
  - intros j. rewrite Htl. case_decide; [by apply NoDup_filter|done].
  - intros j. unfold ch', upd. case_decide as Hj; [subst j; by apply Task.filter_map_NoDup|done].
  - intros i j c d [Hc _]%Hm [Hd _]%Hm. eauto.
  - intros b kb [Hne Hb]%Hlook. destruct (A6 b kb Hb) as (d & Hd & Heq & Hbd).
    exists d. rewrite Hm. split_and!; [done| |done..]. intros [_ H]. apply Hne. eapply A8; eauto. congruence.
  - intros i c [Hc Hno]%Hm Hb. destruct (A7 i c Hc Hb) as (b & kb & Hb' & Heq).
    exists b, kb. rewrite Hlook. split_and!; [|done..]. intros ->. assert (kb = k) as -> by congruence.
    apply Hno. split; [|done]. destruct (A6 a k Hk) as (d & Hd & Hda & _).
    apply (A5 i (Task.i_ins k) c d); [done..|congruence].
  - intros b b' kb kb' [_ Hb]%Hlook [_ Hb']%Hlook. eauto.
  - intros b kb r [_ Hb]%Hlook. eauto.
Qed.

(** ** New chunks keep it *)

Lemma chunk_flush_facts c size buf n c' rc :
  flb_input_chunk_flush c size = (buf, n, c', rc) ->
  dc_addr c' = dc_addr c /\ dc_tag c' = dc_tag c /\ dc_type c' = dc_type c /\ dc_mask c' = dc_mask c /\
  (buf = true -> dc_busy c' = true).
Proof.
  unfold flb_input_chunk_flush, flb_input_chunk_set_up.
  destruct (dc_up c), (dc_up_ret c =? 0), (dc_up_ret c =? -1); simpl;
    destruct (dc_content c) as [| |sz df]; simpl; by intros [= <- <- <- <-].
Qed.

Lemma unlock_facts c :
  let c' := snd (flb_input_chunk_release_lock c) in dc_addr c' = dc_addr c /\ dc_busy c' = false.
Proof. unfold flb_input_chunk_release_lock. by destruct (dc_busy c) eqn:E. Qed.

Lemma down_facts c :
  let c' := flb_input_chunk_down c in dc_addr c' = dc_addr c /\ dc_busy c' = dc_busy c.
Proof. unfold flb_input_chunk_down. by destruct (_ && _). Qed.

(** The parts of the state that dispatching chunks does not touch. *)
Record same_conf (s s' : dispatcher) : Prop := {
  sc_inputs : inputs s' = inputs s;
  sc_queues : queues s' = queues s;
  sc_flags : flags s' = flags s;
  sc_outs : Task.outputs (eng s') = Task.outputs (eng s);
  sc_len : length (Task.in_tasks (eng s')) = length (Task.in_tasks (eng s));
}.

#[export] Instance same_conf_preorder : PreOrder same_conf.
Proof. split; [by split|]. intros s1 s2 s3 [] []. split; congruence. Qed.

Lemma log_all s rc :
  let s' := foldl (λ s e, log e s) s rc in
  same_conf s s' /\ eng s' = eng s /\ mem s' = mem s /\ calls s' = calls s ++ rc.
Proof.
  revert s. induction rc as [|e rc IH]; intros s; simpl; [by rewrite app_nil_r|].
  destruct (IH (log e s)) as (H1 & -> & -> & ->). simpl. rewrite <- app_assoc.
  split_and!; try done. etransitivity; [|exact H1]. by split.
Qed.

Lemma inv_fresh w ch : inv_on w ch -> fresh_next w.
Proof.
  intros Hi. split; [apply Hi|]. intros inp (k & Hk & _)%(io_listed _ _ Hi).
  apply (io_fresh _ _ Hi) in Hk. lia.
Qed.

Lemma inv_same_tasks w w' ch :
  Task.tasks w' = Task.tasks w -> Task.in_tasks w' = Task.in_tasks w ->
  Task.outputs w' = Task.outputs w -> (Task.next_addr w <= Task.next_addr w')%nat ->
  inv_on w ch -> inv_on w' ch.
Proof.
  intros Ht Hi Ho Hn. apply inv_shrunk; try congruence. intros a. by rewrite Ht.
Qed.

Section Chunks.
Context {regex : Type}.
Variable mcfg : RoutesMask.mask_config.
Variable router_outs : list (Z * Routes.flb_output_instance (regex := regex)).
Variable pool_coros : nat -> list call -> Z.
Variable junk : Z.

(** The chunks of an input whose chunk [c], between [l1] and [l2], had its turn. *)
Definition after_turn (l1 : list dchunk) (c : dchunk) (l2 : list dchunk) (r : turn) : list dchunk :=
  match r with
  | T_break => l1 ++ c :: l2
  | T_keep c' => l1 ++ c' :: l2
  | T_gone => l1 ++ l2
  end.

(** The creation of a task, seen from the chunk that was taken out. *)
Lemma create_turn id inp direct c size s ch l1 l2 r err w m :
  create_task mcfg router_outs junk id inp direct c size (eng s) (mem s) = (r, err, w, m) ->
  (inp < length (Task.in_tasks (eng s)))%nat ->
  Forall (λ o, (o < length (Task.outputs (eng s)))%nat) direct ->
  inv_on (eng s) (upd ch inp (l1 ++ l2)) -> absent (dc_addr c) (upd ch inp (l1 ++ l2)) ->
  dc_busy c = true ->
  same_conf s (set_mem m (set_engine w s)) /\
  inv_on w (upd ch inp (if r is Some _ then l1 ++ c :: l2 else l1 ++ l2)).
Proof.
  intros Ec Hlen Hdir Hd Hab Hb. apply task_create_spec in Ec as (C1 & C2 & C3); [|by eapply inv_fresh].
  destruct r as [a|].
  - destruct C3 as (-> & C4 & C5 & k & C6 & C7 & C8 & C9). simpl in C5, C7, C8. split.
    + split; simpl; try done. by rewrite C5, length_alter.
    + eapply (inv_add_task (eng s)); eauto. eapply Forall_impl; [exact C9|].
      rewrite Forall_forall in Hdir. intros r [Hr|Hr]; auto.
  - destruct C3 as [C4 C5]. split; [split; simpl; congruence|]. by eapply inv_same_tasks; [..|exact Hd].
Qed.

Lemma dispatch_chunk_inv id inp direct c size s r size' s' ch l1 l2 :
  dispatch_chunk mcfg router_outs junk id inp direct c size s = (r, size', s') ->
  (inp < length (Task.in_tasks (eng s)))%nat ->
  Forall (λ o, (o < length (Task.outputs (eng s)))%nat) direct ->
  inv_on (eng s) (upd ch inp (l1 ++ c :: l2)) ->
  inv_on (eng s') (upd ch inp (after_turn l1 c l2 r)) /\ same_conf s s'.
Proof.
  unfold dispatch_chunk. intros Heq Hlen Hdir Hinv.
  destruct (dc_busy c) eqn:Hb; [by simplify_eq|].
  destruct (Task.flb_task_map_get_task_id (eng s) (mem s)) as [[slot w1] m1] eqn:Eg.
  apply map_get_same in Eg as (G1 & G2 & G3 & G4 & _).
  assert (Hs1 : same_conf s (set_mem m1 (set_engine w1 s))) by (split; simpl; congruence).
  assert (Hi1 : inv_on w1 (upd ch inp (l1 ++ c :: l2)))
    by (eapply inv_same_tasks; [..|exact Hinv]; try done; lia).
  destruct slot as [sl|]; [|by simplify_eq].
  destruct (inv_drop _ _ _ _ _ _ Hi1 Hb) as [Hd Hab].
  destruct (flb_input_chunk_flush c size) as [[[buf n] c1] rc] eqn:Ef.
  apply chunk_flush_facts in Ef as (Fa & _ & _ & _ & Fb). rewrite <- Fa in Hab.
  destruct (log_all (set_mem m1 (set_engine w1 s)) rc) as (Hs2 & He2 & Hm2 & _).
  set (s2 := foldl _ _ rc) in *. clearbody s2. simpl in He2, Hm2.
  assert (Hs : same_conf s s2) by (by etransitivity).
  rewrite <- He2 in Hd. destruct (unlock_facts c1) as [Ua Ub].
  assert (Hidle : forall c2 w, dc_addr c2 = dc_addr c1 -> dc_busy c2 = false ->
            inv_on w (upd ch inp (l1 ++ l2)) -> inv_on w (upd ch inp (l1 ++ c2 :: l2))).
  { intros c2 w Ha2 Hb2 H3. apply inv_add_idle; [done| |done]. by rewrite Ha2. }
  specialize (Hidle _ (eng s2) Ua Ub Hd) as Hun.
  destruct (n =? 0); [by simplify_eq|]. destruct buf; cbn [negb] in Heq; [|by simplify_eq].
  destruct (dc_tag c1) as [len|]; [|by simplify_eq]. destruct (len <=? 0); [by simplify_eq|].
  destruct (create_task _ _ _ id inp direct c1 n (eng s2) (mem s2)) as [[[task err] w3] m3] eqn:Ec.
  eapply (create_turn _ _ _ _ _ _ ch l1 l2) in Ec as [Hs3 Hi3];
    [|by rewrite (sc_len _ _ Hs)|by rewrite (sc_outs _ _ Hs)|done..|auto].
  destruct task; [simplify_eq; split; [done|by etransitivity]|].
  destruct err; simplify_eq; (split; [|by etransitivity]); [|done].
  destruct (down_facts (snd (flb_input_chunk_release_lock c1))) as [Da Db].
  apply Hidle; [congruence..|done].
Qed.

Lemma dispatch_chunks_inv id inp direct l size s l' s' before ch :
  dispatch_chunks mcfg router_outs junk id inp direct l size s = (l', s') ->
  (inp < length (Task.in_tasks (eng s)))%nat ->
  Forall (λ o, (o < length (Task.outputs (eng s)))%nat) direct ->
  inv_on (eng s) (upd ch inp (before ++ l)) ->
  inv_on (eng s') (upd ch inp (before ++ l')) /\ same_conf s s'.
Proof.
  revert size s l' before. induction l as [|c rest IH]; intros size s l' before; cbn [dispatch_chunks].
  { by intros [= <- <-]. }
  destruct (dispatch_chunk _ _ _ id inp direct c size s) as [[r size1] s1] eqn:E1. intros Heq Hlen Hdir Hinv.
  apply (dispatch_chunk_inv _ _ _ _ _ _ _ _ _ ch before rest) in E1 as [Hi1 Hs1]; [|done..].
  rewrite <- (sc_len _ _ Hs1) in Hlen. rewrite <- (sc_outs _ _ Hs1) in Hdir.
  destruct r as [|c'|]; simpl in Hi1; [by simplify_eq| |].
  - destruct (dispatch_chunks _ _ _ id inp direct rest size1 s1) as [l0 s2] eqn:E0. simplify_eq.
    apply (IH _ _ _ (before ++ [c'])) in E0 as [E1 E2]; rewrite <- ?app_assoc in *; try done.
    split; [done|]. by etransitivity.
  - apply (IH _ _ _ before) in Heq as [E1 E2]; try done. split; [done|]. by etransitivity.
Qed.

(** ** Starting tasks keeps it *)

Record start_frame (s s' : dispatcher) : Prop := {
  sf_inputs : inputs s' = inputs s;
  sf_flags : flags s' = flags s;
  sf_queues : length (queues s') = length (queues s);
  sf_outs : Task.outputs (eng s') = Task.outputs (eng s);
  sf_in : Task.in_tasks (eng s') = Task.in_tasks (eng s);
  sf_next : Task.next_addr (eng s') = Task.next_addr (eng s);
  sf_tasks : tasks_shrunk (eng s) (eng s');
}.

#[local] Instance start_frame_preorder : PreOrder start_frame.
Proof.
  split; [by split|]. intros s1 s2 s3 [] []. split; try congruence. etransitivity; eassumption.
Qed.

Lemma on_task_frame task f s : (forall k, shrunk k (f k)) -> start_frame s (on_task task f s).
Proof. intros Hf. split; try done. by apply update_shrunk. Qed.

Lemma log_frame e s : start_frame s (log e s).
Proof. by split. Qed.

Lemma give_ok task out retry s :
  (out < length (Task.outputs (eng s)))%nat -> length (queues s) = length (Task.outputs (eng s)) ->
  exists ret s', give task out retry s = Some (ret, s') /\ engine_equiv (eng s) (eng s') /\
    start_frame s s' /\ calls s' = calls s ++ [D_hand task out (Task.rty_addr <$> retry)].
Proof.
  intros Ho Hq. unfold give. destruct (lookup_lt_is_Some_2 _ _ Ho) as [o ->].
  rewrite <- Hq in Ho. destruct (lookup_lt_is_Some_2 _ _ Ho) as [q ->]. simpl.
  destruct (sink_returns (g := output_sink o) task retry (Singleplex.set_eng (eng s) q) (fates s) (mem s))
    as [[[[ret q'] t'] m'] E]. rewrite E. apply sink_frame in E. simpl in E |- *.
  eexists _, _. split; [done|]. simpl. split_and!; [done| |done].
  split; simpl; try done; try apply E; [apply length_insert|by apply equiv_shrunk].
Qed.

Lemma remove_route_sub out l : remove_route out l ⊆ l.
Proof.
  induction l as [|r l IH]; simpl; [done|]. destruct (Nat.eqb _ _); set_solver.
Qed.

Lemma start_routes_frame task l retry hits s :
  length (queues s) = length (Task.outputs (eng s)) ->
  Forall (λ r, (Task.rt_out r < length (Task.outputs (eng s)))%nat) l ->
  exists hits' s', start_routes pool_coros task l retry hits s = Some (hits', s') /\ start_frame s s'.
Proof.
  revert hits s. induction l as [|r l IH]; intros hits s Hq Hl; cbn [start_routes]; [by exists hits, s|].
  apply Forall_cons in Hl as [Hr Hl].
  assert (Hgo : forall hits0 s0, start_frame s s0 ->
    exists hits' s', start_routes pool_coros task l retry hits0 s0 = Some (hits', s') /\ start_frame s s').
  { intros hits0 s0 Hf. destruct (IH hits0 s0) as (h & s' & H1 & H2).
    - by rewrite (sf_queues _ _ Hf), (sf_outs _ _ Hf).
    - by rewrite (sf_outs _ _ Hf).
    - exists h, s'. split; [done|]. by etransitivity. }
  destruct (is_test s (Task.rt_out r)).
  - apply Hgo. etransitivity; [apply log_frame|]. apply on_task_frame. intros k. split; try done.
    apply remove_route_sub.
  - destruct (held_back _ _ _ _); [by apply Hgo|].
    destruct (give_ok task (Task.rt_out r) None s Hr Hq) as (ret & s1 & -> & _ & Hf & _). by apply Hgo.
Qed.

Lemma start_tasks_frame l retry s ch :
  length (queues s) = length (Task.outputs (eng s)) -> inv_on (eng s) ch ->
  Forall (λ a, is_Some (Task.tasks (eng s) !! a)) l ->
  exists s', start_tasks pool_coros l retry s = Some s' /\ start_frame s s'.
Proof.
  revert retry s. induction l as [|a l IH]; intros retry s Hq Hi Hl; cbn [start_tasks]; [by exists s|].
  apply Forall_cons in Hl as [[k Hk] Hl]. rewrite Hk. cbn [mbind option_bind].
  assert (Hgo : forall retry0 s0, start_frame s s0 ->
    exists s', start_tasks pool_coros l retry0 s0 = Some s' /\ start_frame s s').
  { intros retry0 s0 Hf. destruct (IH retry0 s0) as (s' & H1 & H2).
    - by rewrite (sf_queues _ _ Hf), (sf_outs _ _ Hf).
    - eapply inv_shrunk; [apply Hf..| | |exact Hi]; [by rewrite (sf_outs _ _ Hf)|].
      rewrite (sf_next _ _ Hf). lia.
    - eapply Forall_impl; [exact Hl|]. intros b [kb Hb]. pose proof (sf_tasks _ _ Hf b) as H.
      rewrite Hb in H. inversion H. eauto.
    - exists s'. split; [done|]. by etransitivity. }
  destruct (negb _); [by apply Hgo|].
  set (retry1 := if Nat.eqb _ 0 then retry else _).
  set (s1 := on_task a _ s). assert (Hf1 : start_frame s s1) by (by apply on_task_frame).
  destruct (start_routes_frame a (Task.routes k) retry1 0 s1) as (h & s2 & -> & Hf2); [done| |].
  { apply Forall_forall. intros r Hr. by apply (io_routes _ _ Hi a k). }
  cbn [mbind option_bind]. apply Hgo. transitivity s1; [done|]. etransitivity; [exact Hf2|].
  destruct (h =? 0); [by apply on_task_frame|done].
Qed.

(** ** The whole dispatch *)

Definition chunks_of (s : dispatcher) (inp : nat) : list dchunk :=
  default [] (di_chunks <$> inputs s !! inp).

Record dispatch_inv (s : dispatcher) : Prop := {
  dv_on : inv_on (eng s) (chunks_of s);
  dv_inputs : length (Task.in_tasks (eng s)) = length (inputs s);
  dv_queues : length (queues s) = length (Task.outputs (eng s));
  dv_direct : forall inp i, inputs s !! inp = Some i ->
    Forall (λ o, (o < length (Task.outputs (eng s)))%nat) (di_direct i);
}.

Lemma update_chunks_of s inp f i :
  inputs s !! inp = Some i ->
  pointwise_relation nat eq (upd (chunks_of s) inp (f (chunks_of s inp))) (chunks_of (update_chunks inp f s)).
Proof.
  intros Hi j. unfold chunks_of, update_chunks, upd. simpl. case_decide as Hj.
  - subst j. by rewrite list_lookup_alter_eq, Hi.
  - by rewrite list_lookup_alter_ne.
Qed.

Lemma update_chunks_direct s inp f n :
  (forall j i, inputs s !! j = Some i -> Forall (λ o, (o < n)%nat) (di_direct i)) ->
  forall j i, inputs (update_chunks inp f s) !! j = Some i -> Forall (λ o, (o < n)%nat) (di_direct i).
Proof.
  intros H j i. simpl. destruct (decide (inp = j)) as [->|Hne].
  - rewrite list_lookup_alter_eq. destruct (inputs s !! j) as [i0|] eqn:E; [|done].
    intros [= <-]. by apply (H j i0).
  - rewrite list_lookup_alter_ne by done. apply H.
Qed.

Lemma destroy_task_inv task s k :
  dispatch_inv s -> Task.tasks (eng s) !! task = Some k -> useless k = true ->
  dispatch_inv (destroy_task task s).
Proof.
  intros [V1 V2 V3 V4] Hk Hu. unfold destroy_task. rewrite Hk.
  apply andb_prop in Hu as [[_ Hr%Nat.eqb_eq]%andb_prop _]. apply nil_length_inv in Hr.
  destruct (Task.destroy_spec task (eng s) k Hk Hr) as (D1 & _ & _ & D4 & D5).
  pose proof (destroy_in_tasks task true (eng s) k Hk) as D6.
  destruct (io_task _ _ V1 task k Hk) as (c & Hc & _).
  unfold chunks_of in Hc. destruct (inputs s !! Task.i_ins k) as [i|] eqn:Ei; [|by apply not_elem_of_nil in Hc].
  split.
  - rewrite <- (update_chunks_of (set_engine (Task.flb_task_destroy task true (eng s)) s) _ _ i) by done.
    by eapply inv_remove_task.
  - simpl. by rewrite D6, !length_alter.
  - simpl. by rewrite D4.
  - simpl. rewrite D4. by apply update_chunks_direct.
Qed.

Lemma cleanup_inv l s : dispatch_inv s -> dispatch_inv (cleanup_tasks l s).
Proof.
  unfold cleanup_tasks. revert s. induction l as [|a l IH]; intros s Hs; simpl; [done|]. apply IH.
  destruct (Task.tasks (eng s) !! a) as [k|] eqn:Hk; [|done].
  destruct (useless k) eqn:Hu; [by eapply destroy_task_inv|done].
Qed.

Lemma start_inv inp s :
  dispatch_inv s -> exists s', tasks_start pool_coros inp s = Some s' /\ dispatch_inv s' /\ start_frame s s'.
Proof.
  intros [V1 V2 V3 V4]. unfold tasks_start.
  destruct (start_tasks_frame (input_tasks inp s) 0 s (chunks_of s) V3 V1) as (s' & E & Hf).
  { apply Forall_forall. intros a Ha. apply (io_listed _ _ V1 inp) in Ha as (k & Hk & _). eauto. }
  exists s'. split; [done|]. split; [|done]. destruct Hf as [F1 F2 F3 F4 F5 F6 F7]. split.
  - unfold chunks_of. rewrite F1. eapply inv_shrunk; [exact F7|done|by rewrite F4|rewrite F6; lia|exact V1].
  - by rewrite F5, F1.
  - by rewrite F3, F4.
  - by rewrite F1, F4.
Qed.

Lemma cleanup_length l s : length (inputs (cleanup_tasks l s)) = length (inputs s).
Proof.
  unfold cleanup_tasks. revert s. induction l as [|a l IH]; intros s; simpl; [done|]. rewrite IH.
  unfold destroy_task. destruct (Task.tasks (eng s) !! a) as [k|]; [|done].
  destruct (useless k); [|done]. simpl. apply length_alter.
Qed.

Lemma inv_here w s inp i :
  inputs s !! inp = Some i -> inv_on w (chunks_of s) -> inv_on w (upd (chunks_of s) inp ([] ++ di_chunks i)).
Proof.
  intros Hi. apply inv_on_proper; [reflexivity|]. intros j. unfold upd, chunks_of.
  case_decide as Hj; [|done]. subst j. by rewrite Hi.
Qed.

(** The state in which the new tasks are started. *)
Lemma dispatched_inv id inp s i l s1 :
  dispatch_inv s -> inputs s !! inp = Some i ->
  dispatch_chunks mcfg router_outs junk id inp (di_direct i) (di_chunks i) 0 s = (l, s1) ->
  dispatch_inv (update_chunks inp (λ _, l) s1) /\ length (inputs s1) = length (inputs s).
Proof.
  intros [V1 V2 V3 V4] Hi Ed.
  apply (dispatch_chunks_inv _ _ _ _ _ _ _ _ [] (chunks_of s)) in Ed as [Hi1 Hs1].
  - split; [|by rewrite (sc_inputs _ _ Hs1)]. destruct Hs1 as [S1 S2 S3 S4 S5]. split.
    + rewrite <- (update_chunks_of s1 inp (λ _, l) i) by congruence.
      unfold chunks_of in *. by rewrite S1.
    + simpl. by rewrite length_alter, S1, S5.
    + simpl. by rewrite S2, S4.
    + apply update_chunks_direct. simpl. by rewrite S1, S4.
  - rewrite V2. by eapply lookup_lt_Some.
  - by apply (V4 inp).
  - by apply inv_here.
Qed.

Lemma engine_dispatch_inv id inp s :
  dispatch_inv s -> (inp < length (inputs s))%nat ->
  exists s', flb_engine_dispatch mcfg router_outs pool_coros junk id inp s = Some s' /\ dispatch_inv s' /\
    length (inputs s') = length (inputs s).
Proof.
  intros Hs Hlt. unfold flb_engine_dispatch. destruct (lookup_lt_is_Some_2 _ _ Hlt) as [i Hi].
  rewrite Hi. cbn [mbind option_bind]. destruct (di_plugin i); [|by exists s].
  destruct (dispatch_chunks _ _ _ id inp (di_direct i) (di_chunks i) 0 s) as [l s1] eqn:Ed.
  destruct (dispatched_inv _ _ _ _ _ _ Hs Hi Ed) as [H1 Hl1]. set (s2 := update_chunks inp (λ _, l) s1) in *.
  destruct (start_inv inp s2 H1) as (s3 & -> & H3 & Hf). cbn [mbind option_bind].
  eexists. split; [done|]. split; [by apply cleanup_inv|].
  rewrite cleanup_length, (sf_inputs _ _ Hf). simpl. by rewrite length_alter.
Qed.

Lemma flush_inputs_inv in_force inp n s :
  dispatch_inv s -> (inp + n = length (inputs s))%nat ->
  exists s', flush_inputs mcfg router_outs pool_coros junk in_force inp n s = Some s' /\ dispatch_inv s'.
Proof.
  revert inp s. induction n as [|n IH]; intros inp s Hs Hn; cbn [flush_inputs]; [by exists s|].
  destruct (lookup_lt_is_Some_2 (inputs s) inp) as [i Hi]; [lia|]. rewrite Hi. cbn [mbind option_bind].
  destruct (_ && _); [apply IH; [done|lia]|].
  destruct (engine_dispatch_inv 0 inp s Hs) as (s1 & -> & H1 & Hl); [lia|]. apply IH; [done|lia].
Qed.

(** ** What is handed over *)

(** Equal tasks, up to their users and retries. *)
Definition core_eq (m m' : gmap nat Task.flb_task) : Prop :=
  forall a, core <$> m !! a = core <$> m' !! a.

#[local] Instance core_eq_equivalence : Equivalence core_eq.
Proof.
  split; [by intros m a|by intros m m' H a; rewrite H|]. intros m1 m2 m3 H1 H2 a. by rewrite H1.
Qed.

Lemma core_eq_insert m m' a k k' :
  core_eq m m' -> core k = core k' -> core_eq (<[a := k]> m) (<[a := k']> m').
Proof.
  intros Hm Hk b. destruct (decide (b = a)) as [->|Hne].
  - rewrite !lookup_insert_eq. simpl. by rewrite Hk.
  - by rewrite !lookup_insert_ne.
Qed.

Lemma core_eq_lookup m m' a k :
  core_eq m m' -> m !! a = Some k -> exists k', m' !! a = Some k' /\ core k' = core k.
Proof.
  intros Hm Hk. specialize (Hm a). rewrite Hk in Hm. destruct (m' !! a) as [k'|]; [|done].
  exists k'. split; [done|]. symmetry. exact (f_equal (default (core k)) Hm).
Qed.

Lemma core_set_routes l k k' : core k = core k' -> core (Task.set_routes l k) = core (Task.set_routes l k').
Proof.
  intros H. change (Task.set_routes l (core k) = Task.set_routes l (core k')). by rewrite H.
Qed.

Lemma core_set_status st k k' : core k = core k' -> core (set_status st k) = core (set_status st k').
Proof. intros H. change (set_status st (core k) = set_status st (core k')). by rewrite H. Qed.

Definition no_held (fl : list out_flags) : Prop := Forall (λ f, no_multiplex f = false) fl.

Lemma not_held retry s out : no_held (flags s) -> held_back pool_coros retry s out = false.
Proof.
  intros H. unfold held_back. destruct (flags s !! out) as [f|] eqn:E; [|done]. simpl.
  by rewrite (proj1 (Forall_forall _ _) H f) by (by eapply list_elem_of_lookup_2).
Qed.

(** The call for a route, and the routes of outputs that are not under test. *)
Definition route_call (s : dispatcher) (task : nat) (r : Task.flb_task_route) : call :=
  if is_test s (Task.rt_out r) then D_test task (Task.rt_out r) else D_hand task (Task.rt_out r) None.
Definition live (s : dispatcher) (l : list Task.flb_task_route) : list Task.flb_task_route :=
  List.filter (λ r, negb (is_test s (Task.rt_out r))) l.

Lemma remove_tested s r kept l :
  live s kept = kept -> is_test s (Task.rt_out r) = true ->
  remove_route (Task.rt_out r) (kept ++ r :: l) = kept ++ l.
Proof.
  intros Hl Ht. induction kept as [|x kept IH]; simpl; [by rewrite Nat.eqb_refl|].
  unfold live in *. simpl in Hl. destruct (is_test s (Task.rt_out x)) eqn:Ex; simpl in Hl.
  - exfalso. pose proof (List.filter_length_le (λ r, negb (is_test s (Task.rt_out r))) kept) as H.
    rewrite Hl in H. simpl in H. lia.
  - destruct (Nat.eqb_spec (Task.rt_out x) (Task.rt_out r)); [congruence|]. f_equal. apply IH. by injection Hl.
Qed.

Lemma live_same s s' l : flags s' = flags s -> live s' l = live s l.
Proof. intros H. unfold live, is_test. by rewrite H. Qed.

Lemma start_routes_spec task l retry hits s k kept :
  no_held (flags s) -> length (queues s) = length (Task.outputs (eng s)) ->
  Forall (λ r, (Task.rt_out r < length (Task.outputs (eng s)))%nat) l ->
  Task.tasks (eng s) !! task = Some k -> Task.routes k = kept ++ l -> live s kept = kept ->
  exists s', start_routes pool_coros task l retry hits s = Some (hits + Z.of_nat (length (live s l)), s') /\
    calls s' = calls s ++ map (route_call s task) l /\ start_frame s s' /\
    core_eq (Task.tasks (eng s')) (<[task := Task.set_routes (kept ++ live s l) k]> (Task.tasks (eng s))).
Proof.
  revert hits s k kept. induction l as [|r l IH]; intros hits s k kept Hn Hq Hl Hk Hr Hkept;
    cbn [start_routes].
  { exists s. rewrite Z.add_0_r, !app_nil_r. split_and!; try done.
    rewrite app_nil_r in Hr. rewrite <- Hr, insert_id; [done|]. rewrite Hk. by destruct k. }
  apply Forall_cons in Hl as [Hr1 Hl]. unfold live, route_call. simpl. fold (live s l).
  destruct (is_test s (Task.rt_out r)) eqn:Et; simpl.
  - set (s1 := on_task task _ (log _ s)).
    assert (Hf1 : start_frame s s1).
    { etransitivity; [apply log_frame|]. apply on_task_frame. intros k0. split; try done. apply remove_route_sub. }
    assert (Ht1 : Task.tasks (eng s1) = <[task := Task.set_routes (kept ++ l) k]> (Task.tasks (eng s))).
    { simpl. erewrite alter_Some by done. by rewrite Hr, (remove_tested s) by done. }
    destruct (IH hits s1 (Task.set_routes (kept ++ l) k) kept) as (s' & E & Hc & Hf & He); try done.
    { rewrite Ht1. apply lookup_insert_eq. }
    exists s'. split_and!; [exact E| |by etransitivity|].
    + rewrite Hc. simpl. by rewrite <- app_assoc.
    + rewrite Ht1, insert_insert_eq in He. exact He.
  - rewrite not_held by done.
    destruct (give_ok task (Task.rt_out r) None s Hr1 Hq) as (ret & s1 & -> & He1 & Hf1 & Hc1).
    cbn [mbind option_bind].
    destruct (core_eq_lookup (Task.tasks (eng s)) (Task.tasks (eng s1)) task k) as (k1 & Hk1 & Hck);
      [by intros a; rewrite (ee_tasks _ _ He1)|done|].
    assert (Hr1' : Task.routes k1 = Task.routes k) by exact (f_equal Task.routes Hck).
    destruct (IH (hits + 1) s1 k1 (kept ++ [r])) as (s' & E & Hc & Hf & He).
    { by rewrite (sf_flags _ _ Hf1). }
    { by rewrite (sf_queues _ _ Hf1), (sf_outs _ _ Hf1). }
    { by rewrite (sf_outs _ _ Hf1). }
    { done. }
    { by rewrite Hr1', Hr, <- app_assoc. }
    { rewrite (live_same s s1) by apply Hf1. unfold live in *. rewrite List.filter_app, Hkept. simpl.
      by rewrite Et. }
    rewrite (live_same s s1) in E, He by apply Hf1.
    exists s'. split_and!.
    + rewrite E. do 2 f_equal. lia.
    + rewrite Hc, Hc1, <- app_assoc. simpl. do 2 f_equal. apply map_ext. intros x.
      unfold route_call, is_test. by rewrite (sf_flags _ _ Hf1).
    + by etransitivity.
    + rewrite He, <- app_assoc. apply core_eq_insert; [|by apply core_set_routes].
      intros a. apply (ee_tasks _ _ He1).
Qed.

(** A task once [tasks_start] went over it, and the calls made for it. *)
Definition task_after (s : dispatcher) (k : Task.flb_task) : Task.flb_task :=
  if Task.status k =? Task.FLB_TASK_NEW then
    set_status (if live s (Task.routes k) is [] then Task.FLB_TASK_NEW else Task.FLB_TASK_RUNNING)
      (Task.set_routes (live s (Task.routes k)) k)
  else k.

Definition task_calls (s : dispatcher) (a : nat) : list call :=
  match Task.tasks (eng s) !! a with
  | Some k => if Task.status k =? Task.FLB_TASK_NEW
              then map (route_call s a) (Task.routes k) else []
  | None => []
  end.

(** The turn of one task. *)
Lemma start_task_spec a k retry s :
  no_held (flags s) -> length (queues s) = length (Task.outputs (eng s)) ->
  Forall (λ r, (Task.rt_out r < length (Task.outputs (eng s)))%nat) (Task.routes k) ->
  Task.tasks (eng s) !! a = Some k -> Task.status k = Task.FLB_TASK_NEW ->
  exists hits s1, start_routes pool_coros a (Task.routes k) retry 0
      (on_task a (set_status Task.FLB_TASK_RUNNING) s) = Some (hits, s1) /\
    let s2 := if hits =? 0 then on_task a (set_status Task.FLB_TASK_NEW) s1 else s1 in
    calls s2 = calls s ++ task_calls s a /\ start_frame s s2 /\
    core_eq (Task.tasks (eng s2)) (<[a := task_after s k]> (Task.tasks (eng s))).
Proof.
  intros Hn Hq Hl Hk Hst. set (s0 := on_task a (set_status Task.FLB_TASK_RUNNING) s).
  assert (Hf0 : start_frame s s0) by (by apply on_task_frame).
  set (k0 := set_status Task.FLB_TASK_RUNNING k).
  assert (Ht0 : Task.tasks (eng s0) = <[a := k0]> (Task.tasks (eng s))) by (by apply alter_Some).
  destruct (start_routes_spec a (Task.routes k) retry 0 s0 k0 []) as (s1 & E & Hc & Hf & He); try done.
  { rewrite Ht0. apply lookup_insert_eq. }
  exists (Z.of_nat (length (live s (Task.routes k)))), s1. split; [exact E|].
  change (live s0) with (live s) in He. rewrite Ht0, insert_insert_eq in He. simpl app in He.
  assert (Hcalls : calls s1 = calls s ++ task_calls s a).
  { rewrite Hc. unfold task_calls. by rewrite Hk, Hst. }
  unfold task_after. rewrite Hst. cbn [Z.eqb Task.FLB_TASK_NEW].
  destruct (live s (Task.routes k)) as [|x l] eqn:El; simpl length; simpl Z.eqb; cbv iota zeta.
  - split; [done|]. split; [etransitivity; [exact Hf0|]; etransitivity; [exact Hf|by apply on_task_frame]|].
    destruct (core_eq_lookup _ _ a (Task.set_routes [] k0) (symmetry He)) as (k1 & Hk1 & Hck);
      [apply lookup_insert_eq|].
    simpl. erewrite alter_Some by done.
    rewrite (core_eq_insert _ _ a _ (set_status Task.FLB_TASK_NEW (Task.set_routes [] k0)) He)
      by (by apply core_set_status). by rewrite insert_insert_eq.
  - split; [done|]. split; [by etransitivity|]. exact He.
Qed.

Lemma route_call_same s s1 a r : flags s1 = flags s -> route_call s1 a r = route_call s a r.
Proof. intros H. unfold route_call, is_test. by rewrite H. Qed.

Lemma task_calls_same s s1 b :
  flags s1 = flags s -> core <$> Task.tasks (eng s1) !! b = core <$> Task.tasks (eng s) !! b ->
  task_calls s1 b = task_calls s b.
Proof.
  intros Hf Hc. unfold task_calls.
  destruct (Task.tasks (eng s1) !! b) as [k1|], (Task.tasks (eng s) !! b) as [k|]; try done.
  assert (H : core k1 = core k) by exact (f_equal (default (core k)) Hc).
  rewrite (f_equal Task.status H : Task.status k1 = Task.status k),
    (f_equal Task.routes H : Task.routes k1 = Task.routes k).
  destruct (_ =? _); [|done]. apply map_ext. intros r. by apply route_call_same.
Qed.

Lemma task_after_same s s1 k1 k :
  flags s1 = flags s -> core k1 = core k -> core (task_after s1 k1) = core (task_after s k).
Proof.
  intros Hf H. unfold task_after. rewrite (live_same s s1) by done.
  rewrite (f_equal Task.status H : Task.status k1 = Task.status k),
    (f_equal Task.routes H : Task.routes k1 = Task.routes k).
  destruct (_ =? _); [|done]. by apply core_set_status, core_set_routes.
Qed.

(** The tasks of [l] are started, the others stay. *)
Definition starts (l : list nat) (s s' : dispatcher) : Prop :=
  forall a k, Task.tasks (eng s) !! a = Some k -> exists k', Task.tasks (eng s') !! a = Some k' /\
    core k' = core (if decide (a ∈ l) then task_after s k else k).

Lemma starts_cons a k l s s1 s' :
  flags s1 = flags s -> a ∉ l -> Task.tasks (eng s) !! a = Some k ->
  core_eq (Task.tasks (eng s1)) (<[a := task_after s k]> (Task.tasks (eng s))) ->
  starts l s1 s' -> starts (a :: l) s s'.
Proof.
  intros Hf Ha Hk He Ht b kb Hb. pose proof (He b) as Hb1. destruct (decide (b = a)) as [->|Hne].
  - rewrite lookup_insert_eq in Hb1. destruct (Task.tasks (eng s1) !! a) as [k1|] eqn:E1; [|done].
    assert (kb = k) as -> by congruence.
    destruct (Ht a k1 E1) as (k' & Hk' & Hck). exists k'. split; [done|].
    rewrite Hck, decide_False, decide_True by set_solver. exact (f_equal (default (core k)) Hb1).
  - rewrite lookup_insert_ne, Hb in Hb1 by done.
    destruct (Task.tasks (eng s1) !! b) as [k1|] eqn:E1; [|done].
    assert (Hc1 : core k1 = core kb) by exact (f_equal (default (core kb)) Hb1).
    destruct (Ht b k1 E1) as (k' & Hk' & Hck). exists k'. split; [done|]. rewrite Hck.
    destruct (decide (b ∈ l)); [rewrite decide_True by set_solver|by rewrite decide_False by set_solver].
    by apply task_after_same.
Qed.

Lemma start_tasks_spec l retry s ch :
  no_held (flags s) -> length (queues s) = length (Task.outputs (eng s)) -> inv_on (eng s) ch ->
  NoDup l -> Forall (λ a, is_Some (Task.tasks (eng s) !! a)) l ->
  exists s', start_tasks pool_coros l retry s = Some s' /\ start_frame s s' /\
    calls s' = calls s ++ concat (map (task_calls s) l) /\ starts l s s'.
Proof.
  revert retry s. induction l as [|a l IH]; intros retry s Hn Hq Hi Hnd Hl; cbn [start_tasks].
  { exists s. rewrite app_nil_r. split_and!; try done. intros a k Hk. exists k. split; [done|].
    rewrite decide_False; [done|]. apply not_elem_of_nil. }
  apply Forall_cons in Hl as [[k Hk] Hl]. apply NoDup_cons in Hnd as [Ha Hnd].
  rewrite Hk. cbn [mbind option_bind].
  set (retry1 := if Nat.eqb _ 0 then retry else _).
  assert (Hgo : forall s1, start_frame s s1 -> calls s1 = calls s ++ task_calls s a ->
    core_eq (Task.tasks (eng s1)) (<[a := task_after s k]> (Task.tasks (eng s))) ->
    exists s', start_tasks pool_coros l retry1 s1 = Some s' /\ start_frame s s' /\
      calls s' = calls s ++ concat (map (task_calls s) (a :: l)) /\ starts (a :: l) s s').
  { intros s1 Hf Hc He. destruct (IH retry1 s1) as (s' & E & Hf' & Hc' & Ht'); try done.
    - by rewrite (sf_flags _ _ Hf).
    - by rewrite (sf_queues _ _ Hf), (sf_outs _ _ Hf).
    - eapply inv_shrunk; [apply Hf..| | |exact Hi]; [by rewrite (sf_outs _ _ Hf)|].
      rewrite (sf_next _ _ Hf). lia.
    - eapply Forall_impl; [exact Hl|]. intros b [kb Hb]. pose proof (sf_tasks _ _ Hf b) as H.
      rewrite Hb in H. inversion H. eauto.
    - exists s'. split_and!; [done|by etransitivity| |].
      + rewrite Hc', Hc, <- app_assoc. simpl. do 2 f_equal. f_equal. apply map_ext_in.
        intros b Hb. apply list_elem_of_In in Hb. apply task_calls_same; [apply Hf|].
        by rewrite (He b), lookup_insert_ne by set_solver.
      + eapply starts_cons; [apply Hf|done..]. }
  destruct (Z.eqb_spec (Task.status k) Task.FLB_TASK_NEW) as [Hst|Hst]; cbn [negb].
  - destruct (start_task_spec a k retry1 s) as (hits & s1 & -> & H1 & H2 & H3); try done.
    { apply Forall_forall. intros r Hr. by apply (io_routes _ _ Hi a k). }
    cbn [mbind option_bind]. by apply Hgo.
  - apply Z.eqb_neq in Hst. apply Hgo; [done| |].
    + unfold task_calls. by rewrite Hk, Hst, app_nil_r.
    + unfold task_after. by rewrite Hst, insert_id.
Qed.

(** ** Ready chunks *)

(** The chunk has content and a tag, and both can be read. *)
Definition ready (c : dchunk) : bool :=
  (dc_up c || negb (dc_up_ret c =? -1))
  && (if dc_content c is C_buffer n _ then negb (n =? 0) else false)
  && (if dc_tag c is Some n then 0 <? n else false).

(** The outputs the task of a chunk is for. *)
Definition wanted (direct : list nat) (c : dchunk) (w : Task.engine) : list nat :=
  if direct is [] then
    List.filter (Task.route_takes (dc_type c) (dc_mask c) mcfg router_outs) (seq 0 (length (Task.outputs w)))
  else direct.

(** A task of the chunk, with a route for each of these outputs. *)
Definition carried (direct : list nat) (c : dchunk) (w : Task.engine) : Prop :=
  exists a k, Task.tasks w !! a = Some k /\ Task.ic k = dc_addr c /\
    map Task.rt_out (Task.routes k) = wanted direct c w.

Lemma direct_routes_all direct :
  Task.direct_routes junk direct [] = (Some (map (λ o, {| Task.rt_status := junk; Task.rt_out := o |}) direct), []).
Proof. induction direct as [|o l IH]; [done|]. simpl. by rewrite IH. Qed.

Lemma destroy_map_length task w : length (Task.task_map (Task.flb_task_destroy task true w)) = length (Task.task_map w).
Proof.
  unfold Task.flb_task_destroy. destruct (Task.tasks w !! task) as [k|]; [|done]. simpl.
  match goal with |- length (Task.task_map (foldl _ ?w0 _)) = _ => set (w1 := w0) end.
  assert (H1 : length (Task.task_map w1) = length (Task.task_map w)) by (simpl; apply length_insert).
  rewrite <- H1. clearbody w1. clear H1. revert w1.
  induction (Task.retries k) as [|r l IH]; intros w1; simpl; [done|]. by rewrite IH.
Qed.

Lemma set_routes_lookup a l w k :
  Task.tasks (Task.update_task a (Task.set_routes l) w) !! a = Some k -> Task.routes k = l.
Proof. simpl. rewrite lookup_alter_eq. destruct (Task.tasks w !! a); [|done]. by intros [= <-]. Qed.

(** With memory and a free id the task is created unless nobody wants it. *)
Lemma create_all_memory id inp direct c size w :
  (Task.first_free (Task.task_map w) < length (Task.task_map w))%nat -> fresh_next w ->
  exists r w', create_task mcfg router_outs junk id inp direct c size w [] = (r, false, w', []) /\
    length (Task.task_map w') = length (Task.task_map w) /\
    (wanted direct c w <> [] -> carried direct c w').
Proof.
  intros Hlt Hf.
  destruct (create_task mcfg router_outs junk id inp direct c size w []) as [[[r err] w'] t'] eqn:E.
  pose proof (task_create_spec _ _ _ _ _ _ _ _ _ _ _ Hf E) as (C1 & _ & C3). exists r, w'.
  revert E. unfold create_task, Task.flb_task_create, Task.task_alloc, Task.map_get_task_id.
  apply Nat.ltb_lt in Hlt as ->. cbv beta iota zeta delta [flb_malloc negb Task.flb_event_chunk_create].
  match goal with |- context [Task.set_in_tasks ?l ?x] => set (w2 := Task.set_in_tasks l x) end.
  assert (Hm2 : length (Task.task_map w2) = length (Task.task_map w)) by (simpl; apply length_insert).
  assert (Ho2 : Task.outputs w2 = Task.outputs w) by done. clearbody w2.
  assert (Hdone : forall l, w' = Task.update_task (Task.next_addr w) (Task.set_routes l) w2 ->
            r = Some (Task.next_addr w) -> map Task.rt_out l = wanted direct c w -> carried direct c w').
  { intros l Hw -> Hl. destruct C3 as (_ & _ & _ & k & C6 & C7 & _). exists (Task.next_addr w), k.
    assert (Hk : Task.tasks w' !! Task.next_addr w = Some k) by (rewrite C6; apply lookup_insert_eq).
    split_and!; [done..|]. rewrite Hw in Hk. rewrite (set_routes_lookup _ _ _ _ Hk), Hl.
    unfold wanted. by rewrite C1. }
  unfold wanted in *. destruct direct as [|d direct].
  - rewrite Ho2, Task.mask_routes_spec. destruct (List.filter _ _) as [|x l] eqn:Ew; simpl map; cbv iota.
    + intros [= <- <- <- <-]. split_and!; [done| |done]. by rewrite destroy_map_length.
    + intros [= <- <- <- <-]. split_and!; [done..|]. intros _. eapply Hdone; [done..|]. simpl. f_equal.
      rewrite map_map. apply map_id.
  - rewrite direct_routes_all. intros [= <- <- <- <-]. split_and!; [done..|]. intros _.
    eapply Hdone; [done..|]. simpl. f_equal. rewrite map_map. apply map_id.
Qed.

Lemma flush_ready c size buf n c' rc :
  flb_input_chunk_flush c size = (buf, n, c', rc) -> ready c = true ->
  buf = true /\ n <> 0 /\ exists len, dc_tag c' = Some len /\ 0 < len.
Proof.
  intros Ef Hr. pose proof (chunk_flush_facts _ _ _ _ _ _ Ef) as (_ & -> & _). revert Ef.
  unfold ready in Hr. apply andb_prop in Hr as [[Hu Hc]%andb_prop Ht].
  destruct (dc_tag c) as [len|]; [|done]. apply Z.ltb_lt in Ht.
  destruct (dc_content c) as [| |sz df] eqn:Ec; [done..|]. apply negb_true_iff, Z.eqb_neq in Hc.
  unfold flb_input_chunk_flush, flb_input_chunk_set_up.
  destruct (dc_up c), (dc_up_ret c =? 0), (dc_up_ret c =? -1); simpl in *; rewrite ?Ec; try done;
    intros [= <- <- <- <-]; eauto.
Qed.

Lemma get_id_all_memory w r w' t' :
  Task.map_size_ok w -> Task.map_get_task_id w [] = (r, w', t') ->
  t' = [] /\ Task.map_size_ok w' /\
  (r = None -> w' = w) /\ (r <> None -> (Task.first_free (Task.task_map w') < length (Task.task_map w'))%nat).
Proof.
  intros Hok Eg. destruct (Task.map_get_spec _ _ _ _ _ Hok Eg) as (Hok1 & _ & Hslot).
  split_and!; [|done|by intros ->; apply Hslot|].
  - revert Eg. unfold Task.map_get_task_id, Task.flb_config_task_map_grow, Task.flb_config_task_map_resize.
    destruct (Nat.ltb _ _); [by intros [= <- <- <-]|].
    destruct (Task.FLB_CONFIG_DEFAULT_TASK_MAP_SIZE_LIMIT <=? _); [by intros [= <- <- <-]|].
    destruct (_ =? Z.of_nat _); [by intros [= <- <- <-]|].
    destruct (_ =? 0); by intros [= <- <- <-].
  - destruct r as [i|]; [|done]. intros _. destruct Hslot as (Hi & _).
    destruct (Task.first_free_spec (Task.task_map w')) as (H1 & _ & H3).
    destruct (decide (Task.first_free (Task.task_map w') = length (Task.task_map w'))) as [Heq|]; [|lia].
    apply lookup_lt_Some in Hi as Hlt. destruct (H1 i) as [a Ha]; [lia|congruence].
Qed.

(** One turn, with memory. *)
Lemma turn_ready id inp direct c size s r size' s' :
  dispatch_chunk mcfg router_outs junk id inp direct c size s = (r, size', s') ->
  mem s = [] -> Task.map_size_ok (eng s) -> fresh_next (eng s) ->
  mem s' = [] /\ Task.map_size_ok (eng s') /\
  (r = T_break -> Task.map_get_task_id (eng s') [] = (None, eng s', [])) /\
  (dc_busy c = false -> ready c = true -> wanted direct c (eng s) <> [] -> r <> T_break ->
   carried direct c (eng s')).
Proof.
  unfold dispatch_chunk. intros Heq Hm Hok Hf.
  destruct (dc_busy c) eqn:Hb; [by simplify_eq|]. rewrite Hm in Heq.
  destruct (Task.flb_task_map_get_task_id (eng s) []) as [[slot w1] m1] eqn:Eg.
  pose proof (map_get_same _ _ _ _ _ Eg) as (G1 & G2 & G3 & G4 & _).
  destruct (get_id_all_memory _ _ _ _ Hok Eg) as (-> & Hok1 & Hnone & Hsome).
  destruct slot as [i|].
  2:{ simplify_eq. rewrite (Hnone eq_refl) in Eg |- *. by split_and!. }
  specialize (Hsome ltac:(done)).
  destruct (flb_input_chunk_flush c size) as [[[buf n] c1] rc] eqn:Ef.
  pose proof (flush_ready _ _ _ _ _ _ Ef) as Hrdy.
  apply chunk_flush_facts in Ef as (Fa & _ & Fty & Fm & _).
  destruct (log_all (set_mem [] (set_engine w1 s)) rc) as (_ & He2 & Hm2 & _).
  set (s2 := foldl _ _ rc) in *. clearbody s2. simpl in He2, Hm2. rewrite <- He2 in *.
  assert (Hstop : forall c2 z, (T_keep c2, z, s2) = (r, size', s') -> ready c <> true ->
    mem s' = [] /\ Task.map_size_ok (eng s') /\
    (r = T_break -> Task.map_get_task_id (eng s') [] = (None, eng s', [])) /\
    (false = false -> ready c = true -> wanted direct c (eng s) <> [] -> r <> T_break -> carried direct c (eng s'))).
  { intros c2 z [= <- <- <-] Hr. split_and!; done. }
  destruct (Z.eqb_spec n 0); [eapply Hstop; [done|naive_solver]|].
  destruct buf; cbn [negb] in Heq; [|eapply Hstop; [done|naive_solver]].
  destruct (dc_tag c1) as [len|]; [|eapply Hstop; [done|naive_solver]].
  destruct (Z.leb_spec len 0); [eapply Hstop; [done|]|].
  { intros (_ & _ & len0 & [= ->] & H1)%Hrdy. lia. }
  assert (Hf2 : fresh_next (eng s2)).
  { destruct Hf as [F1 F2]. unfold fresh_next, tasks_of in *. by rewrite G1, G2, G4. }
  destruct (create_all_memory id inp direct c1 n (eng s2) Hsome Hf2) as (task & w3 & Ec & Hl3 & Hcar).
  rewrite Hm2, Ec in Heq.
  assert (Hok3 : Task.map_size_ok w3) by (unfold Task.map_size_ok in *; by rewrite Hl3).
  assert (Hw : wanted direct c1 (eng s2) = wanted direct c (eng s)).
  { unfold wanted. by rewrite Fty, Fm, G3. }
  assert (Hc3 : wanted direct c (eng s) <> [] -> carried direct c w3).
  { rewrite <- Hw. intros (a & k & H1 & H2 & H3)%Hcar. exists a, k. split_and!; [done|congruence|].
    rewrite H3. unfold wanted. by rewrite Fty, Fm. }
  destruct task; simplify_eq; split_and!; by auto.
Qed.

(** No turn touches the tasks there are. *)
Definition kept (w w' : Task.engine) : Prop :=
  Task.outputs w' = Task.outputs w /\
  forall a k, Task.tasks w !! a = Some k -> Task.tasks w' !! a = Some k.

#[local] Instance kept_preorder : PreOrder kept.
Proof.
  split; [by split|]. intros w1 w2 w3 [H1 H2] [H3 H4]. split; [congruence|]. auto.
Qed.

Lemma turn_kept id inp direct c size s r size' s' :
  dispatch_chunk mcfg router_outs junk id inp direct c size s = (r, size', s') ->
  fresh_next (eng s) -> kept (eng s) (eng s').
Proof.
  unfold dispatch_chunk. intros Heq Hf. destruct (dc_busy c); [by simplify_eq|].
  destruct (Task.flb_task_map_get_task_id (eng s) (mem s)) as [[slot w1] m1] eqn:Eg.
  apply map_get_same in Eg as (G1 & G2 & G3 & G4 & _).
  assert (Hk1 : kept (eng s) w1) by (split; [done|by rewrite G1]).
  destruct slot as [sl|]; [|by simplify_eq].
  destruct (flb_input_chunk_flush c size) as [[[buf n] c1] rc].
  destruct (log_all (set_mem m1 (set_engine w1 s)) rc) as (_ & He2 & _ & _).
  set (s2 := foldl _ _ rc) in *. clearbody s2. simpl in He2. rewrite <- He2 in *.
  destruct (n =? 0); [by simplify_eq|]. destruct buf; cbn [negb] in Heq; [|by simplify_eq].
  destruct (dc_tag c1) as [len|]; [|by simplify_eq]. destruct (len <=? 0); [by simplify_eq|].
  destruct (create_task _ _ _ id inp direct c1 n (eng s2) (mem s2)) as [[[task err] w3] m3] eqn:Ec.
  assert (Hf2 : fresh_next (eng s2)).
  { destruct Hf as [F1 F2]. unfold fresh_next, tasks_of in *. by rewrite G1, G2, G4. }
  apply task_create_spec in Ec as (C1 & _ & C3); [|done].
  assert (Hk3 : kept (eng s2) w3).
  { split; [done|]. intros a k Hk. destruct task as [b|].
    - destruct C3 as (-> & _ & _ & k0 & -> & _). rewrite lookup_insert_ne; [done|]. intros <-.
      apply Hf2 in Hk. lia.
    - by destruct C3 as [-> _]. }
  destruct task; [|destruct err]; simplify_eq; by etransitivity.
Qed.

Lemma carried_kept direct c w w' : kept w w' -> carried direct c w -> carried direct c w'.
Proof.
  intros [Ho Ht] (a & k & Hk & Hic & Hr). exists a, k. split_and!; [by apply Ht|done|].
  rewrite Hr. unfold wanted. by rewrite Ho.
Qed.

Lemma dispatch_chunks_ready id inp direct l size s l' s' before ch :
  dispatch_chunks mcfg router_outs junk id inp direct l size s = (l', s') ->
  mem s = [] -> Task.map_size_ok (eng s) -> (inp < length (Task.in_tasks (eng s)))%nat ->
  Forall (λ o, (o < length (Task.outputs (eng s)))%nat) direct ->
  inv_on (eng s) (upd ch inp (before ++ l)) ->
  kept (eng s) (eng s') /\
  forall c, c ∈ l -> dc_busy c = false -> ready c = true -> wanted direct c (eng s) <> [] ->
    carried direct c (eng s') \/ Task.map_get_task_id (eng s') [] = (None, eng s', []).
Proof.
  revert size s l' s' before. induction l as [|c rest IH]; intros size s l' s' before; cbn [dispatch_chunks].
  { intros [= <- <-]. intros. split; [done|]. by intros c ?%not_elem_of_nil. }
  destruct (dispatch_chunk _ _ _ id inp direct c size s) as [[r size1] s1] eqn:E1.
  intros Heq Hm Hok Hlen Hdir Hinv. pose proof (inv_fresh _ _ Hinv) as Hf.
  pose proof (turn_kept _ _ _ _ _ _ _ _ _ E1 Hf) as Hk1.
  destruct (turn_ready _ _ _ _ _ _ _ _ _ E1 Hm Hok Hf) as (Hm1 & Hok1 & Hbr & Hcar).
  apply (dispatch_chunk_inv _ _ _ _ _ _ _ _ _ ch before rest) in E1 as [Hi1 Hs1]; [|done..].
  rewrite <- (sc_len _ _ Hs1) in Hlen. rewrite <- (sc_outs _ _ Hs1) in Hdir.
  assert (Hgo : forall s2 l2 before2, dispatch_chunks mcfg router_outs junk id inp direct rest size1 s1 = (l2, s2) ->
    inv_on (eng s1) (upd ch inp (before2 ++ rest)) -> r <> T_break ->
    kept (eng s) (eng s2) /\
    forall d, d ∈ c :: rest -> dc_busy d = false -> ready d = true -> wanted direct d (eng s) <> [] ->
      carried direct d (eng s2) \/ Task.map_get_task_id (eng s2) [] = (None, eng s2, [])).
  { intros s2 l2 before2 E2 Hi2 Hr. destruct (IH _ _ _ _ before2 E2) as [Hk2 H2]; try done.
    split; [by etransitivity|]. intros d [->|Hd]%elem_of_cons Hb Hrd Hw.
    - left. eapply carried_kept; [exact Hk2|]. auto.
    - apply H2; try done. unfold wanted in *. by rewrite (proj1 Hk1). }
  destruct r as [|c'|]; simpl in Hi1.
  - simplify_eq. split; [done|]. intros d _ _ _ _. right. auto.
  - destruct (dispatch_chunks _ _ _ id inp direct rest size1 s1) as [l0 s2] eqn:E0. simplify_eq.
    eapply (Hgo _ _ (before ++ [c'])); [done| |done]. by rewrite <- app_assoc.
  - by eapply Hgo.
Qed.

(** ** Tasks that are already running *)

Definition about (e : call) : option nat :=
  match e with D_hand t _ _ | D_test t _ => Some t | D_recount _ _ => None end.

(** The task is as it was, up to users and retries, and no call was made for it. *)
Definition untouched (a : nat) (s s' : dispatcher) : Prop :=
  core <$> Task.tasks (eng s') !! a = core <$> Task.tasks (eng s) !! a /\
  exists cs, calls s' = calls s ++ cs /\ Forall (λ e, about e <> Some a) cs.

#[local] Instance untouched_preorder a : PreOrder (untouched a).
Proof.
  split.
  - intros s. split; [done|]. exists []. by rewrite app_nil_r.
  - intros s1 s2 s3 (H1 & c1 & H2 & H3) (H4 & c2 & H5 & H6). split; [congruence|].
    exists (c1 ++ c2). rewrite H5, H2, app_assoc. split; [done|]. by apply Forall_app.
Qed.

Lemma untouched_on_task a task f s : task <> a -> untouched a s (on_task task f s).
Proof.
  intros Hne. split; [simpl; by rewrite lookup_alter_ne|]. exists []. simpl. by rewrite app_nil_r.
Qed.

Lemma untouched_log a e s : about e <> Some a -> untouched a s (log e s).
Proof. intros He. split; [done|]. exists [e]. split; [done|]. by apply Forall_singleton. Qed.

Lemma untouched_lookup a s s' k :
  untouched a s s' -> Task.tasks (eng s) !! a = Some k ->
  exists k', Task.tasks (eng s') !! a = Some k' /\ core k' = core k.
Proof.
  intros [H _] Hk. rewrite Hk in H. destruct (Task.tasks (eng s') !! a) as [k'|]; [|done].
  exists k'. split; [done|]. exact (f_equal (default (core k)) H).
Qed.

Lemma untouched_give a task out retry s ret s' :
  give task out retry s = Some (ret, s') -> task <> a -> untouched a s s'.
Proof.
  unfold give. intros E Hne.
  destruct (Task.outputs (eng s) !! out) as [o|]; simpl in E; [|done].
  destruct (queues s !! out) as [q|]; simpl in E; [|done].
  destruct (output_sink o task retry _ _ _) as [[[[r q'] t'] m']|] eqn:Es; simpl in E; [|done].
  apply sink_frame in Es. simplify_eq. split; [apply (ee_tasks _ _ Es)|].
  eexists. split; [done|]. apply Forall_singleton. simpl. congruence.
Qed.

Lemma start_routes_untouched a task l retry hits s h s' :
  start_routes pool_coros task l retry hits s = Some (h, s') -> task <> a -> untouched a s s'.
Proof.
  intros E Hne. revert hits s E. induction l as [|r l IH]; intros hits s; cbn [start_routes].
  { by intros [= <- <-]. }
  destruct (is_test s (Task.rt_out r)).
  - intros E%IH. etransitivity; [|exact E].
    etransitivity; [apply (untouched_log a (D_test task (Task.rt_out r)))|by apply untouched_on_task].
    simpl. congruence.
  - destruct (held_back _ _ _ _); [by apply IH|].
    destruct (give task (Task.rt_out r) None s) as [[ret s1]|] eqn:Eg; [|done]. cbn [mbind option_bind].
    intros E%IH. etransitivity; [|exact E]. by eapply untouched_give.
Qed.

Lemma start_tasks_untouched a l retry s s' k :
  start_tasks pool_coros l retry s = Some s' ->
  Task.tasks (eng s) !! a = Some k -> Task.status k <> Task.FLB_TASK_NEW -> untouched a s s'.
Proof.
  revert retry s k. induction l as [|b l IH]; intros retry s k; cbn [start_tasks].
  { by intros [= <-]. }
  destruct (Task.tasks (eng s) !! b) as [kb|] eqn:Eb; [|done]. cbn [mbind option_bind].
  intros E Ha Hst. destruct (Z.eqb_spec (Task.status kb) Task.FLB_TASK_NEW) as [Hb|Hb]; cbn [negb] in E;
    [|by eapply IH].
  assert (Hne : b <> a) by congruence.
  destruct (start_routes _ b _ _ _ _) as [[h s1]|] eqn:Er; [|done]. cbn [mbind option_bind] in E.
  apply (start_routes_untouched a) in Er; [|done].
  assert (H1 : untouched a s (if h =? 0 then on_task b (set_status Task.FLB_TASK_NEW) s1 else s1)).
  { etransitivity; [by apply (untouched_on_task a b (set_status Task.FLB_TASK_RUNNING))|].
    etransitivity; [exact Er|]. destruct (h =? 0); [by apply untouched_on_task|done]. }
  etransitivity; [exact H1|].
  destruct (untouched_lookup _ _ _ _ H1 Ha) as (k1 & Hk1 & Hc).
  eapply IH; [exact E|exact Hk1|]. by rewrite (f_equal Task.status Hc : Task.status k1 = Task.status k).
Qed.

Lemma turn_untouched a id inp direct c size s r size' s' k :
  dispatch_chunk mcfg router_outs junk id inp direct c size s = (r, size', s') ->
  fresh_next (eng s) -> Task.tasks (eng s) !! a = Some k -> untouched a s s'.
Proof.
  intros E Hf Hk. pose proof (turn_kept _ _ _ _ _ _ _ _ _ E Hf) as [_ Hkept].
  split; [by rewrite Hk, (Hkept a k Hk)|]. revert E. clear. unfold dispatch_chunk.
  assert (H0 : exists cs, calls s = calls s ++ cs /\ Forall (λ e, about e <> Some a) cs)
    by (exists []; by rewrite app_nil_r).
  destruct (dc_busy c); [by intros [= <- <- <-]|].
  destruct (Task.flb_task_map_get_task_id (eng s) (mem s)) as [[slot w1] m1].
  destruct slot as [sl|]; [|by intros [= <- <- <-]].
  destruct (flb_input_chunk_flush c size) as [[[buf n] c1] rc] eqn:Ef.
  destruct (log_all (set_mem m1 (set_engine w1 s)) rc) as (_ & _ & _ & Hc2).
  set (s2 := foldl _ _ rc) in *. clearbody s2. simpl in Hc2.
  assert (Hrc : Forall (λ e, about e <> Some a) rc).
  { revert Ef. unfold flb_input_chunk_flush, flb_input_chunk_set_up.
    destruct (dc_up c), (dc_up_ret c =? 0), (dc_up_ret c =? -1); simpl;
      destruct (dc_content c) as [| |sz df]; try destruct (df =? 0); simpl; intros [= <- <- <- <-]; auto using Forall_singleton. }
  assert (H2 : exists cs, calls s2 = calls s ++ cs /\ Forall (λ e, about e <> Some a) cs) by eauto.
  destruct (n =? 0); [by intros [= <- <- <-]|]. destruct buf; cbn [negb]; [|by intros [= <- <- <-]].
  destruct (dc_tag c1) as [len|]; [|by intros [= <- <- <-]]. destruct (len <=? 0); [by intros [= <- <- <-]|].
  destruct (create_task _ _ _ id inp direct c1 n (eng s2) (mem s2)) as [[[task err] w3] m3].
  destruct task; [|destruct err]; by intros [= <- <- <-].
Qed.

Lemma dispatch_chunks_untouched a id inp direct l size s l' s' before ch k :
  dispatch_chunks mcfg router_outs junk id inp direct l size s = (l', s') ->
  (inp < length (Task.in_tasks (eng s)))%nat ->
  Forall (λ o, (o < length (Task.outputs (eng s)))%nat) direct ->
  inv_on (eng s) (upd ch inp (before ++ l)) ->
  Task.tasks (eng s) !! a = Some k -> untouched a s s'.
Proof.
  revert size s l' s' before k. induction l as [|c rest IH]; intros size s l' s' before k; cbn [dispatch_chunks].
  { by intros [= <- <-]. }
  destruct (dispatch_chunk _ _ _ id inp direct c size s) as [[r size1] s1] eqn:E1.
  intros Heq Hlen Hdir Hinv Hk.
  pose proof (turn_untouched a _ _ _ _ _ _ _ _ _ _ E1 (inv_fresh _ _ Hinv) Hk) as H1.
  apply (dispatch_chunk_inv _ _ _ _ _ _ _ _ _ ch before rest) in E1 as [Hi1 Hs1]; [|done..].
  rewrite <- (sc_len _ _ Hs1) in Hlen. rewrite <- (sc_outs _ _ Hs1) in Hdir.
  destruct (untouched_lookup _ _ _ _ H1 Hk) as (k1 & Hk1 & _).
  destruct r as [|c'|]; simpl in Hi1; [by simplify_eq| |].
  - destruct (dispatch_chunks _ _ _ id inp direct rest size1 s1) as [l0 s2] eqn:E0. simplify_eq.
    etransitivity; [exact H1|]. eapply (IH _ _ _ _ (before ++ [c'])); eauto. by rewrite <- app_assoc.
  - etransitivity; [exact H1|]. by eapply (IH _ _ _ _ before).
Qed.

Lemma cleanup_untouched a l s k :
  Task.tasks (eng s) !! a = Some k -> Task.routes k <> [] -> untouched a s (cleanup_tasks l s).
Proof.
  unfold cleanup_tasks. revert s. induction l as [|b l IH]; intros s Hk Hr; simpl; [done|].
  destruct (Task.tasks (eng s) !! b) as [kb|] eqn:Eb; [|by apply IH].
  destruct (useless kb) eqn:Hu; [|by apply IH].
  apply andb_prop in Hu as [[_ H1%Nat.eqb_eq%nil_length_inv]%andb_prop H2%Nat.eqb_eq%nil_length_inv].
  assert (Hne : b <> a) by congruence.
  assert (Ht : Task.tasks (eng (destroy_task b s)) !! a = Some k).
  { unfold destroy_task. rewrite Eb. simpl. destruct (Task.destroy_spec b (eng s) kb Eb H1) as (-> & _).
    by rewrite lookup_delete_ne. }
  etransitivity; [|by apply IH]. split; [by rewrite Ht, Hk|].
  exists []. unfold destroy_task. rewrite Eb. simpl. by rewrite app_nil_r.
Qed.

(** A task that runs is left to the results of its outputs. *)
Lemma dispatch_untouched a k id inp s s' :
  dispatch_inv s -> (inp < length (inputs s))%nat ->
  Task.tasks (eng s) !! a = Some k -> Task.status k <> Task.FLB_TASK_NEW -> Task.routes k <> [] ->
  flb_engine_dispatch mcfg router_outs pool_coros junk id inp s = Some s' -> untouched a s s'.
Proof.
  intros Hs Hlt Hk Hst Hr. unfold flb_engine_dispatch. destruct (lookup_lt_is_Some_2 _ _ Hlt) as [i Hi].
  rewrite Hi. cbn [mbind option_bind]. destruct (di_plugin i); [|by intros [= <-]].
  destruct (dispatch_chunks _ _ _ id inp (di_direct i) (di_chunks i) 0 s) as [l s1] eqn:Ed.
  assert (H1 : untouched a s s1).
  { eapply (dispatch_chunks_untouched _ _ _ _ _ _ _ _ _ [] (chunks_of s)); [exact Ed|..|exact Hk].
    - by rewrite (dv_inputs _ Hs).
    - by apply (dv_direct _ Hs inp).
    - apply inv_here; [done|apply Hs]. }
  assert (Hcore : forall k1, core k1 = core k -> Task.status k1 <> Task.FLB_TASK_NEW /\ Task.routes k1 <> []).
  { intros k1 Hc. by rewrite (f_equal Task.status Hc : Task.status k1 = Task.status k),
      (f_equal Task.routes Hc : Task.routes k1 = Task.routes k). }
  destruct (untouched_lookup _ _ _ _ H1 Hk) as (k1 & Hk1 & [Hs1 _]%Hcore).
  destruct (tasks_start pool_coros inp (update_chunks inp (λ _, l) s1)) as [s2|] eqn:Es; [|done].
  apply (start_tasks_untouched a _ _ _ _ k1) in Es; [|done..].
  assert (H2 : untouched a s s2) by (etransitivity; [exact H1|exact Es]).
  destruct (untouched_lookup _ _ _ _ H2 Hk) as (k2 & Hk2 & [_ Hr2]%Hcore).
  intros [= <-]. etransitivity; [exact H2|]. by eapply cleanup_untouched.
Qed.

(** The engine flushes again and again. *)
Fixpoint flushes (l : list (option nat)) (s : dispatcher) : option dispatcher :=
  match l with
  | [] => Some s
  | f :: l => s ← flb_engine_flush mcfg router_outs pool_coros junk f s; flushes l s
  end.

Lemma flush_inputs_untouched a in_force inp n s s' k :
  dispatch_inv s -> (inp + n = length (inputs s))%nat ->
  Task.tasks (eng s) !! a = Some k -> Task.status k <> Task.FLB_TASK_NEW -> Task.routes k <> [] ->
  flush_inputs mcfg router_outs pool_coros junk in_force inp n s = Some s' -> untouched a s s'.
Proof.
  revert inp s k. induction n as [|n IH]; intros inp s k Hs Hn Hk Hst Hr; cbn [flush_inputs].
  { by intros [= <-]. }
  destruct (lookup_lt_is_Some_2 (inputs s) inp) as [i Hi]; [lia|]. rewrite Hi. cbn [mbind option_bind].
  destruct (_ && _); [eapply IH; eauto; lia|].
  destruct (engine_dispatch_inv 0 inp s Hs) as (s1 & E1 & H1 & Hl); [lia|]. rewrite E1. cbn [mbind option_bind].
  apply (dispatch_untouched a k) in E1 as Hu; [|done|lia|done..].
  destruct (untouched_lookup _ _ _ _ Hu Hk) as (k1 & Hk1 & Hc). intros E.
  etransitivity; [exact Hu|]. eapply (IH (S inp) s1 k1); [done|lia|done| | |exact E].
  - by rewrite (f_equal Task.status Hc : Task.status k1 = Task.status k).
  - by rewrite (f_equal Task.routes Hc : Task.routes k1 = Task.routes k).
Qed.

Lemma flushes_untouched a l s k :
  dispatch_inv s ->
  Task.tasks (eng s) !! a = Some k -> Task.status k <> Task.FLB_TASK_NEW -> Task.routes k <> [] ->
  exists s', flushes l s = Some s' /\ dispatch_inv s' /\ untouched a s s'.
Proof.
  revert s k. induction l as [|f l IH]; intros s k Hs Hk Hst Hr; simpl; [by exists s|].
  destruct (flush_inputs_inv f 0 (length (inputs s)) s Hs eq_refl) as (s1 & E1 & H1).
  unfold flb_engine_flush. rewrite E1. simpl.
  apply (flush_inputs_untouched a _ _ _ _ _ k) in E1 as Hu; [|done..].
  destruct (untouched_lookup _ _ _ _ Hu Hk) as (k1 & Hk1 & Hc).
  destruct (IH s1 k1 H1 Hk1) as (s' & E & H2 & H3).
  - by rewrite (f_equal Task.status Hc : Task.status k1 = Task.status k).
  - by rewrite (f_equal Task.routes Hc : Task.routes k1 = Task.routes k).
  - exists s'. split_and!; [done..|]. by etransitivity.
Qed.

(** ** Retries *)

(** A chunk replaced by one with its address and its lock. *)
Lemma put_chunk_inv inp c c' s :
  dispatch_inv s -> c ∈ chunks_of s inp -> dc_addr c' = dc_addr c -> dc_busy c' = dc_busy c ->
  dispatch_inv (put_chunk inp c' s).
Proof.
  intros [V1 V2 V3 V4] Hc Ha Hb.
  assert (Hi : exists i, inputs s !! inp = Some i).
  { unfold chunks_of in Hc. destruct (inputs s !! inp); [eauto|by apply not_elem_of_nil in Hc]. }
  destruct Hi as [i Hi]. set (f := λ d, if Nat.eqb (dc_addr d) (dc_addr c') then c' else d).
  assert (Hf : forall d, d ∈ chunks_of s inp -> dc_addr (f d) = dc_addr d /\ dc_busy (f d) = dc_busy d).
  { intros d Hd. unfold f. destruct (Nat.eqb_spec (dc_addr d) (dc_addr c')) as [Heq|]; [|done].
    assert (d = c) as ->; [|by rewrite Ha, Hb].
    eapply (NoDup_map_inj dc_addr); [apply (io_addr _ _ V1 inp)|done..|congruence]. }
  unfold put_chunk. fold f. split; [|simpl; by rewrite length_alter|done|by apply update_chunks_direct].
  rewrite <- (update_chunks_of s inp (map f) i) by done. simpl.
  assert (Hm : forall j d, d ∈ upd (chunks_of s) inp (map f (chunks_of s inp)) j ->
            exists d0, d0 ∈ chunks_of s j /\ dc_addr d = dc_addr d0 /\ dc_busy d = dc_busy d0).
  { intros j d. rewrite elem_of_upd. intros [[-> (d0 & -> & Hd)%elem_of_map]|[_ Hd]]; [|eauto].
    exists d0. destruct (Hf d0 Hd). auto. }
  destruct V1 as [A1 A2 A3 A4 A5 A6 A7 A8 A9]. split; try done.
  - intros j. unfold upd. case_decide as Hj; [|done]. subst j.
    replace (map dc_addr (map f (chunks_of s inp))) with (map dc_addr (chunks_of s inp)); [done|].
    rewrite map_map. apply map_ext_in. intros d Hd. symmetry. apply Hf. by apply list_elem_of_In.
  - intros j1 j2 d1 d2 (e1 & H1 & -> & _)%Hm (e2 & H2 & -> & _)%Hm. eauto.
  - intros a k Hk. destruct (A6 a k Hk) as (d & Hd & Hda & Hdb).
    destruct (decide (Task.i_ins k = inp)) as [Heq|Hne].
    + exists (f d). rewrite Heq in *. destruct (Hf d Hd) as [-> ->]. split_and!; [|done..].
      rewrite elem_of_upd, elem_of_map. eauto.
    + exists d. rewrite elem_of_upd. auto.
  - intros j d (d0 & Hd & -> & ->)%Hm. eauto.
Qed.

Lemma equiv_inv s w :
  engine_equiv (eng s) w -> dispatch_inv s -> dispatch_inv (set_engine w s).
Proof.
  intros He [V1 V2 V3 V4]. split; simpl.
  - change (chunks_of (set_engine w s)) with (chunks_of s). by rewrite <- He.
  - by rewrite (ee_in _ _ He).
  - by rewrite (ee_outs _ _ He).
  - by rewrite (ee_outs _ _ He).
Qed.

Lemma give_inv task out retry s ret s' :
  dispatch_inv s -> give task out retry s = Some (ret, s') -> dispatch_inv s'.
Proof.
  intros Hs. unfold give. destruct (Task.outputs (eng s) !! out) as [o|] eqn:Ho; [|done].
  destruct (give_ok task out retry s) as (ret1 & s1 & E & He & Hf & _).
  { by eapply lookup_lt_Some. }
  { apply Hs. }
  unfold give in E. rewrite Ho in E. rewrite E. intros [= <- <-].
  apply (equiv_inv s (eng s1)) in Hs as [V1 V2 V3 V4]; [|done]. split.
  - unfold chunks_of in *. by rewrite (sf_inputs _ _ Hf).
  - by rewrite (sf_inputs _ _ Hf).
  - by rewrite (sf_queues _ _ Hf).
  - by rewrite (sf_inputs _ _ Hf).
Qed.

(** A flush that could not be started leaves the task as it was. *)
Lemma flush_failed threaded task retry q t m q' t' m' k :
  flush_sink threaded task retry q t m = Some (-1, q', t', m') ->
  Task.tasks (Singleplex.eng q) !! task = Some k -> Task.tasks (Singleplex.eng q') !! task = Some k.
Proof.
  unfold flush_sink, task_flush. destruct (next_outcome t) as [o t1].
  destruct threaded, o; intros [= <- <- <-] Hk; simpl; try done.
  rewrite !lookup_alter_eq, Hk. simpl. f_equal. unfold Task.set_users. simpl.
  replace (Task.users k + 1 - 1) with (Task.users k) by lia. by destruct k.
Qed.

Lemma find_chunk_spec inp addr s c :
  find_chunk inp addr s = Some c -> c ∈ chunks_of s inp /\ dc_addr c = addr.
Proof.
  unfold find_chunk, chunks_of. destruct (inputs s !! inp) as [i|]; simpl; [|done].
  destruct (list_find _ _) as [[n d]|] eqn:E; simpl; [|done]. intros [= <-].
  apply list_find_Some in E as (H1 & H2 & _). split; [by eapply list_elem_of_lookup_2|done].
Qed.

Lemma carried_busy s task k c :
  dispatch_inv s -> Task.tasks (eng s) !! task = Some k ->
  c ∈ chunks_of s (Task.i_ins k) -> dc_addr c = Task.ic k -> dc_busy c = true.
Proof.
  intros [V1 _ _ _] Hk Hc Ha. destruct (io_task _ _ V1 task k Hk) as (d & Hd & Hda & Hdb).
  assert (c = d) as ->; [|done].
  eapply (NoDup_map_inj dc_addr); [apply (io_addr _ _ V1)|done..|congruence].
Qed.

Lemma put_chunk_in inp c c' s :
  c ∈ chunks_of s inp -> dc_addr c' = dc_addr c -> c' ∈ chunks_of (put_chunk inp c' s) inp.
Proof.
  unfold chunks_of, put_chunk, update_chunks. simpl. rewrite list_lookup_alter_eq.
  destruct (inputs s !! inp) as [i|]; simpl; [|by intros ?%not_elem_of_nil].
  intros Hc Ha. apply elem_of_map. exists c. by rewrite Ha, Nat.eqb_refl.
Qed.

Lemma same_conf_inv s s' :
  same_conf s s' -> eng s' = eng s -> dispatch_inv s -> dispatch_inv s'.
Proof.
  intros [S1 S2 _ _ _] He [V1 V2 V3 V4]. split; rewrite ?He, ?S1, ?S2; try done.
  unfold chunks_of in *. by rewrite S1.
Qed.

Lemma flush_keeps_busy c size buf n c' rc :
  flb_input_chunk_flush c size = (buf, n, c', rc) -> dc_busy c = true -> dc_busy c' = true.
Proof.
  unfold flb_input_chunk_flush, flb_input_chunk_set_up.
  destruct (dc_up c), (dc_up_ret c =? 0), (dc_up_ret c =? -1); simpl;
    destruct (dc_content c); simpl; by intros [= <- <- <- <-].
Qed.

(** The chunk of a task is brought up and read: only the chunk changes. *)
Lemma read_for_retry s task k c ret c1 buf n c2 rc :
  dispatch_inv s -> Task.tasks (eng s) !! task = Some k ->
  find_chunk (Task.i_ins k) (Task.ic k) s = Some c ->
  flb_input_chunk_set_up c = (ret, c1) -> flb_input_chunk_flush c1 0 = (buf, n, c2, rc) ->
  let s' := foldl (λ s e, log e s) (put_chunk (Task.i_ins k) c2 (put_chunk (Task.i_ins k) c1 s)) rc in
  dispatch_inv s' /\ eng s' = eng s.
Proof.
  intros Hs Hk Hfc E1 E2. apply find_chunk_spec in Hfc as [Hc Ha].
  pose proof (carried_busy _ _ _ _ Hs Hk Hc Ha) as Hb.
  assert (F1 : dc_addr c1 = dc_addr c /\ dc_busy c1 = dc_busy c).
  { revert E1. unfold flb_input_chunk_set_up. by destruct (dc_up c), (dc_up_ret c =? 0); intros [= <- <-]. }
  destruct F1 as [Fa Fb]. apply chunk_flush_facts in E2 as Ga. destruct Ga as [Ga _].
  apply flush_keeps_busy in E2 as Gb; [|congruence].
  destruct (log_all (put_chunk (Task.i_ins k) c2 (put_chunk (Task.i_ins k) c1 s)) rc) as (H1 & H2 & _).
  split; [|exact H2]. eapply same_conf_inv; [exact H1|exact H2|].
  eapply put_chunk_inv; [by eapply put_chunk_inv|by eapply put_chunk_in|done|congruence].
Qed.

(** A failed retry of an output that is not synchronous: the retry goes, and
    nothing else changes in the task. *)
Lemma dispatch_retry_failed task retry env s k c o s1 :
  dispatch_inv s -> Task.tasks (eng s) !! task = Some k ->
  find_chunk (Task.i_ins k) (Task.ic k) s = Some c -> fst (flb_input_chunk_set_up c) <> -1 ->
  Task.outputs (eng s) !! Task.o_ins retry = Some o -> Task.o_sync o = false ->
  flb_engine_dispatch_retry task retry env s = Some (-1, s1) ->
  dispatch_inv s1 /\ Task.tasks (eng s1) !! task =
    Some (Task.set_retries (filter (λ x, Task.rty_addr x <> Task.rty_addr retry) (Task.retries k)) k).
Proof.
  intros Hs Hk Hfc Hup Ho Hsync. unfold flb_engine_dispatch_retry. rewrite Hk. cbn [mbind option_bind].
  rewrite Hfc. cbn [mbind option_bind].
  destruct (flb_input_chunk_set_up c) as [ret c1] eqn:E1. simpl in Hup. apply Z.eqb_neq in Hup as ->.
  destruct (flb_input_chunk_flush c1 0) as [[[buf n] c2] rc] eqn:E2.
  destruct (read_for_retry _ _ _ _ _ _ _ _ _ _ Hs Hk Hfc E1 E2) as [Hs3 He3].
  set (s3 := foldl _ _ rc) in *. clearbody s3. rewrite He3.
  assert (Hdone : forall s4, dispatch_inv s4 -> Task.tasks (eng s4) !! task = Some k ->
    let s' := on_eng (Task.flb_task_retry_destroy task retry) s4 in
    dispatch_inv s' /\ Task.tasks (eng s') !! task =
      Some (Task.set_retries (filter (λ x, Task.rty_addr x <> Task.rty_addr retry) (Task.retries k)) k)).
  { intros s4 H4 Hk4. split; [apply equiv_inv; [apply retry_destroy_equiv|done]|].
    simpl. by rewrite lookup_alter_eq, Hk4. }
  destruct buf; cbn [negb]; [|intros [= <-]; apply Hdone; congruence].
  rewrite Ho. cbn [mbind option_bind].
  destruct (give task (Task.o_ins retry) (Some retry) s3) as [[ret2 s4]|] eqn:Eg; [|done].
  cbn [mbind option_bind]. rewrite Hsync.
  destruct (Z.eqb_spec ret2 (-1)) as [->|]; intros [= <-].
  apply Hdone.
  - eapply give_inv; [exact Hs3|exact Eg].
  - revert Eg. unfold give. rewrite He3, Ho. simpl. destruct (queues s3 !! Task.o_ins retry) as [q|]; [|done]. simpl.
    unfold output_sink. rewrite Hsync.
    destruct (flush_sink _ _ _ _ _ _) as [[[[r q'] t'] m']|] eqn:Es; [|done]. intros [= -> <-].
    by apply (flush_failed _ _ _ _ _ _ _ _ _ k) in Es.
Qed.

(** ** Properties *)

(** C11: a flush of the engine always ends, and afterwards, as before, every
    chunk is locked exactly when a task carries it, and no chunk is carried by
    two tasks: no chunk gets a second task and none stays locked without one,
    whatever allocations, reads and flushes fail. *)
Theorem flush_keeps_locks in_force s :
  dispatch_inv s ->
  exists s', flb_engine_flush mcfg router_outs pool_coros junk in_force s = Some s' /\ dispatch_inv s' /\
    (forall inp c, c ∈ chunks_of s' inp ->
       (dc_busy c = true <-> exists a k, Task.tasks (eng s') !! a = Some k /\ Task.ic k = dc_addr c)) /\
    (forall a b ka kb, Task.tasks (eng s') !! a = Some ka -> Task.tasks (eng s') !! b = Some kb ->
       Task.ic ka = Task.ic kb -> a = b).
Proof.
  intros Hs. destruct (flush_inputs_inv in_force 0 (length (inputs s)) s Hs eq_refl) as (s' & E & Hs').
  exists s'. split_and!; [done..| |apply Hs']. intros inp c Hc. split; [by apply (io_busy _ _ (dv_on _ Hs') inp)|].
  intros (a & k & Hk & Ha). destruct (io_task _ _ (dv_on _ Hs') a k Hk) as (d & Hd & Hda & _).
  assert (inp = Task.i_ins k) as -> by (apply (io_apart _ _ (dv_on _ Hs') _ _ c d); [done..|congruence]).
  by eapply carried_busy.
Qed.

(** When no output is limited to one task per flush, starting the tasks
    of an input hands every new task, in order, to each of its outputs once, or
    runs the formatter under test in place of the output; tasks that were started
    before are passed over.  A new task with an output left to answer is running
    afterwards, and keeps the routes of these outputs. *)
Theorem start_hands_over inp s :
  dispatch_inv s -> no_held (flags s) ->
  exists s', tasks_start pool_coros inp s = Some s' /\ dispatch_inv s' /\
    calls s' = calls s ++ concat (map (task_calls s) (input_tasks inp s)) /\
    starts (input_tasks inp s) s s'.
Proof.
  intros Hs Hn. destruct (start_inv inp s Hs) as (s' & E & Hs' & _).
  destruct (start_tasks_spec (input_tasks inp s) 0 s (chunks_of s)) as (s1 & E1 & _ & Hc & Ht); try apply Hs; [done| |].
  - apply Forall_forall. intros a (k & Hk & _)%(io_listed _ _ (dv_on _ Hs)). eauto.
  - unfold tasks_start in E. rewrite E in E1. simplify_eq. eauto.
Qed.

(** C32: no chunk is left behind: with memory available, a chunk that is not
    locked, can be read, has content and a tag, and goes to some output, has a
    task for exactly these outputs after its input was gone through, unless
    there is no task id left. *)
Theorem ready_chunks_get_tasks id inp i s l' s' c :
  dispatch_inv s -> inputs s !! inp = Some i -> mem s = [] -> Task.map_size_ok (eng s) ->
  dispatch_chunks mcfg router_outs junk id inp (di_direct i) (di_chunks i) 0 s = (l', s') ->
  c ∈ di_chunks i -> dc_busy c = false -> ready c = true -> wanted (di_direct i) c (eng s) <> [] ->
  carried (di_direct i) c (eng s') \/ Task.map_get_task_id (eng s') [] = (None, eng s', []).
Proof.
  intros Hs Hi Hm Hok E. apply (dispatch_chunks_ready _ _ _ _ _ _ _ _ [] (chunks_of s)) in E as [_ H]; auto.
  - rewrite (dv_inputs _ Hs). by eapply lookup_lt_Some.
  - by apply (dv_direct _ Hs inp).
  - apply inv_here; [done|apply Hs].
Qed.

(** When the last retry of a task fails at once, because its chunk cannot
    be read or the flush cannot be created or sent, the retry is removed but the
    task is not destroyed: it has no user and no retry, and however often the
    engine flushes afterwards it is handed to no output, and stays, with its id,
    and its chunk locked. *)
Theorem failed_retry_strands_task task retry env s k c o s1 :
  dispatch_inv s -> Task.tasks (eng s) !! task = Some k ->
  Task.status k = Task.FLB_TASK_RUNNING -> Task.routes k <> [] ->
  Task.users k = 0 -> Task.retries k = [retry] ->
  find_chunk (Task.i_ins k) (Task.ic k) s = Some c -> fst (flb_input_chunk_set_up c) <> -1 ->
  Task.outputs (eng s) !! Task.o_ins retry = Some o -> Task.o_sync o = false ->
  flb_engine_dispatch_retry task retry env s = Some (-1, s1) ->
  Task.tasks (eng s1) !! task = Some (Task.set_retries [] k) /\
  forall l, exists s2, flushes l s1 = Some s2 /\ untouched task s1 s2 /\
    exists d, d ∈ chunks_of s2 (Task.i_ins k) /\ dc_addr d = Task.ic k /\ dc_busy d = true.
Proof.
  intros Hs Hk Hst Hr Hu Hre Hfc Hup Ho Hsync E.
  destruct (dispatch_retry_failed _ _ _ _ _ _ _ _ Hs Hk Hfc Hup Ho Hsync E) as [Hs1 Hk1].
  rewrite Hre, filter_cons_False, filter_nil in Hk1 by (intros H; by apply H). split; [done|]. intros l.
  destruct (flushes_untouched task l s1 _ Hs1 Hk1) as (s2 & E2 & Hs2 & Hu2);
    [by simpl; rewrite Hst|done|].
  exists s2. split_and!; [done..|].
  destruct (untouched_lookup _ _ _ _ Hu2 Hk1) as (k2 & Hk2 & Hc).
  destruct (io_task _ _ (dv_on _ Hs2) task k2 Hk2) as (d & Hd & Hda & Hdb). exists d.
  rewrite (f_equal Task.i_ins Hc : Task.i_ins k2 = Task.i_ins k) in Hd.
  by rewrite (f_equal Task.ic Hc : Task.ic k2 = Task.ic k) in Hda.
Qed.

End Chunks.

(** ** Witnesses *)

Definition ex_chunk (addr : nat) (b : bool) (r : content) : dchunk :=
  {| dc_addr := addr; dc_busy := b; dc_up := true; dc_up_ret := 0; dc_down_ok := true; dc_content := r;
     dc_tag := Some 3; dc_records := 5; dc_type := 1; dc_mask := [] |}.

Definition ex_retry : Task.flb_task_retry := {| Task.rty_addr := 5; Task.attempts := 1; Task.o_ins := 0 |}.

Definition ex_route (out : nat) : Task.flb_task_route :=
  {| Task.rt_status := Task.FLB_TASK_ROUTE_INACTIVE; Task.rt_out := out |}.

Definition ex_task (st : Z) (outs : list nat) (l : list Task.flb_task_retry) : Task.flb_task :=
  {| Task.t_id := 0; Task.ref_id := 0; Task.status := st; Task.users := 0; Task.total_events := 5;
     Task.ev_size := 100; Task.ic := 7; Task.records := 5; Task.routes := map ex_route outs;
     Task.retries := l; Task.i_ins := 0 |}.

Definition ex_out (id : Z) : Task.output :=
  {| Task.o_id := id; Task.retry_limit := 3; Task.o_sync := false; Task.o_threaded := false;
     Task.o_has_latency := false |}.

Definition ex_queue : out_queue :=
  {| Singleplex.eng := Singleplex.ex_engine; pending := []; in_progress := []; flushing := []; freed := [];
     stale := false; next_node := 0 |}.

(** Two outputs, and one input with two chunks: one carried by a task, one new. *)
Definition ex_disp (k : Task.flb_task) (r : content) (m : tape) : dispatcher :=
  {| eng := {| Task.task_map := Some 4%nat :: replicate 255 None; Task.tasks := {[ 4%nat := k ]};
               Task.in_tasks := [[4%nat]]; Task.outputs := [ex_out 0; ex_out 1];
               Task.sched := Scheduler.ex_sched; Task.next_addr := 10; Task.effects := [] |};
     inputs := [{| di_plugin := Some 1%nat; di_direct := [0%nat];
                   di_chunks := [ex_chunk 7 true r; ex_chunk 8 false (C_buffer 100 0)] |}];
     queues := [ex_queue; ex_queue];
     flags := [{| no_multiplex := false; test_formatter := false |};
               {| no_multiplex := false; test_formatter := false |}];
     fates := []; mem := m; calls := [] |}.

Lemma ex_inv st outs l r m :
  Forall (λ o, (o < 2)%nat) outs -> dispatch_inv (ex_disp (ex_task st outs l) r m).
Proof.
  intros Ho.
  assert (Hk : forall a k, Task.tasks (eng (ex_disp (ex_task st outs l) r m)) !! a = Some k ->
            a = 4%nat /\ k = ex_task st outs l).
  { intros a k H. simpl in H. by apply (lookup_singleton_Some 4%nat) in H as [<- <-]. }
  assert (Hch : forall i c, c ∈ chunks_of (ex_disp (ex_task st outs l) r m) i ->
            i = O /\ (c = ex_chunk 7 true r \/ c = ex_chunk 8 false (C_buffer 100 0))).
  { intros [|i] c Hc; [|by apply not_elem_of_nil in Hc]. simpl in Hc. set_solver. }
  split; [split| | |].
  - intros a k [-> _]%Hk. simpl. lia.
  - intros [|inp] a; unfold tasks_of; simpl.
    + rewrite list_elem_of_singleton. split.
      * intros ->. exists (ex_task st outs l). split; [apply lookup_singleton_eq|done].
      * by intros (k & [-> _]%Hk & _).
    + split; [by intros ?%not_elem_of_nil|]. by intros (k & [_ ->]%Hk & H).
  - intros [|inp]; [apply NoDup_singleton|constructor].
  - intros [|inp]; [|constructor]. simpl. repeat constructor; set_solver.
  - by intros i j c d [-> _]%Hch [-> _]%Hch.
  - intros a k [_ ->]%Hk. exists (ex_chunk 7 true r). split; [apply list_elem_of_here|done].
  - intros i c [_ [-> | ->]]%Hch Hb; [|done]. exists 4%nat, (ex_task st outs l). split; [apply lookup_singleton_eq|done].
  - by intros a b ka kb [-> _]%Hk [-> _]%Hk.
  - intros a k x [_ ->]%Hk (o & -> & Hin)%elem_of_map. rewrite Forall_forall in Ho. simpl. auto.
  - done.
  - done.
  - intros [|inp] i; [|done]. intros [= <-]. simpl. apply Forall_singleton. lia.
Qed.

Definition ex_mcfg : RoutesMask.mask_config :=
  {| RoutesMask.route_mask_size := 1; RoutesMask.route_mask_slots := 64; RoutesMask.route_empty_mask := None |}.

Definition no_pool : nat -> list call -> Z := λ _ _, 0.

Lemma flush_keeps_locks_witness :
  exists s', flb_engine_flush (regex := unit) ex_mcfg [] no_pool 0 None
    (ex_disp (ex_task Task.FLB_TASK_NEW [0; 1]%nat []) (C_buffer 9 0) [true; false]) = Some s'.
Proof.
  destruct (flush_keeps_locks (regex := unit) ex_mcfg [] no_pool 0 None
    (ex_disp (ex_task Task.FLB_TASK_NEW [0; 1]%nat []) (C_buffer 9 0) [true; false])) as (s' & H & _).
  - apply ex_inv. repeat constructor.
  - by exists s'.
Defined.

Lemma start_hands_over_witness :
  exists s', tasks_start no_pool 0 (ex_disp (ex_task Task.FLB_TASK_NEW [0; 1]%nat []) (C_buffer 9 0) []) = Some s' /\
    calls s' = [D_hand 4 0 None; D_hand 4 1 None].
Proof.
  destruct (start_hands_over no_pool 0
    (ex_disp (ex_task Task.FLB_TASK_NEW [0; 1]%nat []) (C_buffer 9 0) [])) as (s' & H1 & _ & H2 & _).
  - apply ex_inv. repeat constructor.
  - repeat constructor.
  - exists s'. split; [done|]. rewrite H2. vm_compute. reflexivity.
Defined.

Lemma ready_chunks_get_tasks_witness :
  let s := ex_disp (ex_task Task.FLB_TASK_RUNNING [0]%nat []) (C_buffer 9 0) [] in
  let s' := snd (dispatch_chunks (regex := unit) ex_mcfg [] 0 0 0 [0%nat]
                   [ex_chunk 7 true (C_buffer 9 0); ex_chunk 8 false (C_buffer 100 0)] 0 s) in
  carried (regex := unit) ex_mcfg [] [0%nat] (ex_chunk 8 false (C_buffer 100 0)) (eng s') \/
  Task.map_get_task_id (eng s') [] = (None, eng s', []).
Proof.
  intros s s'.
  eapply (ready_chunks_get_tasks (regex := unit) ex_mcfg [] no_pool 0 0 0
    {| di_plugin := Some 1%nat; di_direct := [0%nat];
       di_chunks := [ex_chunk 7 true (C_buffer 9 0); ex_chunk 8 false (C_buffer 100 0)] |} s).
  - apply ex_inv. repeat constructor.
  - reflexivity.
  - reflexivity.
  - split; vm_compute; [discriminate|reflexivity].
  - apply surjective_pairing.
  - simpl. set_solver.
  - reflexivity.
  - reflexivity.
  - discriminate.
Defined.

Lemma failed_retry_strands_task_witness :
  exists s1, flb_engine_dispatch_retry 4 ex_retry Task.ex_env
      (ex_disp (ex_task Task.FLB_TASK_RUNNING [0]%nat [ex_retry]) C_error []) = Some (-1, s1) /\
    Task.tasks (eng s1) !! 4%nat = Some (ex_task Task.FLB_TASK_RUNNING [0]%nat []).
Proof.
  set (s := ex_disp (ex_task Task.FLB_TASK_RUNNING [0]%nat [ex_retry]) C_error []).
  destruct (flb_engine_dispatch_retry 4 ex_retry Task.ex_env s) as [[r s1]|] eqn:E; [|vm_compute in E; discriminate].
  assert (r = -1) as -> by (vm_compute in E; congruence). exists s1. split; [done|].
  apply (failed_retry_strands_task (regex := unit) ex_mcfg [] no_pool 0 4 ex_retry Task.ex_env s
    (ex_task Task.FLB_TASK_RUNNING [0]%nat [ex_retry]) (ex_chunk 7 true C_error) (ex_out 0) s1);
    try reflexivity; [apply ex_inv; repeat constructor|discriminate|discriminate|exact E].
Defined.

(** A task with two outputs, one of which takes one task per flush and is
    busy: the task is handed to the other output and counts as running, so the
    busy output is passed over for good, also once it is idle. *)
Example held_route_is_lost :
  let held := [{| no_multiplex := false; test_formatter := false |};
               {| no_multiplex := true; test_formatter := false |}] in
  let busy := [ex_queue; launch 3 ex_queue] in
  let s k q := {| eng := eng (ex_disp k (C_buffer 9 0) []); inputs := inputs (ex_disp k (C_buffer 9 0) []);
                  queues := q; flags := held; fates := []; mem := []; calls := [] |} in
  (exists s1, tasks_start no_pool 0 (s (ex_task Task.FLB_TASK_NEW [0; 1]%nat []) busy) = Some s1 /\
     calls s1 = [D_hand 4 0 None] /\
     Task.status <$> Task.tasks (eng s1) !! 4%nat = Some Task.FLB_TASK_RUNNING) /\
  (exists s2, tasks_start no_pool 0 (s (ex_task Task.FLB_TASK_RUNNING [0; 1]%nat []) [ex_queue; ex_queue]) = Some s2 /\
     calls s2 = []).
Proof.
  split; eexists; (split; [vm_compute; reflexivity|]).
  - split; vm_compute; reflexivity.
  - vm_compute. reflexivity.
Qed.

(** The route of a task cannot be allocated: the chunk is dropped, with what
    it holds, although the lack of memory may pass. *)
Example no_memory_drops_chunk :
  exists s', dispatch_chunks (regex := unit) ex_mcfg [] 0 0 0 [0%nat] [ex_chunk 8 false (C_buffer 100 0)] 0
    (ex_disp (ex_task Task.FLB_TASK_RUNNING [0]%nat []) (C_buffer 9 0) [true; true; true; false]) = ([], s').
Proof. eexists. vm_compute. reflexivity. Qed.

End Dispatch.
