(* ===== verification/EventLoop.v ===== *)
(** * The event loop: priorities of events

    The engine and every output thread wait for events with epoll and handle
    them by priority: include/fluent-bit/flb_bucket_queue.h is the queue,
    include/fluent-bit/flb_event_loop.h fills it from the reported events and
    walks it, lib/monkey/mk_core/mk_event.c and mk_event_epoll.c register,
    remove and inject events.

    Module [BucketQueue] has the queue and its refinement to a list of
    prioritised items in order of arrival, from which the oldest of the most
    urgent items is taken.  Module [Event] has the events and the operations of
    handlers on them.  Module [Live] has one round of
    [flb_event_priority_live_foreach], for any handler and any answers of
    epoll: it ends, loses no event but those handled, unregistered, or dropped by
    the last step of the loop, and in a round without new events it goes by
    priority and then by age.

    An item of the queue is the [_priority_head] of an event; items are named by
    the number of their event.  A list of the source is the list of its items
    from head to tail. *)

From S2P Require Import Prelude.

Abbreviation eid := nat.

(** Unlinking an item from every bucket: [mk_list_del] takes the item out of the
    list it is in. *)
Definition unlink (x : eid) (l : list eid) : list eid := filter (λ y, y <> x) l.

Module BucketQueue.

(** [top] is the index of the bucket it points to.  [linked] has the items whose
    [prev] is not NULL: those in a list. *)
Record flb_bucket_queue := mkbq {
  buckets : list (list eid);
  n_buckets : nat;
  top : nat;
  n_items : Z;
  linked : gset eid;
}.

Definition flb_bucket_queue_create (priorities : nat) : flb_bucket_queue :=
  mkbq (replicate priorities []) priorities priorities 0 ∅.

Definition flb_bucket_queue_is_empty (q : flb_bucket_queue) : bool :=
  Nat.eqb (top q) (n_buckets q).

(** The list at [top], [mk_list_is_empty (q->top) == 0]. *)
Definition top_list (q : flb_bucket_queue) : list eid :=
  default [] (buckets q !! top q).

Definition set_top (t : nat) (q : flb_bucket_queue) : flb_bucket_queue :=
  mkbq (buckets q) (n_buckets q) t (n_items q) (linked q).

Definition set_items (n : Z) (q : flb_bucket_queue) : flb_bucket_queue :=
  mkbq (buckets q) (n_buckets q) (top q) n (linked q).

(** The loop of [flb_bucket_queue_seek]: it moves [top] up, at most to the end,
    which the distance to the end bounds. *)
Fixpoint seek_loop (fuel : nat) (q : flb_bucket_queue) : flb_bucket_queue :=
  match fuel with
  | O => q
  | S fuel' =>
      if negb (flb_bucket_queue_is_empty q) && bool_decide (top_list q = [])
      then seek_loop fuel' (set_top (S (top q)) q)
      else q
  end.

Definition flb_bucket_queue_seek (q : flb_bucket_queue) : flb_bucket_queue :=
  seek_loop (n_buckets q - top q) q.

(** [mk_list_add] on the list of a bucket, [mk_list_del]. *)
Definition mk_list_add (x : eid) (p : nat) (q : flb_bucket_queue) : flb_bucket_queue :=
  mkbq (alter (λ l, l ++ [x]) p (buckets q)) (n_buckets q) (top q) (n_items q)
    ({[x]} ∪ linked q).

Definition mk_list_del (x : eid) (q : flb_bucket_queue) : flb_bucket_queue :=
  mkbq (map (unlink x) (buckets q)) (n_buckets q) (top q) (n_items q)
    (linked q ∖ {[x]}).

(** [priority] is a [size_t]. *)
Definition flb_bucket_queue_add (q : flb_bucket_queue) (item : eid) (priority : Z)
  : Z * flb_bucket_queue :=
  if Z.of_nat (n_buckets q) <=? priority then (-1, q)
  else
    let p := Z.to_nat priority in
    let q := flb_bucket_queue_seek q in
    let q := mk_list_add item p q in
    let q := if Nat.ltb p (top q) then set_top p q else q in
    (0, set_items (u64 (n_items q + 1)) q).

Definition flb_bucket_queue_find_min (q : flb_bucket_queue) : option eid * flb_bucket_queue :=
  let q := flb_bucket_queue_seek q in
  if flb_bucket_queue_is_empty q then (None, q) else (head (top_list q), q).

Definition flb_bucket_queue_delete_min (q : flb_bucket_queue) : flb_bucket_queue :=
  let q := flb_bucket_queue_seek q in
  if flb_bucket_queue_is_empty q then q
  else
    match head (top_list q) with
    | None => q
    | Some x =>
        let q := flb_bucket_queue_seek (mk_list_del x q) in
        set_items (u64 (n_items q - 1)) q
    end.

Definition flb_bucket_queue_pop_min (q : flb_bucket_queue) : option eid * flb_bucket_queue :=
  let '(item, q) := flb_bucket_queue_find_min q in
  (item, flb_bucket_queue_delete_min q).

Definition flb_bucket_queue_destroy (q : flb_bucket_queue) : Z * option flb_bucket_queue :=
  let q := flb_bucket_queue_seek q in
  if flb_bucket_queue_is_empty q then (0, None) else (-1, Some q).

(** [flb_event_load_bucket_queue_event]: an item that is in a list is left
    there.  The priority of an event is a [char], which the call makes a
    [size_t]. *)
Definition flb_event_load_bucket_queue_event (q : flb_bucket_queue) (x : eid) (priority : Z)
  : flb_bucket_queue :=
  if bool_decide (x ∈ linked q) then q
  else (flb_bucket_queue_add q x (u64 (i8 priority))).2.

(** ** What the queue promises

    The items in order of arrival, each with its priority; the next one is the
    oldest of those with the least priority value. *)

Abbreviation aqueue := (list (nat * eid)).

Fixpoint a_min (a : aqueue) : option (nat * eid) :=
  match a with
  | [] => None
  | (p, x) :: a' =>
      match a_min a' with
      | Some (p', x') => if Nat.leb p p' then Some (p, x) else Some (p', x')
      | None => Some (p, x)
      end
  end.

Definition a_remove (x : eid) (a : aqueue) : aqueue := filter (λ e, e.2 <> x) a.

Definition a_load (n : nat) (x : eid) (priority : Z) (a : aqueue) : aqueue :=
  if bool_decide (x ∈ map snd a) then a
  else if Z.of_nat n <=? u64 (i8 priority) then a
  else a ++ [(Z.to_nat (u64 (i8 priority)), x)].

Definition a_delete_min (a : aqueue) : aqueue :=
  match a_min a with Some e => a_remove e.2 a | None => a end.

(** The operations of the clients, with their results. *)
Inductive op := Load (x : eid) (priority : Z) | FindMin | DeleteMin | PopMin
              | Unlink (x : eid) | Destroyable.

Definition step (q : flb_bucket_queue) (o : op) : option eid * flb_bucket_queue :=
  match o with
  | Load x p => (None, flb_event_load_bucket_queue_event q x p)
  | FindMin => flb_bucket_queue_find_min q
  | DeleteMin => (None, flb_bucket_queue_delete_min q)
  | PopMin => flb_bucket_queue_pop_min q
  | Unlink x => (None, mk_list_del x q)
  | Destroyable =>
      (if (flb_bucket_queue_destroy q).1 =? 0 then None else Some 0%nat, q)
  end.

Definition a_step (n : nat) (a : aqueue) (o : op) : option eid * aqueue :=
  match o with
  | Load x p => (None, a_load n x p a)
  | FindMin => (snd <$> a_min a, a)
  | DeleteMin => (None, a_delete_min a)
  | PopMin => (snd <$> a_min a, a_delete_min a)
  | Unlink x => (None, a_remove x a)
  | Destroyable => (if decide (a = []) then None else Some 0%nat, a)
  end.

Fixpoint run {S} (f : S -> op -> option eid * S) (s : S) (ops : list op) : list (option eid) :=
  match ops with
  | [] => []
  | o :: ops' => let '(r, s') := f s o in r :: run f s' ops'
  end.

(** The buckets hold the items of each priority, oldest first; [top] is at or
    below the first bucket with items. *)
Record repr (q : flb_bucket_queue) (a : aqueue) : Prop := {
  r_len : length (buckets q) = n_buckets q;
  r_bucket : forall p, (p < n_buckets q)%nat ->
    buckets q !! p = Some (map snd (filter (λ e, e.1 = p) a));
  r_prio : forall e, e ∈ a -> (e.1 < n_buckets q)%nat;
  r_nodup : NoDup (map snd a);
  r_linked : forall x, x ∈ linked q <-> x ∈ map snd a;
  r_top : (top q <= n_buckets q)%nat;
  r_above : forall e, e ∈ a -> (top q <= e.1)%nat;
}.

Lemma repr_top_list q a : repr q a -> (top q < n_buckets q)%nat ->
  top_list q = map snd (filter (λ e, e.1 = top q) a).
Proof. intros H Ht. unfold top_list. by rewrite (r_bucket _ _ H). Qed.

Lemma repr_create n : repr (flb_bucket_queue_create n) [].
Proof.
  split; simpl; try by (intros; set_solver).
  - by rewrite length_replicate.
  - intros p Hp. by apply lookup_replicate_2.
  - constructor.
Qed.

Lemma repr_set_items q a n : repr q a -> repr (set_items n q) a.
Proof. intros []. by split. Qed.

Lemma repr_set_top q a t : repr q a ->
  (t <= n_buckets q)%nat -> (forall e, e ∈ a -> (t <= e.1)%nat) -> repr (set_top t q) a.
Proof. intros [] ? ?. by split. Qed.

(** *** Seeking *)

(** Where the search stops: at the end, or at a bucket with items. *)
Definition settled (q : flb_bucket_queue) : Prop :=
  flb_bucket_queue_is_empty q = true \/ top_list q <> [].

Lemma seek_loop_spec fuel q a : repr q a -> (n_buckets q - top q <= fuel)%nat ->
  repr (seek_loop fuel q) a /\ settled (seek_loop fuel q) /\
  n_buckets (seek_loop fuel q) = n_buckets q /\
  linked (seek_loop fuel q) = linked q /\ buckets (seek_loop fuel q) = buckets q.
Proof.
  revert q. induction fuel as [|fuel IH]; intros q Hq Hf; simpl.
  { split_and!; [done| |done..]. left. apply Nat.eqb_eq.
    pose proof (r_top _ _ Hq). lia. }
  destruct (flb_bucket_queue_is_empty q) eqn:He; simpl.
  { split_and!; [done|by left|done..]. }
  case_bool_decide as Hl; [|split_and!; [done|by right|done..]].
  assert (Ht : (top q < n_buckets q)%nat).
  { pose proof (r_top _ _ Hq). apply Nat.eqb_neq in He. lia. }
  destruct (IH (set_top (S (top q)) q)) as (H1 & H2 & H3 & H4 & H5); simpl; [|lia|done].
  apply repr_set_top; [done|lia|]. intros e He'.
  pose proof (r_above _ _ Hq e He').
  destruct (decide (e.1 = top q)) as [Heq|]; [|lia].
  rewrite (repr_top_list _ _ Hq Ht) in Hl. exfalso.
  assert (Hin : e ∈ filter (λ e, e.1 = top q) a) by by apply list_elem_of_filter.
  apply map_eq_nil in Hl. rewrite Hl in Hin. by apply not_elem_of_nil in Hin.
Qed.

Lemma seek_repr q a : repr q a -> repr (flb_bucket_queue_seek q) a.
Proof. intros H. by apply (seek_loop_spec _ _ _ H). Qed.
Lemma seek_settled q a : repr q a -> settled (flb_bucket_queue_seek q).
Proof. intros H. by apply (seek_loop_spec _ _ _ H). Qed.
Lemma seek_same q a : repr q a ->
  n_buckets (flb_bucket_queue_seek q) = n_buckets q /\
  linked (flb_bucket_queue_seek q) = linked q /\
  buckets (flb_bucket_queue_seek q) = buckets q.
Proof. intros H. by apply (seek_loop_spec _ _ _ H). Qed.
#[local] Hint Resolve seek_repr seek_settled repr_set_items : flb.

(** *** The minimum *)

Lemma a_min_None a : a_min a = None <-> a = [].
Proof.
  destruct a as [|[p x] a]; simpl; [done|].
  destruct (a_min a) as [[p' x']|]; [case_match|]; done.
Qed.

Lemma a_min_spec a p x : a_min a = Some (p, x) ->
  (forall e, e ∈ a -> (p <= e.1)%nat) /\ head (filter (λ e, e.1 = p) a) = Some (p, x).
Proof.
  revert p x. induction a as [|[q y] a IH]; intros p x; simpl; [done|].
  destruct (a_min a) as [[p' x']|] eqn:Hm.
  - destruct (IH p' x' eq_refl) as [Hle Hh].
    destruct (Nat.leb_spec q p'); intros [= -> ->]; rewrite filter_cons; simpl.
    + rewrite decide_True by done. split; [|done].
      intros e [->|He]%elem_of_cons; simpl; [lia|]. specialize (Hle e He). lia.
    + rewrite decide_False by lia. split; [|done].
      intros e [->|He]%elem_of_cons; simpl; [lia|auto].
  - apply a_min_None in Hm as ->. intros [= -> ->]. rewrite filter_cons, decide_True by done.
    split; [|done]. intros e ->%list_elem_of_singleton. done.
Qed.

Lemma settled_min q a : repr q a -> settled q ->
  if flb_bucket_queue_is_empty q then a = []
  else exists x, a_min a = Some (top q, x) /\ head (top_list q) = Some x.
Proof.
  intros Hq Hs. destruct (flb_bucket_queue_is_empty q) eqn:He.
  - apply Nat.eqb_eq in He. destruct a as [|e a]; [done|].
    pose proof (r_prio _ _ Hq e (list_elem_of_here _ _)).
    pose proof (r_above _ _ Hq e (list_elem_of_here _ _)). lia.
  - destruct Hs as [Hs|Hs]; [congruence|].
    assert (Ht : (top q < n_buckets q)%nat).
    { pose proof (r_top _ _ Hq). apply Nat.eqb_neq in He. lia. }
    rewrite (repr_top_list _ _ Hq Ht) in *.
    destruct (a_min a) as [[p x]|] eqn:Hm; [|by apply a_min_None in Hm as ->].
    destruct (a_min_spec _ _ _ Hm) as [Hle Hh].
    assert (p = top q) as ->.
    { destruct (filter (λ e, e.1 = top q) a) as [|e l] eqn:Hf; [done|].
      assert (He' : e ∈ filter (λ e, e.1 = top q) a) by (rewrite Hf; left).
      apply list_elem_of_filter in He' as [He1 He2]. specialize (Hle e He2).
      assert (Hp : (p, x) ∈ a).
      { destruct (filter (λ e, e.1 = p) a) as [|e' l'] eqn:Hf'; [done|]. simpl in Hh.
        injection Hh as ->. assert (H : (p, x) ∈ filter (λ e, e.1 = p) a) by (rewrite Hf'; left).
        by apply list_elem_of_filter in H as [_ ?]. }
      pose proof (r_above _ _ Hq _ Hp). simpl in *. lia. }
    exists x. split; [done|]. destruct (filter (λ e, e.1 = top q) a); [done|].
    simpl in *. by injection Hh as ->.
Qed.

(** *** The operations keep the representation *)

Lemma map_snd_filter_remove x p a :
  map snd (filter (λ e : nat * eid, e.1 = p) (a_remove x a))
  = unlink x (map snd (filter (λ e, e.1 = p) a)).
Proof.
  unfold a_remove, unlink. induction a as [|[q y] a IH]; [done|].
  rewrite !filter_cons. simpl. repeat (case_decide; simpl); rewrite ?filter_cons; simpl;
    repeat case_decide; simplify_eq; simpl; rewrite ?IH; try done; tauto.
Qed.

Lemma elem_of_a_remove x e a : e ∈ a_remove x a <-> e ∈ a /\ e.2 <> x.
Proof. unfold a_remove. rewrite list_elem_of_filter. tauto. Qed.

Lemma map_snd_a_remove x a : map snd (a_remove x a) = unlink x (map snd a).
Proof.
  unfold a_remove, unlink. induction a as [|[q y] a IH]; [done|].
  rewrite filter_cons. simpl. rewrite filter_cons. repeat case_decide; simpl; rewrite ?IH; tauto.
Qed.

Lemma mk_list_del_repr x q a : repr q a -> repr (mk_list_del x q) (a_remove x a).
Proof.
  intros H. split; simpl.
  - rewrite length_map. apply H.
  - intros p Hp. rewrite list_lookup_fmap, (r_bucket _ _ H) by done. simpl.
    by rewrite map_snd_filter_remove.
  - intros e [He _]%elem_of_a_remove. by apply (r_prio _ _ H).
  - rewrite map_snd_a_remove. apply NoDup_filter, H.
  - intros y. rewrite map_snd_a_remove. unfold unlink.
    rewrite list_elem_of_filter, elem_of_difference, elem_of_singleton, (r_linked _ _ H). tauto.
  - apply H.
  - intros e [He _]%elem_of_a_remove. by apply (r_above _ _ H).
Qed.

Lemma mk_list_add_repr x p q a : repr q a ->
  x ∉ linked q -> (p < n_buckets q)%nat ->
  let q' := mk_list_add x p q in
  repr (if Nat.ltb p (top q') then set_top p q' else q') (a ++ [(p, x)]).
Proof.
  intros H Hx Hp. rewrite (r_linked _ _ H) in Hx.
  assert (Hb : forall p', (p' < n_buckets q)%nat ->
    alter (λ l, l ++ [x]) p (buckets q) !! p'
    = Some (map snd (filter (λ e, e.1 = p') (a ++ [(p, x)])))).
  { intros p' Hp'. rewrite filter_app, map_app, filter_cons. simpl.
    destruct (decide (p = p')) as [->|Hne].
    - rewrite list_lookup_alter, (r_bucket _ _ H) by done. by rewrite ?decide_True.
    - rewrite list_lookup_alter_ne, (r_bucket _ _ H) by done. simpl. by rewrite app_nil_r. }
  assert (Hn : NoDup (map snd (a ++ [(p, x)]))).
  { rewrite map_app. apply NoDup_app. split_and!; [apply H| |apply NoDup_singleton].
    intros y Hy ->%list_elem_of_singleton. done. }
  assert (Hl : forall y, y ∈ {[x]} ∪ linked q <-> y ∈ map snd (a ++ [(p, x)])).
  { intros y. rewrite map_app, elem_of_app, elem_of_union, elem_of_singleton, (r_linked _ _ H).
    simpl. rewrite list_elem_of_singleton. tauto. }
  assert (Hpr : forall e, e ∈ a ++ [(p, x)] -> (e.1 < n_buckets q)%nat).
  { intros e [He| ->%list_elem_of_singleton]%elem_of_app; [by apply (r_prio _ _ H)|done]. }
  pose proof (r_len _ _ H). pose proof (r_top _ _ H). pose proof (r_above _ _ H) as Hab.
  simpl. destruct (Nat.ltb_spec p (top q)); split; simpl; try done;
    rewrite ?length_alter; try done; try lia;
    intros e [He| ->%list_elem_of_singleton]%elem_of_app; simpl; auto; specialize (Hab e He); lia.
Qed.

Lemma load_repr q a x pr : repr q a ->
  repr (flb_event_load_bucket_queue_event q x pr) (a_load (n_buckets q) x pr a) /\
  n_buckets (flb_event_load_bucket_queue_event q x pr) = n_buckets q.
Proof.
  intros H. unfold flb_event_load_bucket_queue_event, a_load.
  rewrite (bool_decide_ext _ _ (r_linked _ _ H x)). case_bool_decide as Hx; [done|].
  unfold flb_bucket_queue_add. destruct (Z.leb_spec (Z.of_nat (n_buckets q)) (u64 (i8 pr))); [done|].
  pose proof (u64_range (i8 pr)). destruct (seek_same q a H) as (Hn & Hl & _).
  split; [|simpl; by destruct (Nat.ltb _ _)]. apply repr_set_items.
  apply mk_list_add_repr; [by apply seek_repr| |lia].
  by rewrite Hl, (r_linked _ _ H).
Qed.

Lemma find_min_spec q a : repr q a ->
  (flb_bucket_queue_find_min q).1 = snd <$> a_min a /\
  (flb_bucket_queue_find_min q).2 = flb_bucket_queue_seek q.
Proof.
  intros H. unfold flb_bucket_queue_find_min.
  pose proof (settled_min _ _ (seek_repr _ _ H) (seek_settled _ _ H)) as Hm.
  destruct (flb_bucket_queue_is_empty _) eqn:He; [by subst|].
  destruct Hm as (x & -> & ->). done.
Qed.

Lemma delete_min_repr q a : repr q a ->
  repr (flb_bucket_queue_delete_min q) (a_delete_min a) /\
  n_buckets (flb_bucket_queue_delete_min q) = n_buckets q.
Proof.
  intros H. unfold flb_bucket_queue_delete_min, a_delete_min.
  pose proof (seek_repr _ _ H) as H'. destruct (seek_same q a H) as (Hn & _).
  pose proof (settled_min _ _ H' (seek_settled _ _ H)) as Hm.
  destruct (flb_bucket_queue_is_empty _) eqn:He; [by subst|].
  destruct Hm as (x & -> & ->). simpl.
  pose proof (mk_list_del_repr x _ _ H') as Hd.
  split; [by apply repr_set_items, seek_repr|]. simpl.
  destruct (seek_same _ _ Hd) as (-> & _). done.
Qed.

Lemma pop_min_spec q a : repr q a ->
  (flb_bucket_queue_pop_min q).1 = snd <$> a_min a /\
  repr (flb_bucket_queue_pop_min q).2 (a_delete_min a) /\
  n_buckets (flb_bucket_queue_pop_min q).2 = n_buckets q.
Proof.
  intros H. unfold flb_bucket_queue_pop_min. destruct (find_min_spec q a H) as [H1 H2].
  destruct (flb_bucket_queue_find_min q) as [item q']. simpl in *. subst.
  destruct (delete_min_repr _ _ (seek_repr _ _ H)) as [H3 H4].
  destruct (seek_same q a H) as (Hn & _). split_and!; congruence.
Qed.

Lemma queue_destroy_spec q a : repr q a ->
  (flb_bucket_queue_destroy q).1 = if decide (a = []) then 0 else -1.
Proof.
  intros H. unfold flb_bucket_queue_destroy.
  pose proof (settled_min _ _ (seek_repr _ _ H) (seek_settled _ _ H)) as Hm.
  destruct (flb_bucket_queue_is_empty _); [by rewrite decide_True|].
  destruct Hm as (x & Hm & _). rewrite decide_False; [done|]. by intros ->.
Qed.

Lemma step_refines n q a o : repr q a -> n_buckets q = n ->
  (step q o).1 = (a_step n a o).1 /\
  repr (step q o).2 (a_step n a o).2 /\ n_buckets (step q o).2 = n.
Proof.
  intros H <-. destruct o as [x p| | | |x|]; simpl.
  - by destruct (load_repr q a x p H).
  - destruct (find_min_spec q a H) as [-> ->]. destruct (seek_same q a H) as (? & _).
    auto using seek_repr.
  - by destruct (delete_min_repr q a H).
  - by apply pop_min_spec.
  - auto using mk_list_del_repr.
  - split; [|done]. rewrite (queue_destroy_spec q a H). by case_decide.
Qed.

Lemma run_refines n ops : forall q a, repr q a -> n_buckets q = n ->
  run step q ops = run (a_step n) a ops.
Proof.
  induction ops as [|o ops IH]; intros q a H Hn; [done|]. cbn [run].
  destruct (step_refines n q a o H Hn) as (H1 & H2 & H3).
  destruct (step q o) as [r q'], (a_step n a o) as [r' a']. simpl in *. subst r'.
  f_equal. by apply IH.
Qed.

(** C35: every sequence of operations on a new queue answers as the list of
    prioritised items does. *)
Theorem bucket_queue_refines n ops :
  run step (flb_bucket_queue_create n) ops = run (a_step n) [] ops.
Proof. apply run_refines; [apply repr_create|done]. Qed.

End BucketQueue.

(** ** Events and the operations on them *)

Module Event.
Import BucketQueue.

Definition MK_EVENT_UNMODIFIED : Z := -1.
Definition MK_EVENT_EMPTY : Z := 0.
Definition MK_EVENT_NONE : Z := 1.
Definition MK_EVENT_REGISTERED : Z := 2.
Definition MK_EVENT_PRIORITY_DEFAULT : Z := 6.

Definition FLB_ENGINE_PRIORITY_COUNT : nat := 8.
Definition FLB_ENGINE_LOOP_MAX_ITER : Z := 10.

Record mk_event := mkev {
  fd : Z;
  type : Z;
  mask : Z;
  status : Z;
  priority : Z;
}.

(** Events live in memory that was set to zero. *)
#[export] Instance mk_event_inhabited : Inhabited mk_event := populate (mkev 0 0 0 0 0).

(** [size] bounds the array of reported events, of which the first [n_events]
    are valid. *)
Record mk_event_loop := mkevl { size : Z; n_events : Z; events : list eid }.

Record world := mkw {
  evs : gmap eid mk_event;
  bktq : flb_bucket_queue;
  evl : mk_event_loop;
}.

Definition set_ev (e : eid) (v : mk_event) (w : world) : world :=
  mkw (<[e := v]> (evs w)) (bktq w) (evl w).
Definition set_bktq (q : flb_bucket_queue) (w : world) : world := mkw (evs w) q (evl w).
Definition set_evl (l : mk_event_loop) (w : world) : world := mkw (evs w) (bktq w) l.

(** [mk_list_entry_is_orphan], then [mk_list_del]: out of the priority queue. *)
Definition out_of_queue (e : eid) (w : world) : world :=
  if bool_decide (e ∈ linked (bktq w)) then set_bktq (mk_list_del e (bktq w)) w else w.

(** [mk_event_add] on epoll; [ok] is the outcome of [epoll_ctl]. *)
Definition mk_event_add (e : eid) (fd0 ty events : Z) (ok : bool) (w : world) : Z * world :=
  let v := evs w !!! e in
  let v1 :=
    if mask v =? MK_EVENT_EMPTY
    then mkev fd0 ty (mask v) MK_EVENT_REGISTERED (priority v)
    else mkev (fd v) (if ty =? MK_EVENT_UNMODIFIED then type v else ty)
           (mask v) (status v) (priority v) in
  if ok then
    (0, out_of_queue e
          (set_ev e (mkev (fd v1) (type v1) events (status v1) MK_EVENT_PRIORITY_DEFAULT) w))
  else (-1, set_ev e v1 w).

(** [MK_EVENT_NEW]. *)
Definition MK_EVENT_NEW (v : mk_event) : mk_event :=
  mkev (fd v) (type v) MK_EVENT_EMPTY MK_EVENT_NONE (priority v).

Definition mk_event_del (e : eid) (ok : bool) (w : world) : Z * world :=
  let v := evs w !!! e in
  if Z.land (status v) MK_EVENT_REGISTERED =? 0 then (-1, w)
  else
    let w := out_of_queue e w in
    let w := set_ev e (MK_EVENT_NEW v) w in
    (if ok then 0 else -1, w).

(** [mk_event_inject] appends to the array of reported events.  [None]: the
    write is before the array, when the last wait failed and left [n_events] at
    -1. *)
Definition mk_event_inject (e : eid) (flags : Z) (prevent_duplication : bool) (w : world)
  : option (Z * world) :=
  let l := evl w in
  if size l <=? n_events l + 1 then Some (-1, w)
  else if prevent_duplication && bool_decide (e ∈ take (Z.to_nat (n_events l)) (events l))
  then Some (0, w)
  else if n_events l <? 0 then None
  else
    let v := evs w !!! e in
    let w := set_ev e (mkev (fd v) (type v) flags (status v) (priority v)) w in
    Some (0, set_evl (mkevl (size l) (n_events l + 1)
                        (take (Z.to_nat (n_events l)) (events l) ++ [e])) w).

(** What epoll_wait answers: the events that are ready, or an error other than
    an interruption, which is retried. *)
Definition mk_event_wait_2 (ready : option (list eid)) (w : world) : Z * world :=
  let l := evl w in
  match ready with
  | Some es => (Z.of_nat (length es), set_evl (mkevl (size l) (Z.of_nat (length es)) es) w)
  | None => (-1, set_evl (mkevl (size l) (-1) (events l)) w)
  end.

(** The events that [mk_event_foreach] visits. *)
Definition mk_event_foreach (w : world) : list eid :=
  take (Z.to_nat (n_events (evl w))) (events (evl w)).

(** The operations a handler performs on events; a handler may also change the
    priority of one. *)
Inductive act :=
| ActAdd (e : eid) (fd ty events : Z) (ok : bool)
| ActDel (e : eid) (ok : bool)
| ActInject (e : eid) (flags : Z) (prevent_duplication : bool)
| ActPriority (e : eid) (p : Z).

Definition run_act (a : act) (w : world) : option world :=
  match a with
  | ActAdd e fd0 ty events ok => Some (mk_event_add e fd0 ty events ok w).2
  | ActDel e ok => Some (mk_event_del e ok w).2
  | ActInject e flags dup => snd <$> mk_event_inject e flags dup w
  | ActPriority e p =>
      let v := evs w !!! e in
      Some (set_ev e (mkev (fd v) (type v) (mask v) (status v) p) w)
  end.

Fixpoint run_acts (l : list act) (w : world) : option world :=
  match l with
  | [] => Some w
  | a :: l' => w' ← run_act a w; run_acts l' w'
  end.

(** The events a list of operations may take out of the queue. *)
Definition unregistered (l : list act) : list eid :=
  omap (λ a, match a with
             | ActAdd e _ _ _ _ | ActDel e _ => Some e
             | _ => None end) l.

End Event.

(** ** A round of the loop *)

Module Live.
Import BucketQueue Event.

Definition load_event (w : world) (e : eid) : world :=
  set_bktq (flb_event_load_bucket_queue_event (bktq w) e (priority (evs w !!! e))) w.

Definition flb_event_load_bucket_queue (w : world) : world :=
  foldl (λ w e, if status (evs w !!! e) =? MK_EVENT_NONE then w else load_event w e)
    w (mk_event_foreach w).

Definition flb_event_load_injected_events (w : world) (n_events_initial : Z) : world :=
  if n_events (evl w) <? n_events_initial then w
  else if n_events_initial <? n_events (evl w)
  then foldl load_event w (drop (Z.to_nat n_events_initial) (mk_event_foreach w))
  else w.

(** [flb_bucket_queue_find_min (bktq) ? flb_bucket_queue_pop_min (bktq) : NULL] *)
Definition next_event (w : world) : option eid * world :=
  let '(m, q) := flb_bucket_queue_find_min (bktq w) in
  match m with
  | Some _ => let '(x, q) := flb_bucket_queue_pop_min q in (x, set_bktq q w)
  | None => (None, set_bktq q w)
  end.

(** How a round ends: the events it handled, in order, and the event that was
    taken from the queue when the limit of the round stopped it. *)
Inductive outcome :=
| Done (handled : list eid) (dropped : option eid) (w : world)
| Undefined
| OutOfFuel.

Section Round.

(** What the handler of an event does, and what epoll reports when the loop asks
    it between two events; both may depend on the iteration. *)
Variable handler : Z -> world -> eid -> list act.
Variable epoll : Z -> option (list eid).
Variable max_iter : Z.

Fixpoint live_loop (fuel : nat) (iter n_events0 : Z) (event : option eid) (w : world)
    (handled : list eid) : outcome :=
  match event with
  | None => Done handled None w
  | Some e =>
      if (iter <? max_iter) || (max_iter =? -1) then
        match fuel with
        | O => OutOfFuel
        | S fuel' =>
            match run_acts (handler iter w e) w with
            | None => Undefined
            | Some w =>
                let w := flb_event_load_injected_events w n_events0 in
                let w := (mk_event_wait_2 (epoll iter) w).2 in
                let n_events0 := n_events (evl w) in
                let w := flb_event_load_bucket_queue w in
                let '(event, w) := next_event w in
                live_loop fuel' (iter + 1) n_events0 event w (handled ++ [e])
            end
        end
      else Done handled (Some e) w
  end.

Definition flb_event_priority_live_foreach (fuel : nat) (w : world) : outcome :=
  let n_events0 := n_events (evl w) in
  let w := flb_event_load_bucket_queue w in
  let '(event, w) := next_event w in
  live_loop fuel 0 n_events0 event w [].

End Round.

(** *** The queue through a round *)

Definition wf (w : world) : Prop := exists a, repr (bktq w) a.

(** Priorities that have a bucket. *)
Definition prio_ok (w : world) (e : eid) : Prop :=
  u64 (i8 (priority (evs w !!! e))) < Z.of_nat (n_buckets (bktq w)).

Lemma load_event_spec w e : wf w ->
  wf (load_event w e) /\ linked (bktq w) ⊆ linked (bktq (load_event w e)) /\
  n_buckets (bktq (load_event w e)) = n_buckets (bktq w) /\
  (prio_ok w e -> e ∈ linked (bktq (load_event w e))).
Proof.
  intros [a Ha]. unfold prio_ok.
  destruct (load_repr _ _ e (priority (evs w !!! e)) Ha) as [H1 H2].
  split_and!; [by eexists| |done|]; simpl.
  - intros y. rewrite (r_linked _ _ H1), (r_linked _ _ Ha). unfold a_load.
    repeat case_match; rewrite ?map_app, ?elem_of_app; auto.
  - intros Hp. rewrite (r_linked _ _ H1). unfold a_load. case_bool_decide; [done|].
    destruct (Z.leb_spec (Z.of_nat (n_buckets (bktq w))) (u64 (i8 (priority (evs w !!! e))))); [lia|].
    rewrite map_app, elem_of_app. right. by left.
Qed.

(** Loading: a pass over events by a function that loads some of them. *)
Lemma load_pass_spec (f : world -> eid -> world) es w :
  (forall w e, f w e = w \/ f w e = load_event w e) -> wf w ->
  let w' := foldl f w es in
  wf w' /\ linked (bktq w) ⊆ linked (bktq w') /\ evs w' = evs w /\ evl w' = evl w /\
  n_buckets (bktq w') = n_buckets (bktq w).
Proof.
  intros Hf. revert w. induction es as [|e es IH]; intros w Hw; simpl; [done|].
  destruct (Hf w e) as [->| ->]; [by apply IH|].
  destruct (load_event_spec w e Hw) as (H1 & H2 & H3 & _).
  destruct (IH _ H1) as (H4 & H5 & H6 & H7 & H8).
  split_and!; [done|set_solver|by rewrite H6|by rewrite H7|congruence].
Qed.

Lemma load_filter_cases w e :
  (if status (evs w !!! e) =? MK_EVENT_NONE then w else load_event w e) = w \/
  (if status (evs w !!! e) =? MK_EVENT_NONE then w else load_event w e) = load_event w e.
Proof. case_match; auto. Qed.

Lemma load_queue_spec w : wf w ->
  let w' := flb_event_load_bucket_queue w in
  wf w' /\ linked (bktq w) ⊆ linked (bktq w') /\ evs w' = evs w /\ evl w' = evl w /\
  n_buckets (bktq w') = n_buckets (bktq w).
Proof. apply load_pass_spec, load_filter_cases. Qed.

Lemma load_injected_spec w n : wf w ->
  let w' := flb_event_load_injected_events w n in
  wf w' /\ linked (bktq w) ⊆ linked (bktq w') /\ evs w' = evs w /\ evl w' = evl w /\
  n_buckets (bktq w') = n_buckets (bktq w).
Proof.
  intros Hw. unfold flb_event_load_injected_events. repeat case_match; [done| |done].
  apply load_pass_spec; [auto|done].
Qed.

(** A reported event that is registered enters the queue. *)
Lemma load_queue_enters w e : wf w -> e ∈ mk_event_foreach w ->
  status (evs w !!! e) <> MK_EVENT_NONE -> prio_ok w e ->
  e ∈ linked (bktq (flb_event_load_bucket_queue w)).
Proof.
  intros Hw He Hs Hp. unfold flb_event_load_bucket_queue.
  apply list_elem_of_split in He as (l1 & l2 & ->). rewrite foldl_app. simpl.
  destruct (load_pass_spec _ l1 w load_filter_cases Hw) as (H1 & H2 & H3 & H4 & H5).
  set (w1 := foldl _ w l1) in *.
  assert (Hw1 : wf (load_event w1 e) /\ e ∈ linked (bktq (load_event w1 e))).
  { destruct (load_event_spec w1 e H1) as (H6 & _ & _ & H7). split; [done|]. apply H7.
    unfold prio_ok. by rewrite H3, H5. }
  rewrite H3. destruct (Z.eqb_spec (status (evs w !!! e)) MK_EVENT_NONE); [done|].
  destruct Hw1 as [Hw1 He1].
  destruct (load_pass_spec _ l2 _ load_filter_cases Hw1) as (_ & Hsub & _). by apply Hsub.
Qed.

Lemma next_event_spec w : wf w ->
  let '(x, w') := next_event w in
  wf w' /\ evs w' = evs w /\ evl w' = evl w /\ n_buckets (bktq w') = n_buckets (bktq w) /\
  forall y, y ∈ linked (bktq w) -> y ∈ linked (bktq w') \/ x = Some y.
Proof.
  intros [a Ha]. unfold next_event.
  destruct (find_min_spec _ _ Ha) as [H1 H2]. pose proof (seek_repr _ _ Ha) as Hs.
  destruct (seek_same _ _ Ha) as (Hn & Hl & _).
  destruct (flb_bucket_queue_find_min (bktq w)) as [m q]. simpl in *. subst m q.
  destruct (a_min a) as [[p x]|] eqn:Hm; simpl.
  - destruct (pop_min_spec _ _ Hs) as (H3 & H4 & H5).
    destruct (flb_bucket_queue_pop_min _) as [x' q]. simpl in *.
    split_and!; [by eexists|done|done|congruence|].
    intros y. rewrite (r_linked _ _ H4), (r_linked _ _ Ha), H3. unfold a_delete_min.
    rewrite Hm, map_snd_a_remove. simpl. unfold unlink. rewrite list_elem_of_filter.
    destruct (decide (y = x)); [subst; auto|auto].
  - split_and!; [by eexists|done..|]. rewrite Hl. auto.
Qed.

(** Handlers keep the queue well formed, and take out only what they register
    anew or remove. *)
Lemma out_of_queue_spec e w : wf w ->
  wf (out_of_queue e w) /\ evl (out_of_queue e w) = evl w /\
  forall y, y <> e -> y ∈ linked (bktq w) -> y ∈ linked (bktq (out_of_queue e w)).
Proof.
  intros [a Ha]. unfold out_of_queue. case_bool_decide; [|by split_and!; [eexists|..]].
  split_and!; [|done|simpl; set_solver]. eexists. by apply mk_list_del_repr.
Qed.

Lemma run_act_spec a w w' : wf w -> run_act a w = Some w' ->
  wf w' /\ (0 <= n_events (evl w) -> 0 <= n_events (evl w')) /\
  forall y, y ∉ unregistered [a] -> y ∈ linked (bktq w) -> y ∈ linked (bktq w').
Proof.
  intros Hw. destruct a as [e f ty ev ok|e ok|e fl dup|e p]; simpl.
  - unfold mk_event_add. intros [= <-]. destruct ok; simpl; [|done].
    match goal with |- context [out_of_queue e ?w0] => assert (Hw0 : wf w0) by done end.
    destruct (out_of_queue_spec e _ Hw0) as (H1 & H2 & H3). rewrite H2.
    split_and!; [done|done|]. intros y Hy. apply H3. set_solver.
  - unfold mk_event_del. intros [= <-]. case_match; simpl; [done|].
    destruct (out_of_queue_spec e w Hw) as (H1 & H2 & H3).
    split_and!; [done|by rewrite H2|]. intros y Hy. apply H3. set_solver.
  - unfold mk_event_inject. repeat case_match; simpl; intros; simplify_eq; simpl; try done.
    split_and!; [done|lia|done].
  - intros [= <-]. done.
Qed.

Lemma run_acts_spec l : forall w w', wf w -> run_acts l w = Some w' ->
  wf w' /\ (0 <= n_events (evl w) -> 0 <= n_events (evl w')) /\
  forall y, y ∉ unregistered l -> y ∈ linked (bktq w) -> y ∈ linked (bktq w').
Proof.
  induction l as [|a l IH]; intros w w' Hw; cbn [run_acts]; [by intros [= <-]|].
  destruct (run_act a w) as [w1|] eqn:H1; [|done]. intros H2. simpl in H2.
  destruct (run_act_spec a w w1 Hw H1) as (H3 & H4 & H5).
  destruct (IH w1 w' H3 H2) as (H6 & H7 & H8). split_and!; [done|auto|].
  intros y Hy Hl. apply H8; [|apply H5; [|done]]; revert Hy; simpl;
    destruct a; rewrite ?not_elem_of_cons, ?elem_of_nil; tauto.
Qed.

(** Only an injection after a failed wait is undefined. *)
Lemma run_acts_defined l : forall w, 0 <= n_events (evl w) -> is_Some (run_acts l w).
Proof.
  induction l as [|a l IH]; intros w Hn; cbn [run_acts]; [by eexists|].
  assert (H : is_Some (run_act a w)).
  { destruct a; simpl; [by eexists..| |by eexists]. unfold mk_event_inject.
    repeat case_match; [by eexists..| |by eexists]. lia. }
  destruct H as [w1 H1]. rewrite H1. simpl. apply IH. revert H1. clear IH.
  destruct a as [e f ty ev ok|e ok|e fl dup|e p]; simpl.
  - unfold mk_event_add, out_of_queue. repeat case_match; intros; by simplify_eq.
  - unfold mk_event_del, out_of_queue. repeat case_match; intros; by simplify_eq.
  - unfold mk_event_inject. repeat case_match; simpl; intros Hi; simplify_eq; simpl; lia.
  - intros. by simplify_eq.
Qed.

(** One pass of the loop body, up to the next event. *)
Definition after_handler (epoll : Z -> option (list eid)) (iter n0 : Z) (w : world)
  : option eid * world :=
  next_event (flb_event_load_bucket_queue
    (mk_event_wait_2 (epoll iter) (flb_event_load_injected_events w n0)).2).

Lemma after_handler_spec epoll iter n0 w : wf w ->
  let '(ev, w') := after_handler epoll iter n0 w in
  wf w' /\ (is_Some (epoll iter) -> 0 <= n_events (evl w')) /\
  forall y, y ∈ linked (bktq w) -> y ∈ linked (bktq w') \/ ev = Some y.
Proof.
  intros Hw. unfold after_handler.
  destruct (load_injected_spec w n0 Hw) as (H1 & H2 & _).
  set (w1 := flb_event_load_injected_events w n0) in *.
  assert (H3 : wf (mk_event_wait_2 (epoll iter) w1).2) by (unfold mk_event_wait_2; by case_match).
  assert (Hb : bktq (mk_event_wait_2 (epoll iter) w1).2 = bktq w1)
    by (unfold mk_event_wait_2; by case_match).
  assert (He : is_Some (epoll iter) -> 0 <= n_events (evl (mk_event_wait_2 (epoll iter) w1).2))
    by (intros [es Hes]; unfold mk_event_wait_2; rewrite Hes; simpl; lia).
  destruct (load_queue_spec _ H3) as (H4 & H5 & H6 & H7 & H8).
  pose proof (next_event_spec _ H4) as Hn. destruct (next_event _) as [ev w'].
  destruct Hn as (H9 & _ & H11 & _ & H12).
  split_and!; [done|by rewrite H11, H7|]. intros y Hy. apply H12, H5. rewrite Hb. set_solver.
Qed.

Lemma live_loop_unfold handler epoll m fuel iter n0 e w h :
  (iter <? m) || (m =? -1) = true ->
  live_loop handler epoll m (S fuel) iter n0 (Some e) w h =
  match run_acts (handler iter w e) w with
  | None => Undefined
  | Some w1 =>
      let '(ev, w2) := after_handler epoll iter n0 w1 in
      live_loop handler epoll m fuel (iter + 1)
        (n_events (evl (mk_event_wait_2 (epoll iter) (flb_event_load_injected_events w1 n0)).2))
        ev w2 (h ++ [e])
  end.
Proof. intros H. cbn [live_loop]. by rewrite H. Qed.

(** The loop ends within the limit of the round, and what was in the queue, or
    taken from it, is accounted for. *)
Lemma live_loop_spec handler epoll m fuel : forall iter n0 ev w h,
  0 <= m -> 0 <= iter -> (forall i, is_Some (epoll i)) ->
  wf w -> 0 <= n_events (evl w) -> m - iter <= Z.of_nat fuel ->
  exists h' d w', live_loop handler epoll m fuel iter n0 ev w h = Done h' d w' /\
    wf w' /\ Z.of_nat (length h') <= Z.of_nat (length h) + Z.max 0 (m - iter) /\
    (is_Some d -> Z.of_nat (length h') = Z.of_nat (length h) + Z.max 0 (m - iter)) /\
    forall x, (forall i v y, x ∉ unregistered (handler i v y)) ->
      x ∈ linked (bktq w) \/ ev = Some x \/ x ∈ h ->
      x ∈ linked (bktq w') \/ d = Some x \/ x ∈ h'.
Proof.
  induction fuel as [|fuel IH]; intros iter n0 ev w h Hm Hi He Hw Hn Hf.
  all: destruct ev as [e|];
    [|exists h, None, w; split_and!; [done|done|lia|by intros []|done]].
  all: destruct ((iter <? m) || (m =? -1)) eqn:Hc; [|exists h, (Some e), w;
    split_and!; [simpl; by rewrite Hc|done|lia|lia|done]].
  { lia. }
  rewrite live_loop_unfold by done.
  destruct (run_acts_defined (handler iter w e) w Hn) as [w1 H1]. rewrite H1.
  destruct (run_acts_spec _ _ _ Hw H1) as (H2 & H3 & H4).
  pose proof (after_handler_spec epoll iter n0 w1 H2) as Ha.
  destruct (after_handler epoll iter n0 w1) as [ev2 w2]. destruct Ha as (H5 & H6 & H7).
  edestruct (IH (iter + 1) (n_events (evl (mk_event_wait_2 (epoll iter)
    (flb_event_load_injected_events w1 n0)).2)) ev2 w2 (h ++ [e]))
    as (h' & d & w' & H8 & H9 & H10 & H11 & H12); [lia|lia|done|done|auto|lia|].
  exists h', d, w'. rewrite length_app in *. simpl in *.
  split_and!; [done|done|lia|intros Hd; specialize (H11 Hd); lia|].
  intros x Hx Hin. apply H12; [done|]. rewrite elem_of_app, list_elem_of_singleton.
  destruct Hin as [Hin|[[= ->]|Hin]]; [|tauto|tauto].
  destruct (H7 x (H4 x (Hx _ _ _) Hin)); tauto.
Qed.

Section Rounds.
Variable handler : Z -> world -> eid -> list act.
Variable epoll : Z -> option (list eid).

(** A round with a limit ends, after at most that many events, for every
    handler and every answers of epoll but errors. *)
Theorem live_round_terminates max_iter w :
  0 <= max_iter -> (forall i, is_Some (epoll i)) -> wf w -> 0 <= n_events (evl w) ->
  exists h d w',
    flb_event_priority_live_foreach handler epoll max_iter (Z.to_nat max_iter) w = Done h d w' /\
    wf w' /\ Z.of_nat (length h) <= max_iter.
Proof.
  intros Hm He Hw Hn. unfold flb_event_priority_live_foreach.
  destruct (load_queue_spec w Hw) as (H1 & _ & _ & H2 & _).
  pose proof (next_event_spec _ H1) as H3. destruct (next_event _) as [ev w1].
  destruct H3 as (H4 & _ & H5 & _).
  edestruct (live_loop_spec handler epoll max_iter (Z.to_nat max_iter) 0 (n_events (evl w)) ev w1 [])
    as (h' & d & w' & H8 & H9 & H10 & _); [lia|lia|done|done|congruence|lia|].
  exists h', d, w'. split_and!; [done|done|]. simpl in *. lia.
Qed.

(** No event is lost: an event that was queued, or that is reported, registered
    and of a valid priority, is handled in the round, still queued after it, or
    the one event taken when the round reached its limit; unless a handler of the
    round registers it anew or removes it. *)
Theorem live_round_keeps_events max_iter w x :
  0 <= max_iter -> (forall i, is_Some (epoll i)) -> wf w -> 0 <= n_events (evl w) ->
  (forall i v y, x ∉ unregistered (handler i v y)) ->
  x ∈ linked (bktq w) \/
    (x ∈ mk_event_foreach w /\ status (evs w !!! x) <> MK_EVENT_NONE /\ prio_ok w x) ->
  exists h d w',
    flb_event_priority_live_foreach handler epoll max_iter (Z.to_nat max_iter) w = Done h d w' /\
    (x ∈ h \/ x ∈ linked (bktq w') \/ (d = Some x /\ Z.of_nat (length h) = max_iter)).
Proof.
  intros Hm He Hw Hn Hx Hin. unfold flb_event_priority_live_foreach.
  destruct (load_queue_spec w Hw) as (H1 & Hsub & _ & H2 & _).
  assert (Hq : x ∈ linked (bktq (flb_event_load_bucket_queue w))).
  { destruct Hin as [Hin|(H3 & H4 & H5)]; [by apply Hsub|by apply load_queue_enters]. }
  pose proof (next_event_spec _ H1) as H3. destruct (next_event _) as [ev w1].
  destruct H3 as (H4 & _ & H5 & _ & H6).
  edestruct (live_loop_spec handler epoll max_iter (Z.to_nat max_iter) 0 (n_events (evl w)) ev w1 [])
    as (h & d & w' & H8 & H9 & H10 & H11 & H12); [lia|lia|done|done|congruence|lia|].
  exists h, d, w'. split; [done|].
  destruct (H12 x Hx) as [H|[H|H]]; [by destruct (H6 x Hq); auto|tauto| |tauto].
  right; right. split; [done|]. rewrite H in H11. simpl in *. rewrite H11 by (by eexists). lia.
Qed.

End Rounds.

(** *** A round without new events *)

(** The queue from its most urgent item on. *)
Definition in_order (q : flb_bucket_queue) : list eid := concat (buckets q).

Lemma concat_unlink x bs : concat (map (unlink x) bs) = unlink x (concat bs).
Proof. induction bs as [|b bs IH]; [done|]. simpl. unfold unlink in *. by rewrite filter_app, IH. Qed.

Lemma bucket_lists q a : repr q a ->
  buckets q = map (λ p, map snd (filter (λ e, e.1 = p) a)) (seq 0 (n_buckets q)).
Proof.
  intros H. apply list_eq. intros p. rewrite list_lookup_fmap.
  destruct (decide (p < n_buckets q)%nat).
  - rewrite (r_bucket _ _ H), lookup_seq_lt by done. done.
  - rewrite !lookup_ge_None_2; [done| |]; rewrite ?length_seq, ?(r_len _ _ H); lia.
Qed.

Lemma in_order_nodup q a : repr q a -> NoDup (in_order q).
Proof.
  intros H. unfold in_order. rewrite (bucket_lists _ _ H).
  pose proof (NoDup_seq 0 (n_buckets q)) as Hs. revert Hs.
  pose proof (r_nodup _ _ H) as Hn.
  assert (Hin : forall p y, y ∈ map snd (filter (λ e : nat * eid, e.1 = p) a) -> (p, y) ∈ a).
  { intros p y ([p' y'] & -> & [<- He]%list_elem_of_filter)%elem_of_map. done. }
  induction (seq 0 (n_buckets q)) as [|p ps IH]; simpl; intros Hs; [constructor|].
  apply NoDup_cons in Hs as [Hp Hs]. apply NoDup_app. split_and!; [| |by apply IH].
  - clear -Hn. induction a as [|e a IH]; simpl; [constructor|]. simpl in Hn.
    apply NoDup_cons in Hn as [He Hn]. rewrite filter_cons. case_decide; [|by apply IH].
    simpl. apply NoDup_cons. split; [|by apply IH]. contradict He.
    apply elem_of_map in He as (e' & -> & [_ He]%list_elem_of_filter). apply elem_of_map. eauto.
  - intros y Hy Hy'. apply Hin in Hy.
    apply list_elem_of_In, in_concat in Hy' as (l & Hl & Hy').
    apply in_map_iff in Hl as (p' & <- & Hp'). apply list_elem_of_In in Hp', Hy'.
    apply Hin in Hy'. assert ((p, y) = (p', y)) as [= ->] by by eapply (NoDup_map_inj snd). done.
Qed.

Lemma in_order_head q a : repr q a -> settled q ->
  head (in_order q) = if flb_bucket_queue_is_empty q then None else head (top_list q).
Proof.
  intros H Hs. pose proof (settled_min _ _ H Hs) as Hm.
  unfold in_order. destruct (flb_bucket_queue_is_empty q) eqn:He.
  - subst a. rewrite (bucket_lists _ _ H). generalize (seq 0 (n_buckets q)) as l.
    induction l; [done|]. simpl. done.
  - destruct Hm as (x & _ & Hx). rewrite Hx.
    assert (Hz : forall p, (p < top q)%nat -> buckets q !! p = Some []).
    { intros p Hp. pose proof (r_top _ _ H). rewrite (r_bucket _ _ H) by lia.
      destruct (filter (λ e, e.1 = p) a) as [|e l] eqn:Hf; [done|].
      assert (Hin : e ∈ filter (λ e, e.1 = p) a) by (rewrite Hf; left).
      apply list_elem_of_filter in Hin as [He' Hin]. apply (r_above _ _ H) in Hin. lia. }
    unfold top_list in Hx. clear -Hx Hz. revert Hx Hz. generalize (buckets q) as bs. generalize (top q) as t.
    induction t as [|t IH]; intros [|b bs] Hx Hz; simpl in *; try done.
    + by destruct b.
    + specialize (Hz 0%nat ltac:(lia)) as Hb. simplify_eq/=. apply IH; [done|].
      intros p Hp. apply (Hz (S p)). lia.
Qed.

(** Taking the next event takes the first of the queue. *)
Lemma next_event_in_order w : wf w ->
  (next_event w).1 = head (in_order (bktq w)) /\
  in_order (bktq (next_event w).2) = tail (in_order (bktq w)).
Proof.
  intros [a Ha]. unfold next_event. pose proof (seek_repr _ _ Ha) as Hs.
  pose proof (seek_settled _ _ Ha) as Hset. destruct (seek_same _ _ Ha) as (_ & _ & Hb).
  pose proof (in_order_head _ _ Hs Hset) as Hh. unfold in_order in *. rewrite Hb in Hh.
  pose proof (in_order_nodup _ _ Ha) as Hn. unfold in_order in Hn.
  pose proof (settled_min _ _ Hs Hset) as Hm. unfold flb_bucket_queue_find_min.
  destruct (flb_bucket_queue_is_empty (flb_bucket_queue_seek (bktq w))) eqn:He.
  { simpl. rewrite Hh, Hb. split; [done|]. by destruct (concat (buckets (bktq w))). }
  destruct Hm as (x & Hm & Hx). rewrite Hx in *.
  destruct (pop_min_spec _ _ Hs) as (H1 & H2 & _).
  assert (Hbk : buckets (flb_bucket_queue_pop_min (flb_bucket_queue_seek (bktq w))).2
                = map (unlink x) (buckets (bktq w))).
  { rewrite (bucket_lists _ _ H2), (bucket_lists _ _ Ha), map_map.
    destruct (pop_min_spec _ _ Hs) as (_ & _ & ->). destruct (seek_same _ _ Ha) as (-> & _).
    apply map_ext. intros p. unfold a_delete_min. rewrite Hm. apply map_snd_filter_remove. }
  destruct (flb_bucket_queue_pop_min _) as [y q]. simpl in *. rewrite H1, Hm, Hh, Hbk, concat_unlink.
  split; [done|]. destruct (concat (buckets (bktq w))) as [|y' l]; [done|]. simpl in *.
  simplify_eq. apply NoDup_cons in Hn as [Hn _]. unfold unlink.
  rewrite filter_cons, decide_False by tauto. by apply filter_ne_notin.
Qed.

Lemma set_bktq_same w : set_bktq (bktq w) w = w.
Proof. by destruct w. Qed.

(** Nothing to load: no event is reported. *)
Definition quiet (w : world) : Prop := n_events (evl w) = 0.

Lemma quiet_load w : quiet w -> flb_event_load_bucket_queue w = w.
Proof. unfold quiet, flb_event_load_bucket_queue, mk_event_foreach. by intros ->. Qed.

Lemma quiet_after w : wf w -> quiet w ->
  let '(ev, w') := after_handler (λ _, Some []) 0 0 w in
  wf w' /\ quiet w' /\ ev = head (in_order (bktq w)) /\
  in_order (bktq w') = tail (in_order (bktq w)).
Proof.
  intros Hw Hq. unfold after_handler, flb_event_load_injected_events.
  rewrite Hq. simpl. rewrite quiet_load by done.
  set (w1 := set_evl _ w). assert (Hw1 : wf w1) by done.
  destruct (next_event_in_order w1 Hw1) as [H1 H2].
  pose proof (next_event_spec w1 Hw1) as H3. destruct (next_event w1) as [ev w'].
  destruct H3 as (H3 & _ & H4 & _). unfold quiet. rewrite H4. done.
Qed.

Lemma quiet_loop m fuel : forall iter ev w h l,
  0 <= m -> 0 <= iter <= m -> wf w -> quiet w -> m - iter <= Z.of_nat fuel ->
  ev = head l -> in_order (bktq w) = tail l ->
  exists w', live_loop (λ _ _ _, []) (λ _, Some []) m fuel iter 0 ev w h
    = Done (h ++ take (Z.to_nat (m - iter)) l) (l !! Z.to_nat (m - iter)) w' /\
    in_order (bktq w') = drop (S (Z.to_nat (m - iter))) l.
Proof.
  induction fuel as [|fuel IH]; intros iter ev w h l Hm Hi Hw Hq Hf -> Hl;
    (destruct l as [|e l]; simpl in Hl;
     [exists w; rewrite take_nil, app_nil_r, lookup_nil, drop_nil; by destruct (Z.to_nat (m - iter))|]);
    (destruct ((iter <? m) || (m =? -1)) eqn:Hc;
     [|exists w; replace (Z.to_nat (m - iter)) with 0%nat by lia; simpl; rewrite Hc, app_nil_r; by rewrite drop_0]).
  { lia. }
  cbn [head]. rewrite live_loop_unfold by done. cbn [run_acts].
  pose proof (quiet_after w Hw Hq) as Ha. unfold after_handler in *.
  destruct (next_event _) as [ev w1]. destruct Ha as (H1 & H2 & H3 & H4).
  rewrite Hl in H3, H4.
  destruct (IH (iter + 1) ev w1 (h ++ [e]) l) as (w' & H5 & H6); [lia|lia|done|done|lia|done|done|].
  replace (Z.to_nat (m - iter)) with (S (Z.to_nat (m - (iter + 1)))) by lia. simpl.
  exists w'. split; [|done]. rewrite <- app_assoc in H5. exact H5.
Qed.

(** A round in which handlers leave the events alone and nothing new is reported
    handles the queue by priority, the oldest first within a priority, up to the
    limit of the round; the event after the last one is taken from the queue and
    is not handled. *)
Theorem live_round_in_order max_iter w :
  0 <= max_iter -> wf w -> n_events (evl w) = 0 ->
  exists w',
    flb_event_priority_live_foreach (λ _ _ _, []) (λ _, Some []) max_iter (Z.to_nat max_iter) w
      = Done (take (Z.to_nat max_iter) (in_order (bktq w)))
             (in_order (bktq w) !! Z.to_nat max_iter) w' /\
    in_order (bktq w') = drop (S (Z.to_nat max_iter)) (in_order (bktq w)).
Proof.
  intros Hm Hw Hq. unfold flb_event_priority_live_foreach. rewrite quiet_load, Hq by done.
  destruct (next_event_in_order w Hw) as [H1 H2].
  pose proof (next_event_spec w Hw) as H3. destruct (next_event w) as [ev w1].
  destruct H3 as (H3 & _ & H4 & _). simpl in *.
  destruct (quiet_loop max_iter (Z.to_nat max_iter) 0 ev w1 [] (in_order (bktq w)))
    as (w' & H5 & H6); [lia|lia|done|unfold quiet; congruence|lia|done|done|].
  rewrite Z.sub_0_r in *. exists w'. split; done.
Qed.

(** Three registered events, two of them reported, on a new queue. *)
Definition example_world : world :=
  mkw {[1%nat := mkev 4 4 1 MK_EVENT_REGISTERED 6; 2%nat := mkev 5 4 1 MK_EVENT_REGISTERED 0;
        3%nat := mkev 6 4 1 MK_EVENT_REGISTERED 6]}
    (flb_bucket_queue_create FLB_ENGINE_PRIORITY_COUNT) (mkevl 256 2 [1%nat; 2%nat]).

Lemma example_wf : wf example_world.
Proof. exists []. apply repr_create. Qed.

(** The same, loaded, with nothing more to report. *)
Definition loaded_world : world :=
  set_evl (mkevl 256 0 []) (flb_event_load_bucket_queue example_world).

Lemma loaded_wf : wf loaded_world.
Proof. apply (load_queue_spec _ example_wf). Qed.

Lemma live_round_terminates_witness :
  exists h d w',
    flb_event_priority_live_foreach (λ i _ e, [ActInject e i false]) (λ _, Some [3%nat])
      FLB_ENGINE_LOOP_MAX_ITER (Z.to_nat FLB_ENGINE_LOOP_MAX_ITER) example_world = Done h d w' /\
    wf w' /\ Z.of_nat (length h) <= FLB_ENGINE_LOOP_MAX_ITER.
Proof.
  apply live_round_terminates; [done|by eexists|apply example_wf|done].
Defined.

Lemma live_round_keeps_events_witness :
  exists h d w',
    flb_event_priority_live_foreach (λ _ _ _, [ActDel 2 true]) (λ _, Some [])
      1 (Z.to_nat 1) example_world = Done h d w' /\
    (1%nat ∈ h \/ 1%nat ∈ linked (bktq w') \/ (d = Some 1%nat /\ Z.of_nat (length h) = 1)).
Proof.
  apply live_round_keeps_events; [done|by eexists|apply example_wf|done| |].
  - intros _ _ _. simpl. rewrite list_elem_of_singleton. done.
  - right. split_and!; [left|done|vm_compute; done].
Defined.

Lemma live_round_in_order_witness :
  in_order (bktq loaded_world) = [2%nat; 1%nat] /\
  exists w',
    flb_event_priority_live_foreach (λ _ _ _, []) (λ _, Some []) 1 (Z.to_nat 1) loaded_world
      = Done [2%nat] (Some 1%nat) w' /\ in_order (bktq w') = [].
Proof.
  split; [vm_compute; reflexivity|].
  apply (live_round_in_order 1 loaded_world); [done|apply loaded_wf|reflexivity].
Defined.

End Live.
