(* ===== verification/Utf8.v ===== *)
(** * UTF-8

    src/flb_utf8.c (the length table and the decoder),
    [flb_utf8_validate_char] of src/flb_utils.c and [u8_wc_toutf8] of
    src/flb_unescape.c (the encoder), with two facts that tie them together: the
    decoder reads back what the encoder writes, and the validator accepts
    exactly the encodings of Unicode scalar values. *)

From S2P Require Import Prelude.

Module Utf8.

Definition FLB_UTF8_ACCEPT : Z := 0.
Definition FLB_UTF8_REJECT : Z := 1.
Definition FLB_UTF8_CONTINUE : Z := 2.

(** The table by ranges: 0 up to 0xBF, then 1, 2, 3, 4, 5. *)
Definition trailing_bytes_for_utf8 (b : Z) : Z :=
  if b <? 0xC0 then 0 else if b <? 0xE0 then 1 else if b <? 0xF0 then 2
  else if b <? 0xF8 then 3 else if b <? 0xFC then 4 else 5.

Definition flb_utf8_len (s : bytes) : Z := trailing_bytes_for_utf8 (cget s 0) + 1.

(** [flb_utf8_decode (&state, &codep, byte)]: the result, and the new values of
    the two variables. *)
Definition flb_utf8_decode (state codep byte : Z) : Z * Z * Z :=
  let finish (state codep : Z) :=
    if state =? 0 then
      if (0xD800 <=? codep) && (codep <=? 0xDFFF) then (FLB_UTF8_REJECT, FLB_UTF8_REJECT, codep)
      else if 0x10FFFF <? codep then (FLB_UTF8_REJECT, FLB_UTF8_REJECT, codep)
      else (FLB_UTF8_ACCEPT, state, codep)
    else (FLB_UTF8_CONTINUE, state, codep) in
  if state =? 0 then
    if byte <=? 0x7F then (FLB_UTF8_ACCEPT, state, byte)
    else if Z.land byte 0xE0 =? 0xC0 then finish 1 (Z.land byte 0x1F)
    else if Z.land byte 0xF0 =? 0xE0 then finish 2 (Z.land byte 0x0F)
    else if Z.land byte 0xF8 =? 0xF0 then finish 3 (Z.land byte 0x07)
    else (FLB_UTF8_REJECT, FLB_UTF8_REJECT, codep)
  else if Z.land byte 0xC0 =? 0x80 then
    finish (state - 1) (Z.lor (u32 (Z.shiftl codep 6)) (Z.land byte 0x3F))
  else (FLB_UTF8_REJECT, FLB_UTF8_REJECT, codep).

(** The end of [flb_utf8_validate_char]: [len] bytes of which all but the first
    are continuation bytes. *)
Definition validate_rest (s : bytes) (len : nat) : Z :=
  if Nat.ltb (length s) len then 0
  else if forallb (λ b, Z.land b 0xC0 =? 0x80) (take (len - 1) (tail s)) then Z.of_nat len
  else 0.

(** [flb_utf8_validate_char]: the length of the sequence at the start of [s], 0
    when it is not valid.  [max_len] is the length of [s]. *)
Definition flb_utf8_validate_char (s : bytes) : Z :=
  let max_len := Z.of_nat (length s) in
  let c := cget s 0 in
  if max_len <? 1 then 0
  else if c <=? 0x7F then 1
  else if Z.land c 0xE0 =? 0xC0 then if c <? 0xC2 then 0 else validate_rest s 2
  else if Z.land c 0xF0 =? 0xE0 then
    if (1 <? max_len) && (c =? 0xE0) && (cget s 1 <? 0xA0) then 0
    else if (1 <? max_len) && (c =? 0xED) && (0xA0 <=? cget s 1) then 0
    else validate_rest s 3
  else if Z.land c 0xF8 =? 0xF0 then
    if (1 <? max_len) && (c =? 0xF0) && (cget s 1 <? 0x90) then 0
    else if 0xF4 <? c then 0
    else if (1 <? max_len) && (c =? 0xF4) && (0x8F <? cget s 1) then 0
    else validate_rest s 4
  else 0.

(** [u8_wc_toutf8]: the bytes written; none for a value that is too large. *)
Definition u8_wc_toutf8 (c : Z) : bytes :=
  if c <? 0x80 then [c]
  else if c <? 0x800 then [Z.lor (Z.shiftr c 6) 0xC0; Z.lor (Z.land c 0x3F) 0x80]
  else if c <? 0x10000 then
    [Z.lor (Z.shiftr c 12) 0xE0; Z.lor (Z.land (Z.shiftr c 6) 0x3F) 0x80;
     Z.lor (Z.land c 0x3F) 0x80]
  else if c <? 0x110000 then
    [Z.lor (Z.shiftr c 18) 0xF0; Z.lor (Z.land (Z.shiftr c 12) 0x3F) 0x80;
     Z.lor (Z.land (Z.shiftr c 6) 0x3F) 0x80; Z.lor (Z.land c 0x3F) 0x80]
  else [].

(** Unicode scalar values: the code points but the surrogates. *)
Definition scalar (c : Z) : Prop := 0 <= c < 0xD800 \/ 0xE000 <= c < 0x110000.

#[export] Instance scalar_dec c : Decision (scalar c).
Proof. unfold scalar. apply _. Defined.

(** The decoder over a sequence, and the results it gives on the way. *)
Fixpoint decode_seq (state codep : Z) (s : bytes) : list Z * Z * Z :=
  match s with
  | [] => ([], state, codep)
  | b :: s' =>
      let '(r, state, codep) := flb_utf8_decode state codep b in
      let '(rs, state, codep) := decode_seq state codep s' in (r :: rs, state, codep)
  end.

(** ** Facts on bytes by enumeration *)

Definition all_bytes : bytes := map Z.of_nat (seq 0 256).

Lemma byte_forall (P : Z -> bool) b : forallb P all_bytes = true -> is_byte b -> P b = true.
Proof.
  intros H Hb. rewrite forallb_forall in H. apply H. unfold all_bytes.
  apply in_map_iff. exists (Z.to_nat b). unfold is_byte in Hb.
  split; [lia|]. apply in_seq. lia.
Qed.

(** The tests on leading and continuation bits, as ranges. *)
Lemma lead_tests b : is_byte b ->
  (Z.land b 0xE0 =? 0xC0) = (0xC0 <=? b) && (b <? 0xE0) /\
  (Z.land b 0xF0 =? 0xE0) = (0xE0 <=? b) && (b <? 0xF0) /\
  (Z.land b 0xF8 =? 0xF0) = (0xF0 <=? b) && (b <? 0xF8) /\
  (Z.land b 0xC0 =? 0x80) = (0x80 <=? b) && (b <? 0xC0).
Proof.
  intros Hb.
  pose proof (byte_forall (λ b,
    eqb (Z.land b 0xE0 =? 0xC0) ((0xC0 <=? b) && (b <? 0xE0)) &&
    eqb (Z.land b 0xF0 =? 0xE0) ((0xE0 <=? b) && (b <? 0xF0)) &&
    eqb (Z.land b 0xF8 =? 0xF0) ((0xF0 <=? b) && (b <? 0xF8)) &&
    eqb (Z.land b 0xC0 =? 0x80) ((0x80 <=? b) && (b <? 0xC0))) b ltac:(by vm_compute) Hb) as H.
  rewrite !andb_true_iff, !eqb_true_iff in H. tauto.
Qed.

Lemma low_bits x k : 0 <= k -> Z.land x (Z.ones k) = x mod 2 ^ k.
Proof. intros. by apply Z.land_ones. Qed.

(** Setting bits above those in use is an addition. *)
Lemma lor_high x m k : 0 <= k -> 0 <= x < 2 ^ k -> Z.lor x (m * 2 ^ k) = m * 2 ^ k + x.
Proof. intros Hk Hx. rewrite Z.lor_comm. by apply lor_shift_add. Qed.

Lemma u8_wc_toutf8_arith c : 0 <= c < 0x110000 ->
  u8_wc_toutf8 c =
    if c <? 0x80 then [c]
    else if c <? 0x800 then [0xC0 + c / 64; 0x80 + c mod 64]
    else if c <? 0x10000 then [0xE0 + c / 4096; 0x80 + c / 64 mod 64; 0x80 + c mod 64]
    else [0xF0 + c / 262144; 0x80 + c / 4096 mod 64; 0x80 + c / 64 mod 64; 0x80 + c mod 64].
Proof.
  intros Hc. unfold u8_wc_toutf8.
  assert (Hl : forall x, Z.lor (Z.land x 0x3F) 0x80 = 0x80 + x mod 64).
  { intros x. change 0x3F with (Z.ones 6). rewrite low_bits by lia.
    change 0x80 with (2 * 2 ^ 6). apply lor_high; [lia|]. apply Z.mod_pos_bound. lia. }
  rewrite !Hl, !Z.shiftr_div_pow2 by lia.
  change (2 ^ 6) with 64. change (2 ^ 12) with 4096. change (2 ^ 18) with 262144.
  destruct (Z.ltb_spec c 0x80); [done|].
  destruct (Z.ltb_spec c 0x800).
  { f_equal. change 0xC0 with (6 * 2 ^ 5). apply lor_high; [lia|]. change (2 ^ 5) with 32.
    split; [apply Z.div_pos; lia|apply Z.div_lt_upper_bound; lia]. }
  destruct (Z.ltb_spec c 0x10000).
  { f_equal. change 0xE0 with (14 * 2 ^ 4). apply lor_high; [lia|]. change (2 ^ 4) with 16.
    split; [apply Z.div_pos; lia|apply Z.div_lt_upper_bound; lia]. }
  destruct (Z.ltb_spec c 0x110000); [|lia].
  f_equal. change 0xF0 with (30 * 2 ^ 3). apply lor_high; [lia|]. change (2 ^ 3) with 8.
  split; [apply Z.div_pos; lia|apply Z.div_lt_upper_bound; lia].
Qed.

(** ** Decoding what was encoded *)

Lemma decode_cont state codep b : 0 < state ->
  0 <= codep < 2 ^ 26 -> 0x80 <= b < 0xC0 ->
  flb_utf8_decode state codep b =
    let c := codep * 64 + (b - 0x80) in
    if state =? 1 then
      if (0xD800 <=? c) && (c <=? 0xDFFF) then (FLB_UTF8_REJECT, FLB_UTF8_REJECT, c)
      else if 0x10FFFF <? c then (FLB_UTF8_REJECT, FLB_UTF8_REJECT, c)
      else (FLB_UTF8_ACCEPT, 0, c)
    else (FLB_UTF8_CONTINUE, state - 1, c).
Proof.
  intros Hs Hc Hb. unfold flb_utf8_decode.
  assert (Hby : is_byte b) by (unfold is_byte; lia).
  destruct (lead_tests b Hby) as (_ & _ & _ & ->).
  destruct (Z.eqb_spec state 0); [lia|].
  rewrite (proj2 (Z.leb_le _ _)), (proj2 (Z.ltb_lt _ _)) by lia. cbn [andb].
  assert (He : Z.lor (u32 (Z.shiftl codep 6)) (Z.land b 0x3F) = codep * 64 + (b - 0x80)).
  { rewrite Z.shiftl_mul_pow2, u32_small by lia. change 0x3F with (Z.ones 6).
    rewrite low_bits by lia. rewrite lor_shift_add; [|lia|apply Z.mod_pos_bound; lia].
    change (2 ^ 6) with 64. replace b with (b - 0x80 + 2 * 64) at 1 by lia.
    rewrite Z.mod_add, Z.mod_small by lia. done. }
  rewrite He. destruct (Z.eqb_spec state 1) as [->|]; [done|].
  by rewrite (proj2 (Z.eqb_neq _ _)) by lia.
Qed.

Lemma decode_lead codep b : is_byte b ->
  flb_utf8_decode 0 codep b =
    if b <? 0x80 then (FLB_UTF8_ACCEPT, 0, b)
    else if (0xC0 <=? b) && (b <? 0xE0) then (FLB_UTF8_CONTINUE, 1, b - 0xC0)
    else if (0xE0 <=? b) && (b <? 0xF0) then (FLB_UTF8_CONTINUE, 2, b - 0xE0)
    else if (0xF0 <=? b) && (b <? 0xF8) then (FLB_UTF8_CONTINUE, 3, b - 0xF0)
    else (FLB_UTF8_REJECT, FLB_UTF8_REJECT, codep).
Proof.
  intros Hb. unfold flb_utf8_decode. destruct (lead_tests b Hb) as (-> & -> & -> & _).
  assert (H : forall x k, 0 <= k -> x mod 2 ^ k = 0 -> 0 <= b - x < 2 ^ k ->
    Z.land b (Z.ones k) = b - x).
  { intros x k Hk Hx Hr. rewrite low_bits by done. replace b with (b - x + x) at 1 by lia.
    rewrite Z.add_mod, Hx, Z.add_0_r, Z.mod_mod, Z.mod_small by lia. done. }
  simpl (0 =? 0). cbn [Z.eqb].
  destruct (Z.leb_spec b 0x7F), (Z.ltb_spec b 0x80); [done|lia|lia|].
  destruct ((0xC0 <=? b) && (b <? 0xE0)) eqn:E1.
  { change 0x1F with (Z.ones 5). by rewrite (H 0xC0) by (done || lia). }
  destruct ((0xE0 <=? b) && (b <? 0xF0)) eqn:E2.
  { change 0x0F with (Z.ones 4). by rewrite (H 0xE0) by (done || lia). }
  destruct ((0xF0 <=? b) && (b <? 0xF8)) eqn:E3; [|done].
  change 0x07 with (Z.ones 3). by rewrite (H 0xF0) by (done || lia).
Qed.

(** How the decoder goes through a sequence: [CONTINUE] on all but the last
    byte, then [ACCEPT] with the code point. *)
Definition decodes_to (s : bytes) (c : Z) : Prop :=
  forall codep, decode_seq 0 codep s
    = (replicate (length s - 1) FLB_UTF8_CONTINUE ++ [FLB_UTF8_ACCEPT], 0, c).


Lemma decode_seq_cons state codep b s :
  decode_seq state codep (b :: s) =
    let '(r, st, c) := flb_utf8_decode state codep b in
    let '(rs, st, c) := decode_seq st c s in (r :: rs, st, c).
Proof. done. Qed.

Lemma decode_seq_more state codep b s : 1 < state ->
  0 <= codep < 2 ^ 26 -> 0x80 <= b < 0xC0 ->
  decode_seq state codep (b :: s) =
    let '(rs, st, c) := decode_seq (state - 1) (codep * 64 + (b - 0x80)) s in
    (FLB_UTF8_CONTINUE :: rs, st, c).
Proof.
  intros. rewrite decode_seq_cons, decode_cont by lia. cbn zeta.
  by rewrite (proj2 (Z.eqb_neq _ _)) by lia.
Qed.

Lemma decode_seq_last codep b c : 0 <= codep < 2 ^ 26 -> 0x80 <= b < 0xC0 ->
  c = codep * 64 + (b - 0x80) -> scalar c ->
  decode_seq 1 codep [b] = ([FLB_UTF8_ACCEPT], 0, c).
Proof.
  intros H1 H2 -> Hc. unfold scalar in Hc. cbn [decode_seq]. rewrite decode_cont by lia.
  cbn zeta. zcase; simpl; done || lia.
Qed.

(** The decoder reads back every code point the encoder writes. *)
Theorem utf8_decode_encode c : scalar c -> decodes_to (u8_wc_toutf8 c) c.
Proof.
  intros Hc codep. assert (Hr : 0 <= c < 0x110000) by (unfold scalar in Hc; lia).
  rewrite u8_wc_toutf8_arith by lia.
  assert (H4 : c / 4096 = c / 64 / 64) by (rewrite Z.div_div; done || lia).
  assert (H26 : c / 262144 = c / 64 / 64 / 64) by (rewrite !Z.div_div; done || lia).
  pose proof (Z.mod_pos_bound c 64 ltac:(lia)).
  pose proof (Z.mod_pos_bound (c / 64) 64 ltac:(lia)).
  pose proof (Z.mod_pos_bound (c / 4096) 64 ltac:(lia)).
  pose proof (Z.div_mod c 64 ltac:(lia)). pose proof (Z.div_mod (c / 64) 64 ltac:(lia)).
  pose proof (Z.div_mod (c / 64 / 64) 64 ltac:(lia)). rewrite <- H4 in *. rewrite <- H26 in *.
  destruct (Z.ltb_spec c 0x80); [|destruct (Z.ltb_spec c 0x800); [|destruct (Z.ltb_spec c 0x10000)]];
    rewrite decode_seq_cons, decode_lead by (unfold is_byte; lia).
  - by rewrite (proj2 (Z.ltb_lt _ _)) by lia.
  - rewrite (proj2 (Z.ltb_ge _ 0x80)), (proj2 (Z.leb_le _ _)), (proj2 (Z.ltb_lt _ _)) by lia.
    cbn [andb]. by rewrite (decode_seq_last _ _ c) by (done || lia).
  - rewrite (proj2 (Z.ltb_ge _ 0x80)), (proj2 (Z.ltb_ge _ 0xE0)), andb_false_r by lia.
    rewrite (proj2 (Z.leb_le _ _)), (proj2 (Z.ltb_lt _ _)) by lia. cbn [andb].
    rewrite decode_seq_more by lia.
    by rewrite (decode_seq_last _ _ c) by (done || lia).
  - rewrite (proj2 (Z.ltb_ge _ 0x80)), (proj2 (Z.ltb_ge _ 0xE0)), andb_false_r by lia.
    rewrite (proj2 (Z.ltb_ge _ 0xF0)), andb_false_r by lia.
    rewrite (proj2 (Z.leb_le _ _)), (proj2 (Z.ltb_lt _ _)) by lia. cbn [andb].
    rewrite !decode_seq_more by lia.
    by rewrite (decode_seq_last _ _ c) by (done || lia).
Qed.

(** ** The validator *)

(** What the validator accepts, byte by byte. *)
Inductive well_formed : bytes -> Prop :=
| wf1 b : 0 <= b < 0x80 -> well_formed [b]
| wf2 b c : 0xC2 <= b < 0xE0 -> 0x80 <= c < 0xC0 -> well_formed [b; c]
| wf3 b c d : 0xE0 <= b < 0xF0 -> 0x80 <= c < 0xC0 -> 0x80 <= d < 0xC0 ->
    (b = 0xE0 -> 0xA0 <= c) -> (b = 0xED -> c < 0xA0) -> well_formed [b; c; d]
| wf4 b c d e : 0xF0 <= b <= 0xF4 -> 0x80 <= c < 0xC0 -> 0x80 <= d < 0xC0 ->
    0x80 <= e < 0xC0 -> (b = 0xF0 -> 0x90 <= c) -> (b = 0xF4 -> c < 0x90) ->
    well_formed [b; c; d; e].

Lemma well_formed_length t : well_formed t -> (0 < length t)%nat.
Proof. intros []; simpl; lia. Qed.

Lemma validate_rest_spec s len : is_bytes s -> validate_rest s len <> 0 ->
  validate_rest s len = Z.of_nat len /\ (len <= length s)%nat /\
  Forall (λ b, 0x80 <= b < 0xC0) (take (len - 1) (tail s)).
Proof.
  intros Hs. unfold validate_rest. destruct (Nat.ltb_spec (length s) len); [done|].
  destruct (forallb _ _) eqn:Hf; [|done]. intros _. split_and!; [done|done|].
  rewrite Forall_forall. intros b Hb. rewrite forallb_forall in Hf.
  assert (Hby : is_byte b).
  { unfold is_bytes in Hs. rewrite Forall_forall in Hs. apply Hs.
    destruct s as [|x s]; simpl in Hb; [by rewrite take_nil in Hb; apply not_elem_of_nil in Hb|].
    right. eapply subseteq_take. exact Hb. }
  apply list_elem_of_In in Hb. apply Hf in Hb.
  destruct (lead_tests b Hby) as (_ & _ & _ & Ht). rewrite Ht in Hb. lia.
Qed.

Lemma validate_well_formed s : is_bytes s -> flb_utf8_validate_char s <> 0 ->
  well_formed (take (Z.to_nat (flb_utf8_validate_char s)) s).
Proof.
  intros Hs. destruct s as [|b s]; [done|]. unfold flb_utf8_validate_char.
  assert (Hb : is_byte b) by by apply Forall_cons in Hs as [? _].
  destruct (lead_tests b Hb) as (T1 & T2 & T3 & _). unfold is_byte in Hb.
  cbn [cget nth]. rewrite T1, T2, T3.
  destruct (Z.ltb_spec (Z.of_nat (length (b :: s))) 1); [done|].
  destruct (Z.leb_spec b 0x7F); [intros _; apply wf1; lia|].
  destruct ((0xC0 <=? b) && (b <? 0xE0)) eqn:E1.
  { destruct (Z.ltb_spec b 0xC2); [done|]. intros HR. apply validate_rest_spec in HR as (-> & Hl & Hf); [|done].
    simpl (tail _) in Hf. destruct s as [|c s]; [simpl in Hl; lia|].
    simpl in Hf. rewrite !Forall_cons in Hf. apply wf2; lia. }
  destruct ((0xE0 <=? b) && (b <? 0xF0)) eqn:E2.
  { destruct (_ && (b =? 0xE0) && _) eqn:E3; [done|].
    destruct (_ && (b =? 0xED) && _) eqn:E4; [done|].
    intros HR. apply validate_rest_spec in HR as (-> & Hl & Hf); [|done].
    destruct s as [|c [|d s]]; [simpl in Hl; lia..|].
    simpl in Hf. rewrite !Forall_cons in Hf. cbn [nth] in E3, E4.
    rewrite (proj2 (Z.ltb_lt 1 _)) in E3, E4 by (cbn [length]; lia). apply wf3; lia. }
  destruct ((0xF0 <=? b) && (b <? 0xF8)) eqn:E3; [|done].
  destruct (_ && (b =? 0xF0) && _) eqn:E4; [done|].
  destruct (Z.ltb_spec 0xF4 b); [done|].
  destruct (_ && (b =? 0xF4) && _) eqn:E5; [done|].
  intros HR. apply validate_rest_spec in HR as (-> & Hl & Hf); [|done].
  destruct s as [|c [|d [|e s]]]; [simpl in Hl; lia..|].
  simpl in Hf. rewrite !Forall_cons in Hf. cbn [nth] in E4, E5.
  rewrite (proj2 (Z.ltb_lt 1 _)) in E4, E5 by (cbn [length]; lia). apply wf4; lia.
Qed.

(** The well-formed sequences are the encodings of the scalar values. *)
Lemma well_formed_encoding s : well_formed s -> exists c, scalar c /\ u8_wc_toutf8 c = s.
Proof.
  assert (Hdm : forall q r, 0 <= r < 64 -> (q * 64 + r) / 64 = q /\ (q * 64 + r) mod 64 = r).
  { intros q r Hr. split; [rewrite Z.div_add_l by lia; rewrite Z.div_small by lia; lia|].
    rewrite Z.add_comm, Z.mod_add, Z.mod_small by lia. done. }
  intros [b H|b c H1 H2|b c d H1 H2 H3 H4 H5|b c d e H1 H2 H3 H4 H5 H6].
  - exists b. split; [unfold scalar; lia|]. rewrite u8_wc_toutf8_arith by lia.
    by rewrite (proj2 (Z.ltb_lt _ _)) by lia.
  - exists ((b - 0xC0) * 64 + (c - 0x80)). split; [unfold scalar; lia|].
    rewrite u8_wc_toutf8_arith by lia.
    destruct (Hdm (b - 0xC0) (c - 0x80)) as [-> ->]; [lia|].
    zcase; try lia. by rewrite !Zplus_minus.
  - exists (((b - 0xE0) * 64 + (c - 0x80)) * 64 + (d - 0x80)). split; [unfold scalar; lia|].
    rewrite u8_wc_toutf8_arith by lia. change 4096 with (64 * 64). rewrite <- !Z.div_div by lia.
    destruct (Hdm ((b - 0xE0) * 64 + (c - 0x80)) (d - 0x80)) as [-> ->]; [lia|].
    destruct (Hdm (b - 0xE0) (c - 0x80)) as [-> ->]; [lia|].
    zcase; try lia. by rewrite !Zplus_minus.
  - exists ((((b - 0xF0) * 64 + (c - 0x80)) * 64 + (d - 0x80)) * 64 + (e - 0x80)).
    split; [unfold scalar; lia|].
    rewrite u8_wc_toutf8_arith by lia. change 262144 with (64 * 64 * 64).
    change 4096 with (64 * 64). rewrite <- !Z.div_div by lia.
    destruct (Hdm (((b - 0xF0) * 64 + (c - 0x80)) * 64 + (d - 0x80)) (e - 0x80)) as [-> ->]; [lia|].
    destruct (Hdm ((b - 0xF0) * 64 + (c - 0x80)) (d - 0x80)) as [-> ->]; [lia|].
    destruct (Hdm (b - 0xF0) (c - 0x80)) as [-> ->]; [lia|].
    zcase; try lia. by rewrite !Zplus_minus.
Qed.

Lemma encoding_well_formed c : scalar c -> well_formed (u8_wc_toutf8 c).
Proof.
  intros Hc. unfold scalar in Hc. rewrite u8_wc_toutf8_arith by lia.
  assert (H4 : c / 4096 = c / 64 / 64) by (rewrite Z.div_div; done || lia).
  assert (H26 : c / 262144 = c / 64 / 64 / 64) by (rewrite !Z.div_div; done || lia).
  pose proof (Z.mod_pos_bound c 64 ltac:(lia)).
  pose proof (Z.mod_pos_bound (c / 64) 64 ltac:(lia)).
  pose proof (Z.mod_pos_bound (c / 4096) 64 ltac:(lia)).
  pose proof (Z.div_mod c 64 ltac:(lia)). pose proof (Z.div_mod (c / 64) 64 ltac:(lia)).
  pose proof (Z.div_mod (c / 64 / 64) 64 ltac:(lia)). rewrite <- H4 in *. rewrite <- H26 in *.
  destruct (Z.ltb_spec c 0x80); [|destruct (Z.ltb_spec c 0x800); [|destruct (Z.ltb_spec c 0x10000)]];
    [apply wf1|apply wf2|apply wf3|apply wf4]; lia.
Qed.

Lemma validate_complete t r : well_formed t ->
  flb_utf8_validate_char (t ++ r) = Z.of_nat (length t).
Proof.
  assert (Hc : forall b, 0x80 <= b < 0xC0 -> (Z.land b 0xC0 =? 0x80) = true).
  { intros b Hb. destruct (lead_tests b) as (_ & _ & _ & ->); unfold is_byte; lia. }
  assert (Hl : forall (x : Z) l, (Z.of_nat (length (x :: l)) <? 1) = false)
    by (intros; apply Z.ltb_ge; cbn [length]; lia).
  intros [b H|b c H1 H2|b c d H1 H2 H3 H4 H5|b c d e H1 H2 H3 H4 H5 H6];
    unfold flb_utf8_validate_char; cbn [app]; rewrite Hl; cbn [cget nth];
    destruct (lead_tests b) as (T1 & T2 & T3 & _); try (unfold is_byte; lia); rewrite ?T1, ?T2, ?T3.
  - by rewrite (proj2 (Z.leb_le _ _)) by lia.
  - rewrite (proj2 (Z.leb_gt _ _)), (proj2 (Z.leb_le 0xC0 _)), (proj2 (Z.ltb_lt _ 0xE0)),
      (proj2 (Z.ltb_ge _ 0xC2)) by lia.
    unfold validate_rest. simpl. by rewrite Hc by lia.
  - rewrite (proj2 (Z.leb_gt _ _)), (proj2 (Z.ltb_ge _ 0xE0)), andb_false_r by lia.
    rewrite (proj2 (Z.leb_le 0xE0 _)), (proj2 (Z.ltb_lt _ 0xF0)) by lia. cbn [andb].
    rewrite (proj2 (Z.ltb_lt 1 _)) by (cbn [length]; lia). cbn [andb].
    assert ((b =? 0xE0) && (c <? 0xA0) = false) as -> by lia.
    assert ((b =? 0xED) && (0xA0 <=? c) = false) as -> by lia.
    unfold validate_rest. simpl. by rewrite !Hc by lia.
  - rewrite (proj2 (Z.leb_gt _ _)), (proj2 (Z.ltb_ge _ 0xE0)), andb_false_r by lia.
    rewrite (proj2 (Z.ltb_ge _ 0xF0)), andb_false_r by lia.
    rewrite (proj2 (Z.leb_le 0xF0 _)), (proj2 (Z.ltb_lt _ 0xF8)), (proj2 (Z.ltb_ge 0xF4 _)) by lia.
    cbn [andb].
    rewrite (proj2 (Z.ltb_lt 1 _)) by (cbn [length]; lia). cbn [andb].
    assert ((b =? 0xF0) && (c <? 0x90) = false) as -> by lia.
    assert ((b =? 0xF4) && (0x8F <? c) = false) as -> by lia.
    unfold validate_rest. simpl. by rewrite !Hc by lia.
Qed.

Lemma validate_rest_range s len : 0 <= validate_rest s len <= Z.of_nat (length s).
Proof.
  unfold validate_rest. destruct (Nat.ltb_spec (length s) len); [lia|]. case_match; lia.
Qed.

Lemma validate_range s : s <> [] -> 0 <= flb_utf8_validate_char s <= Z.of_nat (length s).
Proof.
  intros Hs. assert (1 <= Z.of_nat (length s)) by (destruct s; [done|simpl; lia]).
  unfold flb_utf8_validate_char. repeat case_match; try apply validate_rest_range; lia.
Qed.

(** C40: the validator accepts exactly the encodings of scalar values, and gives their
    length: on a sequence it accepts, the bytes are what the encoder writes for
    some scalar value; on one it refuses, no encoding is a prefix. *)
Theorem validate_exact s : is_bytes s ->
  let n := flb_utf8_validate_char s in
  (0 < n /\ exists c, scalar c /\ u8_wc_toutf8 c = take (Z.to_nat n) s) \/
  (n = 0 /\ forall c r, scalar c -> s <> u8_wc_toutf8 c ++ r).
Proof.
  intros Hs n. destruct (Z.eq_dec n 0) as [Hn|Hn].
  - right. split; [done|]. intros c r Hc ->.
    pose proof (validate_complete _ r (encoding_well_formed c Hc)) as H. subst n. rewrite H in Hn.
    pose proof (well_formed_length _ (encoding_well_formed c Hc)). lia.
  - left. pose proof (validate_well_formed s Hs Hn) as Hw. fold n in Hw.
    split; [|destruct (well_formed_encoding _ Hw) as (c & H1 & H2); eauto].
    destruct (Z.lt_trichotomy 0 n) as [|[|Hlt]]; [done|done|].
    replace (Z.to_nat n) with 0%nat in Hw by lia. rewrite take_0 in Hw. inversion Hw.
Qed.

Lemma utf8_decode_encode_witness :
  u8_wc_toutf8 0x1F600 = [0xF0; 0x9F; 0x98; 0x80] /\ decodes_to [0xF0; 0x9F; 0x98; 0x80] 0x1F600.
Proof. split; [reflexivity|]. apply (utf8_decode_encode 0x1F600). right. lia. Defined.

Lemma validate_exact_witness :
  flb_utf8_validate_char [0xC0; 0x80] = 0 /\
  forall c r, scalar c -> [0xC0; 0x80] <> u8_wc_toutf8 c ++ r.
Proof.
  split; [reflexivity|].
  destruct (validate_exact [0xC0; 0x80]) as [[H _]|[_ H]]; [|vm_compute in H; done|exact H].
  repeat constructor; unfold is_byte; lia.
Defined.

End Utf8.
