(* ===== verification/Text.v ===== *)
(** * Escaping and unescaping of text

    Module [Simd]: the vector operations of include/fluent-bit/flb_simd.h.
    Module [Escape]: [flb_utils_write_str] and [flb_utils_write_str_buf] of
    src/flb_utils.c, which write a string as the body of a JSON string, through a
    loop that skips blocks without special characters.  Module [Unescape]: the
    readers of src/flb_unescape.c.

    A string of the source is a pointer and a length; the blocks the writers load
    may reach past the end of the string, so the writers also take the bytes that
    follow it in memory.  Characters are signed, as the build asks for
    ([-fsigned-char]). *)

From S2P Require Import Prelude Utf8.
Import Utf8.

(** ** Vectors *)

Module Simd.

(** The instruction sets of the header; without any, a vector is a 64-bit word,
    or a byte when vectors are disabled. *)
Inductive arch := SSE2 | NEON | RVV | NONE64 | NONE8.

#[export] Instance arch_eq_dec : EqDecision arch.
Proof. solve_decision. Defined.

Definition inst_len (a : arch) : nat :=
  match a with SSE2 | NEON | RVV => 16 | NONE64 => 8 | NONE8 => 1 end.

(** A vector is the list of its lanes, from the lowest address. *)
Abbreviation vector8 := bytes.

(** [flb_vector8_load (&chunk, &str[i])], of the memory [mem] that holds the
    string: [None] when the load reaches past it.  Without vector instructions
    nothing is loaded. *)
Definition flb_vector8_load (a : arch) (mem : bytes) (i : nat) : option vector8 :=
  match a with
  | SSE2 | NEON | RVV =>
      let v := take (inst_len a) (drop i mem) in
      if Nat.eqb (length v) (inst_len a) then Some v else None
  | NONE64 | NONE8 => Some (replicate (inst_len a) 0)
  end.

Definition flb_vector8_broadcast (a : arch) (c : Z) : vector8 := replicate (inst_len a) c.

Definition flb_vector8_ssub (v1 v2 : vector8) : vector8 :=
  zip_with (λ x y, Z.max 0 (x - y)) v1 v2.

Definition flb_vector8_eq (v1 v2 : vector8) : vector8 :=
  zip_with (λ x y, if x =? y then 0xFF else 0) v1 v2.

(** The word of a vector, for the variants that compute on integers. *)
Fixpoint word (v : vector8) : Z :=
  match v with [] => 0 | b :: v' => b + 256 * word v' end.

Definition vec_xor (v1 v2 : vector8) : vector8 := zip_with Z.lxor v1 v2.

Definition lane_max (v : vector8) : Z := foldr Z.max 0 v.

Definition flb_vector8_is_highbit_set (a : arch) (v : vector8) : bool :=
  match a with
  | SSE2 => existsb (λ b, Z.testbit b 7) v
  | NEON => 0x7F <? lane_max v
  | RVV => negb (lane_max v =? 0)
  | NONE64 | NONE8 =>
      negb (Z.land (word v) (word (flb_vector8_broadcast a 0x80)) =? 0)
  end.

(** The test without vector instructions, by the borrow of a subtraction. *)
Definition has_le_word (a : arch) (v : vector8) (c : Z) : bool :=
  if (word v <? 2 ^ 63) && (c <? 0x80)
  then negb (Z.land (Z.land (u64 (word v - word (flb_vector8_broadcast a (c + 1))))
                            (u64 (Z.lnot (word v))))
                    (word (flb_vector8_broadcast a 0x80)) =? 0)
  else existsb (λ b, b <=? c) v.

Definition flb_vector8_has (a : arch) (v : vector8) (c : Z) : bool :=
  match a with
  | NONE64 | NONE8 => has_le_word a (vec_xor v (flb_vector8_broadcast a c)) 0
  | _ => flb_vector8_is_highbit_set a (flb_vector8_eq v (flb_vector8_broadcast a c))
  end.

Definition flb_vector8_has_zero (a : arch) (v : vector8) : bool :=
  match a with
  | NONE64 | NONE8 => has_le_word a v 0
  | _ => flb_vector8_has a v 0
  end.

Definition flb_vector8_has_le (a : arch) (v : vector8) (c : Z) : bool :=
  match a with
  | NONE64 | NONE8 => has_le_word a v c
  | _ => flb_vector8_has_zero a (flb_vector8_ssub v (flb_vector8_broadcast a c))
  end.

(** The test of the writers: a block that needs the slow path.  34 and 92 are the
    quote and the backslash. *)
Definition special (a : arch) (v : vector8) : bool :=
  flb_vector8_has_le a v 0x1F || flb_vector8_has a v 34 ||
  flb_vector8_has a v 92 || flb_vector8_is_highbit_set a v.

(** Bytes that the fast path copies. *)
Definition plain (b : Z) : bool :=
  (0x20 <=? b) && (b <=? 0x7F) && negb (b =? 34) && negb (b =? 92).

Lemma eq_lanes v c n : length v = n ->
  existsb (λ b, Z.testbit b 7) (flb_vector8_eq v (replicate n c)) = existsb (λ b, b =? c) v /\
  (0x7F <? lane_max (flb_vector8_eq v (replicate n c))) = existsb (λ b, b =? c) v /\
  negb (lane_max (flb_vector8_eq v (replicate n c)) =? 0) = existsb (λ b, b =? c) v.
Proof.
  intros <-. unfold flb_vector8_eq, lane_max. induction v as [|b v (IH1 & IH2 & IH3)]; [done|].
  cbn [length replicate zip_with existsb foldr].
  set (m := foldr Z.max 0 _) in *.
  assert (0 <= m) by (clear; subst m; induction (zip_with _ v _); simpl; lia).
  rewrite IH1. destruct (b =? c); cbn [orb].
  - split_and!; [done|lia|lia].
  - change (Z.testbit 0 7) with false. split_and!; [done| |].
    + rewrite <- IH2. by rewrite Z.max_r by lia.
    + rewrite <- IH3. by rewrite Z.max_r by lia.
Qed.

Lemma has_lanes a v c : a <> NONE64 -> a <> NONE8 -> length v = inst_len a ->
  flb_vector8_has a v c = existsb (λ b, b =? c) v.
Proof.
  intros H1 H2 Hl. destruct (eq_lanes v c _ Hl) as (E1 & E2 & E3).
  destruct a; simpl; done.
Qed.

Lemma has_le_lanes a v c : a <> NONE64 -> a <> NONE8 -> length v = inst_len a ->
  flb_vector8_has_le a v c = existsb (λ b, b <=? c) v.
Proof.
  intros H1 H2 Hl.
  assert (Hs : existsb (λ b, b =? 0) (flb_vector8_ssub v (flb_vector8_broadcast a c))
               = existsb (λ b, b <=? c) v).
  { unfold flb_vector8_broadcast. rewrite <- Hl. clear. unfold flb_vector8_ssub.
    induction v as [|b v IH]; [done|]. cbn [length replicate zip_with existsb]. rewrite IH.
    f_equal. zcase; lia. }
  rewrite <- Hs, <- (has_lanes a) by (try done; unfold flb_vector8_ssub, flb_vector8_broadcast;
    rewrite length_zip_with, length_replicate, Hl; lia).
  destruct a; done.
Qed.

Lemma highbit_plain a v : is_bytes v -> a <> NONE64 -> a <> NONE8 ->
  flb_vector8_is_highbit_set a v = false -> Forall (λ b, b <= 0x7F) v.
Proof.
  intros Hv H1 H2 H. rewrite Forall_forall. intros b Hb.
  assert (Hm : b <= lane_max v).
  { clear -Hb. induction v as [|x v IH]; [by apply not_elem_of_nil in Hb|].
    apply elem_of_cons in Hb as [->|Hb]; simpl; [lia|]. specialize (IH Hb). lia. }
  unfold is_bytes in Hv. rewrite Forall_forall in Hv. pose proof (Hv b Hb) as Hby.
  destruct a; simpl in H; try done; try lia.
  apply not_true_iff_false in H. rewrite existsb_exists in H.
  destruct (Z.leb_spec b 0x7F); [done|]. exfalso. apply H. exists b.
  split; [by apply list_elem_of_In|].
  pose proof (byte_forall (λ b, implb (0x7F <? b) (Z.testbit b 7)) b ltac:(by vm_compute) Hby) as Ht.
  simpl in Ht. rewrite (proj2 (Z.ltb_lt _ _)) in Ht by lia. exact Ht.
Qed.

(** A block on the fast path has plain bytes only, on every instruction set. *)
Lemma special_false a mem i v : is_bytes mem ->
  flb_vector8_load a mem i = Some v -> special a v = false ->
  v = take (inst_len a) (drop i mem) /\ length v = inst_len a /\ forallb plain v = true.
Proof.
  intros Hm Hl. unfold special.
  destruct (decide (a = NONE64)) as [->|Hn1]; [by simpl in Hl; simplify_eq|].
  destruct (decide (a = NONE8)) as [->|Hn2]; [by simpl in Hl; simplify_eq|].
  assert (Hv : v = take (inst_len a) (drop i mem) /\ length v = inst_len a).
  { destruct a; try done; unfold flb_vector8_load in Hl;
      match type of Hl with context [Nat.eqb ?x ?y] => destruct (Nat.eqb_spec x y) end; by simplify_eq. }
  destruct Hv as [Hv Hlen]. rewrite has_le_lanes, !has_lanes by done.
  rewrite !orb_false_iff. intros [[[E1 E2] E3] E4]. split_and!; [done|done|].
  assert (Hb : is_bytes v) by (subst v; unfold is_bytes in *; by apply Forall_take, Forall_drop).
  apply highbit_plain in E4; [|done..]. rewrite forallb_forall. intros b Hin.
  assert (Hx : forall P, existsb P v = false -> P b = false).
  { intros P HP. apply not_true_iff_false. intros HPb. apply not_true_iff_false in HP.
    apply HP, existsb_exists. eauto. }
  apply Hx in E1, E2, E3. rewrite Forall_forall in E4. apply list_elem_of_In, E4 in Hin.
  unfold plain. zcase; done || lia.
Qed.
End Simd.

(** ** Writing *)

Module Escape.
Import Simd.

Definition hex_char (d : Z) : Z := if d <? 10 then 48 + d else 87 + d.

(** snprintf of "%.4x" for a value of at most four digits, after a backslash and
    an u. *)
Definition u4 (c : Z) : bytes :=
  [92; ch "u"; hex_char (c / 4096 mod 16); hex_char (c / 256 mod 16);
   hex_char (c / 16 mod 16); hex_char (c mod 16)].

(** [json_escape_table]: two characters for the quote, the backslash and five
    controls, six for the other controls and DEL. *)
Definition json_escape_table (c : Z) : option bytes :=
  if c =? 34 then Some [92; 34]
  else if c =? 92 then Some [92; 92]
  else if c =? 10 then Some [92; ch "n"]
  else if c =? 13 then Some [92; ch "r"]
  else if c =? 9 then Some [92; ch "t"]
  else if c =? 8 then Some [92; ch "b"]
  else if c =? 12 then Some [92; ch "f"]
  else if (c <? 0x20) || (c =? 0x7F) then Some (u4 c)
  else None.

(** How a writer ends: with the text written; without space, after what it had
    written; or by a load past the memory of the string.  [Stuck] is the end of
    the fuel. *)
Inductive wres := Wrote (out : bytes) | NoSpace (out : bytes) | BadRead | Stuck.

(** A character on the slow path: what is written, and how many bytes are
    consumed; [stop] leaves the slow path.  [restart] is the value that the
    counter of the slow path is left with, when the step uses it. *)
Record action := mkact { data : bytes; used : nat; stop : bool; restart : option nat }.

Section Loop.
(** The instruction set, the string, the bytes after it, the space there is. *)
Variable a : arch.
Variable s after : bytes.
Variable avail : Z.

Definition mem : bytes := s ++ after.

(** [str_len & ~(inst_len - 1)] *)
Definition vlen : nat :=
  Z.to_nat (Z.land (Z.of_nat (length s)) (Z.lnot (Z.of_nat (inst_len a) - 1))).

(** The guarded memcpy: [available] is what is left after [out]. *)
Definition put (out d : bytes) : wres :=
  if avail - Z.of_nat (length out) <? Z.of_nat (length d) then NoSpace out else Wrote (out ++ d).

(** The loop over blocks: the position of the first special block.  The distance
    to [vlen] bounds it. *)
Fixpoint simd_skip (fuel : nat) (i : nat) : option nat :=
  if Nat.ltb i vlen then
    match fuel with
    | O => Some i
    | S fuel' =>
        match flb_vector8_load a mem i with
        | None => None
        | Some v => if special a v then Some i else simd_skip fuel' (i + inst_len a)
        end
    end
  else Some i.

(** What a pass over up to [inst_len] characters leaves: the end of the string,
    with the result, or where to go on. *)
Inductive slow_res := Fin (r : wres) | Next (i : nat) (out : bytes).

Variable one : bytes -> action.

Fixpoint slow (fuel : nat) (b i : nat) (out : bytes) : slow_res :=
  if Nat.leb (inst_len a) b then Next i out
  else if Nat.leb (length s) i then Fin (Wrote out)
  else
    match fuel with
    | O => Fin Stuck
    | S fuel' =>
        let x := one (drop i s) in
        match put out (data x) with
        | Wrote out' =>
            if stop x then Next (i + used x) out'
            else slow fuel' (S (default b (restart x))) (i + used x) out'
        | r => Fin r
        end
    end.

Fixpoint write_loop (fuel : nat) (i copypos : nat) (out : bytes) : wres :=
  match simd_skip (vlen - i) i with
  | None => BadRead
  | Some i =>
      match (if Nat.ltb copypos i then put out (take (i - copypos) (drop copypos mem))
             else Wrote out) with
      | Wrote out =>
          match slow (S (length s)) 0 i out with
          | Fin r => r
          | Next i out =>
              match fuel with
              | O => Stuck
              | S fuel' => write_loop fuel' i i out
              end
          end
      | r => r
      end
  end.

End Loop.

(** One character of [flb_utils_write_str_raw].  [c] is a character converted to
    [uint32_t]; [rest] is the string from it on. *)
Definition one_raw (rest : bytes) : action :=
  let c := u32 (i8 (cget rest 0)) in
  match (if c <? 128 then json_escape_table c else None) with
  | Some seq => mkact seq 1 false None
  | None =>
      if c <? 0x80 then mkact [u8 c] 1 false None
      else
        let utf_len := flb_utf8_validate_char rest in
        if (utf_len =? 0) || (Z.of_nat (length rest) <? utf_len)
        then mkact [0xEF; 0xBF; 0xBD] 1 false None
        else mkact (take (Z.to_nat utf_len) rest) (Z.to_nat utf_len) false None
  end.

(** [available] is [size - *off] in [size_t]. *)
Definition flb_utils_write_str_raw (a : arch) (off size : Z) (s after : bytes) : wres :=
  write_loop a s after (u64 (size - off)) one_raw (length s) 0 0 [].

Definition FLB_UTILS_FRAGMENT_PRIVATE_BLOCK_DESCRIPTOR : Z := 0xE0.

(** The fragments of a sequence that is not valid: one private code point for
    each byte. *)
Definition fragment (b : Z) : bytes :=
  [Z.lor 0xE0 (Z.shiftr FLB_UTILS_FRAGMENT_PRIVATE_BLOCK_DESCRIPTOR 4);
   Z.lor (Z.lor 0x80 (Z.land (Z.shiftl FLB_UTILS_FRAGMENT_PRIVATE_BLOCK_DESCRIPTOR 2) 0x3f))
     (Z.land (Z.shiftr (i8 b) 6) 0x03);
   Z.lor 0x80 (Z.land (i8 b) 0x3f)].

(** The decoding loop: whether the sequence is valid, its bytes, which are those
    consumed, and the code point. *)
Fixpoint esc_decode (k : nat) (number : nat) (state codep : Z) (r tmp : bytes)
  : bool * bytes * Z :=
  match k with
  | O => (true, tmp, codep)
  | S k' =>
      let '(ret, state, codep) := flb_utf8_decode state codep (cget r 0) in
      if ret =? FLB_UTF8_REJECT then
        if Nat.eqb number 0 then (false, [cget r 0], codep) else (false, tmp, codep)
      else esc_decode k' (S number) state codep (tail r) (tmp ++ [cget r 0])
  end.

(** The text of a code point: above 0xFFFF as a pair of surrogates. *)
Definition esc_code (codepoint : Z) : bytes :=
  if 0xFFFF <? codepoint then
    u4 (0xD800 + Z.shiftr (codepoint - 0x10000) 10) ++
    u4 (0xDC00 + Z.land (codepoint - 0x10000) 0x3FF)
  else u4 codepoint.

(** One character of [flb_utils_write_str_escaped].  A character above 0x7F is
    negative, so [c] is never between 0x80 and 0xFFFF and the branch for these
    values is not taken. *)
Definition one_escaped (rest : bytes) : action :=
  let c := u32 (i8 (cget rest 0)) in
  match (if c <? 128 then json_escape_table c else None) with
  | Some seq => mkact seq 1 false None
  | None =>
      if 0xFFFF <? c then
        let len := flb_utf8_len rest in
        if Z.of_nat (length rest) <? len then mkact [] 1 true None
        else
          match esc_decode (Z.to_nat len) 0 FLB_UTF8_ACCEPT 0 rest [] with
          | (true, tmp, codepoint) => mkact (esc_code codepoint) (length tmp) false None
          | (false, tmp, _) => mkact (concat (map fragment tmp)) (length tmp) false (Some (length tmp))
          end
      else mkact [u8 c] 1 false None
  end.

Definition flb_utils_write_str_escaped (a : arch) (off size : Z) (s after : bytes) : wres :=
  let available := u64 (size - off) in
  if available <? Z.of_nat (length s) then NoSpace []
  else write_loop a s after available one_escaped (length s) 0 0 [].

Definition flb_utils_write_str (a : arch) (off size : Z) (s after : bytes)
    (escape_unicode : bool) : wres :=
  if escape_unicode then flb_utils_write_str_escaped a off size s after
  else flb_utils_write_str_raw a off size s after.

(** [flb_utils_write_str_buf]: the buffer grows until the text fits. *)
Inductive bufres := BufOk (out : bytes) (size : Z) | BufNoMem | BufBad | BufStuck.

Fixpoint write_str_grow (fuel : nat) (a : arch) (s after : bytes) (escape_unicode : bool)
    (size : Z) (t : tape) : bufres :=
  match flb_utils_write_str a 0 size s after escape_unicode with
  | Wrote out => BufOk out size
  | NoSpace _ =>
      let size := u64 (size + 256) in
      let '(ok, t) := flb_malloc t in
      if ok then
        match fuel with
        | O => BufStuck
        | S fuel' => write_str_grow fuel' a s after escape_unicode size t
        end
      else BufNoMem
  | BadRead => BufBad
  | Stuck => BufStuck
  end.

Definition flb_utils_write_str_buf (fuel : nat) (a : arch) (s after : bytes)
    (escape_unicode : bool) (t : tape) : bufres :=
  let '(ok, t) := flb_malloc t in
  if ok then write_str_grow fuel a s after escape_unicode (Z.of_nat (length s) + 1) t
  else BufNoMem.

(** Concretely: a block that reaches past the string copies what follows it. *)
Definition overread_text : bytes :=
  str "fifteen chars  " ++ [0xC3; 0xA9] ++ str "fifteen more ab".

Example overread :
  length overread_text = 32%nat /\
  flb_utils_write_str_raw SSE2 0 256 overread_text (str "ABC" ++ replicate 16 0)
    = Wrote (overread_text ++ str "A") /\
  flb_utils_write_str_raw SSE2 0 256 overread_text (replicate 16 0) = Wrote overread_text /\
  flb_utils_write_str_raw SSE2 0 256 overread_text [] = BadRead /\
  flb_utils_write_str_escaped SSE2 0 256 overread_text (str "ABC")
    = Wrote (str "fifteen chars  \u00e9fifteen more abA").
Proof. vm_compute. split_and!; reflexivity. Qed.

(** *** The reference: character by character

    [esc_to one s t r]: the writer may turn the part of [s] before its rest [r]
    into [t]; each character is written as [one] says, and plain characters may
    also be copied as they are. *)
Inductive esc_to (one : bytes -> action) : bytes -> bytes -> bytes -> Prop :=
| et_nil s : esc_to one s [] s
| et_plain b s t r : plain b = true -> esc_to one s t r -> esc_to one (b :: s) (b :: t) r
| et_one s t r : s <> [] -> esc_to one (drop (used (one s)) s) t r ->
    esc_to one s (data (one s) ++ t) r.

Lemma esc_to_trans one s t r t' r' :
  esc_to one s t r -> esc_to one r t' r' -> esc_to one s (t ++ t') r'.
Proof.
  intros H. induction H as [|b s t r Hb H IH|s t r Hs H IH]; intros H'; [done| |].
  - simpl. constructor; auto.
  - rewrite <- app_assoc. constructor; auto.
Qed.

Lemma esc_to_plain one l s : forallb plain l = true -> esc_to one (l ++ s) l s.
Proof.
  induction l as [|b l IH]; simpl; intros H; [constructor|].
  apply andb_true_iff in H as [H1 H2]. constructor; auto.
Qed.

(** What the loop needs of a character writer. *)
Class Writer (one : bytes -> action) : Prop := {
  w_used s : is_bytes s -> s <> [] -> (0 < used (one s) <= length s)%nat;
  w_size s : is_bytes s -> s <> [] -> (length (data (one s)) <= 6 * used (one s))%nat;
  w_ascii b s : 0 <= b < 0x80 ->
    used (one (b :: s)) = 1%nat /\ stop (one (b :: s)) = false /\ restart (one (b :: s)) = None;
}.

(** The blocks that are looked at make up a multiple of their size. *)
Lemma vlen_blocks a s : exists k, vlen a s = (k * inst_len a)%nat /\ (vlen a s <= length s)%nat.
Proof.
  unfold vlen. set (n := Z.of_nat (length s)).
  assert (Hn : 0 <= n) by lia. rewrite <- Z.ldiff_land.
  assert (Ho : exists k, 0 <= k /\ Z.of_nat (inst_len a) - 1 = Z.ones k /\ Z.of_nat (inst_len a) = 2 ^ k).
  { destruct a; [exists 4|exists 4|exists 4|exists 3|exists 0]; split_and!; (lia || done). }
  destruct Ho as (k & Hk & -> & Hlen).
  rewrite Z.ldiff_ones_r, Z.shiftl_mul_pow2, Z.shiftr_div_pow2 by done.
  pose proof (Z.mul_div_le n (2 ^ k) ltac:(apply Z.pow_pos_nonneg; lia)).
  exists (Z.to_nat (n / 2 ^ k)). pose proof (Z.pow_pos_nonneg 2 k ltac:(lia) Hk).
  assert (0 <= n / 2 ^ k) by (apply Z.div_pos; lia). split; [|lia].
  rewrite Z2Nat.inj_mul by lia. f_equal. lia.
Qed.

Lemma vlen_le a s : (vlen a s <= length s)%nat.
Proof. by destruct (vlen_blocks a s) as (_ & _ & H). Qed.

Lemma inst_len_pos a : (0 < inst_len a)%nat.
Proof. destruct a; simpl; lia. Qed.

Section LoopSpec.
Context (one : bytes -> action) `{Writer one}.

Lemma esc_to_length s t r : is_bytes s -> esc_to one s t r ->
  (length t + 6 * length r <= 6 * length s)%nat.
Proof.
  intros Hb He. induction He as [|b s t r Hp He IH|s t r Hs He IH]; [simpl; lia| |].
  - apply Forall_cons in Hb as [_ Hb]. specialize (IH Hb). simpl. lia.
  - pose proof (w_used s Hb Hs). pose proof (w_size s Hb Hs).
    specialize (IH (Forall_drop _ _ _ Hb)). rewrite length_app. rewrite length_drop in IH. lia.
Qed.

Lemma esc_to_total s : is_bytes s -> exists t, esc_to one s t [].
Proof.
  induction (Nat.lt_wf_0_projected length s) as [s _ IH]. intros Hb.
  destruct (decide (s = [])) as [->|Hs]; [exists []; constructor|].
  pose proof (w_used s Hb Hs).
  destruct (IH (drop (used (one s)) s)) as [t Ht]; [rewrite length_drop; lia|by apply Forall_drop|].
  eexists. by apply et_one.
Qed.

Variable a : arch.
Variable s after : bytes.
Variable avail : Z.
Hypothesis Hbytes : is_bytes (s ++ after).

(** What follows the string stops the blocks that reach past its end: it has the
    bytes a load may touch, and the first is not a plain one, such as the
    terminator of a C string.  Without vector instructions nothing is asked. *)
Definition guarded (a : arch) (after : bytes) : Prop :=
  a = NONE64 \/ a = NONE8 \/
  (inst_len a - 1 <= length after)%nat /\ exists x r, after = x :: r /\ plain x = false.

(** The strings that are written without a look past their end: those that are
    followed by such memory, those of ASCII characters, whose blocks never lose
    their alignment, and those shorter than a block. *)
Definition block_safe (a : arch) (s after : bytes) : Prop :=
  guarded a after \/ Forall (λ b, b < 0x80) s \/ (length s < inst_len a)%nat.

(** Where the loop over blocks may stand. *)
Definition reach (i : nat) : Prop :=
  guarded a after \/ (Forall (λ b, b < 0x80) s /\ exists k, i = (k * inst_len a)%nat) \/
  (length s < inst_len a)%nat.

Lemma reach_inside i : reach i -> (i < vlen a s)%nat ->
  guarded a after \/ (i + inst_len a <= length s)%nat.
Proof.
  intros [Hg|[[_ [k ->]]|Hs]] Hi; [by left|right..]; destruct (vlen_blocks a s) as (m & Hm & Hle).
  - assert (k < m)%nat by (rewrite Hm in Hi; nia). nia.
  - destruct m; nia.
Qed.

Lemma reach_next i k : reach i -> reach (i + k * inst_len a).
Proof.
  intros [Hg|[[Ha [m ->]]|Hs]]; [by left|right; left|right; by right].
  split; [done|]. exists (m + k)%nat. lia.
Qed.

Lemma is_bytes_s : is_bytes s.
Proof using Hbytes. by apply Forall_app in Hbytes as [? _]. Qed.

(** The blocks skipped are within the string, and plain. *)
Lemma load_guarded i : reach i -> (i < vlen a s)%nat ->
  exists v, flb_vector8_load a (mem s after) i = Some v.
Proof.
  intros Hr Hi. pose proof (vlen_le a s).
  assert (Hl : a = NONE64 \/ a = NONE8 \/ (inst_len a <= length (mem s after) - i)%nat).
  { unfold mem. rewrite length_app. destruct (reach_inside i Hr Hi) as [[?|[?|[? _]]]|?]; auto; lia. }
  destruct Hl as [Hn|[Hn|Hl]]; [rewrite Hn; by eexists..|].
  assert (Hlen : length (take (inst_len a) (drop i (mem s after))) = inst_len a)
    by (rewrite length_take, length_drop; lia).
  destruct a; simpl; simpl in Hlen; rewrite ?Hlen; by eexists.
Qed.

Lemma special_false_inside i v : reach i -> (i < vlen a s)%nat ->
  flb_vector8_load a (mem s after) i = Some v -> special a v = false ->
  (i + inst_len a <= length s)%nat /\
  v = take (inst_len a) (drop i s) /\ forallb plain v = true.
Proof using Hbytes.
  intros Hr Hi Hl Hsp. pose proof (vlen_le a s).
  destruct (special_false a _ i v Hbytes Hl Hsp) as (Hv & Hlen & Hp).
  assert (Hin : (i + inst_len a <= length s)%nat).
  { destruct (reach_inside i Hr Hi) as [Hg|]; [|done].
    destruct (decide (i + inst_len a <= length s)%nat) as [|Hgt]; [done|]. exfalso. unfold guarded in Hg.
    destruct Hg as [Hn|[Hn|(_ & x & r & Hx & Hnp)]]; [rewrite Hn in Hl, Hsp; simpl in Hl; injection Hl as <-; by vm_compute in Hsp..|].
    assert (Hlk : v !! (length s - i)%nat = Some x).
    { rewrite Hv. rewrite lookup_take_lt by lia.
      rewrite lookup_drop. replace (i + (length s - i))%nat with (length s) by lia.
      unfold mem. rewrite Hx, lookup_app_r, Nat.sub_diag by lia. done. }
    rewrite forallb_forall in Hp. apply list_elem_of_lookup_2, list_elem_of_In, Hp in Hlk. congruence. }
  split_and!; [done| |done]. rewrite Hv. unfold mem. rewrite drop_app_le by lia.
  apply take_app_le. rewrite length_drop. lia.
Qed.

Lemma simd_skip_spec fuel : forall i, reach i -> (i <= length s)%nat -> (vlen a s - i <= fuel)%nat ->
  exists j, simd_skip a s after fuel i = Some j /\ (i <= j <= length s)%nat /\ reach j /\
    forallb plain (take (j - i) (drop i s)) = true.
Proof using Hbytes.
  induction fuel as [|fuel IH]; intros i Hr Hi Hf; simpl.
  { exists i. destruct (Nat.ltb_spec i (vlen a s)); [lia|]. by rewrite Nat.sub_diag. }
  destruct (Nat.ltb_spec i (vlen a s)) as [Hlt|]; [|exists i; by rewrite Nat.sub_diag].
  destruct (load_guarded i) as [v Hv]; [done|lia|]. rewrite Hv.
  destruct (special a v) eqn:Hsp; [exists i; by rewrite Nat.sub_diag|].
  destruct (special_false_inside i v) as (Hin & Hve & Hp); [done|lia|done|done|].
  pose proof (reach_next i 1 Hr) as Hr1. rewrite Nat.mul_1_l in Hr1.
  destruct (IH (i + inst_len a)%nat) as (j & Hj & Hij & Hrj & Hpj); [done|done|pose proof (inst_len_pos a); lia|].
  exists j. split_and!; [done|lia|lia|done|].
  replace (j - i)%nat with (inst_len a + (j - (i + inst_len a)))%nat by lia.
  rewrite <- take_take_drop, drop_drop, forallb_app, <- Hve, Hp. exact Hpj.
Qed.

(** The results the writer may have. *)
Definition good (r : wres) : Prop :=
  match r with
  | Wrote t => esc_to one s t [] /\ Z.of_nat (length t) <= avail
  | NoSpace p => Z.of_nat (length p) <= avail /\
      exists t, esc_to one s t [] /\ avail < Z.of_nat (length t)
  | BadRead | Stuck => False
  end.

(** Where the writer may be: at [i], with the text of what is before it. *)
Definition at_pos (i : nat) (out : bytes) : Prop :=
  (i <= length s)%nat /\ esc_to one s out (drop i s) /\ Z.of_nat (length out) <= avail.

Lemma put_spec out d i j : at_pos i out ->
  (j <= length s)%nat -> esc_to one (drop i s) d (drop j s) ->
  match put avail out d with
  | Wrote out' => at_pos j out'
  | r => good r
  end.
Proof using Hbytes H.
  intros (Hi & He & Hl) Hj Hd. unfold put.
  pose proof (esc_to_trans _ _ _ _ _ _ He Hd) as Ht.
  destruct (Z.ltb_spec (avail - Z.of_nat (length out)) (Z.of_nat (length d))).
  - split; [done|]. destruct (esc_to_total (drop j s)) as [t' Ht'].
    { apply Forall_drop, is_bytes_s. }
    exists ((out ++ d) ++ t'). split; [by eapply esc_to_trans|]. rewrite !length_app. lia.
  - split_and!; [done|done|]. rewrite length_app. lia.
Qed.

Lemma slow_spec fuel : forall b i out, at_pos i out -> (length s - i < fuel)%nat ->
  match slow a s avail one fuel b i out with
  | Fin r => good r
  | Next j out' => at_pos j out' /\ ((b < inst_len a)%nat -> (i < j)%nat) /\ (i <= j)%nat
  end.
Proof using Hbytes H.
  induction fuel as [|fuel IH]; intros b i out Hp Hf; [lia|]. cbn [slow].
  destruct (Nat.leb_spec (inst_len a) b); [split_and!; [done|lia|lia]|].
  destruct (Nat.leb_spec (length s) i) as [Hge|Hlt].
  { destruct Hp as (_ & He & Hl). split; [|done]. by rewrite drop_ge in He. }
  assert (Hb : is_bytes (drop i s)) by (apply Forall_drop, is_bytes_s).
  assert (Hne : drop i s <> []) by (intros Hn; apply (f_equal length) in Hn; rewrite length_drop in Hn; simpl in Hn; lia).
  pose proof (w_used _ Hb Hne) as Hu. rewrite length_drop in Hu.
  assert (He : esc_to one (drop i s) (data (one (drop i s))) (drop (i + used (one (drop i s))) s)).
  { rewrite <- (app_nil_r (data _)). apply et_one; [done|]. rewrite drop_drop. constructor. }
  pose proof (put_spec out _ i (i + used (one (drop i s))) Hp ltac:(lia) He) as Hput.
  destruct (put avail out (data (one (drop i s)))) as [out'|p| |]; try done.
  destruct (stop (one (drop i s))); [split_and!; [done|lia|lia]|].
  pose proof (IH (S (default b (restart (one (drop i s))))) _ _ Hput ltac:(lia)) as Hs.
  destruct (slow _ _ _ _ _ _ _ _) as [r|j out2]; [done|].
  destruct Hs as (H1 & H2 & H3). split_and!; [done|lia|lia].
Qed.

(** A pass over ASCII characters takes a block of them. *)
Lemma slow_ascii fuel : forall b i out j out', Forall (λ c, c < 0x80) s -> (b <= inst_len a)%nat ->
  slow a s avail one fuel b i out = Next j out' -> j = (i + (inst_len a - b))%nat.
Proof using Hbytes H.
  induction fuel as [|fuel IH]; intros b i out j out' Ha Hb; cbn [slow].
  { destruct (Nat.leb_spec (inst_len a) b); [intros [= <- <-]; lia|]. by destruct (Nat.leb _ i). }
  destruct (Nat.leb_spec (inst_len a) b); [intros [= <- <-]; lia|].
  destruct (Nat.leb_spec (length s) i) as [|Hi]; [done|].
  destruct (lookup_lt_is_Some_2 s i Hi) as [c Hc]. rewrite (drop_S _ _ _ Hc).
  assert (Hcr : 0 <= c < 0x80).
  { pose proof is_bytes_s as Hs. unfold is_bytes, is_byte in Hs. rewrite Forall_lookup in Hs, Ha.
    pose proof (Hs i c Hc). pose proof (Ha i c Hc). simpl in *. lia. }
  destruct (w_ascii c (drop (S i) s) Hcr) as (-> & -> & ->). simpl.
  destruct (put avail out _); [|done..]. intros E. apply IH in E; [lia|done|lia].
Qed.

Lemma write_loop_spec fuel : forall i out, reach i -> at_pos i out -> (length s - i <= fuel)%nat ->
  good (write_loop a s after avail one fuel i i out).
Proof using Hbytes H.
  induction fuel as [|fuel IH]; intros i out Hr Hp Hf; cbn [write_loop].
  all: destruct (simd_skip_spec (vlen a s - i) i) as (j & -> & Hj & Hrj & Hpl); [done|apply Hp|done|].
  all: assert (Hput : match (if Nat.ltb i j then put avail out (take (j - i) (drop i (mem s after)))
      else Wrote out) with Wrote out' => at_pos j out' | r => good r end).
  1, 3: destruct (Nat.ltb_spec i j); [|by replace j with i by lia];
    apply (put_spec out _ i j Hp ltac:(lia));
    replace (take (j - i) (drop i (mem s after))) with (take (j - i) (drop i s))
      by (unfold mem; rewrite drop_app_le by lia; rewrite take_app_le; [done|rewrite length_drop; lia]);
    rewrite <- (take_drop (j - i) (drop i s)) at 1; rewrite drop_drop;
    replace (i + (j - i))%nat with j by lia; by apply esc_to_plain.
  all: destruct (if Nat.ltb i j then _ else _) as [out'|p| |]; try done.
  all: pose proof (slow_spec (S (length s)) 0 j out' Hput ltac:(lia)) as Hs.
  all: destruct (slow _ _ _ _ _ _ _ _) as [r|k out2] eqn:Es; [done|].
  all: pose proof (inst_len_pos a); destruct Hs as (H1 & H2 & H3); specialize (H2 ltac:(lia)).
  - destruct H1 as (H1 & _). lia.
  - apply IH; [|done|lia]. destruct Hrj as [Hg|[[Ha Hk]|Hs']]; [by left| |right; by right].
    apply slow_ascii in Es as ->; [|done|lia]. rewrite Nat.sub_0_r, <- (Nat.mul_1_l (inst_len a)).
    apply reach_next. right. by left.
Qed.

End LoopSpec.

(** *** The two character writers *)

(** A character is ASCII, or its conversion is far above. *)
Lemma char_conv b : is_byte b ->
  u32 (i8 b) = (if b <? 0x80 then b else 2 ^ 32 - 256 + b).
Proof.
  intros Hb. pose proof (byte_forall (λ b, u32 (i8 b) =? (if b <? 0x80 then b else 2 ^ 32 - 256 + b)) b
    ltac:(by vm_compute) Hb) as H. by apply Z.eqb_eq in H.
Qed.

Lemma table_length c q : json_escape_table c = Some q -> (0 < length q <= 6)%nat.
Proof.
  unfold json_escape_table. intros H. repeat case_match; simplify_eq; simpl; lia.
Qed.

Lemma ascii_conv b : 0 <= b < 0x80 -> u32 (i8 b) = b.
Proof.
  intros Hb. rewrite char_conv by (unfold is_byte; lia). by rewrite (proj2 (Z.ltb_lt _ _)) by lia.
Qed.

Lemma one_raw_ascii b s : 0 <= b < 0x80 -> exists d, one_raw (b :: s) = mkact d 1 false None.
Proof.
  intros Hb. unfold one_raw. cbn [cget nth]. rewrite (ascii_conv b Hb).
  rewrite (proj2 (Z.ltb_lt b 128)) by lia. destruct (json_escape_table b); eauto.
Qed.

Lemma one_escaped_ascii b s : 0 <= b < 0x80 -> exists d, one_escaped (b :: s) = mkact d 1 false None.
Proof.
  intros Hb. unfold one_escaped. cbn [cget nth]. rewrite (ascii_conv b Hb).
  rewrite (proj2 (Z.ltb_lt b 128)) by lia. destruct (json_escape_table b); [eauto|].
  rewrite (proj2 (Z.ltb_ge 0xFFFF b)) by lia. eauto.
Qed.

#[export] Instance one_raw_writer : Writer one_raw.
Proof.
  split; [| |intros b s Hb; by destruct (one_raw_ascii b s Hb) as [d ->]]; intros s Hb Hs; unfold one_raw;
    (destruct (if _ <? 128 then _ else None) as [q|] eqn:Ht; simpl);
    try (destruct (u32 (i8 (cget s 0)) <? 128); [|done]; apply table_length in Ht);
    pose proof (validate_range s Hs);
    assert (0 < length s)%nat by (destruct s; [done|simpl; lia]); try lia.
  all: destruct (_ <? 0x80); simpl; [lia|]; destruct (_ || _) eqn:Hc; simpl; try lia.
  rewrite length_take. lia.
Qed.

Lemma esc_decode_length k : forall r state codep tmp, (k <= length r)%nat ->
  let '(v, t, _) := esc_decode k (length tmp) state codep r tmp in
  (v = true -> length t = (length tmp + k)%nat) /\
  ((0 < length tmp + k)%nat -> (0 < length t <= length tmp + k)%nat).
Proof.
  induction k as [|k IH]; intros r state codep tmp Hk; cbn [esc_decode]; [split; lia|].
  destruct (flb_utf8_decode state codep (cget r 0)) as [[ret st] cp].
  destruct (ret =? FLB_UTF8_REJECT).
  { destruct (Nat.eqb_spec (length tmp) 0); split; simpl; done || lia. }
  destruct r as [|b r]; simpl in Hk; [lia|]. cbn [tail cget nth].
  specialize (IH r st cp (tmp ++ [b]) ltac:(lia)). rewrite length_app in IH. simpl in IH.
  rewrite Nat.add_1_r in IH. destruct (esc_decode _ _ _ _ _ _) as [[v t] c].
  destruct IH as [H1 H2]. split; [intros; rewrite H1; [lia|done]|intros; lia].
Qed.

Lemma concat_fragment_length l : length (concat (map fragment l)) = (3 * length l)%nat.
Proof. induction l as [|b l IH]; [done|]. cbn [map concat]. rewrite length_app, IH. simpl. lia. Qed.

Lemma esc_code_length c : (length (esc_code c) <= 12)%nat.
Proof. unfold esc_code. case_match; simpl; lia. Qed.

(** A sequence of one byte above 0x7F is not valid. *)
Lemma esc_decode_single b r : 0x80 <= b < 0xC0 ->
  esc_decode 1 0 0 0 (b :: r) [] = (false, [b], 0).
Proof.
  intros Hb. cbn [esc_decode cget nth]. rewrite decode_lead by (unfold is_byte; lia).
  rewrite (proj2 (Z.ltb_ge _ _)) by lia.
  assert ((0xC0 <=? b) = false) as -> by lia. assert ((0xE0 <=? b) = false) as -> by lia.
  assert ((0xF0 <=? b) = false) as -> by lia. done.
Qed.

#[export] Instance one_escaped_writer : Writer one_escaped.
Proof.
  assert (Hdec : forall b s, is_byte b -> (0xFFFF <? u32 (i8 b)) = true ->
    (Z.of_nat (length (b :: s)) <? flb_utf8_len (b :: s)) = false ->
    let '(v, t, c) := esc_decode (Z.to_nat (flb_utf8_len (b :: s))) 0 FLB_UTF8_ACCEPT 0 (b :: s) [] in
    (0 < length t <= length (b :: s))%nat /\ (v = true -> (2 <= length t)%nat)).
  { intros b s Hb Hc Hl. rewrite (char_conv b Hb) in Hc. unfold is_byte in Hb.
    destruct (Z.ltb_spec b 0x80); [lia|].
    pose proof (esc_decode_length (Z.to_nat (flb_utf8_len (b :: s))) (b :: s) 0 0 [] ltac:(lia)) as Hd.
    simpl (length []) in Hd. unfold FLB_UTF8_ACCEPT.
    destruct (Z.ltb_spec b 0xC0) as [Hlt|Hge].
    - assert (Hlen : flb_utf8_len (b :: s) = 1).
      { unfold flb_utf8_len, trailing_bytes_for_utf8. cbn [cget nth]. by rewrite (proj2 (Z.ltb_lt _ _)). }
      rewrite Hlen. change (Z.to_nat 1) with 1%nat. rewrite esc_decode_single by lia. simpl. split; [lia|done].
    - assert (2 <= flb_utf8_len (b :: s)).
      { unfold flb_utf8_len, trailing_bytes_for_utf8. cbn [cget nth]. zcase; lia. }
      destruct (esc_decode _ _ _ _ _ _) as [[v t] c]. simpl in Hd. destruct Hd as [H1 H2].
      split; [lia|]. intros Hv. rewrite H1 by done. lia. }
  split; [| |intros b s Hb; by destruct (one_escaped_ascii b s Hb) as [d ->]];
    intros [|b s] Hb Hs; try done; apply Forall_cons in Hb as [Hb _]; unfold one_escaped;
    cbn [cget nth]; (destruct (if _ <? 128 then _ else None) as [q|] eqn:Ht);
    try (destruct (u32 (i8 b) <? 128); [|done]; apply table_length in Ht; simpl; lia);
    (destruct (0xFFFF <? u32 (i8 b)) eqn:Hc; [|simpl; lia]);
    (destruct (Z.of_nat (length (b :: s)) <? flb_utf8_len (b :: s)) eqn:Hl; [simpl; lia|]);
    specialize (Hdec b s Hb Hc Hl); destruct (esc_decode _ _ _ _ _ _) as [[v t] c];
    destruct Hdec as [H1 H2]; destruct v; cbn [used data]; try done.
  - specialize (H2 eq_refl). pose proof (esc_code_length c). lia.
  - rewrite concat_fragment_length. lia.
Qed.

Definition one_char (escape_unicode : bool) : bytes -> action :=
  if escape_unicode then one_escaped else one_raw.

#[export] Instance one_char_writer e : Writer (one_char e).
Proof. destruct e; apply _. Qed.

(** The result of either writer. *)
Lemma write_str_good a off size s after e :
  0 <= off <= size -> size < 2 ^ 64 -> is_bytes (s ++ after) -> block_safe a s after ->
  match flb_utils_write_str a off size s after e with
  | Wrote t => esc_to (one_char e) s t [] /\ Z.of_nat (length t) <= size - off
  | NoSpace p => Z.of_nat (length p) <= size - off /\
      size - off < 6 * Z.of_nat (length s)
  | _ => False
  end.
Proof.
  intros Ho Hsz Hb Hg. unfold flb_utils_write_str, flb_utils_write_str_escaped, flb_utils_write_str_raw.
  rewrite u64_small by lia.
  assert (Hw : forall one, Writer one -> good one s (size - off) (write_loop a s after (size - off) one (length s) 0 0 [])).
  { intros one Hone. apply write_loop_spec; [done|done| | |lia].
    - destruct Hg as [Hg|[Ha|Hs]]; [by left|right; left|right; by right]. split; [done|]. by exists 0%nat.
    - split_and!; [lia| |simpl; lia]. rewrite drop_0. constructor. }
  assert (Hgood : forall one, Writer one -> match write_loop a s after (size - off) one (length s) 0 0 [] with
    | Wrote t => esc_to one s t [] /\ Z.of_nat (length t) <= size - off
    | NoSpace p => Z.of_nat (length p) <= size - off /\ size - off < 6 * Z.of_nat (length s)
    | _ => False end).
  { intros one Hone. specialize (Hw one Hone). destruct (write_loop _ _ _ _ _ _ _ _ _) as [t|p| |]; try done.
    destruct Hw as (Hl & t & Ht & Hlt). split; [done|].
    apply Forall_app in Hb as [Hb _]. apply (esc_to_length one) in Ht; [|done]. simpl in Ht. lia. }
  destruct e; [|apply Hgood; apply _].
  destruct (Z.ltb_spec (size - off) (Z.of_nat (length s))); [simpl; lia|apply Hgood; apply _].
Qed.

(** *** Theorems of the writers *)

(** A writer ends without a load past the memory there is, and writes at most
    the space it was given, whether the text fits or not; it gives up only when
    the space is less than six bytes for each of the string. *)
Theorem write_str_bounds a off size s after e :
  0 <= off <= size -> size < 2 ^ 64 -> is_bytes (s ++ after) -> block_safe a s after ->
  (exists t, flb_utils_write_str a off size s after e = Wrote t /\
     off + Z.of_nat (length t) <= size) \/
  (exists p, flb_utils_write_str a off size s after e = NoSpace p /\
     off + Z.of_nat (length p) <= size /\ size - off < 6 * Z.of_nat (length s)).
Proof.
  intros Ho Hs Hb Hg. pose proof (write_str_good a off size s after e Ho Hs Hb Hg) as H.
  destruct (flb_utils_write_str a off size s after e) as [t|p| |]; try done.
  - left. exists t. destruct H as [_ H]. split; [done|lia].
  - right. exists p. destruct H as [H1 H2]. split_and!; [done|lia|lia].
Qed.

Lemma write_str_grow_ok a s after e t fuel : forall size,
  is_bytes (s ++ after) -> block_safe a s after -> Forall (eq true) t ->
  0 <= size -> 6 * Z.of_nat (length s) <= size + 256 * Z.of_nat fuel ->
  size + 256 * Z.of_nat fuel < 2 ^ 64 ->
  exists out sz, write_str_grow fuel a s after e size t = BufOk out sz /\
    esc_to (one_char e) s out [] /\ Z.of_nat (length out) <= sz.
Proof.
  revert t. induction fuel as [|fuel IH]; intros t size Hb Hg Ht Hs0 H6 Hmax;
    cbn [write_str_grow];
    pose proof (write_str_good a 0 size s after e ltac:(lia) ltac:(lia) Hb Hg) as H;
    destruct (flb_utils_write_str a 0 size s after e) as [out|p| |]; try done;
    rewrite Z.sub_0_r in H; destruct H as [H1 H2]; try (eexists _, _; by split_and!).
  { lia. }
  assert (Hm : exists t', flb_malloc t = (true, t') /\ Forall (eq true) t').
  { destruct t as [|x t]; [by eexists|]. apply Forall_cons in Ht as [<- Ht]. by eexists. }
  destruct Hm as (t' & -> & Ht'). rewrite u64_small by lia.
  apply IH; [done|done|done|lia|lia|lia].
Qed.

(** Growing the buffer ends: with memory, [flb_utils_write_str_buf] returns the
    text in a buffer that holds it. *)
Theorem write_str_buf_terminates a s after e :
  is_bytes (s ++ after) -> block_safe a s after -> 257 * Z.of_nat (length s) + 1 < 2 ^ 64 ->
  exists out size, flb_utils_write_str_buf (length s) a s after e [] = BufOk out size /\
    esc_to (one_char e) s out [] /\ Z.of_nat (length out) <= size.
Proof.
  intros Hb Hg Hl. unfold flb_utils_write_str_buf. simpl.
  apply write_str_grow_ok; [done|done|constructor|lia|lia|lia].
Qed.

(** The reference function: every character as the slow path writes it. *)
Fixpoint escape_ref (one : bytes -> action) (fuel : nat) (s : bytes) : bytes :=
  match fuel with
  | O => []
  | S fuel' =>
      match s with
      | [] => []
      | _ => data (one s) ++ escape_ref one fuel' (drop (used (one s)) s)
      end
  end.

Definition no_del (s : bytes) : Prop := Forall (λ b, b <> 0x7F) s.

(** Plain characters but DEL are written as themselves. *)
Lemma one_char_plain e b s : plain b = true -> b <> 0x7F ->
  one_char e (b :: s) = mkact [b] 1 false None.
Proof.
  intros Hp Hd. unfold plain in Hp. assert (Hb : 0x20 <= b < 0x7F /\ b <> 34 /\ b <> 92) by lia.
  assert (Ht : json_escape_table b = None).
  { unfold json_escape_table. zcase; try lia; done. }
  assert (Hc : u32 (i8 b) = b).
  { rewrite char_conv by (unfold is_byte; lia). by rewrite (proj2 (Z.ltb_lt _ _)) by lia. }
  destruct e; unfold one_char, one_escaped, one_raw; cbn [cget nth]; rewrite Hc, Ht;
    rewrite u8_small by lia.
  - destruct (Z.ltb_spec b 128); [|lia]. destruct (Z.ltb_spec 0xFFFF b); [lia|done].
  - by destruct (Z.ltb_spec b 128); [|lia].
Qed.

Lemma esc_to_ref e s t r : esc_to (one_char e) s t r -> r = [] -> is_bytes s -> no_del s ->
  forall fuel, (length s <= fuel)%nat -> t = escape_ref (one_char e) fuel s.
Proof.
  intros H. induction H as [s|b s t r Hp H IH|s t r Hs H IH]; intros -> Hb Hd fuel Hf.
  - by destruct fuel.
  - apply Forall_cons in Hb as [_ Hb]. apply Forall_cons in Hd as [Hb' Hd]. simpl in Hf.
    destruct fuel as [|fuel]; [lia|]. cbn [escape_ref].
    rewrite one_char_plain by done. simpl. rewrite drop_0. f_equal. apply IH; [done..|lia].
  - pose proof (w_used (one := one_char e) s Hb Hs). destruct fuel as [|fuel]; [lia|]. cbn [escape_ref].
    destruct s as [|b s]; [done|]. f_equal.
    apply IH; [done|by apply Forall_drop|by apply Forall_drop|rewrite length_drop; lia].
Qed.

(** On text without DEL the loop with blocks writes what the loop without them
    writes, when it fits. *)
Theorem write_str_reference a off size s after e :
  0 <= off -> off + 6 * Z.of_nat (length s) <= size -> size < 2 ^ 64 ->
  is_bytes (s ++ after) -> block_safe a s after -> no_del s ->
  flb_utils_write_str a off size s after e = Wrote (escape_ref (one_char e) (length s) s).
Proof.
  intros Ho Hf Hs Hb Hg Hd.
  pose proof (write_str_good a off size s after e ltac:(lia) Hs Hb Hg) as H.
  destruct (flb_utils_write_str a off size s after e) as [t|p| |]; [|lia|done|done].
  destruct H as [H _]. f_equal. apply (esc_to_ref e s t []); try done.
  by apply Forall_app in Hb as [? _].
Qed.
End Escape.

(** ** Reading *)

Module Unescape.
Import Simd Escape.

Definition octal_digit (c : Z) : bool := (48 <=? c) && (c <=? 55).
Definition hex_digit (c : Z) : bool :=
  ((48 <=? c) && (c <=? 57)) || ((65 <=? c) && (c <=? 70)) || ((97 <=? c) && (c <=? 102)).

(** strtol of the digits collected: a base and the values of digits. *)
Definition digit_value (c : Z) : Z :=
  if c <=? 57 then c - 48 else if c <=? 70 then c - 55 else c - 87.
Definition strtol (base : Z) (digs : bytes) : Z :=
  foldl (λ v c, v * base + digit_value c) 0 digs.

Definition u8_high_surrogate (c : Z) : bool := (0xD800 <=? c) && (c <=? 0xDBFF).
Definition u8_low_surrogate (c : Z) : bool := (0xDC00 <=? c) && (c <=? 0xDFFF).
Definition u8_combine_surrogates (high low : Z) : Z :=
  u32 (0x10000 + Z.lor (u32 (Z.shiftl (high - 0xD800) 10)) (low - 0xDC00)).

(** The digits at the start of a text, up to [n]. *)
Fixpoint digits (p : Z -> bool) (n : nat) (r : bytes) : bytes :=
  match n, r with
  | S n', c :: r' => if p c then c :: digits p n' r' else []
  | _, _ => []
  end.

(** After a high surrogate [v] that ends at [i]: the second half of the pair, or
    the replacement character. *)
Definition read_low (s : bytes) (i : nat) (v : Z) : nat * Z :=
  if (Nat.ltb (i + 2) (length s)) && (cget s i =? 92) && (cget s (i + 1) =? ch "u") then
    let ldigs := digits hex_digit 4 (drop (i + 2) s) in
    let i := (i + 2 + length ldigs)%nat in
    if negb (Nat.eqb (length ldigs) 4) && negb (bool_decide (ldigs = [])) then (i, 0xFFFD)
    else
      let low := strtol 16 ldigs in
      if u8_low_surrogate low then (i, u8_combine_surrogates v low) else (i, 0xFFFD)
  else (i, 0xFFFD).

(** [u8_read_escape_sequence (str, size, &ch)], of the text after a backslash:
    the characters processed and the value. *)
Definition u8_read_escape_sequence (s : bytes) : nat * Z :=
  let c := cget s 0 in
  if c =? ch "n" then (1%nat, 10)
  else if c =? ch "t" then (1%nat, 9)
  else if c =? ch "r" then (1%nat, 13)
  else if c =? ch "b" then (1%nat, 8)
  else if c =? ch "f" then (1%nat, 12)
  else if c =? ch "v" then (1%nat, 11)
  else if c =? ch "a" then (1%nat, 7)
  else if octal_digit c then
    let digs := digits octal_digit 3 s in (length digs, strtol 8 digs)
  else if c =? ch "x" then
    let digs := digits hex_digit 2 (tail s) in
    (S (length digs), if bool_decide (digs = []) then u32 (i8 c) else strtol 16 digs)
  else if c =? ch "u" then
    let digs := digits hex_digit 4 (tail s) in
    let i := S (length digs) in
    if negb (Nat.eqb (length digs) 4) && negb (bool_decide (digs = [])) then (i, 0xFFFD)
    else
      let v := strtol 16 digs in
      if u8_low_surrogate v then (i, 0xFFFD)
      else if u8_high_surrogate v then read_low s i v
      else (i, v)
  else if c =? ch "U" then
    let digs := digits hex_digit 8 (tail s) in
    (S (length digs), if bool_decide (digs = []) then u32 (i8 c) else strtol 16 digs)
  else (1%nat, u32 (i8 c)).

(** One step of [flb_unescape_string_utf8]: the characters consumed and the
    value, for the text [r] that is left. *)
Definition unesc_one (r : bytes) : nat * Z :=
  match r with
  | 92 :: n :: r' =>
      if n =? 34 then (2%nat, 34)
      else if n =? 39 then (2%nat, 39)
      else if n =? 92 then (2%nat, 92)
      else if n =? ch "/" then (2%nat, ch "/")
      else if n =? ch "n" then (2%nat, 10)
      else if n =? ch "b" then (2%nat, 8)
      else if n =? ch "t" then (2%nat, 9)
      else if n =? ch "f" then (2%nat, 12)
      else if n =? ch "r" then (2%nat, 13)
      else let '(k, v) := u8_read_escape_sequence (n :: r') in (S k, v)
  | _ => (1%nat, u32 (i8 (cget r 0)))
  end.

(** The bytes a value adds: its encoding, or its low byte when it has none. *)
Definition emit (v : Z) : bytes :=
  match u8_wc_toutf8 v with [] => [u8 v] | e => e end.

(** The loop: [sz] is the length of the input; [crossed] tells that the check of
    the output stopped it.  The text left bounds it. *)
Fixpoint unesc_loop (fuel : nat) (sz : Z) (r : bytes) (out : bytes) : bytes * bool :=
  match fuel with
  | O => (out, false)
  | S fuel' =>
      if bool_decide (r = []) || (cget r 0 =? 0) then (out, false)
      else
        let '(esc_in, v) := unesc_one r in
        if sz - Z.of_nat (length out) <? Z.of_nat (length (u8_wc_toutf8 v)) then (out, true)
        else unesc_loop fuel' sz (drop esc_in r) (out ++ emit v)
  end.

Definition flb_unescape_string_utf8 (s : bytes) : bytes * bool :=
  unesc_loop (S (length s)) (Z.of_nat (length s)) s [].

(** [flb_unescape_string]: [i] steps over the input; [None] when it reads the
    byte after it. *)
Fixpoint unesc_plain (fuel : nat) (r : bytes) (out : bytes) : option bytes :=
  match fuel with
  | O => Some out
  | S fuel' =>
      match r with
      | [] => Some out
      | 92 :: n :: r' =>
          let put c := out ++ [c] in
          if n =? ch "n" then unesc_plain fuel' r' (put 10)
          else if n =? ch "a" then unesc_plain fuel' r' (put 7)
          else if n =? ch "b" then unesc_plain fuel' r' (put 8)
          else if n =? ch "t" then unesc_plain fuel' r' (put 9)
          else if n =? ch "v" then unesc_plain fuel' r' (put 11)
          else if n =? ch "f" then unesc_plain fuel' r' (put 12)
          else if n =? ch "r" then unesc_plain fuel' r' (put 13)
          else if n =? 92 then unesc_plain fuel' r' (put 92)
          else unesc_plain fuel' (n :: r') out
      | [92] => None
      | c :: r' => unesc_plain fuel' r' (out ++ [c])
      end
  end.

Definition flb_unescape_string (s : bytes) : option bytes := unesc_plain (S (length s)) s [].

Fixpoint mysql_loop (fuel : nat) (r : bytes) (out : bytes) : bytes :=
  match fuel with
  | O => out
  | S fuel' =>
      match r with
      | [] => out
      | 92 :: n :: r' =>
          mysql_loop fuel' r'
            (out ++ (if n =? ch "n" then [10]
                     else if n =? ch "r" then [13]
                     else if n =? ch "t" then [9]
                     else if n =? 92 then [92]
                     else if n =? 39 then [39]
                     else if n =? 34 then [34]
                     else if n =? ch "0" then [0]
                     else if n =? ch "Z" then [0x1a]
                     else [92; n]))
      | c :: r' => mysql_loop fuel' r' (out ++ [c])
      end
  end.

Definition flb_mysql_unquote_string (s : bytes) : bytes := mysql_loop (S (length s)) s [].

(** *** Bounds of a step *)

Lemma emit_length v : 0 <= v ->
  Z.of_nat (length (emit v)) =
    if v <? 0x80 then 1 else if v <? 0x800 then 2 else if v <? 0x10000 then 3
    else if v <? 0x110000 then 4 else 1.
Proof. intros Hv. unfold emit, u8_wc_toutf8. zcase; done || lia. Qed.

Lemma toutf8_le_emit v : (length (u8_wc_toutf8 v) <= length (emit v))%nat.
Proof. unfold emit. destruct (u8_wc_toutf8 v); simpl; lia. Qed.

Lemma digits_length p n r : (length (digits p n r) <= n)%nat /\ (length (digits p n r) <= length r)%nat.
Proof.
  revert r. induction n as [|n IH]; intros [|c r]; simpl; [lia..|].
  destruct (p c); simpl; [|lia]. specialize (IH r). lia.
Qed.

Lemma strtol_bound base l : 0 < base -> Forall (λ c, 0 <= digit_value c < base) l ->
  0 <= strtol base l < base ^ Z.of_nat (length l).
Proof.
  intros Hb. unfold strtol. rewrite <- (rev_involutive l). intros Hl%Forall_rev.
  rewrite rev_involutive in Hl. rewrite length_rev.
  induction (rev l) as [|c l' IH]; [simpl; lia|].
  apply Forall_cons in Hl as [Hc Hl]. specialize (IH Hl). simpl rev. rewrite foldl_app.
  cbn [foldl length]. rewrite Nat2Z.inj_succ, Z.pow_succ_r by lia. nia.
Qed.

Lemma digits_all p n r : Forall (λ c, p c = true) (digits p n r).
Proof.
  revert r. induction n as [|n IH]; intros [|c r]; simpl; [constructor..|].
  destruct (p c) eqn:Hp; constructor; auto.
Qed.

Lemma hex_value n r : 0 <= strtol 16 (digits hex_digit n r) < 16 ^ Z.of_nat (length (digits hex_digit n r)).
Proof.
  apply strtol_bound; [lia|]. eapply Forall_impl; [apply digits_all|]. intros c Hc.
  unfold hex_digit in Hc. unfold digit_value. zcase; lia.
Qed.

Lemma octal_value n r : 0 <= strtol 8 (digits octal_digit n r) < 8 ^ Z.of_nat (length (digits octal_digit n r)).
Proof.
  apply strtol_bound; [lia|]. eapply Forall_impl; [apply digits_all|]. intros c Hc.
  unfold octal_digit in Hc. unfold digit_value. zcase; lia.
Qed.

(** What a step takes is there, and is at least what it writes. *)
Definition step_ok (room : nat) (x : nat * Z) : Prop :=
  (0 < x.1 <= room)%nat /\ 0 <= x.2 /\ Z.of_nat (length (emit x.2)) <= Z.of_nat x.1.

Lemma step_ok_intro room k v : (0 < k <= room)%nat -> 0 <= v ->
  (0x80 <= v < 0x110000 -> (2 <= k)%nat) -> (0x800 <= v < 0x110000 -> (3 <= k)%nat) ->
  (0x10000 <= v < 0x110000 -> (4 <= k)%nat) -> step_ok room (k, v).
Proof.
  intros Hk Hv H1 H2 H3. split_and!; simpl; [lia|lia|lia|]. rewrite emit_length by done. zcase; lia.
Qed.

Lemma combine_range h l : u8_high_surrogate h = true -> u8_low_surrogate l = true ->
  u8_combine_surrogates h l = 0x10000 + (h - 0xD800) * 1024 + (l - 0xDC00).
Proof.
  unfold u8_high_surrogate, u8_low_surrogate, u8_combine_surrogates. intros Hh Hl.
  rewrite Z.shiftl_mul_pow2, (u32_small (_ * _)) by lia. rewrite lor_shift_add by lia.
  rewrite u32_small; lia.
Qed.

Lemma conv_ok b : is_byte b ->
  0 <= u32 (i8 b) /\ (u32 (i8 b) < 0x80 \/ 0x110000 <= u32 (i8 b)) /\ emit (u32 (i8 b)) = [b].
Proof.
  intros Hb. rewrite Escape.char_conv by done. unfold is_byte in Hb.
  destruct (Z.ltb_spec b 0x80).
  - split_and!; [lia|lia|]. unfold emit, u8_wc_toutf8. by rewrite (proj2 (Z.ltb_lt _ _)) by lia.
  - split_and!; [lia|lia|]. unfold emit, u8_wc_toutf8.
    rewrite !(proj2 (Z.ltb_ge _ _)) by lia. f_equal. unfold u8.
    replace (2 ^ 32 - 256 + b) with (b + (2 ^ 24 - 1) * 2 ^ 8) by lia.
    rewrite Z.mod_add, Z.mod_small by lia. done.
Qed.

Lemma read_low_ok s i v : (5 <= i <= length s)%nat -> u8_high_surrogate v = true ->
  let x := read_low s i v in
  (i <= x.1 <= length s)%nat /\ 0 <= x.2 /\ (x.2 < 0x10000 \/ (6 <= x.1)%nat).
Proof.
  intros Hi Hv. unfold read_low.
  destruct (Nat.ltb_spec (i + 2) (length s)); simpl (_ && _); [|split_and!; simpl; lia].
  destruct (_ && _); [|split_and!; simpl; lia].
  set (ld := digits hex_digit 4 (drop (i + 2) s)).
  assert (length ld <= length s - (i + 2))%nat.
  { pose proof (digits_length hex_digit 4 (drop (i + 2) s)) as Hd. rewrite length_drop in Hd. tauto. }
  destruct (_ && _); [split_and!; simpl; lia|].
  destruct (u8_low_surrogate (strtol 16 ld)) eqn:Hl; [|split_and!; simpl; lia].
  cbn [fst snd]. rewrite combine_range by done. unfold u8_high_surrogate, u8_low_surrogate in *.
  split_and!; lia.
Qed.

Lemma read_escape_ok s : is_bytes s -> s <> [] ->
  step_ok (S (length s)) (let '(k, v) := u8_read_escape_sequence s in (S k, v)).
Proof.
  intros Hb Hs. assert (Hc : is_byte (cget s 0)).
  { destruct s as [|b s]; [done|]. by apply Forall_cons in Hb as [? _]. }
  destruct (conv_ok _ Hc) as (Hc1 & Hc2 & _).
  assert (Hl : (0 < length s)%nat) by (destruct s; [done|simpl; lia]).
  assert (Hone : forall v, 0 <= v -> v < 0x80 \/ 0x110000 <= v -> step_ok (S (length s)) (2%nat, v)).
  { intros v H1 H2. apply step_ok_intro; lia. }
  assert (Ht : forall n, (length (digits hex_digit n (tail s)) <= n)%nat /\
    (length (digits hex_digit n (tail s)) < length s)%nat).
  { intros n. pose proof (digits_length hex_digit n (tail s)). destruct s; simpl in *; [done|lia]. }
  unfold u8_read_escape_sequence.
  repeat (match goal with |- context [if cget s 0 =? ch ?x then (1%nat, _) else _] =>
    destruct (cget s 0 =? ch x); [apply Hone; lia|] end).
  destruct (octal_digit (cget s 0)) eqn:Ho; [|destruct (cget s 0 =? ch "x"); [|
    destruct (cget s 0 =? ch "u"); [|destruct (cget s 0 =? ch "U"); [|by apply Hone]]]].
  - pose proof (octal_value 3 s) as Hv. destruct (digits_length octal_digit 3 s) as [H1 H2].
    assert (0 < length (digits octal_digit 3 s))%nat.
    { destruct s as [|b s]; [done|]. cbn [cget nth] in Ho. cbn [digits]. rewrite Ho. simpl. lia. }
    destruct (length (digits octal_digit 3 s)) as [|[|[|[|]]]] eqn:Hd; try lia;
      apply step_ok_intro; try lia.
  - pose proof (hex_value 2 (tail s)) as Hv. destruct (Ht 2%nat) as [H1 H2].
    case_bool_decide as Hn; [rewrite Hn; by apply Hone|].
    destruct (length (digits hex_digit 2 (tail s))) as [|[|[|]]] eqn:Hd; try lia;
      apply step_ok_intro; try lia.
  - pose proof (hex_value 4 (tail s)) as Hv. destruct (Ht 4%nat) as [H1 H2].
    destruct (digits hex_digit 4 (tail s)) as [|d ds] eqn:Hd.
    { change (step_ok (S (length s)) (2%nat, 0)). apply Hone; lia. }
    destruct (Nat.eqb_spec (length (d :: ds)) 4) as [H4|H4]; simpl (_ && _).
    2: { apply step_ok_intro; simpl in *; lia. }
    rewrite H4 in *. destruct (u8_low_surrogate _); [apply step_ok_intro; lia|].
    destruct (u8_high_surrogate _) eqn:Hh.
    2: { apply step_ok_intro; lia. }
    pose proof (read_low_ok s 5 (strtol 16 (d :: ds)) ltac:(lia) Hh) as Hr.
    destruct (read_low s 5 (strtol 16 (d :: ds))) as [k v]. simpl in Hr.
    apply step_ok_intro; lia.
  - pose proof (hex_value 8 (tail s)) as Hv. destruct (Ht 8%nat) as [H1 H2].
    case_bool_decide as Hn; [rewrite Hn; by apply Hone|].
    destruct (length (digits hex_digit 8 (tail s))) as [|[|[|[|]]]] eqn:Hd; try lia;
      try (by apply nil_length_inv in Hd); apply step_ok_intro; try lia.
Qed.

Lemma unesc_one_other b r : b <> 92 -> unesc_one (b :: r) = (1%nat, u32 (i8 b)).
Proof.
  intros Hb. unfold unesc_one. destruct b as [|p|p]; try done.
  repeat (destruct p as [p|p|]; try done).
Qed.

Lemma unesc_one_ok r : is_bytes r -> r <> [] -> step_ok (length r) (unesc_one r).
Proof.
  intros Hb Hr. destruct r as [|b r]; [done|]. apply Forall_cons in Hb as [Hb Hbr].
  destruct (conv_ok b Hb) as (H1 & H2 & _).
  destruct (decide (b = 92)) as [->|Hne].
  2: { rewrite unesc_one_other by done. apply step_ok_intro; simpl length; lia. }
  destruct r as [|n r]; [change (step_ok 1 (1%nat, u32 (i8 92))); apply step_ok_intro; lia|].
  assert (Hone : forall v, 0 <= v < 0x80 -> step_ok (length (92 :: n :: r)) (2%nat, v)).
  { intros v Hv. apply step_ok_intro; simpl; lia. }
  pose proof (read_escape_ok (n :: r) Hbr ltac:(done)) as He.
  unfold unesc_one.
  repeat (match goal with |- context [if n =? ?x then (2%nat, _) else _] =>
    destruct (n =? x); [apply Hone; vm_compute; by split|] end).
  exact He.
Qed.

(** *** The reader without its check *)

Fixpoint unesc_ref (fuel : nat) (r : bytes) : bytes :=
  match fuel with
  | O => []
  | S fuel' =>
      if bool_decide (r = []) || (cget r 0 =? 0) then []
      else let '(k, v) := unesc_one r in emit v ++ unesc_ref fuel' (drop k r)
  end.

Lemma unesc_loop_ref fuel : forall sz r out, is_bytes r -> (length r < fuel)%nat ->
  Z.of_nat (length out) + Z.of_nat (length r) <= sz ->
  unesc_loop fuel sz r out = (out ++ unesc_ref fuel r, false).
Proof.
  induction fuel as [|fuel IH]; intros sz r out Hb Hf Hs; [lia|]. cbn [unesc_loop unesc_ref].
  case_bool_decide as Hr; [by rewrite app_nil_r|]. simpl (_ || _).
  destruct (cget r 0 =? 0); [by rewrite app_nil_r|].
  destruct (unesc_one_ok r Hb Hr) as (H1 & H2 & H3).
  destruct (unesc_one r) as [k v]. simpl in H1, H2, H3.
  pose proof (toutf8_le_emit v).
  destruct (Z.ltb_spec (sz - Z.of_nat (length out)) (Z.of_nat (length (u8_wc_toutf8 v)))); [lia|].
  rewrite IH; [by rewrite <- app_assoc|by apply Forall_drop|rewrite length_drop; lia|].
  rewrite length_app, length_drop. lia.
Qed.

Lemma unesc_ref_length fuel : forall r, is_bytes r ->
  (length (unesc_ref fuel r) <= length r)%nat.
Proof.
  induction fuel as [|fuel IH]; intros r Hb; cbn [unesc_ref]; [simpl; lia|].
  case_bool_decide as Hr; [simpl; lia|]. simpl (_ || _). destruct (cget r 0 =? 0); [simpl; lia|].
  destruct (unesc_one_ok r Hb Hr) as (H1 & H2 & H3).
  destruct (unesc_one r) as [k v]. simpl in H1, H2, H3. rewrite length_app.
  specialize (IH (drop k r) (Forall_drop _ _ _ Hb)). rewrite length_drop in IH. lia.
Qed.

(** The text read is never longer than the input, so the check of the output
    never stops the reader and a buffer of the length of the input and a
    terminator is enough. *)
Theorem unescape_utf8_bounds s : is_bytes s ->
  (flb_unescape_string_utf8 s).2 = false /\
  (length (flb_unescape_string_utf8 s).1 <= length s)%nat.
Proof.
  intros Hb. unfold flb_unescape_string_utf8. rewrite unesc_loop_ref by (done || simpl; lia).
  split; [done|]. exact (unesc_ref_length (S (length s)) s Hb).
Qed.













(** *** Reading what was written *)
















(** *** On concrete text *)

Lemma zeros_guarded a : guarded a (replicate 16 0).
Proof.
  destruct a; [..|by left|right; by left]; right; right;
    (split; [simpl; lia|eexists _, _; split; [reflexivity|done]]).
Qed.

Lemma bytes_ascii l : forallb (λ b, (0 <=? b) && (b <? 256)) l = true -> is_bytes l.
Proof.
  intros H. unfold is_bytes. rewrite Forall_forall. intros b Hb%list_elem_of_In.
  rewrite forallb_forall in H. specialize (H b Hb). unfold is_byte. lia.
Qed.


Lemma write_str_bounds_witness :
  (exists t, flb_utils_write_str SSE2 0 5 overread_text (replicate 16 0) false = Wrote t /\
     0 + Z.of_nat (length t) <= 5) \/
  (exists p, flb_utils_write_str SSE2 0 5 overread_text (replicate 16 0) false = NoSpace p /\
     0 + Z.of_nat (length p) <= 5 /\ 5 - 0 < 6 * Z.of_nat (length overread_text)).
Proof.
  apply (write_str_bounds SSE2 0 5); [lia|lia|by apply bytes_ascii|left; apply zeros_guarded].
Defined.

Lemma write_str_buf_terminates_witness :
  exists out size,
    flb_utils_write_str_buf (length overread_text) NEON overread_text (replicate 16 0) true []
      = BufOk out size /\
    esc_to (one_char true) overread_text out [] /\ Z.of_nat (length out) <= size.
Proof.
  apply write_str_buf_terminates; [by apply bytes_ascii|left; apply zeros_guarded|vm_compute; done].
Defined.

Lemma write_str_reference_witness :
  flb_utils_write_str SSE2 3 256 overread_text (replicate 16 0) true
  = Wrote (str "fifteen chars  \u00e9fifteen more ab").
Proof.
  apply (write_str_reference SSE2 3 256 overread_text (replicate 16 0) true);
    [lia|vm_compute; done|lia|by apply bytes_ascii|left; apply zeros_guarded|].
  repeat (apply Forall_cons_2; [done|]). apply Forall_nil_2.
Defined.

Lemma unescape_utf8_bounds_witness :
  flb_unescape_string_utf8 (str "\ud83d\ude00\x41\u") = ([0xF0; 0x9F; 0x98; 0x80; 65; 0], false) /\
  (length (flb_unescape_string_utf8 (str "\ud83d\ude00\x41\u")).1 <= 18)%nat.
Proof.
  split; [vm_compute; reflexivity|]. apply (unescape_utf8_bounds (str "\ud83d\ude00\x41\u")).
  by apply bytes_ascii.
Defined.


(** A backslash at the end of the input of [flb_unescape_string] makes it read
    the byte after it. *)
Example unescape_trailing_backslash :
  flb_unescape_string (str "a\nb") = Some [97; 10; 98] /\ flb_unescape_string (str "a\") = None.
Proof. split; reflexivity. Qed.

End Unescape.
