(* ===== verification/Numbers.v ===== *)
(** * Numbers in text, as the C library reads and writes them

    What src/flb_pack.c and other parts use of printf(3), strtoll(3),
    strtoull(3) and strtod(3): decimal integers, and the IEEE 754 doubles of the
    Standard Library's [spec_float], given by their 64 bits. *)

From S2P Require Import Prelude.
From Stdlib Require Import SpecFloat.

Module Numbers.

(** ** Integers *)

(** The decimal digits of a number that is not negative ("%lu"). *)
Fixpoint dec_loop (fuel : nat) (n : Z) (acc : bytes) : bytes :=
  match fuel with
  | O => acc
  | S f =>
      let acc := (48 + n mod 10) :: acc in
      if n <? 10 then acc else dec_loop f (n / 10) acc
  end.

Definition dec (n : Z) : bytes := dec_loop (S (Z.to_nat (Z.log2 n))) n [].

(** "%ld" *)
Definition fmt_int (z : Z) : bytes := if z <? 0 then ch "-" :: dec (- z) else dec z.

(** The digits at the start of a text: their value in a base, with the value
    read before them, and how many they are. *)
Definition digit_val (c : Z) : Z :=
  if isdigit c then c - 48 else if isupper c then c - 55 else if islower c then c - 87 else 99.

Fixpoint read_digits (base : Z) (acc : Z) (k : nat) (s : bytes) : Z * nat :=
  match s with
  | c :: s' =>
      if digit_val c <? base then read_digits base (acc * base + digit_val c) (S k) s' else (acc, k)
  | [] => (acc, k)
  end.

Fixpoint skip_spaces (s : bytes) : bytes :=
  match s with
  | c :: s' => if isspace c then skip_spaces s' else s
  | [] => []
  end.

(** The sign, if there is one, and the text after it. *)
Definition read_sign (s : bytes) : bool * bytes :=
  match s with
  | c :: s' => if c =? ch "-" then (true, s') else if c =? ch "+" then (false, s') else (false, s)
  | [] => (false, s)
  end.

(** strtoll and strtoull in base 10: the value, and whether errno is ERANGE. *)
Definition strtoll (s : bytes) : Z * bool :=
  let '(neg, s) := read_sign (skip_spaces s) in
  let v := (read_digits 10 0 0 s).1 in
  let v := if neg then - v else v in
  if v <? - 2 ^ 63 then (- 2 ^ 63, true)
  else if 2 ^ 63 <=? v then (2 ^ 63 - 1, true)
  else (v, false).

Definition strtoull (s : bytes) : Z * bool :=
  let '(neg, s) := read_sign (skip_spaces s) in
  let v := (read_digits 10 0 0 s).1 in
  if 2 ^ 64 <=? v then (2 ^ 64 - 1, true)
  else (if neg then u64 (- v) else v, false).

(** ** Doubles *)

(** Doubles, from their bits: [spec_float] is the IEEE 754 arithmetic of the
    Standard Library.  The conversion to a 64-bit integer truncates; of a value
    that no such integer stands for, where C defines nothing, it gives what x86-64
    gives. *)
Definition f64_of_bits (b : Z) : spec_float :=
  let sign := Z.testbit b 63 in
  let e := Z.land (Z.shiftr b 52) 2047 in
  let m := Z.land b (2 ^ 52 - 1) in
  if e =? 2047 then (if m =? 0 then S754_infinity sign else S754_nan)
  else if e =? 0 then
    match m with Zpos q => S754_finite sign q (-1074) | _ => S754_zero sign end
  else
    match m + 2 ^ 52 with Zpos q => S754_finite sign q (e - 1075) | _ => S754_nan end.

Definition f64_to_i64 (f : spec_float) : Z :=
  let undefined := - 2 ^ 63 in
  match f with
  | S754_zero _ => 0
  | S754_finite sign m e =>
      let a := if 0 <=? e then Zpos m * 2 ^ e else Zpos m / 2 ^ (- e) in
      let v := if sign then - a else a in
      if (- 2 ^ 63 <=? v) && (v <? 2 ^ 63) then v else undefined
  | _ => undefined
  end.

Definition f64_of_int (z : Z) : spec_float := binary_normalize 53 1024 z 0 false.

Definition sign_bit (neg : bool) : Z := if neg then 2 ^ 63 else 0.
Definition f64_inf (neg : bool) : Z := sign_bit neg + Z.shiftl 2047 52.
Definition f64_nan (neg : bool) : Z := sign_bit neg + Z.shiftl 4095 51.

(** The double nearest to [n / d], for positive numbers; of two that are as near,
    the even one. *)
Definition f64_ratio (neg : bool) (n d : Z) : Z :=
  let scaled e := (if e <? 0 then n * 2 ^ (- e) else n, if e <? 0 then d else d * 2 ^ e) in
  let e := Z.max (Z.log2 n - Z.log2 d - 53) (-1074) in
  let '(n1, d1) := scaled e in
  let e := if 2 ^ 53 <=? n1 / d1 then e + 1 else e in
  let '(n1, d1) := scaled e in
  let q := n1 / d1 in
  let r := 2 * (n1 mod d1) in
  let q := if (d1 <? r) || ((d1 =? r) && Z.odd q) then q + 1 else q in
  let '(q, e) := if q =? 2 ^ 53 then (2 ^ 52, e + 1) else (q, e) in
  if 971 <? e then f64_inf neg
  else if q <? 2 ^ 52 then sign_bit neg + q
  else sign_bit neg + Z.shiftl (e + 1075) 52 + (q - 2 ^ 52).

(** [m * base ^ e] as a double; the first tests leave out numbers that are far
    beyond the range, [k] being the number of digits of [m]. *)
Definition f64_scale (neg : bool) (m base e k : Z) : Z :=
  if m =? 0 then sign_bit neg
  else if 1100 <? e + k then f64_inf neg
  else if e + k <? -1200 then sign_bit neg
  else if e <? 0 then f64_ratio neg m (base ^ (- e)) else f64_ratio neg (m * base ^ e) 1.

(** The exponent part: a letter, a sign and digits; nothing when the digits
    lack. *)
Definition read_exponent (letter : Z) (s : bytes) : Z :=
  match s with
  | c :: s' =>
      if tolower c =? letter then
        let '(neg, s') := read_sign s' in
        let v := (read_digits 10 0 0 s').1 in
        if neg then - v else v
      else 0
  | [] => 0
  end.

(** Digits, a point and digits: the value without the point, the number of digits
    and of those after the point, and the rest. *)
Definition read_mantissa (base : Z) (s : bytes) : Z * nat * nat * bytes :=
  let '(v, k) := read_digits base 0 0 s in
  let s := drop k s in
  match s with
  | c :: s' =>
      if c =? ch "." then
        let '(v, k2) := read_digits base v 0 s' in (v, (k + k2)%nat, k2, drop k2 s')
      else (v, k, O, s)
  | [] => (v, k, O, s)
  end.

Definition starts_with (w s : bytes) : bool := bool_decide (map tolower (take (length w) s) = w).

(** strtod; the payload of a NaN is left out. *)
Definition strtod (s : bytes) : Z :=
  let '(neg, s) := read_sign (skip_spaces s) in
  if starts_with (str "inf") s then f64_inf neg
  else if starts_with (str "nan") s then f64_nan neg
  else
    let hex := starts_with (str "0x") s && (0 <? Z.of_nat (read_mantissa 16 (drop 2 s)).1.1.2) in
    if hex then
      let '(v, k, frac, s) := read_mantissa 16 (drop 2 s) in
      f64_scale neg v 2 (read_exponent (ch "p") s - 4 * Z.of_nat frac) (4 * Z.of_nat k)
    else
      let '(v, k, frac, s) := read_mantissa 10 s in
      if (k =? 0)%nat then 0
      else f64_scale neg v 10 (read_exponent (ch "e") s - Z.of_nat frac) (Z.of_nat k).

(** "%.1f" of a double that is an integer. *)
Definition fmt_f1_integral (bits : Z) : bytes :=
  (if Z.testbit bits 63 then [ch "-"] else []) ++
  dec (Z.abs (f64_to_i64 (f64_of_bits bits))) ++ str ".0".

(** [n / d] rounded to an integer, ties to even. *)
Definition round_div (n d : Z) : Z :=
  let q := n / d in
  let r := 2 * (n mod d) in
  if (d <? r) || ((d =? r) && Z.odd q) then q + 1 else q.

(** The exponent of the first decimal digit of [n / d]: an estimate from the
    binary logarithm, corrected by at most one step in either direction. *)
Definition pow10_le (x n d : Z) : bool := if x <? 0 then d <=? n * 10 ^ (- x) else d * 10 ^ x <=? n.

Fixpoint dec_exponent (fuel : nat) (x n d : Z) : Z :=
  match fuel with
  | O => x
  | S f => if pow10_le x n d then (if pow10_le (x + 1) n d then dec_exponent f (x + 1) n d else x)
           else dec_exponent f (x - 1) n d
  end.

Fixpoint strip_zeros (l : bytes) : bytes :=
  match l with
  | 48 :: l' => strip_zeros l'
  | l => l
  end.

(** Digits after the point, without the zeros at their end. *)
Definition fraction (l : bytes) : bytes :=
  match rev (strip_zeros (rev l)) with [] => [] | l => ch "." :: l end.

(** "%.16g" of [n / d]: sixteen significant digits, in the exponential style when
    the exponent is below -4 or above 15. *)
Definition fmt_g16 (n d : Z) : bytes :=
  let x := dec_exponent 700 ((Z.log2 n - Z.log2 d) * 3 / 10) n d in
  let scaled := if x <=? 15 then round_div (n * 10 ^ (15 - x)) d else round_div n (d * 10 ^ (x - 15)) in
  let '(digits, x) := if scaled =? 10 ^ 16 then (10 ^ 15, x + 1) else (scaled, x) in
  let l := dec digits in
  if (x <? -4) || (15 <? x) then
    let a := Z.abs x in
    take 1 l ++ fraction (drop 1 l) ++ [ch "e"; if x <? 0 then ch "-" else ch "+"] ++
    (if a <? 10 then 48 :: dec a else dec a)
  else if x <? 0 then [48] ++ fraction (replicate (Z.to_nat (- x - 1)) 48 ++ l)
  else take (Z.to_nat (x + 1)) l ++ fraction (drop (Z.to_nat (x + 1)) l).

Definition fmt_g16_bits (bits : Z) : bytes :=
  let sign := if Z.testbit bits 63 then [ch "-"] else [] in
  sign ++ match f64_of_bits bits with
          | S754_zero _ => [48]
          | S754_infinity _ => str "inf"
          | S754_nan => str "nan"
          | S754_finite _ m e =>
              if e <? 0 then fmt_g16 (Zpos m) (2 ^ (- e)) else fmt_g16 (Zpos m * 2 ^ e) 1
          end.

(** A float as a double. *)
Definition f64_of_f32 (b : Z) : Z :=
  let neg := Z.testbit b 31 in
  let e := Z.land (Z.shiftr b 23) 255 in
  let m := Z.land b (2 ^ 23 - 1) in
  if e =? 255 then
    (if m =? 0 then f64_inf neg else Z.lor (f64_nan neg) (Z.shiftl m 29))
  else if e =? 0 then
    (if m =? 0 then sign_bit neg else f64_ratio neg m (2 ^ 149))
  else sign_bit neg + Z.shiftl (e + 896) 52 + Z.shiftl m 29.

Example doubles_read :
  strtod (str "0.1,") = 0x3FB999999999999A /\ strtod (str "-1.5e+3]") = 0xC097700000000000 /\
  strtod (str "5e-324") = 1 /\ strtod (str "1.7976931348623159e+308") = f64_inf false /\
  strtod (str "-inf.") = f64_inf true /\ strtod (str "0x1.8p1") = 0x4008000000000000 /\
  strtod (str "18446744073709551616") = 0x43F0000000000000.
Proof. vm_compute. split_and!; reflexivity. Qed.

Example doubles_written :
  fmt_g16_bits 0x3FB999999999999A = str "0.1" /\ fmt_g16_bits 0x3FF8000000000000 = str "1.5" /\
  fmt_g16_bits 0x3E45798EE2308C3A = str "1e-08" /\ fmt_g16_bits 0x3FD5555555555555 = str "0.3333333333333333" /\
  fmt_g16_bits 0x43F0000000000000 = str "1.844674407370955e+19" /\ fmt_g16_bits 1 = str "4.940656458412465e-324" /\
  fmt_f1_integral 0xC008000000000000 = str "-3.0" /\ fmt_g16_bits 0x3F1A36E2EB1C432D = str "0.0001" /\
  f64_of_f32 0x3FC00000 = 0x3FF8000000000000 /\ f64_of_f32 1 = 0x36A0000000000000.
Proof. vm_compute. split_and!; reflexivity. Qed.

(** ** Reading what was written *)

Definition is_digit (c : Z) : Prop := 48 <= c <= 57.

Lemma digit_val_digit c : is_digit c -> digit_val c = c - 48.
Proof. unfold is_digit, digit_val, isdigit. intros H. zcase; simpl; lia. Qed.

(** The digits that [dec_loop] puts before [acc] read as its number. *)
Lemma dec_loop_spec fuel : forall n acc, 0 <= n < 2 ^ Z.of_nat fuel ->
  exists l, dec_loop fuel n acc = l ++ acc /\ (fuel <> O -> l <> []) /\ Forall is_digit l /\
    (length l <= fuel)%nat /\
    forall a k s, read_digits 10 a k (l ++ s) =
      read_digits 10 (a * 10 ^ Z.of_nat (length l) + n) (k + length l) s.
Proof.
  induction fuel as [|fuel IH]; intros n acc Hn.
  { exists []. split_and!; [done|done|constructor|simpl; lia|].
    intros a k s. simpl in *. f_equal; lia. }
  cbn [dec_loop]. pose proof (Z.mod_pos_bound n 10). pose proof (Z.div_mod n 10).
  assert (Hd : is_digit (48 + n mod 10)) by (unfold is_digit; lia).
  destruct (Z.ltb_spec n 10) as [Hlt|Hge].
  - exists [48 + n mod 10]. split_and!; [done|done|by apply Forall_singleton|simpl; lia|].
    intros a k s. cbn [read_digits app length]. rewrite digit_val_digit by done.
    rewrite (proj2 (Z.ltb_lt _ _)) by lia. rewrite Z.mod_small by lia. f_equal; lia.
  - rewrite Nat2Z.inj_succ, Z.pow_succ_r in Hn by lia.
    destruct (IH (n / 10) ((48 + n mod 10) :: acc)) as (l & -> & Hne & Hl & Hlen & Hr); [lia|].
    exists (l ++ [48 + n mod 10]). rewrite <- app_assoc, length_app. cbn [length].
    split_and!; [done|by destruct l|apply Forall_app; split; [done|by apply Forall_singleton]|lia|].
    intros a k s. rewrite <- app_assoc, Hr. cbn [read_digits app]. rewrite digit_val_digit by done.
    rewrite (proj2 (Z.ltb_lt _ _)) by lia.
    replace (Z.of_nat (length l + 1)) with (Z.succ (Z.of_nat (length l))) by lia.
    rewrite Z.pow_succ_r by lia. f_equal; lia.
Qed.

Lemma dec_spec n : 0 <= n ->
  dec n <> [] /\ Forall is_digit (dec n) /\ (length (dec n) <= S (Z.to_nat (Z.log2 n)))%nat /\
  forall a k s, read_digits 10 a k (dec n ++ s) =
    read_digits 10 (a * 10 ^ Z.of_nat (length (dec n)) + n) (k + length (dec n)) s.
Proof.
  intros Hn. unfold dec. destruct (dec_loop_spec (S (Z.to_nat (Z.log2 n))) n []) as (l & -> & H1 & H2 & H3 & H4).
  { pose proof (Z.log2_nonneg n). rewrite Nat2Z.inj_succ, Z2Nat.id by done.
    destruct (Z.eq_dec n 0) as [->|]; [done|]. pose proof (Z.log2_spec n ltac:(lia)). lia. }
  rewrite app_nil_r. split_and!; auto.
Qed.

(** No number has an empty text. *)
Lemma dec_loop_nonempty fuel : forall n acc, acc <> [] -> dec_loop fuel n acc <> [].
Proof. induction fuel as [|fuel IH]; intros n acc H; simpl; [done|]. destruct (n <? 10); [done|by apply IH]. Qed.

Lemma dec_nonempty n : dec n <> [].
Proof. unfold dec. cbn [dec_loop]. destruct (n <? 10); [done|]. by apply dec_loop_nonempty. Qed.

Lemma fmt_g16_nonempty n d : fmt_g16 n d <> [].
Proof.
  unfold fmt_g16. destruct (if _ =? 10 ^ 16 then _ else _) as [digits x]. pose proof (dec_nonempty digits) as Hd.
  destruct (dec digits) as [|c l]; [done|]. destruct (Z.ltb_spec x 0); zcase; simpl; try done;
    (destruct (Z.to_nat (x + 1)) eqn:E; [lia|done]).
Qed.

Lemma fmt_g16_bits_nonempty bits : fmt_g16_bits bits <> [].
Proof.
  unfold fmt_g16_bits. intros [_ H]%app_nil. revert H.
  destruct (f64_of_bits bits); try done. destruct (e <? 0); apply fmt_g16_nonempty.
Qed.

(** A text after which a number ends. *)
Definition ends_number (s : bytes) : Prop := match s with [] => True | c :: _ => 10 <= digit_val c end.

Lemma read_dec n s : 0 <= n -> ends_number s -> (read_digits 10 0 0 (dec n ++ s)).1 = n.
Proof.
  intros Hn Hs. destruct (dec_spec n Hn) as (_ & _ & _ & ->).
  destruct s as [|c s]; cbn [read_digits fst]; [lia|]. simpl in Hs.
  rewrite (proj2 (Z.ltb_ge _ _)) by lia. simpl. lia.
Qed.

(** A number starts with a digit, so with neither a space nor a sign. *)
Lemma skip_dec n s : 0 <= n -> read_sign (skip_spaces (dec n ++ s)) = (false, dec n ++ s).
Proof.
  intros Hn. destruct (dec_spec n Hn) as (Hne & Hd & _).
  destruct (dec n) as [|c l]; [done|]. apply Forall_cons in Hd as [Hc _]. unfold is_digit in Hc.
  cbn [app skip_spaces]. unfold isspace. zcase; try lia; cbn [orb andb read_sign]; zcase; try done;
    unfold ch in *; simpl in *; lia.
Qed.

Lemma strtoull_dec n s : 0 <= n < 2 ^ 64 -> ends_number s -> strtoull (dec n ++ s) = (n, false).
Proof.
  intros Hn Hs. unfold strtoull. rewrite skip_dec, read_dec by (done || lia).
  by rewrite (proj2 (Z.leb_gt _ _)) by lia.
Qed.

Lemma strtoll_neg n s : 0 < n <= 2 ^ 63 -> ends_number s -> strtoll (ch "-" :: dec n ++ s) = (- n, false).
Proof.
  intros Hn Hs. unfold strtoll. change (read_sign (skip_spaces (ch "-" :: dec n ++ s))) with (true, dec n ++ s).
  cbn iota beta. rewrite read_dec by (done || lia).
  by rewrite (proj2 (Z.ltb_ge _ _)), (proj2 (Z.leb_gt _ _)) by lia.
Qed.

End Numbers.
