(* ===== verification/Jsmn.v ===== *)
(** * The JSON tokeniser (lib/jsmn/jsmn.h)

    [jsmn_parse] as lib/jsmn/CMakeLists.txt builds it, with JSMN_PARENT_LINKS and
    JSMN_STRICT, over an array of tokens that is there (the mode that only counts
    tokens is not modelled).  The parser keeps its position, the tokens it filled
    and the token that the next value belongs to, so that a call that ran out of
    tokens or of text can be repeated with more of either. *)

From S2P Require Import Prelude.

Module Jsmn.

(** ** Data *)

Inductive jsmntype_t := JSMN_UNDEFINED | JSMN_OBJECT | JSMN_ARRAY | JSMN_STRING | JSMN_PRIMITIVE.

#[export] Instance jsmntype_eq_dec : EqDecision jsmntype_t.
Proof. solve_decision. Defined.

Definition JSMN_ERROR_NOMEM : Z := -1.
Definition JSMN_ERROR_INVAL : Z := -2.
Definition JSMN_ERROR_PART : Z := -3.

Record jsmntok_t := mktok { type : jsmntype_t; start : Z; end_ : Z; size : Z; parent : Z }.

(** The parser with the part of the array of tokens that is filled, so that
    [toknext] is its length. *)
Record jsmn_parser := mkp { pos : nat; tokens : list jsmntok_t; toksuper : Z }.

Definition toknext (p : jsmn_parser) : Z := Z.of_nat (length (tokens p)).

Definition jsmn_init : jsmn_parser := mkp 0 [] (-1).

(** [tokens[i]] for an index that need not be one of the array. *)
Definition tok_at (l : list jsmntok_t) (i : Z) : option jsmntok_t :=
  if i <? 0 then None else l !! Z.to_nat i.
Definition upd_tok (f : jsmntok_t -> jsmntok_t) (i : Z) (l : list jsmntok_t) : list jsmntok_t :=
  alter f (Z.to_nat i) l.

Definition add_size (t : jsmntok_t) : jsmntok_t :=
  mktok (type t) (start t) (end_ t) (size t + 1) (parent t).
Definition set_end (e : Z) (t : jsmntok_t) : jsmntok_t :=
  mktok (type t) (start t) e (size t) (parent t).

(** [token->start != -1 && token->end == -1] *)
Definition is_open (t : jsmntok_t) : bool := negb (start t =? -1) && (end_ t =? -1).

(** The next free token; its type stays what the memory held, which no caller
    reads. *)
Definition jsmn_alloc_token (num_tokens : Z) (p : jsmn_parser) : option (jsmntok_t * jsmn_parser) :=
  if num_tokens <=? toknext p then None
  else
    let tok := mktok JSMN_UNDEFINED (-1) (-1) 0 (-1) in
    Some (tok, mkp (pos p) (tokens p ++ [tok]) (toksuper p)).

Definition jsmn_fill_token (tok : jsmntok_t) (ty : jsmntype_t) (s e : Z) : jsmntok_t :=
  mktok ty s e 0 (parent tok).

(** The token allocated last, written. *)
Definition set_last (tok : jsmntok_t) (p : jsmn_parser) : jsmn_parser :=
  mkp (pos p) (<[pred (length (tokens p)) := tok]> (tokens p)) (toksuper p).
Definition set_pos (n : nat) (p : jsmn_parser) : jsmn_parser := mkp n (tokens p) (toksuper p).
Definition set_super (s : Z) (p : jsmn_parser) : jsmn_parser := mkp (pos p) (tokens p) s.
Definition set_parent (s : Z) (t : jsmntok_t) : jsmntok_t :=
  mktok (type t) (start t) (end_ t) (size t) s.

(** ** Primitives and strings

    The loops over the text from the position on: the offset where the token
    ends, an invalid character, or the end of the text. *)

Inductive scan := Found (k : nat) | Inval | Part.

Definition is_delim (c : Z) : bool :=
  (c =? 9) || (c =? 13) || (c =? 10) || (c =? 32) || (c =? ch ",") || (c =? ch "]") || (c =? ch "}").

Fixpoint prim_scan (k : nat) (s : bytes) : scan :=
  match s with
  | [] => Part
  | c :: s' =>
      if c =? 0 then Part
      else if is_delim c then Found k
      else if (i8 c <? 32) || (127 <=? i8 c) then Inval
      else prim_scan (S k) s'
  end.

(** A token of a type whose text ends at [e], for either loop; [next] is where
    the parser is left. *)
Definition add_token (ty : jsmntype_t) (s e : Z) (next back : nat) (num_tokens : Z) (p : jsmn_parser) :
    Z * jsmn_parser :=
  match jsmn_alloc_token num_tokens p with
  | None => (JSMN_ERROR_NOMEM, set_pos back p)
  | Some (tok, p) =>
      let tok := set_parent (toksuper p) (jsmn_fill_token tok ty s e) in
      (0, set_pos next (set_last tok p))
  end.

(** The position is left on the last character of the primitive. *)
Definition jsmn_parse_primitive (js : bytes) (num_tokens : Z) (p : jsmn_parser) : Z * jsmn_parser :=
  let start := pos p in
  match prim_scan 0 (drop start js) with
  | Found k =>
      add_token JSMN_PRIMITIVE (Z.of_nat start) (Z.of_nat (start + k)) (pred (start + k)) start num_tokens p
  | Inval => (JSMN_ERROR_INVAL, set_pos start p)
  | Part => (JSMN_ERROR_PART, set_pos start p)
  end.

(** Inside a string: at a plain character, after a backslash, or with up to [n]
    hexadecimal digits to come. *)
Inductive smode := Plain | Esc | Hex (n : nat).

Definition is_hex (c : Z) : bool :=
  ((48 <=? c) && (c <=? 57)) || ((65 <=? c) && (c <=? 70)) || ((97 <=? c) && (c <=? 102)).

Definition is_escape (c : Z) : bool :=
  (c =? 34) || (c =? ch "/") || (c =? 92) || (c =? ch "b") || (c =? ch "f") || (c =? ch "r") ||
  (c =? ch "n") || (c =? ch "t").

(** A backslash that is the last character of the text is passed over, and the
    loop ends. *)
Fixpoint str_scan (m : smode) (k : nat) (s : bytes) : scan :=
  match s with
  | [] => Part
  | c :: s' =>
      match m with
      | Plain | Hex O =>
          if c =? 0 then Part
          else if c =? 34 then Found k
          else if (c =? 92) && negb (bool_decide (s' = [])) then str_scan Esc (S k) s'
          else str_scan Plain (S k) s'
      | Esc =>
          if is_escape c then str_scan Plain (S k) s'
          else if c =? ch "u" then str_scan (Hex 4) (S k) s'
          else Inval
      | Hex (S n) =>
          if c =? 0 then Part
          else if is_hex c then str_scan (Hex n) (S k) s'
          else Inval
      end
  end.

(** The position is left on the closing quote. *)
Definition jsmn_parse_string (js : bytes) (num_tokens : Z) (p : jsmn_parser) : Z * jsmn_parser :=
  let start := pos p in
  match str_scan Plain 0 (drop (S start) js) with
  | Found k =>
      add_token JSMN_STRING (Z.of_nat (S start)) (Z.of_nat (S start + k)) (S start + k) start num_tokens p
  | Inval => (JSMN_ERROR_INVAL, set_pos start p)
  | Part => (JSMN_ERROR_PART, set_pos start p)
  end.

(** ** Characters of the text

    What the body of the loop does: it goes on, having counted a token or not,
    returns, or uses an index that is not one of a token. *)

Inductive outcome := Continue (counted : bool) (p : jsmn_parser) | Return (r : Z) (p : jsmn_parser) | OutOfBounds.

(** '{' and '[' *)
Definition open_container (ty : jsmntype_t) (num_tokens : Z) (p : jsmn_parser) : outcome :=
  match jsmn_alloc_token num_tokens p with
  | None => Return JSMN_ERROR_NOMEM p
  | Some (tok, p) =>
      let fill parent p :=
        let p := set_last (mktok ty (Z.of_nat (pos p)) (end_ tok) (size tok) parent) p in
        Continue true (set_super (toknext p - 1) p) in
      if toksuper p =? -1 then fill (-1) p
      else
        match tok_at (tokens p) (toksuper p) with
        | None => OutOfBounds
        | Some t =>
            if decide (type t = JSMN_OBJECT) then Return JSMN_ERROR_INVAL p
            else fill (toksuper p) (mkp (pos p) (upd_tok add_size (toksuper p) (tokens p)) (toksuper p))
        end
  end.

(** The walk to the open token that '}' or ']' closes; [None] when the fuel, the
    number of tokens, is not enough or an index is not one of a token. *)
Inductive closed := Closes (i : Z) (t : jsmntok_t) | RootClosed (t : jsmntok_t).

Fixpoint close_walk (fuel : nat) (l : list jsmntok_t) (i : Z) : option closed :=
  match fuel with
  | O => None
  | S f =>
      match tok_at l i with
      | None => None
      | Some t =>
          if is_open t then Some (Closes i t)
          else if parent t =? -1 then Some (RootClosed t)
          else close_walk f l (parent t)
      end
  end.

(** '}' and ']' *)
Definition close_container (ty : jsmntype_t) (p : jsmn_parser) : outcome :=
  if toknext p <? 1 then Return JSMN_ERROR_INVAL p
  else
    match close_walk (length (tokens p)) (tokens p) (toknext p - 1) with
    | None => OutOfBounds
    | Some (Closes i t) =>
        if decide (type t = ty) then
          Continue false
            (mkp (pos p) (upd_tok (set_end (Z.of_nat (S (pos p)))) i (tokens p)) (parent t))
        else Return JSMN_ERROR_INVAL p
    | Some (RootClosed t) =>
        if decide (type t <> ty) then Return JSMN_ERROR_INVAL p
        else if toksuper p =? -1 then Return JSMN_ERROR_INVAL p
        else Continue false p
    end.

(** After a string or a primitive: the token above it has one more. *)
Definition counted (x : Z * jsmn_parser) : outcome :=
  let '(r, p) := x in
  if r <? 0 then Return r p
  else if toksuper p =? -1 then Continue true p
  else
    match tok_at (tokens p) (toksuper p) with
    | None => OutOfBounds
    | Some _ => Continue true (mkp (pos p) (upd_tok add_size (toksuper p) (tokens p)) (toksuper p))
    end.

(** ',' *)
Definition comma (p : jsmn_parser) : outcome :=
  if toksuper p =? -1 then Continue false p
  else
    match tok_at (tokens p) (toksuper p) with
    | None => OutOfBounds
    | Some t =>
        if decide (type t <> JSMN_ARRAY /\ type t <> JSMN_OBJECT) then Continue false (set_super (parent t) p)
        else Continue false p
    end.

(** The characters that start a primitive. *)
Definition starts_prim (c : Z) : bool :=
  (c =? ch "-") || isdigit c || (c =? ch "t") || (c =? ch "f") || (c =? ch "n").

Definition primitive (js : bytes) (num_tokens : Z) (p : jsmn_parser) : outcome :=
  let go := counted (jsmn_parse_primitive js num_tokens p) in
  if toksuper p =? -1 then go
  else
    match tok_at (tokens p) (toksuper p) with
    | None => OutOfBounds
    | Some t =>
        if decide (type t = JSMN_OBJECT) then Return JSMN_ERROR_INVAL p
        else if decide (type t = JSMN_STRING /\ size t <> 0) then Return JSMN_ERROR_INVAL p
        else go
    end.

Definition is_blank (c : Z) : bool := (c =? 9) || (c =? 13) || (c =? 10) || (c =? 32).

Definition jsmn_char (js : bytes) (num_tokens : Z) (c : Z) (p : jsmn_parser) : outcome :=
  if c =? ch "{" then open_container JSMN_OBJECT num_tokens p
  else if c =? ch "[" then open_container JSMN_ARRAY num_tokens p
  else if c =? ch "}" then close_container JSMN_OBJECT p
  else if c =? ch "]" then close_container JSMN_ARRAY p
  else if c =? 34 then counted (jsmn_parse_string js num_tokens p)
  else if is_blank c then Continue false p
  else if c =? ch ":" then Continue false (set_super (toknext p - 1) p)
  else if c =? ch "," then comma p
  else if starts_prim c then primitive js num_tokens p
  else Return JSMN_ERROR_INVAL p.

(** ** The loop *)

(** [None]: the fuel, more than the text that is left, is not enough, or an index
    is out of bounds. *)
Fixpoint jsmn_loop (fuel : nat) (js : bytes) (num_tokens : Z) (count : Z) (p : jsmn_parser) :
    option (Z * jsmn_parser) :=
  match fuel with
  | O => None
  | S f =>
      match js !! pos p with
      | Some c =>
          if c =? 0 then Some (count, p)
          else
            match jsmn_char js num_tokens c p with
            | Continue b p => jsmn_loop f js num_tokens (if b then count + 1 else count) (set_pos (S (pos p)) p)
            | Return r p => Some (r, p)
            | OutOfBounds => None
            end
      | None => Some (count, p)
      end
  end.

(** A negative value is an error of the body; otherwise an open token makes the
    text a part. *)
Definition jsmn_parse (js : bytes) (num_tokens : Z) (p : jsmn_parser) : option (Z * jsmn_parser) :=
  match jsmn_loop (S (length js - pos p)) js num_tokens (toknext p) p with
  | None => None
  | Some (r, p) =>
      if r <? 0 then Some (r, p)
      else if existsb is_open (tokens p) then Some (JSMN_ERROR_PART, p)
      else Some (r, p)
  end.

Example parse_object :
  jsmn_parse (str "{'a': [1, true], 'b':-2.5}") 10 jsmn_init = Some (JSMN_ERROR_INVAL, mkp 1 [mktok JSMN_OBJECT 0 (-1) 0 (-1)] 0) /\
  jsmn_parse (map (λ c, if c =? 39 then 34 else c) (str "{'a': [1, true], 'b':-2.5}")) 10 jsmn_init =
  Some (7, mkp 26 [mktok JSMN_OBJECT 0 26 2 (-1); mktok JSMN_STRING 2 3 1 0; mktok JSMN_ARRAY 6 15 2 1;
                   mktok JSMN_PRIMITIVE 7 8 0 2; mktok JSMN_PRIMITIVE 10 14 0 2;
                   mktok JSMN_STRING 18 19 1 0; mktok JSMN_PRIMITIVE 21 25 0 5] (-1)).
Proof. vm_compute. done. Qed.

(** ** Steps

    One character after another: [step] is a round of the loop that goes on. *)

Definition step (js : bytes) (num : Z) (p p' : jsmn_parser) : Prop :=
  exists c b q, js !! pos p = Some c /\ c <> 0 /\ jsmn_char js num c p = Continue b q /\
    p' = set_pos (S (pos q)) q.

Lemma set_pos_id p : set_pos (pos p) p = p.
Proof. by destruct p. Qed.

Lemma prim_scan_ge s : forall k j, prim_scan k s = Found j -> (k <= j < k + length s)%nat.
Proof.
  induction s as [|c s IH]; simpl; intros k j H; [done|].
  destruct (c =? 0); [done|]. destruct (is_delim c); [injection H as <-; lia|].
  destruct (_ || _); [done|]. apply IH in H. lia.
Qed.

Lemma str_scan_ge s : forall m k j, str_scan m k s = Found j -> (k <= j < k + length s)%nat.
Proof.
  induction s as [|c s IH]; simpl; intros m k j H; [done|].
  destruct m as [| |[|n]]; repeat case_match; simplify_eq; try lia; apply IH in H; lia.
Qed.

(** What [add_token] gives: an error that leaves the parser where it was, or one
    more token. *)
Lemma add_token_spec ty s e next num p :
  add_token ty s e next (pos p) num p =
  if num <=? toknext p then (JSMN_ERROR_NOMEM, p)
  else (0, mkp next (tokens p ++ [mktok ty s e 0 (toksuper p)]) (toksuper p)).
Proof.
  unfold add_token, jsmn_alloc_token. destruct (num <=? toknext p); [by rewrite set_pos_id|].
  unfold set_last, set_pos. cbn [tokens pos toksuper]. rewrite length_app, Nat.add_comm.
  cbn [length Nat.add pred]. by rewrite insert_app_r_alt, Nat.sub_diag by lia.
Qed.

(** A value of the text, read: where it starts and ends. *)
Definition scanned (js : bytes) (c : Z) (n : nat) : option (jsmntype_t * Z * Z * nat) :=
  if c =? 34 then
    match str_scan Plain 0 (drop (S n) js) with
    | Found k => Some (JSMN_STRING, Z.of_nat (S n), Z.of_nat (S n + k), (S n + k)%nat)
    | _ => None
    end
  else
    match prim_scan 0 (drop n js) with
    | Found k => Some (JSMN_PRIMITIVE, Z.of_nat n, Z.of_nat (n + k), pred (n + k))
    | _ => None
    end.

Lemma prim_not_delim c : starts_prim c = true -> is_delim c = false /\ c <> 0 /\ c <> 34.
Proof.
  unfold starts_prim, isdigit, is_delim. change (ch "-") with 45. change (ch "t") with 116.
  change (ch "f") with 102. change (ch "n") with 110. change (ch ",") with 44.
  change (ch "]") with 93. change (ch "}") with 125. lia.
Qed.

Lemma scanned_bounds js c n ty s e next : js !! n = Some c -> c = 34 \/ starts_prim c = true ->
  scanned js c n = Some (ty, s, e, next) ->
  (n <= next)%nat /\ (Z.of_nat n <= s <= e /\ s <= Z.of_nat next) /\ e < Z.of_nat (length js) /\ (next < length js)%nat /\
  ty <> JSMN_UNDEFINED /\ ty <> JSMN_OBJECT /\ ty <> JSMN_ARRAY /\ 0 < e.
Proof.
  intros Hc Hs. unfold scanned. apply lookup_lt_Some in Hc as Hn. destruct (Z.eqb_spec c 34) as [->|Hne].
  - destruct (str_scan _ _ _) as [k| |] eqn:Hk; intros [= <- <- <- <-].
    apply str_scan_ge in Hk. rewrite length_drop in Hk. split_and!; (done || lia).
  - destruct Hs as [?|Hs]; [done|].
    destruct (prim_scan _ _) as [k| |] eqn:Hk; intros [= <- <- <- <-].
    assert (k <> O).
    { intros ->. rewrite (drop_S _ _ _ Hc) in Hk. simpl in Hk.
      rewrite (proj1 (prim_not_delim c Hs)) in Hk. destruct (c =? 0); [done|]. destruct (_ || _); [done|].
      apply prim_scan_ge in Hk. lia. }
    apply prim_scan_ge in Hk. rewrite length_drop in Hk. split_and!; (done || lia).
Qed.

(** The token that the next value belongs to gets one more. *)
Definition bump (s : Z) (l : list jsmntok_t) : list jsmntok_t :=
  if s =? -1 then l else upd_tok add_size s l.

Lemma bump_length s l : length (bump s l) = length l.
Proof. unfold bump, upd_tok. destruct (s =? -1); [done|]. apply length_alter. Qed.

Definition super_ok (p : jsmn_parser) : Prop := -1 <= toksuper p < toknext p.

Lemma tok_at_lt l i : 0 <= i < Z.of_nat (length l) -> exists t, tok_at l i = Some t.
Proof.
  intros H. unfold tok_at. rewrite (proj2 (Z.ltb_ge _ _)) by lia.
  apply lookup_lt_is_Some. lia.
Qed.

Lemma tok_at_app l l' i t : tok_at l i = Some t -> tok_at (l ++ l') i = Some t.
Proof. unfold tok_at. destruct (i <? 0); [done|]. by apply lookup_app_l_Some. Qed.

Lemma bump_app s l l' : -1 <= s < Z.of_nat (length l) -> bump s (l ++ l') = bump s l ++ l'.
Proof.
  intros H. unfold bump, upd_tok. destruct (Z.eqb_spec s (-1)); [done|]. apply alter_app_l. lia.
Qed.

(** A string or a primitive, counted. *)
Definition scan_error (js : bytes) (c : Z) (n : nat) : Z :=
  match (if c =? 34 then str_scan Plain 0 (drop (S n) js) else prim_scan 0 (drop n js)) with
  | Inval => JSMN_ERROR_INVAL
  | _ => JSMN_ERROR_PART
  end.

Lemma value_step js num c p : super_ok p ->
  counted (if c =? 34 then jsmn_parse_string js num p else jsmn_parse_primitive js num p) =
  match scanned js c (pos p) with
  | None => Return (scan_error js c (pos p)) p
  | Some (ty, s, e, next) =>
      if num <=? toknext p then Return JSMN_ERROR_NOMEM p
      else Continue true
        (mkp next (bump (toksuper p) (tokens p) ++ [mktok ty s e 0 (toksuper p)]) (toksuper p))
  end.
Proof.
  intros Hs.
  assert (Hadd : forall ty s e next, counted (add_token ty s e next (pos p) num p) =
    if num <=? toknext p then Return JSMN_ERROR_NOMEM p
    else Continue true (mkp next (bump (toksuper p) (tokens p) ++ [mktok ty s e 0 (toksuper p)]) (toksuper p))).
  { intros ty s e next. rewrite add_token_spec. destruct (num <=? toknext p); [done|].
    unfold counted. cbn [Z.ltb Z.compare toksuper tokens pos]. unfold super_ok, toknext in Hs.
    rewrite <- bump_app by lia. unfold bump. destruct (Z.eqb_spec (toksuper p) (-1)); [done|].
    destruct (tok_at_lt (tokens p) (toksuper p)) as [t Ht]; [lia|].
    by rewrite (tok_at_app _ _ _ _ Ht). }
  unfold scanned, scan_error, jsmn_parse_string, jsmn_parse_primitive.
  destruct (c =? 34); [destruct (str_scan _ _ _)|destruct (prim_scan _ _)]; cbn [counted];
    rewrite ?Hadd, ?set_pos_id; done.
Qed.

(** Whether the token above is one of a type. *)
Definition super_is (ty : jsmntype_t) (p : jsmn_parser) : bool :=
  match tok_at (tokens p) (toksuper p) with
  | Some t => bool_decide (type t = ty)
  | None => false
  end.

Lemma set_last_app t t' l n s : set_last t (mkp n (l ++ [t']) s) = mkp n (l ++ [t]) s.
Proof.
  unfold set_last. cbn [tokens pos toksuper]. rewrite length_app, Nat.add_comm.
  cbn [length Nat.add pred]. by rewrite insert_app_r_alt, Nat.sub_diag by lia.
Qed.

Lemma open_step ty num p : super_ok p -> exists q,
  open_container ty num p =
  if num <=? toknext p then Return JSMN_ERROR_NOMEM p
  else if super_is JSMN_OBJECT p then Return JSMN_ERROR_INVAL q
  else Continue true
    (mkp (pos p) (bump (toksuper p) (tokens p) ++ [mktok ty (Z.of_nat (pos p)) (-1) 0 (toksuper p)])
       (toknext p)).
Proof.
  intros Hs. unfold open_container, jsmn_alloc_token, super_is. eexists.
  destruct (num <=? toknext p); [done|].
  cbn [toksuper tokens pos]. unfold super_ok, toknext in *.
  assert (Hl : forall l : list jsmntok_t, forall t, Z.of_nat (length (l ++ [t])) - 1 = Z.of_nat (length l)).
  { intros l t. rewrite length_app. simpl. lia. }
  destruct (Z.eqb_spec (toksuper p) (-1)) as [E|E].
  - rewrite E. cbn [tok_at Z.ltb Z.compare bump Z.eqb Pos.eqb]. rewrite set_last_app.
    unfold set_super, toknext. cbn [tokens pos]. by rewrite Hl.
  - destruct (tok_at_lt (tokens p) (toksuper p)) as [t Ht]; [lia|].
    rewrite (tok_at_app _ _ _ _ Ht), Ht. case_decide as Hd.
    + by rewrite bool_decide_eq_true_2.
    + rewrite bool_decide_eq_false_2 by done.
      assert (Hb : upd_tok add_size (toksuper p) (tokens p ++ [mktok JSMN_UNDEFINED (-1) (-1) 0 (-1)]) =
        bump (toksuper p) (tokens p) ++ [mktok JSMN_UNDEFINED (-1) (-1) 0 (-1)]).
      { rewrite <- bump_app by lia. unfold bump. by rewrite (proj2 (Z.eqb_neq _ _)). }
      rewrite Hb, set_last_app. unfold set_super, toknext. cbn [tokens pos].
      by rewrite Hl, bump_length.
Qed.

(** ** What holds of the parser *)

Definition char_at (js : bytes) (i c : Z) : Prop := 0 <= i /\ js !! Z.to_nat i = Some c.

(** The text of a token: an object or an array from its opening bracket to its
    closing one, if it is closed; a string between two quotes; a primitive before
    a delimiter. *)
Definition tok_text (js : bytes) (t : jsmntok_t) : Prop :=
  let container o c :=
    char_at js (start t) o /\ (end_ t = -1 \/ start t < end_ t /\ char_at js (end_ t - 1) c) in
  match type t with
  | JSMN_OBJECT => container (ch "{") (ch "}")
  | JSMN_ARRAY => container (ch "[") (ch "]")
  | JSMN_STRING => start t <= end_ t /\ char_at js (start t - 1) 34 /\ char_at js (end_ t) 34
  | JSMN_PRIMITIVE => start t < end_ t /\ exists c d,
      char_at js (start t) c /\ starts_prim c = true /\ char_at js (end_ t) d /\ is_delim d = true
  | JSMN_UNDEFINED => False
  end.

(** Every token has its text, before the position [n], and belongs to one before
    it or to none. *)
Definition tok_ok (js : bytes) (n : nat) (i : Z) (t : jsmntok_t) : Prop :=
  tok_text js t /\ -1 <= parent t < i /\ 0 <= size t /\ start t < Z.of_nat n.

Definition toks_ok (js : bytes) (n : nat) (l : list jsmntok_t) : Prop :=
  forall i t, l !! i = Some t -> tok_ok js n (Z.of_nat i) t.

Definition parser_ok (js : bytes) (p : jsmn_parser) : Prop :=
  (length (tokens p) <= pos p <= length js)%nat /\ super_ok p /\ toks_ok js (pos p) (tokens p).

Lemma char_at_app js js' i c : char_at js i c -> char_at (js ++ js') i c.
Proof. intros [H1 H2]. split; [done|]. by apply lookup_app_l_Some. Qed.

Lemma char_at_lt js i c : char_at js i c -> 0 <= i < Z.of_nat (length js).
Proof. intros [H1 H2%lookup_lt_Some]. lia. Qed.

Lemma char_at_nat js n c : js !! n = Some c -> char_at js (Z.of_nat n) c.
Proof. intros H. split; [lia|]. by rewrite Nat2Z.id. Qed.

(** More text keeps the invariant. *)
Lemma parser_ok_app js js' p : parser_ok js p -> parser_ok (js ++ js') p.
Proof.
  intros (H1 & H2 & H3). split; [rewrite length_app; lia|split; [done|]].
  intros i t Ht. destruct (H3 i t Ht) as (Htx & Hp). split; [|done].
  unfold tok_text in *. destruct (type t); naive_solver eauto using char_at_app.
Qed.

Lemma parser_ok_init js : parser_ok js jsmn_init.
Proof. split; [simpl; lia|split; [unfold super_ok, toknext; simpl; lia|by intros i t]]. Qed.

Lemma toks_ok_snoc js n l t : toks_ok js n l -> tok_ok js n (Z.of_nat (length l)) t ->
  toks_ok js n (l ++ [t]).
Proof.
  intros Hl Ht i u Hu. apply lookup_app_Some in Hu as [Hu|[Hi Hu]]; [by apply Hl|].
  apply list_lookup_singleton_Some in Hu as [Hi' <-]. by replace i with (length l) by lia.
Qed.

Lemma toks_ok_alter js n l f k : toks_ok js n l ->
  (forall t, l !! k = Some t -> tok_ok js n (Z.of_nat k) (f t)) -> toks_ok js n (alter f k l).
Proof.
  intros Hl Hf i u Hu. destruct (decide (i = k)) as [->|Hne].
  - rewrite list_lookup_alter_eq in Hu. destruct (l !! k) as [t|] eqn:Ht; [|done].
    injection Hu as <-. by apply Hf.
  - rewrite list_lookup_alter_ne in Hu by done. by apply Hl.
Qed.

Lemma toks_ok_bump js n l s : toks_ok js n l -> toks_ok js n (bump s l).
Proof.
  intros Hl. unfold bump, upd_tok. destruct (s =? -1); [done|]. apply toks_ok_alter; [done|].
  intros t Ht. destruct (Hl _ _ Ht) as (H1 & H2 & H3 & H4). split_and!; simpl; (done || lia).
Qed.

Lemma toks_ok_later js n n' l : toks_ok js n l -> (n <= n')%nat -> toks_ok js n' l.
Proof. intros Hl Hn i t Ht. destruct (Hl _ _ Ht) as (H1 & H2 & H3 & H4). split_and!; (done || lia). Qed.

(** The walk to the token to close ends, at one that is open or at a root. *)
Lemma close_walk_spec js n l : toks_ok js n l -> forall fuel i, 0 <= i < Z.of_nat (length l) -> i < Z.of_nat fuel ->
  exists r, close_walk fuel l i = Some r /\
    match r with
    | Closes j t => tok_at l j = Some t /\ is_open t = true /\ 0 <= j
    | RootClosed t => exists j, tok_at l j = Some t
    end.
Proof.
  intros Hl. induction fuel as [|fuel IH]; intros i Hi Hf; [lia|]. cbn [close_walk].
  destruct (tok_at_lt l i Hi) as [t Ht]. rewrite Ht.
  destruct (is_open t) eqn:Ho; [eexists; split; [done|]; split_and!; (done || lia)|].
  destruct (Z.eqb_spec (parent t) (-1)); [eexists; split; [done|]; by exists i|].
  unfold tok_at in Ht. rewrite (proj2 (Z.ltb_ge _ _)) in Ht by lia.
  destruct (Hl _ _ Ht) as (_ & Hp & _). apply IH; lia.
Qed.

Lemma prim_scan_delim s : forall k j, prim_scan k s = Found j ->
  exists d, s !! (j - k)%nat = Some d /\ is_delim d = true.
Proof.
  induction s as [|c s IH]; simpl; intros k j H; [done|].
  destruct (c =? 0); [done|]. destruct (is_delim c) eqn:Hd; [injection H as <-|].
  { exists c. by rewrite Nat.sub_diag. }
  destruct (_ || _); [done|]. destruct (IH _ _ H) as (d & H1 & H2). apply prim_scan_ge in H.
  exists d. by replace (j - k)%nat with (S (j - S k)) by lia.
Qed.

Lemma str_scan_quote s : forall m k j, str_scan m k s = Found j -> s !! (j - k)%nat = Some 34.
Proof.
  induction s as [|c s IH]; simpl; intros m k j H; [done|].
  assert (Hrec : forall m, str_scan m (S k) s = Found j -> (c :: s) !! (j - k)%nat = Some 34).
  { intros m' H'. pose proof (IH _ _ _ H') as Hq. apply str_scan_ge in H'.
    by replace (j - k)%nat with (S (j - S k)) by lia. }
  assert (Hend : Found k = Found j -> c = 34 -> (c :: s) !! (j - k)%nat = Some 34).
  { intros [= ->] ->. by rewrite Nat.sub_diag. }
  destruct m as [| |[|n]]; repeat case_match; try done; eauto; apply Hend; (done || lia).
Qed.

Lemma scanned_text js c n ty s e next t : js !! n = Some c -> c = 34 \/ starts_prim c = true ->
  scanned js c n = Some (ty, s, e, next) -> type t = ty -> start t = s -> end_ t = e -> tok_text js t.
Proof.
  intros Hc Hs Hsc <- <- <-.
  destruct (scanned_bounds _ _ _ _ _ _ _ Hc Hs Hsc) as (Hn & Hb & _ & Hnl & _).
  unfold scanned in Hsc. unfold tok_text. destruct (Z.eqb_spec c 34) as [->|Hne].
  - destruct (str_scan _ _ _) as [k| |] eqn:Hk; [|done..]. injection Hsc as <- Hs' He Hnx.
    pose proof (str_scan_quote _ _ _ _ Hk) as Hq. rewrite Nat.sub_0_r, lookup_drop in Hq.
    rewrite <- Hs', <- He. split_and!; [lia| |].
    + replace (Z.of_nat (S n) - 1) with (Z.of_nat n) by lia. by apply char_at_nat.
    + by apply char_at_nat.
  - destruct Hs as [?|Hs]; [done|].
    destruct (prim_scan _ _) as [k| |] eqn:Hk; [|done..]. injection Hsc as <- Hs' He Hnx.
    destruct (prim_scan_delim _ _ _ Hk) as (d & Hd1 & Hd2). rewrite Nat.sub_0_r, lookup_drop in Hd1.
    assert (k <> O).
    { intros ->. rewrite Nat.add_0_r, Hc in Hd1. injection Hd1 as <-.
      rewrite (proj1 (prim_not_delim _ Hs)) in Hd2. done. }
    rewrite <- Hs', <- He. split; [lia|]. exists c, d. split_and!; [by apply char_at_nat|done|by apply char_at_nat|done].
Qed.

(** What a character does to a parser that is as it should be. *)
Definition outcome_ok (js : bytes) (num : Z) (p : jsmn_parser) (o : outcome) : Prop :=
  match o with
  | Continue b q =>
      (pos p <= pos q)%nat /\ toknext q = toknext p + Z.b2z b /\ parser_ok js (set_pos (S (pos q)) q)
  | Return r q =>
      r = JSMN_ERROR_INVAL \/ (r = JSMN_ERROR_PART /\ q = p) \/
      (r = JSMN_ERROR_NOMEM /\ q = p /\ num <= toknext p)
  | OutOfBounds => False
  end.

Lemma outcome_continue js num p b n l s : (length (tokens p) <= pos p <= n)%nat -> (n < length js)%nat ->
  length l = (length (tokens p) + Z.to_nat (Z.b2z b))%nat ->
  -1 <= s < Z.of_nat (length l) -> toks_ok js (S n) l -> outcome_ok js num p (Continue b (mkp n l s)).
Proof.
  intros Hn Hj Hl Hs Ht. unfold outcome_ok, parser_ok, super_ok, toknext, set_pos.
  cbn [pos tokens toksuper]. destruct b; simpl in Hl; split_and!; simpl; (done || lia).
Qed.

Lemma outcome_ok_value js num c p : parser_ok js p -> js !! pos p = Some c -> c = 34 \/ starts_prim c = true ->
  outcome_ok js num p (counted (if c =? 34 then jsmn_parse_string js num p else jsmn_parse_primitive js num p)).
Proof.
  intros (Hpos & Hsup & Htoks) Hc Hs. rewrite value_step by done.
  destruct (scanned js c (pos p)) as [[[[ty s] e] next]|] eqn:Hsc.
  - destruct (Z.leb_spec num (toknext p)); [simpl; tauto|].
    destruct (scanned_bounds _ _ _ _ _ _ _ Hc Hs Hsc) as (Hn & Hb & _ & Hl & _).
    unfold super_ok, toknext in *.
    apply outcome_continue; [lia|lia|rewrite length_app, bump_length; simpl; lia..|].
    apply toks_ok_snoc; [eapply toks_ok_later; [by apply toks_ok_bump|simpl; lia]|].
    split_and!; [by eapply scanned_text|rewrite ?bump_length; simpl; lia..].
  - unfold scan_error. simpl. destruct (if c =? 34 then _ else _); tauto.
Qed.

Lemma outcome_ok_open js num ty c p : parser_ok js p -> js !! pos p = Some c ->
  (ty = JSMN_OBJECT /\ c = ch "{") \/ (ty = JSMN_ARRAY /\ c = ch "[") ->
  outcome_ok js num p (open_container ty num p).
Proof.
  intros (Hpos & Hsup & Htoks) Hc Hty. destruct (open_step ty num p Hsup) as (q & ->).
  destruct (Z.leb_spec num (toknext p)); [simpl; tauto|]. destruct (super_is _ p); [simpl; tauto|].
  apply lookup_lt_Some in Hc as Hl. unfold super_ok, toknext in *.
  apply outcome_continue; [lia|lia|rewrite length_app, bump_length; simpl; lia..|].
  apply toks_ok_snoc; [eapply toks_ok_later; [by apply toks_ok_bump|simpl; lia]|].
  split_and!; [|rewrite ?bump_length; simpl; lia..].
  unfold tok_text. apply char_at_nat in Hc.
  destruct Hty as [[-> ->]|[-> ->]]; cbn [type start end_]; (split; [done|by left]).
Qed.

Lemma outcome_ok_close js num ty c p : parser_ok js p -> js !! pos p = Some c ->
  (ty = JSMN_OBJECT /\ c = ch "}") \/ (ty = JSMN_ARRAY /\ c = ch "]") ->
  outcome_ok js num p (close_container ty p).
Proof.
  intros (Hpos & Hsup & Htoks) Hc Hty. unfold close_container.
  apply lookup_lt_Some in Hc as Hl. destruct (Z.ltb_spec (toknext p) 1); [simpl; tauto|]. unfold toknext in *.
  destruct (close_walk_spec js _ (tokens p) Htoks (length (tokens p)) (toknext p - 1)) as (r & Hr & Hspec);
    [unfold toknext; lia..|]. unfold toknext in Hr. rewrite Hr. destruct r as [j t|t].
  - destruct Hspec as (Ht & Ho & Hj). case_decide as Hd; [|simpl; tauto].
    unfold tok_at in Ht. rewrite (proj2 (Z.ltb_ge _ _)) in Ht by lia.
    destruct (Htoks _ _ Ht) as (Htx & Hpar & Hsz & Hst).
    apply lookup_lt_Some in Ht as Htl. unfold upd_tok.
    apply outcome_continue; [lia|lia|rewrite length_alter; simpl; lia..|].
    eapply toks_ok_later; [|simpl; by apply Nat.le_succ_diag_r]. apply toks_ok_alter; [done|].
    intros u Hu. rewrite Ht in Hu. injection Hu as <-.
    split_and!; [|simpl; lia..]. unfold tok_text, set_end in *. cbn [type start end_].
    replace (Z.of_nat (S (pos p)) - 1) with (Z.of_nat (pos p)) by lia. apply char_at_nat in Hc.
    destruct Hty as [[-> ->]|[-> ->]]; rewrite Hd in *; destruct Htx as [Hop _];
      (split; [done|]; right; split; [lia|done]).
  - case_decide; [simpl; tauto|]. destruct (toksuper p =? -1); [simpl; tauto|].
    destruct p as [n l s]. apply outcome_continue; [simpl in *; lia|simpl in *; lia|simpl; lia|done|].
    by eapply toks_ok_later, Nat.le_succ_diag_r.
Qed.

Lemma jsmn_char_ok js num c p : parser_ok js p -> js !! pos p = Some c ->
  outcome_ok js num p (jsmn_char js num c p).
Proof.
  intros Hp Hc. pose proof Hp as (Hpos & Hsup & Htoks). apply lookup_lt_Some in Hc as Hl. unfold jsmn_char.
  assert (Hgo : forall s, -1 <= s < toknext p -> outcome_ok js num p (Continue false (set_super s p))).
  { intros s Hs. unfold set_super. apply outcome_continue; [lia|lia|simpl; lia|done|].
    by eapply toks_ok_later, Nat.le_succ_diag_r. }
  assert (Hid : outcome_ok js num p (Continue false p)).
  { destruct p as [n l s]. by apply (Hgo s). }
  destruct (Z.eqb_spec c (ch "{")); [eapply outcome_ok_open; eauto|].
  destruct (Z.eqb_spec c (ch "[")); [eapply outcome_ok_open; eauto|].
  destruct (Z.eqb_spec c (ch "}")); [eapply outcome_ok_close; eauto|].
  destruct (Z.eqb_spec c (ch "]")); [eapply outcome_ok_close; eauto|].
  destruct (Z.eqb_spec c 34) as [->|]; [apply (outcome_ok_value js num 34); eauto|].
  destruct (is_blank c); [done|].
  destruct (c =? ch ":"); [apply Hgo; unfold toknext; lia|].
  assert (Hsome : toksuper p <> -1 -> exists t, tok_at (tokens p) (toksuper p) = Some t /\ -1 <= parent t < toknext p).
  { intros Hne. unfold super_ok, toknext in *. destruct (tok_at_lt (tokens p) (toksuper p)) as [t Ht]; [lia|].
    exists t. split; [done|]. unfold tok_at in Ht. destruct (toksuper p <? 0); [done|].
    destruct (Htoks _ _ Ht) as (_ & ? & _). lia. }
  destruct (c =? ch ",").
  { unfold comma. destruct (Z.eqb_spec (toksuper p) (-1)); [done|].
    destruct (Hsome ltac:(done)) as (t & -> & Hpar). case_decide; [by apply Hgo|done]. }
  destruct (starts_prim c) eqn:Hst; [|simpl; tauto]. unfold primitive.
  pose proof (outcome_ok_value js num c p Hp Hc (or_intror Hst)) as Hv.
  rewrite (proj2 (Z.eqb_neq c 34)) in Hv by done.
  destruct (Z.eqb_spec (toksuper p) (-1)); [done|]. destruct (Hsome ltac:(done)) as (t & -> & _).
  case_decide; [simpl; tauto|]. case_decide; [simpl; tauto|done].
Qed.

(** ** The loop, and parsing in pieces *)

(** The loop stops at the end of the text or at a NUL. *)
Definition stops (js : bytes) (p : jsmn_parser) : Prop :=
  match js !! pos p with Some c => c = 0 | None => True end.

(** How a parse from [p] ends: a character of the text is refused, or it goes step
    by step to where it stops. *)
Definition refused (js : bytes) (num : Z) (p q : jsmn_parser) : Prop :=
  exists p' c, rtc (step js num) p p' /\ js !! pos p' = Some c /\ c <> 0 /\
    jsmn_char js num c p' = Return JSMN_ERROR_INVAL q.

Definition ends_at (js : bytes) (num : Z) (p : jsmn_parser) (r : Z) (q : jsmn_parser) : Prop :=
  (r = JSMN_ERROR_INVAL /\ refused js num p q) \/
  (rtc (step js num) p q /\ parser_ok js q /\
   ((r = JSMN_ERROR_NOMEM /\ num <= toknext q) \/ r = JSMN_ERROR_PART \/ (r = toknext q /\ stops js q))).

Lemma ends_at_l js num p p' r q : step js num p p' -> ends_at js num p' r q -> ends_at js num p r q.
Proof.
  intros Hs [(Hr & p1 & c & H1 & H2)|(H1 & H2)].
  - left. split; [done|]. exists p1, c. split; [by eapply rtc_l|done].
  - right. split; [by eapply rtc_l|done].
Qed.

Lemma step_ok js num p p' : parser_ok js p -> step js num p p' -> parser_ok js p' /\ (pos p < pos p')%nat.
Proof.
  intros Hp (c & b & q & Hc & _ & Hq & ->). pose proof (jsmn_char_ok js num c p Hp Hc) as H.
  rewrite Hq in H. destruct H as (H1 & _ & H2). split; [done|]. simpl. lia.
Qed.

Lemma jsmn_loop_spec js num fuel : forall p, parser_ok js p -> (length js - pos p < fuel)%nat ->
  exists r q, jsmn_loop fuel js num (toknext p) p = Some (r, q) /\ ends_at js num p r q.
Proof.
  induction fuel as [|fuel IH]; intros p Hp Hf; [lia|]. cbn [jsmn_loop].
  assert (Hstop : stops js p -> ends_at js num p (toknext p) p).
  { intros H. right. split_and!; [done|done|tauto]. }
  unfold stops in Hstop. destruct (js !! pos p) as [c|] eqn:Hc; [|by eauto].
  destruct (Z.eqb_spec c 0) as [->|Hne]; [by eauto|].
  pose proof (jsmn_char_ok js num c p Hp Hc) as Ho. apply lookup_lt_Some in Hc as Hl.
  destruct (jsmn_char js num c p) as [b q|r q|] eqn:Hch; [|clear Hstop|done].
  - destruct Ho as (H1 & H2 & H3). set (p' := set_pos (S (pos q)) q) in *.
    replace (if b then toknext p + 1 else toknext p) with (toknext p')
      by (change (toknext p') with (toknext q); destruct b; simpl in H2; lia).
    destruct (IH p' H3) as (r & q' & -> & Hr); [unfold p'; simpl; lia|].
    eexists _, _. split; [done|]. eapply ends_at_l; [|done]. by exists c, b, q.
  - eexists _, _. split; [done|]. destruct Ho as [->|[[-> ->]|(-> & -> & Hn)]]; [left|right..].
    + split; [done|]. by exists p, c.
    + split_and!; [done|done|tauto].
    + split_and!; [done|done|by left].
Qed.

(** A step does not change what the whole loop gives. *)
Lemma loop_fuel js num fuel : forall fuel' count p, parser_ok js p ->
  (length js - pos p < fuel)%nat -> (length js - pos p < fuel')%nat ->
  jsmn_loop fuel js num count p = jsmn_loop fuel' js num count p.
Proof.
  induction fuel as [|fuel IH]; intros fuel' count p Hp Hf Hf'; [lia|]. destruct fuel' as [|fuel']; [lia|].
  cbn [jsmn_loop]. destruct (js !! pos p) as [c|] eqn:Hc; [|done]. destruct (c =? 0); [done|].
  pose proof (jsmn_char_ok js num c p Hp Hc) as Ho. apply lookup_lt_Some in Hc.
  destruct (jsmn_char js num c p) as [b q|r q|]; [|done..]. destruct Ho as (H1 & _ & H3).
  apply IH; [done|simpl; lia..].
Qed.

Lemma parse_step js num p p' : parser_ok js p -> step js num p p' ->
  jsmn_parse js num p = jsmn_parse js num p'.
Proof.
  intros Hp Hst. destruct (step_ok js num p p' Hp Hst) as (Hp' & Hlt).
  destruct Hst as (c & b & q & Hc & Hne & Hq & E). unfold jsmn_parse. cbn [jsmn_loop].
  rewrite Hc, (proj2 (Z.eqb_neq _ _)), Hq, <- E by done. apply lookup_lt_Some in Hc as Hl.
  pose proof (jsmn_char_ok js num c p Hp ltac:(done)) as Ho. rewrite Hq in Ho. destruct Ho as (_ & Hn & _).
  replace (if b then toknext p + 1 else toknext p) with (toknext p')
    by (subst p'; change (toknext (set_pos (S (pos q)) q)) with (toknext q); destruct b; simpl in Hn; lia).
  by rewrite (loop_fuel js num _ (S (length js - pos p')) _ p' Hp') by lia.
Qed.

Lemma parse_steps js num p p' : parser_ok js p -> rtc (step js num) p p' ->
  parser_ok js p' /\ jsmn_parse js num p = jsmn_parse js num p'.
Proof.
  intros Hp H. induction H as [p|p q p' Hst _ IH]; [done|].
  destruct (step_ok js num p q Hp Hst) as [Hq _]. destruct (IH Hq) as [H1 H2]. split; [done|].
  rewrite <- H2. by apply parse_step.
Qed.

(** More text or more tokens change neither a step nor a refusal. *)
Definition keeps (o o' : outcome) : Prop :=
  match o with
  | Return r _ => r = JSMN_ERROR_INVAL -> o' = o
  | Continue _ _ => o' = o
  | OutOfBounds => True
  end.

Lemma keeps_refl o : keeps o o.
Proof. by destruct o. Qed.

Lemma prim_scan_app s s' : forall k, prim_scan k s <> Part -> prim_scan k (s ++ s') = prim_scan k s.
Proof.
  induction s as [|c s IH]; simpl; intros k H; [done|]. destruct (c =? 0); [done|].
  destruct (is_delim c); [done|]. destruct (_ || _); [done|]. by apply IH.
Qed.

(** The test of the end after a backslash makes no difference. *)
Lemma str_scan_cons m k c s : str_scan m k (c :: s) =
  match m with
  | Plain | Hex O =>
      if c =? 0 then Part else if c =? 34 then Found k
      else str_scan (if c =? 92 then Esc else Plain) (S k) s
  | Esc =>
      if is_escape c then str_scan Plain (S k) s
      else if c =? ch "u" then str_scan (Hex 4) (S k) s else Inval
  | Hex (S n) => if c =? 0 then Part else if is_hex c then str_scan (Hex n) (S k) s else Inval
  end.
Proof.
  cbn [str_scan]. destruct m as [| |[|n]]; try done; destruct (c =? 0), (c =? 34), (c =? 92); try done;
    by destruct s.
Qed.

Lemma str_scan_app s s' : forall m k, str_scan m k s <> Part -> str_scan m k (s ++ s') = str_scan m k s.
Proof.
  induction s as [|c s IH]; intros m k; [done|]. cbn [app]. rewrite !str_scan_cons.
  destruct m as [| |[|n]]; repeat case_match; try done; apply IH.
Qed.

Lemma add_token_more ty s e next num num' p : num <= num' ->
  (add_token ty s e next (pos p) num p).1 <> JSMN_ERROR_NOMEM ->
  add_token ty s e next (pos p) num' p = add_token ty s e next (pos p) num p.
Proof.
  intros Hn. rewrite !add_token_spec. destruct (Z.leb_spec num (toknext p)); [done|].
  by rewrite (proj2 (Z.leb_gt num' _)) by lia.
Qed.

Lemma counted_keeps js js' num num' c p : (pos p < length js)%nat -> num <= num' ->
  let go js num := counted (if c =? 34 then jsmn_parse_string js num p else jsmn_parse_primitive js num p) in
  keeps (go js num) (go (js ++ js') num').
Proof.
  intros Hl Hn go. unfold go, jsmn_parse_string, jsmn_parse_primitive.
  rewrite !drop_app_le by lia.
  assert (Hadd : forall ty s e next, keeps (counted (add_token ty s e next (pos p) num p))
                                           (counted (add_token ty s e next (pos p) num' p))).
  { intros ty s e next. destruct (decide ((add_token ty s e next (pos p) num p).1 = JSMN_ERROR_NOMEM)) as [E|E].
    - destruct (add_token _ _ _ _ _ num p) as [r q]. simpl in E. by rewrite E.
    - rewrite (add_token_more _ _ _ _ num num') by done. apply keeps_refl. }
  destruct (c =? 34).
  - destruct (str_scan Plain 0 (drop (S (pos p)) js)) eqn:Hs; [..|done];
      rewrite str_scan_app by (by rewrite Hs); rewrite Hs; [apply Hadd|done].
  - destruct (prim_scan 0 (drop (pos p) js)) eqn:Hs; [..|done];
      rewrite prim_scan_app by (by rewrite Hs); rewrite Hs; [apply Hadd|done].
Qed.

Lemma open_keeps ty num num' p : num <= num' -> keeps (open_container ty num p) (open_container ty num' p).
Proof.
  intros Hn. unfold open_container, jsmn_alloc_token. destruct (Z.leb_spec num (toknext p)); [done|].
  rewrite (proj2 (Z.leb_gt num' _)) by lia. apply keeps_refl.
Qed.

Lemma jsmn_char_keeps js js' num num' c p : (pos p < length js)%nat -> num <= num' ->
  keeps (jsmn_char js num c p) (jsmn_char (js ++ js') num' c p).
Proof.
  intros Hl Hn. pose proof (counted_keeps js js' num num' c p Hl Hn) as Hv. cbv zeta in Hv. unfold jsmn_char.
  destruct (c =? ch "{"); [by apply open_keeps|]. destruct (c =? ch "["); [by apply open_keeps|].
  destruct (c =? ch "}"); [apply keeps_refl|]. destruct (c =? ch "]"); [apply keeps_refl|].
  destruct (c =? 34); [done|]. destruct (is_blank c); [apply keeps_refl|].
  destruct (c =? ch ":"); [apply keeps_refl|]. destruct (c =? ch ","); [apply keeps_refl|].
  destruct (starts_prim c); [|apply keeps_refl]. unfold primitive.
  destruct (toksuper p =? -1); [done|]. destruct (tok_at _ _); [|done].
  repeat case_decide; [apply keeps_refl..|done].
Qed.

Lemma steps_app js js' num num' p p' : num <= num' -> rtc (step js num) p p' -> rtc (step (js ++ js') num') p p'.
Proof.
  intros Hn H. induction H as [p|p q p' (c & b & q' & Hc & Hne & Hq & ->) _ IH]; [done|].
  eapply rtc_l; [|exact IH]. exists c, b, q'. split_and!; [by apply lookup_app_l_Some|done| |done].
  apply lookup_lt_Some in Hc. pose proof (jsmn_char_keeps js js' num num' c p Hc Hn) as Hk.
  rewrite Hq in Hk. done.
Qed.

(** More tokens alone change only where they run out. *)
Definition but_nomem (o o' : outcome) : Prop :=
  match o with Return r _ => r = JSMN_ERROR_NOMEM \/ o' = o | _ => o' = o end.

Lemma but_nomem_refl o : but_nomem o o.
Proof. destruct o; simpl; tauto. Qed.

Lemma jsmn_char_more js num num' c p : num <= num' ->
  but_nomem (jsmn_char js num c p) (jsmn_char js num' c p).
Proof.
  intros Hn.
  assert (Hgo : but_nomem
    (counted (if c =? 34 then jsmn_parse_string js num p else jsmn_parse_primitive js num p))
    (counted (if c =? 34 then jsmn_parse_string js num' p else jsmn_parse_primitive js num' p))).
  { unfold jsmn_parse_string, jsmn_parse_primitive.
    destruct (c =? 34); [destruct (str_scan _ _ _)|destruct (prim_scan _ _)]; try apply but_nomem_refl;
      rewrite !add_token_spec; (destruct (Z.leb_spec num (toknext p)); [left; reflexivity|]);
      rewrite (proj2 (Z.leb_gt num' _)) by lia; apply but_nomem_refl. }
  assert (Hopen : forall ty, but_nomem (open_container ty num p) (open_container ty num' p)).
  { intros ty. unfold open_container, jsmn_alloc_token. destruct (Z.leb_spec num (toknext p)); [by left|].
    rewrite (proj2 (Z.leb_gt num' _)) by lia. apply but_nomem_refl. }
  unfold jsmn_char. destruct (c =? ch "{"); [apply Hopen|]. destruct (c =? ch "["); [apply Hopen|].
  destruct (c =? ch "}"); [apply but_nomem_refl|]. destruct (c =? ch "]"); [apply but_nomem_refl|].
  destruct (c =? 34); [done|]. destruct (is_blank c); [apply but_nomem_refl|].
  destruct (c =? ch ":"); [apply but_nomem_refl|]. destruct (c =? ch ","); [apply but_nomem_refl|].
  destruct (starts_prim c); [|apply but_nomem_refl]. unfold primitive.
  destruct (toksuper p =? -1); [done|]. destruct (tok_at _ _); [|done].
  repeat case_decide; [apply but_nomem_refl..|done].
Qed.

Lemma jsmn_loop_more js num num' fuel : forall count p, num <= num' ->
  match jsmn_loop fuel js num count p with
  | Some (r, q) => r = JSMN_ERROR_NOMEM \/ jsmn_loop fuel js num' count p = Some (r, q)
  | None => True
  end.
Proof.
  induction fuel as [|fuel IH]; intros count p Hn; cbn [jsmn_loop]; [done|].
  destruct (js !! pos p) as [c|]; [|tauto]. destruct (c =? 0); [tauto|].
  pose proof (jsmn_char_more js num num' c p Hn) as H.
  destruct (jsmn_char js num c p) as [b q|r q|]; simpl in H; [rewrite H; by apply IH| |done].
  destruct H as [?|H]; [tauto|]. rewrite H. tauto.
Qed.

(** A parse that does not run out of tokens is the parse with any more. *)
Lemma jsmn_parse_more js num num' p r q : num <= num' -> jsmn_parse js num p = Some (r, q) ->
  r <> JSMN_ERROR_NOMEM -> jsmn_parse js num' p = Some (r, q).
Proof.
  intros Hn. unfold jsmn_parse. pose proof (jsmn_loop_more js num num' (S (length js - pos p)) (toknext p) p Hn) as H.
  destruct (jsmn_loop _ _ num _ _) as [[r1 q1]|]; [|done]. intros E Hr.
  destruct H as [-> | ->]; [|done]. simpl in E. by injection E as <- <-.
Qed.

(** The result of a parse. *)
Lemma jsmn_parse_spec js num p : parser_ok js p ->
  exists r q, jsmn_parse js num p = Some (r, q) /\ ends_at js num p r q /\
    (0 <= r -> existsb is_open (tokens q) = false).
Proof.
  intros Hp. unfold jsmn_parse.
  destruct (jsmn_loop_spec js num (S (length js - pos p)) p Hp) as (r & q & -> & Hr); [lia|].
  destruct (Z.ltb_spec r 0); [eexists _, _; split_and!; (done || lia)|].
  destruct (existsb is_open (tokens q)) eqn:He; eexists _, _; (split_and!; [done| |done]); [|done].
  destruct Hr as [(-> & _)|(H1 & H2 & _)]; [done|]. right. tauto.
Qed.

Lemma refused_app js js' num num' p q : num <= num' -> refused js num p q -> refused (js ++ js') num' p q.
Proof.
  intros Hn (p' & c & H1 & H2 & H3 & H4). exists p', c.
  split_and!; [by eapply steps_app|by apply lookup_app_l_Some|done|].
  apply lookup_lt_Some in H2. pose proof (jsmn_char_keeps js js' num num' c p' H2 Hn) as Hk.
  rewrite H4 in Hk. by apply Hk.
Qed.

Lemma refused_parse js num p q : parser_ok js p -> refused js num p q ->
  jsmn_parse js num p = Some (JSMN_ERROR_INVAL, q).
Proof.
  intros Hp (p' & c & H1 & H2 & H3 & H4). destruct (parse_steps js num p p' Hp H1) as [_ ->].
  unfold jsmn_parse. cbn [jsmn_loop]. by rewrite H2, (proj2 (Z.eqb_neq _ _)), H4 by done.
Qed.

(** As many tokens as characters are enough. *)
Lemma parse_enough js num p : parser_ok js p -> Z.of_nat (length js) < num ->
  exists r q, jsmn_parse js num p = Some (r, q) /\ r <> JSMN_ERROR_NOMEM.
Proof.
  intros Hp Hn. destruct (jsmn_parse_spec js num p Hp) as (r & q & E & Hr & _). exists r, q. split; [done|].
  intros ->. destruct Hr as [(? & _)|(_ & (Hq & _) & [[_ Hm]|[?|[Hm _]]])]; [done| |done|];
    unfold toknext, JSMN_ERROR_NOMEM in *; lia.
Qed.

(** The parse with tokens for every character. *)
Definition parse_all (js : bytes) (p : jsmn_parser) : option (Z * jsmn_parser) :=
  jsmn_parse js (Z.of_nat (S (length js))) p.

Lemma parse_all_eq js num p : parser_ok js p ->
  match jsmn_parse js num p with
  | Some (r, q) =>
      if r =? JSMN_ERROR_NOMEM then num <= toknext q /\ parser_ok js q /\ parse_all js p = parse_all js q
      else parse_all js p = Some (r, q)
  | None => False
  end.
Proof.
  intros Hp. unfold parse_all. set (big := Z.of_nat (S (length js))).
  destruct (parse_enough js big p Hp ltac:(lia)) as (r' & q' & E' & Hr').
  destruct (jsmn_parse_spec js num p Hp) as (r & q & E & Hr & _). rewrite E.
  destruct (Z.eqb_spec r JSMN_ERROR_NOMEM) as [->|Hne].
  - destruct Hr as [(? & _)|(Hst & Hq & [[_ Hm]|[?|[Hm _]]])]; [done| |done|unfold toknext, JSMN_ERROR_NOMEM in *; lia].
    split_and!; [done|done|]. apply parse_steps; [done|]. rewrite <- (app_nil_r js).
    eapply steps_app; [|done]. destruct Hq as (Hl & _). unfold toknext in Hm. lia.
  - apply (jsmn_parse_more js num (Z.max num big)) in E; [|lia|done].
    apply (jsmn_parse_more js big (Z.max num big)) in E' as E2; [|lia|done]. rewrite E in E2.
    by injection E2 as -> ->.
Qed.

(** ** Open tokens

    The tokens that are open are on the way up from the token above the next
    value, and on the way up from the last token; so none is before a root. *)

Inductive above (l : list jsmntok_t) : Z -> nat -> Prop :=
| above_here i : above l (Z.of_nat i) i
| above_up x t i : tok_at l x = Some t -> above l (parent t) i -> above l x i.

Definition covers (l : list jsmntok_t) (x : Z) : Prop :=
  forall i t, l !! i = Some t -> is_open t = true -> above l x i.

Definition roots_after (l : list jsmntok_t) : Prop :=
  forall d t i u, l !! d = Some t -> parent t = -1 -> (i < d)%nat -> l !! i = Some u -> is_open u = false.

Definition opens_ok (l : list jsmntok_t) (sup : Z) : Prop :=
  covers l sup /\ covers l (Z.of_nat (length l) - 1) /\ roots_after l.

Lemma above_root l i : ~ above l (-1) i.
Proof. intros H. remember (-1) as x. destruct H as [i|x t i Ht _]; [lia|]. by subst x. Qed.

Lemma above_app l l' x i : above l x i -> above (l ++ l') x i.
Proof. induction 1 as [i|x t i Ht H IH]; [constructor|]. by eapply above_up; [apply tok_at_app|]. Qed.

(** A change of a token that keeps its parent and opens nothing. *)
Section Alter.
Context (f : jsmntok_t -> jsmntok_t) (Hpar : forall t, parent (f t) = parent t)
  (Hopen : forall t, is_open (f t) = true -> is_open t = true).

Lemma lookup_alter_any (l : list jsmntok_t) (k i : nat) u : alter f k l !! i = Some u ->
  exists t, l !! i = Some t /\ (u = t \/ u = f t).
Proof.
  intros H. destruct (decide (i = k)) as [->|Hne].
  - rewrite list_lookup_alter_eq in H. destruct (l !! k) as [t|]; [|done]. injection H as <-. eauto.
  - rewrite list_lookup_alter_ne in H by done. eauto.
Qed.

Lemma above_alter l (k : nat) x i : above l x i -> above (alter f k l) x i.
Proof.
  induction 1 as [i|x t i Ht H IH]; [constructor|]. unfold tok_at in Ht.
  destruct (x <? 0) eqn:Hx; [done|].
  destruct (decide (Z.to_nat x = k)) as [Hk|Hk].
  - eapply (above_up _ x (f t)); [|by rewrite Hpar]. unfold tok_at. rewrite Hx, <- Hk, list_lookup_alter_eq.
    by rewrite Ht.
  - eapply (above_up _ x t); [|done]. unfold tok_at. by rewrite Hx, list_lookup_alter_ne.
Qed.

Lemma open_alter (l : list jsmntok_t) (k i : nat) u : alter f k l !! i = Some u -> is_open u = true ->
  exists t, l !! i = Some t /\ is_open t = true.
Proof. intros (t & Ht & [-> | ->])%lookup_alter_any Ho; eauto. Qed.

Lemma covers_alter l (k : nat) x : covers l x -> covers (alter f k l) x.
Proof. intros H i u Hu Ho. destruct (open_alter _ _ _ _ Hu Ho) as (t & Ht & Hot). by eapply above_alter, H. Qed.

Lemma roots_alter l (k : nat) : roots_after l -> roots_after (alter f k l).
Proof.
  intros H d t i u Hd Hp Hi Hu. apply not_true_iff_false. intros Ho.
  destruct (open_alter _ _ _ _ Hu Ho) as (v & Hv & Hov).
  destruct (lookup_alter_any _ _ _ _ Hd) as (w & Hw & Hwt).
  assert (Hwp : parent w = -1) by (destruct Hwt as [-> | ->]; [done|]; by rewrite Hpar in Hp).
  rewrite (H d w i v Hw Hwp Hi Hv) in Hov. done.
Qed.
End Alter.

Lemma opens_bump l sup s : opens_ok l sup -> opens_ok (bump s l) sup.
Proof.
  intros (H1 & H2 & H3). unfold bump, upd_tok. destruct (s =? -1); [done|].
  split_and!; [by apply covers_alter| |by apply roots_alter].
  rewrite length_alter. by apply covers_alter.
Qed.

(** A new token under the token above. *)
Lemma opens_snoc l t sup : opens_ok l sup -> parent t = sup ->
  covers (l ++ [t]) (Z.of_nat (length l)) /\ roots_after (l ++ [t]) /\ (is_open t = false -> covers (l ++ [t]) sup).
Proof.
  intros (H1 & H2 & H3) <-. split_and!.
  - intros i u Hu Ho. apply lookup_app_Some in Hu as [Hu|[Hi Hu]].
    + apply (above_up _ _ t); [|apply above_app, (H1 i u Hu Ho)]. unfold tok_at.
      rewrite (proj2 (Z.ltb_ge _ _)), Nat2Z.id by lia. by apply list_lookup_middle.
    + apply list_lookup_singleton_Some in Hu as [Hi' <-]. replace i with (length l) by lia. constructor.
  - intros d u i v Hd Hpu Hi Hv. apply lookup_lt_Some in Hd as Hdl. rewrite length_app in Hdl. simpl in Hdl.
    rewrite lookup_app_l in Hv by lia. apply lookup_app_Some in Hd as [Hd|[Hdi Hd]]; [exact (H3 d u i v Hd Hpu Hi Hv)|].
    apply list_lookup_singleton_Some in Hd as [_ <-]. apply not_true_iff_false. intros Ho.
    apply (above_root l i). rewrite <- Hpu. by eapply H1.
  - intros Hc i u Hu Ho. apply lookup_app_Some in Hu as [Hu|[Hi Hu]]; [by eapply above_app, H1|].
    apply list_lookup_singleton_Some in Hu as [_ <-]. congruence.
Qed.

(** The token that a bracket closes is the first open one on the way up. *)
Lemma close_walk_above l fuel : forall x j t, close_walk fuel l x = Some (Closes j t) ->
  forall i u, l !! i = Some u -> is_open u = true -> above l x i -> Z.of_nat i = j \/ above l (parent t) i.
Proof.
  induction fuel as [|fuel IH]; intros x j t H i u Hu Ho Ha; [done|]. cbn [close_walk] in H.
  destruct (tok_at l x) as [v|] eqn:Hx; [|done]. destruct (is_open v) eqn:Hv.
  - injection H as <- <-. inversion Ha as [|x' w i' Hw Hab]; subst; [by left|]. right. congruence.
  - destruct (parent v =? -1); [done|]. eapply IH; [exact H|done|done|].
    inversion Ha as [i' Hi|x' w i' Hw Hab]; subst; [|congruence].
    unfold tok_at in Hx. rewrite Nat2Z.id in Hx. destruct (_ <? _); congruence.
Qed.

Lemma closed_tok ty s e n p : 0 <= e -> is_open (mktok ty s e n p) = false.
Proof. intros He. unfold is_open. cbn [end_]. rewrite (proj2 (Z.eqb_neq e _)) by lia. apply andb_false_r. Qed.

Lemma opens_super l sup s : opens_ok l sup -> covers l s -> opens_ok l s.
Proof. intros (_ & H2 & H3) H. by split_and!. Qed.

Lemma opens_value js num c p b q : parser_ok js p -> js !! pos p = Some c -> c = 34 \/ starts_prim c = true ->
  opens_ok (tokens p) (toksuper p) ->
  counted (if c =? 34 then jsmn_parse_string js num p else jsmn_parse_primitive js num p) = Continue b q ->
  opens_ok (tokens q) (toksuper q).
Proof.
  intros (_ & Hs & _) Hc Hst Ho. rewrite value_step by done.
  destruct (scanned js c (pos p)) as [[[[ty s] e] next]|] eqn:Hsc; [|done].
  destruct (num <=? toknext p); [done|]. intros [= <- <-]. cbn [tokens toksuper].
  destruct (scanned_bounds _ _ _ _ _ _ _ Hc Hst Hsc) as (_ & _ & _ & _ & _ & _ & _ & He).
  apply (opens_bump _ _ (toksuper p)) in Ho.
  destruct (opens_snoc _ (mktok ty s e 0 (toksuper p)) _ Ho eq_refl) as (H1 & H2 & H3). split_and!; [|by rewrite length_app, Nat2Z.inj_add, Z.add_simpl_r|done].
  apply H3, closed_tok. lia.
Qed.

Lemma opens_open ty num p b q : super_ok p -> opens_ok (tokens p) (toksuper p) ->
  open_container ty num p = Continue b q -> opens_ok (tokens q) (toksuper q).
Proof.
  intros Hs Ho. destruct (open_step ty num p Hs) as (q' & ->). destruct (num <=? toknext p); [done|].
  destruct (super_is _ p); [done|]. intros [= <- <-]. cbn [tokens toksuper].
  apply (opens_bump _ _ (toksuper p)) in Ho.
  destruct (opens_snoc _ (mktok ty (Z.of_nat (pos p)) (-1) 0 (toksuper p)) _ Ho eq_refl) as (H1 & H2 & _).
  rewrite bump_length in H1. split_and!; [done| |done].
  rewrite length_app, Nat2Z.inj_add, Z.add_simpl_r, bump_length. done.
Qed.

Lemma opens_close js ty p b q : toks_ok js (pos p) (tokens p) -> opens_ok (tokens p) (toksuper p) ->
  close_container ty p = Continue b q -> opens_ok (tokens q) (toksuper q).
Proof.
  intros Ht Ho. unfold close_container. destruct (Z.ltb_spec (toknext p) 1); [done|].
  destruct (close_walk _ _ _) as [[j t|t]|] eqn:Hw; [..|done].
  - case_decide; [|done]. intros [= <- <-]. cbn [tokens toksuper].
    assert (Hpar : forall u, parent (set_end (Z.of_nat (S (pos p))) u) = parent u) by done.
    assert (Hop : forall u, is_open (set_end (Z.of_nat (S (pos p))) u) = false).
    { intros u. apply closed_tok. lia. }
    assert (Hop' : forall u, is_open (set_end (Z.of_nat (S (pos p))) u) = true -> is_open u = true).
    { intros u Hu. by rewrite Hop in Hu. }
    destruct Ho as (H1 & H2 & H3). unfold upd_tok.
    split_and!; [|rewrite length_alter; by apply covers_alter|by apply roots_alter].
    destruct (close_walk_spec js _ (tokens p) Ht (length (tokens p)) (toknext p - 1)) as (r & Hr & Hj);
      [unfold toknext in *; lia..|]. rewrite Hw in Hr. injection Hr as <-. destruct Hj as (Hj & _ & Hj0).
    intros i u Hu Hou. destruct (decide (i = Z.to_nat j)) as [->|Hne].
    { rewrite list_lookup_alter_eq in Hu. destruct (tokens p !! Z.to_nat j); [|done]. injection Hu as <-.
      by rewrite Hop in Hou. }
    rewrite list_lookup_alter_ne in Hu by done. apply above_alter; [done|].
    destruct (close_walk_above _ _ _ _ _ Hw i u Hu Hou (H2 i u Hu Hou)) as [E|E]; [lia|done].
  - case_decide; [done|]. destruct (toksuper p =? -1); [done|]. by intros [= <- <-].
Qed.

Lemma char_opens js num c p b q : parser_ok js p -> js !! pos p = Some c -> opens_ok (tokens p) (toksuper p) ->
  jsmn_char js num c p = Continue b q -> opens_ok (tokens q) (toksuper q).
Proof.
  intros Hp Hc Ho. pose proof Hp as (_ & Hs & Ht). unfold jsmn_char.
  destruct (c =? ch "{"); [by apply opens_open|]. destruct (c =? ch "["); [by apply opens_open|].
  destruct (c =? ch "}"); [by eapply opens_close|]. destruct (c =? ch "]"); [by eapply opens_close|].
  pose proof (opens_value js num c p b q Hp Hc) as Hv.
  destruct (Z.eqb_spec c 34) as [->|]; [apply Hv; [by left|done]|].
  destruct (is_blank c); [by intros [= <- <-]|].
  destruct (c =? ch ":"); [intros [= <- <-]; cbn [tokens toksuper set_super]; by eapply opens_super, Ho|].
  destruct (c =? ch ",").
  { unfold comma. destruct (toksuper p =? -1); [by intros [= <- <-]|].
    destruct (tok_at (tokens p) (toksuper p)) as [t|] eqn:E; [|done].
    case_decide as Hd; intros [= <- <-]; [|done]. cbn [tokens toksuper set_super]. eapply opens_super; [exact Ho|].
    intros i u Hu Hou. destruct Ho as (H1 & _). specialize (H1 i u Hu Hou). unfold tok_at in E.
    inversion H1 as [i' Hi|x v i' Hv' Hab]; subst; [|unfold tok_at in Hv'; congruence].
    rewrite <- Hi, Nat2Z.id in E. destruct (_ <? 0); [done|]. rewrite Hu in E. injection E as <-.
    destruct (Ht _ _ Hu) as (Htx & _). unfold tok_text in Htx. unfold is_open in Hou.
    destruct (type u); [done|by destruct Hd..| |].
    - destruct Htx as (_ & _ & He%char_at_lt). lia.
    - destruct Htx as (_ & ? & ? & _ & _ & He%char_at_lt & _). lia. }
  destruct (starts_prim c) eqn:Hst; [|done]. unfold primitive.
  assert (Hgo : counted (jsmn_parse_primitive js num p) = Continue b q -> opens_ok (tokens q) (toksuper q)).
  { apply Hv; [by right|done]. }
  destruct (toksuper p =? -1); [done|]. destruct (tok_at _ _); [|done]. by repeat case_decide.
Qed.

Lemma steps_opens js num p q : parser_ok js p -> opens_ok (tokens p) (toksuper p) -> rtc (step js num) p q ->
  opens_ok (tokens q) (toksuper q).
Proof.
  intros Hp Ho H. induction H as [p|p p' q Hst _ IH]; [done|].
  destruct (step_ok js num p p' Hp Hst) as [Hp' _]. apply IH; [done|].
  destruct Hst as (c & b & r & Hc & _ & Hr & ->). exact (char_opens js num c p b r Hp Hc Ho Hr).
Qed.

Lemma opens_init : opens_ok [] (-1).
Proof. split_and!; by intros ?. Qed.

(** ** Theorems *)


(** C25: parsing in pieces: after a part, or when the tokens ran out, going on with
    more text or more tokens gives what parsing all of it at once gives; and text
    that is refused stays refused. *)
Theorem jsmn_parse_resumes js js' num num' p r q : parser_ok js p -> num <= num' ->
  jsmn_parse js num p = Some (r, q) ->
  if r =? JSMN_ERROR_INVAL then jsmn_parse (js ++ js') num' p = Some (JSMN_ERROR_INVAL, q)
  else jsmn_parse (js ++ js') num' p = jsmn_parse (js ++ js') num' q.
Proof.
  intros Hp Hn E. destruct (jsmn_parse_spec js num p Hp) as (r' & q' & E' & Hr & _).
  rewrite E in E'. injection E' as <- <-. apply (parser_ok_app js js') in Hp.
  destruct Hr as [(-> & Hr)|(H1 & Hq & Hr)].
  - simpl. apply refused_parse; [done|]. by eapply refused_app.
  - replace (r =? JSMN_ERROR_INVAL) with false by (unfold JSMN_ERROR_INVAL, JSMN_ERROR_NOMEM, JSMN_ERROR_PART, toknext in *; lia).
    by eapply parse_steps, steps_app.
Qed.

(** *** On concrete text *)


Lemma jsmn_parse_resumes_witness :
  let q := mkp 3 [mktok JSMN_ARRAY 0 (-1) 1 (-1); mktok JSMN_PRIMITIVE 1 2 0 0] 0 in
  jsmn_parse (str "[1," ++ str "23]") 9 jsmn_init = jsmn_parse (str "[1," ++ str "23]") 9 q.
Proof.
  apply (jsmn_parse_resumes (str "[1,") (str "23]") 2 9 jsmn_init JSMN_ERROR_PART
           (mkp 3 [mktok JSMN_ARRAY 0 (-1) 1 (-1); mktok JSMN_PRIMITIVE 1 2 0 0] 0));
    [apply parser_ok_init|lia|vm_compute; reflexivity].
Defined.

(** What strict mode lets through: a key without a value, two values for a key,
    a colon in an array, and words that only start like a literal. *)
Example strict_mode_accepts :
  let quoted l := map (λ c, if c =? 39 then 34 else c) (str l) in
  forallb (λ l, match jsmn_parse (quoted l) 8 jsmn_init with Some (r, _) => 0 <? r | None => false end)
    ["{'a'}"; "{'a':'x' 'y'}"; "[1:2]"; "[1x,nope]"; "{}:}"]%string = true.
Proof. vm_compute. reflexivity. Qed.

End Jsmn.
