(* ===== verification/Msgpack.v ===== *)
(** * MessagePack, the format of records in memory and in chunks

    lib/msgpack-c, the copy the agent is built with: include/msgpack/object.h
    (the objects), include/msgpack/pack_template.h and src/objectc.c (writing),
    include/msgpack/unpack_template.h, include/msgpack/unpack_define.h and
    src/unpack.c (reading), include/msgpack/sbuffer.h (the growing buffer).

    A pack function is the list of the buffers that it passes to
    [msgpack_pack_append_buffer], in order: what reaches the buffer depends on
    the allocations of [msgpack_sbuffer_write].  The unpacker is the machine of
    unpack_template.h: its state is the position [p], the pending trail ([cs] and
    [trail]) and the stack of open containers; one step of [run] is one pass
    through the switch.  Reads are checked: a read outside of the data gives
    [Overrun], which the theorems exclude.

    A FLOAT32 object holds the bits of the float it stands for: [via.f64] is
    that float widened to a double, which narrows back to the same float. *)

From S2P Require Import Prelude.

Module Msgpack.

(** ** Objects (object.h) *)

Inductive msgpack_object :=
  | MSGPACK_OBJECT_NIL
  | MSGPACK_OBJECT_BOOLEAN (boolean : bool)
  | MSGPACK_OBJECT_POSITIVE_INTEGER (u64 : Z)
  | MSGPACK_OBJECT_NEGATIVE_INTEGER (i64 : Z)
  | MSGPACK_OBJECT_FLOAT32 (bits : Z)
  | MSGPACK_OBJECT_FLOAT64 (bits : Z)
  | MSGPACK_OBJECT_STR (s : bytes)
  | MSGPACK_OBJECT_ARRAY (l : list msgpack_object)
  | MSGPACK_OBJECT_MAP (l : list (msgpack_object * msgpack_object))
  | MSGPACK_OBJECT_BIN (s : bytes)
  | MSGPACK_OBJECT_EXT (type : Z) (s : bytes).

Abbreviation obj := msgpack_object.

(** ** Stores and loads at a width, in network order (sysdep.h) *)

Fixpoint store (n : nat) (z : Z) : bytes :=
  match n with
  | O => []
  | S n' => u8 (z / 256 ^ Z.of_nat n') :: store n' z
  end.

Definition load (s : bytes) : Z := fold_left (λ a b, a * 256 + b) s 0.

(** ** Writing (pack_template.h) *)

Definition msgpack_pack_real_uint8 (d : Z) : bytes :=
  if d <? 2 ^ 7 then [u8 d] else [0xcc; u8 d].

Definition msgpack_pack_real_uint16 (d : Z) : bytes :=
  if d <? 2 ^ 7 then [u8 d]
  else if d <? 2 ^ 8 then [0xcc; u8 d]
  else 0xcd :: store 2 d.

Definition msgpack_pack_real_uint32 (d : Z) : bytes :=
  if d <? 2 ^ 8 then
    if d <? 2 ^ 7 then [u8 d] else [0xcc; u8 d]
  else
    if d <? 2 ^ 16 then 0xcd :: store 2 d else 0xce :: store 4 d.

Definition msgpack_pack_real_uint64 (d : Z) : bytes :=
  if d <? 2 ^ 8 then
    if d <? 2 ^ 7 then [u8 d] else [0xcc; u8 d]
  else
    if d <? 2 ^ 16 then 0xcd :: store 2 d
    else if d <? 2 ^ 32 then 0xce :: store 4 d
    else 0xcf :: store 8 d.

Definition msgpack_pack_real_int8 (d : Z) : bytes :=
  if d <? - 2 ^ 5 then [0xd0; u8 d] else [u8 d].

Definition msgpack_pack_real_int16 (d : Z) : bytes :=
  if d <? - 2 ^ 5 then
    if d <? - 2 ^ 7 then 0xd1 :: store 2 d else [0xd0; u8 d]
  else if d <? 2 ^ 7 then [u8 d]
  else
    if d <? 2 ^ 8 then [0xcc; u8 d] else 0xcd :: store 2 d.

Definition msgpack_pack_real_int32 (d : Z) : bytes :=
  if d <? - 2 ^ 5 then
    if d <? - 2 ^ 15 then 0xd2 :: store 4 d
    else if d <? - 2 ^ 7 then 0xd1 :: store 2 d
    else [0xd0; u8 d]
  else if d <? 2 ^ 7 then [u8 d]
  else
    if d <? 2 ^ 8 then [0xcc; u8 d]
    else if d <? 2 ^ 16 then 0xcd :: store 2 d
    else 0xce :: store 4 d.

Definition msgpack_pack_real_int64 (d : Z) : bytes :=
  if d <? - 2 ^ 5 then
    if d <? - 2 ^ 15 then
      if d <? - 2 ^ 31 then 0xd3 :: store 8 d else 0xd2 :: store 4 d
    else
      if d <? - 2 ^ 7 then 0xd1 :: store 2 d else [0xd0; u8 d]
  else if d <? 2 ^ 7 then [u8 d]
  else
    if d <? 2 ^ 16 then
      if d <? 2 ^ 8 then [0xcc; u8 d] else 0xcd :: store 2 d
    else
      if d <? 2 ^ 32 then 0xce :: store 4 d else 0xcf :: store 8 d.

Definition msgpack_pack_float (bits : Z) : bytes := 0xca :: store 4 bits.
Definition msgpack_pack_double (bits : Z) : bytes := 0xcb :: store 8 bits.
Definition msgpack_pack_nil : bytes := [0xc0].
Definition msgpack_pack_true : bytes := [0xc3].
Definition msgpack_pack_false : bytes := [0xc2].

Definition msgpack_pack_array (n : Z) : bytes :=
  if n <? 16 then [Z.lor 0x90 (u8 n)]
  else if n <? 65536 then 0xdc :: store 2 n
  else 0xdd :: store 4 n.

Definition msgpack_pack_map (n : Z) : bytes :=
  if n <? 16 then [Z.lor 0x80 (u8 n)]
  else if n <? 65536 then 0xde :: store 2 n
  else 0xdf :: store 4 n.

Definition msgpack_pack_str (l : Z) : bytes :=
  if l <? 32 then [Z.lor 0xa0 (u8 l)]
  else if l <? 256 then [0xd9; u8 l]
  else if l <? 65536 then 0xda :: store 2 l
  else 0xdb :: store 4 l.

Definition msgpack_pack_bin (l : Z) : bytes :=
  if l <? 256 then [0xc4; u8 l]
  else if l <? 65536 then 0xc5 :: store 2 l
  else 0xc6 :: store 4 l.

Definition msgpack_pack_ext (l : Z) (type : Z) : bytes :=
  match l with
  | 1 => [0xd4; u8 type]
  | 2 => [0xd5; u8 type]
  | 4 => [0xd6; u8 type]
  | 8 => [0xd7; u8 type]
  | 16 => [0xd8; u8 type]
  | _ =>
      if l <? 256 then [0xc7; u8 l; u8 type]
      else if l <? 65536 then 0xc8 :: store 2 l ++ [u8 type]
      else 0xc9 :: store 4 l ++ [u8 type]
  end.

Definition size (s : bytes) : Z := Z.of_nat (length s).

(** [msgpack_pack_object] (objectc.c). *)
Fixpoint msgpack_pack_object (d : obj) : list bytes :=
  match d with
  | MSGPACK_OBJECT_NIL => [msgpack_pack_nil]
  | MSGPACK_OBJECT_BOOLEAN b => [if b then msgpack_pack_true else msgpack_pack_false]
  | MSGPACK_OBJECT_POSITIVE_INTEGER u => [msgpack_pack_real_uint64 u]
  | MSGPACK_OBJECT_NEGATIVE_INTEGER i => [msgpack_pack_real_int64 i]
  | MSGPACK_OBJECT_FLOAT32 b => [msgpack_pack_float b]
  | MSGPACK_OBJECT_FLOAT64 b => [msgpack_pack_double b]
  | MSGPACK_OBJECT_STR s => [msgpack_pack_str (size s); s]
  | MSGPACK_OBJECT_BIN s => [msgpack_pack_bin (size s); s]
  | MSGPACK_OBJECT_EXT type s => [msgpack_pack_ext (size s) type; s]
  | MSGPACK_OBJECT_ARRAY l =>
      msgpack_pack_array (Z.of_nat (length l)) :: concat (map msgpack_pack_object l)
  | MSGPACK_OBJECT_MAP l =>
      msgpack_pack_map (Z.of_nat (length l)) ::
      concat (map (λ kv, msgpack_pack_object kv.1 ++ msgpack_pack_object kv.2) l)
  end.

(** ** The growing buffer (sbuffer.h)

    [data] are the bytes that were written since the buffer was made; those
    past [size] are not part of the content.  [alloc] is the allocated size. *)

Record msgpack_sbuffer := { sb_size : nat; sb_data : bytes; sb_alloc : Z }.

Definition msgpack_sbuffer_init : msgpack_sbuffer := {| sb_size := 0; sb_data := []; sb_alloc := 0 |}.
Definition MSGPACK_SBUFFER_INIT_SIZE : Z := 8192.

Definition content (sb : msgpack_sbuffer) : bytes := take (sb_size sb) (sb_data sb).

(** The doubling loop; the size is a [size_t], so 64 doublings pass the width. *)
Fixpoint grow (fuel : nat) (nsize want : Z) : Z :=
  match fuel with
  | O => want
  | S f =>
      if nsize <? want then
        let tmp := u64 (nsize * 2) in
        if tmp <=? nsize then want else grow f tmp want
      else nsize
  end.

(** [msgpack_sbuffer_write]; [realloc] fails when the tape says so. *)
Definition msgpack_sbuffer_write (t : tape) (sb : msgpack_sbuffer) (buf : bytes) :
    Z * msgpack_sbuffer * tape :=
  let put alloc :=
    {| sb_size := sb_size sb + length buf;
       sb_data := take (sb_size sb) (sb_data sb) ++ buf ++ drop (sb_size sb + length buf) (sb_data sb);
       sb_alloc := alloc |} in
  if sb_alloc sb - Z.of_nat (sb_size sb) <? size buf then
    let nsize := if sb_alloc sb =? 0 then MSGPACK_SBUFFER_INIT_SIZE else u64 (sb_alloc sb * 2) in
    let '(ok, t) := flb_malloc t in
    if ok then (0, put (grow 64 nsize (Z.of_nat (sb_size sb) + size buf)), t) else (-1, sb, t)
  else (0, put (sb_alloc sb), t).

(** The writes of one pack call: they stop at the first that fails. *)
Fixpoint write_all (t : tape) (sb : msgpack_sbuffer) (bufs : list bytes) : Z * msgpack_sbuffer * tape :=
  match bufs with
  | [] => (0, sb, t)
  | b :: bufs =>
      let '(ret, sb, t) := msgpack_sbuffer_write t sb b in
      if ret <? 0 then (ret, sb, t) else write_all t sb bufs
  end.

Definition msgpack_sbuffer_clear (sb : msgpack_sbuffer) : msgpack_sbuffer :=
  {| sb_size := 0; sb_data := sb_data sb; sb_alloc := sb_alloc sb |}.

(** ** Reading: the states of the machine (unpack_define.h) *)

Definition MSGPACK_EMBED_STACK_SIZE : nat := 32.
Definition MSGPACK_UNPACK_SUCCESS : Z := 2.
Definition MSGPACK_UNPACK_CONTINUE : Z := 0.
Definition MSGPACK_UNPACK_PARSE_ERROR : Z := -1.
Definition MSGPACK_UNPACK_NOMEM_ERROR : Z := -2.

Definition MSGPACK_ACS_STR_VALUE : Z := 0x20.
Definition MSGPACK_ACS_BIN_VALUE : Z := 0x21.
Definition MSGPACK_ACS_EXT_VALUE : Z := 0x22.

Inductive container := CArray | CMap.
Inductive container_type := MSGPACK_CT_ARRAY_ITEM | MSGPACK_CT_MAP_KEY | MSGPACK_CT_MAP_VALUE.

Record frame := { f_obj : obj; f_count : Z; f_ct : container_type; f_map_key : obj }.

(** What a pass through the switch leads to: a finished value, a value of
    variable size ([cs] tells which), more bytes to wait for, a container that
    begins, or a failure. *)
Inductive act :=
  | Push (o : obj)
  | PushVariable (cs : Z) (s : bytes)
  | Again (cs trail : Z)
  | StartContainer (c : container) (count : Z)
  | Fails (ret : Z).

Definition NEXT_CS (b : Z) : Z := Z.land b 0x1f.

(** [again_fixed_trail_if_zero]; the trail is an [unsigned int]. *)
Definition again_fixed_trail_if_zero (cs trail : Z) : act :=
  if u32 trail =? 0 then PushVariable cs [] else Again cs (u32 trail).

(** The callbacks of integers: the sign gives the type. *)
Definition template_callback_int (d : Z) : obj :=
  if 0 <=? d then MSGPACK_OBJECT_POSITIVE_INTEGER d else MSGPACK_OBJECT_NEGATIVE_INTEGER d.

(** The case MSGPACK_CS_HEADER. *)
Definition header (b : Z) : act :=
  if b <=? 0x7f then Push (MSGPACK_OBJECT_POSITIVE_INTEGER b)
  else if 0xe0 <=? b then Push (template_callback_int (i8 b))
  else if 0xc0 <=? b then
    match b with
    | 0xc0 => Push MSGPACK_OBJECT_NIL
    | 0xc2 => Push (MSGPACK_OBJECT_BOOLEAN false)
    | 0xc3 => Push (MSGPACK_OBJECT_BOOLEAN true)
    | 0xc4 | 0xc5 | 0xc6 => Again (NEXT_CS b) (Z.shiftl 1 (Z.land b 0x03))
    | 0xc7 | 0xc8 | 0xc9 => Again (NEXT_CS b) (Z.shiftl 1 (Z.land (b + 1) 0x03))
    | 0xca | 0xcb | 0xcc | 0xcd | 0xce | 0xcf | 0xd0 | 0xd1 | 0xd2 | 0xd3 =>
        Again (NEXT_CS b) (Z.shiftl 1 (Z.land b 0x03))
    | 0xd4 | 0xd5 | 0xd6 | 0xd7 =>
        again_fixed_trail_if_zero MSGPACK_ACS_EXT_VALUE (Z.shiftl 1 (Z.land b 0x03) + 1)
    | 0xd8 => again_fixed_trail_if_zero MSGPACK_ACS_EXT_VALUE (16 + 1)
    | 0xd9 | 0xda | 0xdb => Again (NEXT_CS b) (Z.shiftl 1 (Z.land b 0x03 - 1))
    | 0xdc | 0xdd | 0xde | 0xdf => Again (NEXT_CS b) (Z.shiftl 2 (Z.land b 0x01))
    | _ => Fails MSGPACK_UNPACK_PARSE_ERROR
    end
  else if 0xa0 <=? b then again_fixed_trail_if_zero MSGPACK_ACS_STR_VALUE (Z.land b 0x1f)
  else if 0x90 <=? b then StartContainer CArray (Z.land b 0x0f)
  else StartContainer CMap (Z.land b 0x0f).

(** The switch after a trail: [n] are the [trail] bytes that were waited for. *)
Definition trailing (cs : Z) (n : bytes) : act :=
  match cs with
  | 0x0a => Push (MSGPACK_OBJECT_FLOAT32 (load n))
  | 0x0b => Push (MSGPACK_OBJECT_FLOAT64 (load n))
  | 0x0c | 0x0d | 0x0e | 0x0f => Push (MSGPACK_OBJECT_POSITIVE_INTEGER (load n))
  | 0x10 => Push (template_callback_int (i8 (load n)))
  | 0x11 => Push (template_callback_int ((load n + 2 ^ 15) mod 2 ^ 16 - 2 ^ 15))
  | 0x12 => Push (template_callback_int (i32 (load n)))
  | 0x13 => Push (template_callback_int (i64 (load n)))
  | 0x14 => again_fixed_trail_if_zero MSGPACK_ACS_EXT_VALUE (1 + 1)
  | 0x15 => again_fixed_trail_if_zero MSGPACK_ACS_EXT_VALUE (2 + 1)
  | 0x16 => again_fixed_trail_if_zero MSGPACK_ACS_EXT_VALUE (4 + 1)
  | 0x17 => again_fixed_trail_if_zero MSGPACK_ACS_EXT_VALUE (8 + 1)
  | 0x18 => again_fixed_trail_if_zero MSGPACK_ACS_EXT_VALUE (16 + 1)
  | 0x19 | 0x1a | 0x1b => again_fixed_trail_if_zero MSGPACK_ACS_STR_VALUE (load n)
  | 0x04 | 0x05 | 0x06 => again_fixed_trail_if_zero MSGPACK_ACS_BIN_VALUE (load n)
  | 0x07 | 0x08 | 0x09 => again_fixed_trail_if_zero MSGPACK_ACS_EXT_VALUE (load n + 1)
  | 0x20 | 0x21 | 0x22 => PushVariable cs n
  | 0x1c | 0x1d => StartContainer CArray (load n)
  | 0x1e | 0x1f => StartContainer CMap (load n)
  | _ => Fails MSGPACK_UNPACK_PARSE_ERROR
  end.

(** The callbacks of variable values (unpack.c). *)
Definition template_callback_variable (cs : Z) (s : bytes) : Z + obj :=
  if cs =? MSGPACK_ACS_STR_VALUE then inr (MSGPACK_OBJECT_STR s)
  else if cs =? MSGPACK_ACS_BIN_VALUE then inr (MSGPACK_OBJECT_BIN s)
  else match s with
       | [] => inl MSGPACK_UNPACK_PARSE_ERROR
       | type :: s => inr (MSGPACK_OBJECT_EXT (i8 type) s)
       end.

Definition template_callback_container (c : container) : obj :=
  match c with
  | CArray => MSGPACK_OBJECT_ARRAY []
  | CMap => MSGPACK_OBJECT_MAP []
  end.

Definition container_ct (c : container) : container_type :=
  match c with CArray => MSGPACK_CT_ARRAY_ITEM | CMap => MSGPACK_CT_MAP_KEY end.

Definition template_callback_array_item (c o : obj) : obj :=
  match c with
  | MSGPACK_OBJECT_ARRAY l => MSGPACK_OBJECT_ARRAY (l ++ [o])
  | c => c
  end.

Definition template_callback_map_item (c k v : obj) : obj :=
  match c with
  | MSGPACK_OBJECT_MAP l => MSGPACK_OBJECT_MAP (l ++ [(k, v)])
  | c => c
  end.

(** The label _push: the value goes to the innermost container; a container
    that it completes is pushed in turn.  [inl] is the label _finish. *)
Fixpoint push (o : obj) (stack : list frame) : obj + list frame :=
  match stack with
  | [] => inl o
  | c :: st =>
      match f_ct c with
      | MSGPACK_CT_ARRAY_ITEM =>
          let ob := template_callback_array_item (f_obj c) o in
          let count := f_count c - 1 in
          if count =? 0 then push ob st
          else inr ({| f_obj := ob; f_count := count; f_ct := f_ct c; f_map_key := f_map_key c |} :: st)
      | MSGPACK_CT_MAP_KEY =>
          inr ({| f_obj := f_obj c; f_count := f_count c; f_ct := MSGPACK_CT_MAP_VALUE; f_map_key := o |} :: st)
      | MSGPACK_CT_MAP_VALUE =>
          let ob := template_callback_map_item (f_obj c) (f_map_key c) o in
          let count := f_count c - 1 in
          if count =? 0 then push ob st
          else inr ({| f_obj := ob; f_count := count; f_ct := MSGPACK_CT_MAP_KEY; f_map_key := f_map_key c |} :: st)
      end
  end.

Inductive phase := Header | Trail (cs trail : Z).

Inductive result :=
  | Finish (o : obj) (p : nat) (zone : bool) (t : tape)
  | Failed (ret : Z) (p : nat) (t : tape)
  | Out (p : nat) (ph : phase) (stack : list frame) (zone : bool) (t : tape)
  | Overrun
  | NoFuel.

Definition read (data : bytes) (p n : nat) : option bytes :=
  if (p + n <=? length data)%nat then Some (take n (drop p data)) else None.

(** [*u->z == NULL]: the zone is made by the first value that needs it. *)
Definition need_zone (zone : bool) (t : tape) : bool * tape :=
  if zone then (true, t) else flb_malloc t.

(** The label _header_again: [k] is the loop that goes on. *)
Definition header_again (k : nat -> phase -> list frame -> bool -> tape -> result)
    (stack : list frame) (o : obj) (p : nat) (zone : bool) (t : tape) : result :=
  match push o stack with
  | inl r => Finish r (S p) zone t
  | inr stack => k (S p) Header stack zone t
  end.

(** The macros push_simple_value, push_fixed_value, push_variable_value,
    again_fixed_trail and start_container; [p] is the last byte taken. *)
Definition follow (k : nat -> phase -> list frame -> bool -> tape -> result)
    (stack : list frame) (zone : bool) (t : tape) (a : act) (p : nat) : result :=
  match a with
  | Push o => header_again k stack o p zone t
  | PushVariable cs s =>
      if (cs =? MSGPACK_ACS_EXT_VALUE) && (size s =? 0) then Failed MSGPACK_UNPACK_PARSE_ERROR p t
      else
        let '(ok, t) := need_zone zone t in
        if negb ok then Failed MSGPACK_UNPACK_NOMEM_ERROR p t
        else match template_callback_variable cs s with
             | inl ret => Failed ret p t
             | inr o => header_again k stack o p true t
             end
  | Again cs trail => k (S p) (Trail cs trail) stack zone t
  | StartContainer c count =>
      if (MSGPACK_EMBED_STACK_SIZE <=? length stack)%nat
      then Failed MSGPACK_UNPACK_NOMEM_ERROR p t
      else
        let '(ok, t) := need_zone zone t in
        if negb ok then Failed MSGPACK_UNPACK_NOMEM_ERROR p t
        else
          let '(ok, t) := flb_malloc t in
          if negb ok then Failed MSGPACK_UNPACK_NOMEM_ERROR p t
          else if count =? 0 then header_again k stack (template_callback_container c) p true t
          else k (S p) Header
                 ({| f_obj := template_callback_container c; f_count := count;
                     f_ct := container_ct c; f_map_key := MSGPACK_OBJECT_NIL |} :: stack) true t
  | Fails ret => Failed ret p t
  end.

(** The loop of [template_execute], from the position [p]. *)
Fixpoint run (fuel : nat) (data : bytes) (p : nat) (ph : phase) (stack : list frame)
    (zone : bool) (t : tape) : result :=
  match fuel with
  | O => NoFuel
  | S f =>
      match ph with
      | Header =>
          if (p =? length data)%nat then Out p ph stack zone t
          else match read data p 1 with
               | Some [b] => follow (run f data) stack zone t (header b) p
               | _ => Overrun
               end
      | Trail cs trail =>
          if Z.of_nat (length data) - Z.of_nat p <? trail then Out p ph stack zone t
          else match read data p (Z.to_nat trail) with
               | Some n => follow (run f data) stack zone t (trailing cs n) (p + Z.to_nat trail - 1)%nat
               | None => Overrun
               end
      end
  end.

Definition template_execute (t : tape) (data : bytes) (p : nat) : result :=
  run (S (length data - p)) data p Header [] false t.

(** [msgpack_unpack_next]: the result, the new offset and, on success, the
    object; [zone] tells whether a zone was left in the result. *)
Record unpacked := { up_ret : Z; up_off : nat; up_data : option obj; up_zone : bool }.

Definition msgpack_unpack_next (t : tape) (data : bytes) (off : nat) : option unpacked * tape :=
  if (length data <=? off)%nat
  then (Some {| up_ret := MSGPACK_UNPACK_CONTINUE; up_off := off; up_data := None; up_zone := false |}, t)
  else match template_execute t data off with
       | Finish o p zone t =>
           (Some {| up_ret := MSGPACK_UNPACK_SUCCESS; up_off := p; up_data := Some o; up_zone := zone |}, t)
       | Failed ret p t =>
           (Some {| up_ret := ret; up_off := p; up_data := None; up_zone := false |}, t)
       | Out p _ _ zone t =>
           (Some {| up_ret := MSGPACK_UNPACK_CONTINUE; up_off := p; up_data := None; up_zone := zone |}, t)
       | Overrun | NoFuel => (None, t)
       end.

Definition pack (o : obj) : bytes := concat (msgpack_pack_object o).

Definition sample : obj :=
  MSGPACK_OBJECT_ARRAY
    [MSGPACK_OBJECT_ARRAY [MSGPACK_OBJECT_EXT 0 (store 8 77); MSGPACK_OBJECT_MAP []];
     MSGPACK_OBJECT_MAP [(MSGPACK_OBJECT_STR (str "log"), MSGPACK_OBJECT_STR (str "hello"));
                         (MSGPACK_OBJECT_STR (str "n"), MSGPACK_OBJECT_NEGATIVE_INTEGER (-70000));
                         (MSGPACK_OBJECT_STR [], MSGPACK_OBJECT_POSITIVE_INTEGER (2 ^ 63))]].

Example sample_reads_back :
  msgpack_unpack_next [] (pack sample) 0 =
  (Some {| up_ret := 2; up_off := length (pack sample); up_data := Some sample; up_zone := true |}, []).
Proof. vm_compute. reflexivity. Qed.

(** ** Writing with memory *)

(** A buffer whose content fits what was allocated. *)
Definition sb_ok (sb : msgpack_sbuffer) : Prop :=
  (sb_size sb <= length (sb_data sb))%nat /\ Z.of_nat (sb_size sb) <= sb_alloc sb.

Lemma grow_enough n nsize want : want <= grow n nsize want.
Proof.
  revert nsize. induction n as [|n IH]; intros nsize; simpl; [lia|].
  destruct (Z.ltb_spec nsize want); [|lia]. destruct (Z.leb_spec (u64 (nsize * 2)) nsize); [lia|apply IH].
Qed.

Lemma write_ok sb buf : sb_ok sb ->
  exists sb', msgpack_sbuffer_write [] sb buf = (0, sb', []) /\ sb_ok sb' /\
    content sb' = content sb ++ buf.
Proof.
  intros [H1 H2].
  assert (Hp : forall alloc, Z.of_nat (sb_size sb) + size buf <= alloc ->
    let sb' := {| sb_size := sb_size sb + length buf;
       sb_data := take (sb_size sb) (sb_data sb) ++ buf ++ drop (sb_size sb + length buf) (sb_data sb);
       sb_alloc := alloc |} in sb_ok sb' /\ content sb' = content sb ++ buf).
  { intros alloc Ha. unfold sb_ok, content, size in *. cbn [sb_size sb_data sb_alloc].
    rewrite !length_app, length_take. split; [lia|].
    rewrite app_assoc, take_app_le by (rewrite length_app, length_take; lia).
    apply take_ge. rewrite length_app, length_take. lia. }
  unfold msgpack_sbuffer_write. destruct (Z.ltb_spec (sb_alloc sb - Z.of_nat (sb_size sb)) (size buf)).
  - cbn [flb_malloc]. eexists. split; [reflexivity|]. apply Hp, grow_enough.
  - eexists. split; [reflexivity|]. apply Hp. lia.
Qed.

Lemma write_all_ok bufs sb : sb_ok sb ->
  exists sb', write_all [] sb bufs = (0, sb', []) /\ sb_ok sb' /\
    content sb' = content sb ++ concat bufs.
Proof.
  revert sb. induction bufs as [|b bufs IH]; intros sb Hs; cbn [write_all concat].
  - exists sb. by rewrite app_nil_r.
  - destruct (write_ok sb b Hs) as (sb1 & -> & Hs1 & Hc1). cbn [Z.ltb Z.compare].
    destruct (IH sb1 Hs1) as (sb2 & -> & Hs2 & Hc2). exists sb2.
    split; [done|]. split; [done|]. by rewrite Hc2, Hc1, app_assoc.
Qed.

(** ** Objects that the format can hold *)

Fixpoint wf (o : obj) : Prop :=
  match o with
  | MSGPACK_OBJECT_NIL | MSGPACK_OBJECT_BOOLEAN _ => True
  | MSGPACK_OBJECT_POSITIVE_INTEGER u => 0 <= u < 2 ^ 64
  | MSGPACK_OBJECT_NEGATIVE_INTEGER i => - 2 ^ 63 <= i < 0
  | MSGPACK_OBJECT_FLOAT32 b => 0 <= b < 2 ^ 32
  | MSGPACK_OBJECT_FLOAT64 b => 0 <= b < 2 ^ 64
  | MSGPACK_OBJECT_STR s | MSGPACK_OBJECT_BIN s => is_bytes s /\ size s < 2 ^ 32
  | MSGPACK_OBJECT_EXT type s => - 2 ^ 7 <= type < 2 ^ 7 /\ is_bytes s /\ size s < 2 ^ 32 - 1
  | MSGPACK_OBJECT_ARRAY l => Z.of_nat (length l) < 2 ^ 32 /\ foldr and True (map wf l)
  | MSGPACK_OBJECT_MAP l =>
      Z.of_nat (length l) < 2 ^ 32 /\ foldr and True (map (λ kv, wf kv.1 /\ wf kv.2) l)
  end.

(** The containers on the longest path. *)
Fixpoint depth (o : obj) : nat :=
  match o with
  | MSGPACK_OBJECT_ARRAY l => S (foldr max O (map depth l))
  | MSGPACK_OBJECT_MAP l => S (foldr max O (map (λ kv, max (depth kv.1) (depth kv.2)) l))
  | _ => O
  end.

(** Induction on objects, with the hypothesis for the items of containers. *)
Lemma obj_ind' (P : obj -> Prop)
  (HL : forall o, match o with MSGPACK_OBJECT_ARRAY _ | MSGPACK_OBJECT_MAP _ => True | _ => P o end)
  (HA : forall l, Forall P l -> P (MSGPACK_OBJECT_ARRAY l))
  (HM : forall l, Forall (λ kv, P kv.1 /\ P kv.2) l -> P (MSGPACK_OBJECT_MAP l)) :
  forall o, P o.
Proof.
  fix IH 1. intros o. destruct o as [| | | | | | |l|l| |];
    lazymatch goal with
    | |- P (MSGPACK_OBJECT_ARRAY _) => apply HA
    | |- P (MSGPACK_OBJECT_MAP _) => apply HM
    | |- P ?o => exact (HL o)
    end.
  - induction l as [|o l IHl]; constructor; auto.
  - induction l as [|[k v] l IHl]; constructor; auto.
Qed.

Lemma foldr_and_Forall {A} (P : A -> Prop) l : foldr and True (map P l) <-> Forall P l.
Proof. induction l as [|x l IH]; simpl; [by split|]. rewrite IH, Forall_cons. done. Qed.

Lemma foldr_max_le {A} (f : A -> nat) l n :
  (foldr max O (map f l) <= n)%nat <-> Forall (λ x, (f x <= n)%nat) l.
Proof. induction l as [|x l IH]; simpl; [split; [constructor|lia]|]. rewrite Forall_cons, <- IH. lia. Qed.

(** ** Loads and stores *)

Lemma length_store n z : length (store n z) = n.
Proof. induction n; simpl; auto. Qed.

Lemma load_app s b : load (s ++ [b]) = load s * 256 + b.
Proof. unfold load. by rewrite fold_left_app. Qed.

Lemma load_cons_acc s a : fold_left (λ a b, a * 256 + b) s a = a * 256 ^ size s + load s.
Proof.
  unfold load, size. revert a. induction s as [|b s IH]; intros a; cbn [fold_left length]; [lia|].
  rewrite IH, (IH (0 * 256 + b)), Nat2Z.inj_succ, Z.pow_succ_r by lia. lia.
Qed.

Lemma load_store n z : load (store n z) = z mod 256 ^ Z.of_nat n.
Proof.
  induction n as [|n IH]; [by rewrite Z.mod_1_r|].
  cbn [store]. unfold load. cbn [fold_left]. rewrite load_cons_acc. unfold size.
  rewrite length_store, IH, Nat2Z.inj_succ, Z.pow_succ_r by lia. unfold u8.
  rewrite (Z.mul_comm 256), Z.rem_mul_r by lia.
  change (2 ^ 8) with 256. lia.
Qed.

Lemma store_bytes n z : is_bytes (store n z).
Proof. induction n; [constructor|]. apply Forall_cons_2; [apply u8_range|done]. Qed.

Lemma load_range s : is_bytes s -> 0 <= load s < 256 ^ size s.
Proof.
  unfold size. induction s as [|b s IH] using rev_ind; intros H; [done|].
  apply Forall_app in H as [Hs Hb]. apply Forall_cons in Hb as [Hb _]. specialize (IH Hs).
  rewrite load_app, length_app, Nat.add_comm. cbn [length plus]. unfold is_byte in Hb.
  rewrite Nat2Z.inj_succ, Z.pow_succ_r by lia. lia.
Qed.

(** ** What the machine does with an encoded value

    [leads h a]: from the first byte of [h], the machine takes the bytes of [h]
    and then does [a]; it uses at most one unit of fuel per byte. *)

Definition leads (h : bytes) (a : act) : Prop :=
  (1 <= length h)%nat /\
  forall data p rest stack zone, drop p data = h ++ rest ->
  exists n, (n <= length h)%nat /\ forall f,
    run (n + f) data p Header stack zone [] =
    follow (run f data) stack zone [] a (p + length h - 1).

Lemma drop_cut {A} (p : nat) (data h rest : list A) :
  drop p data = h ++ rest -> drop (p + length h) data = rest.
Proof. intros H. by rewrite <- drop_drop, H, drop_app_length. Qed.

Lemma read_at data p h rest : drop p data = h ++ rest ->
  (1 <= length h)%nat -> read data p (length h) = Some h.
Proof.
  intros H Hp. unfold read. assert (Hl := f_equal length H).
  rewrite length_drop, length_app in Hl.
  destruct (Nat.leb_spec (p + length h) (length data)); [by rewrite H, take_app_length|].
  lia.
Qed.

Lemma leads_1 b a : header b = a -> leads [b] a.
Proof.
  intros <-. split; [simpl; lia|]. intros data p rest stack zone H. exists 1%nat. split; [done|].
  intros f. cbn [run plus length]. assert (Hl := f_equal length H).
  rewrite length_drop in Hl. simpl in Hl.
  destruct (Nat.eqb_spec p (length data)); [lia|].
  assert (Hr := read_at data p [b] rest H ltac:(done)). cbn [length] in Hr. rewrite Hr. f_equal. lia.
Qed.

(** The trail that the machine waits for is there: it is looked at. *)
Lemma leads_again h cs trail n a :
  leads h (Again cs trail) -> size n = trail -> 1 <= trail -> trailing cs n = a -> leads (h ++ n) a.
Proof.
  intros [Hh IH] Hn Ht <-. unfold size in *. split; [rewrite length_app; lia|].
  intros data p rest stack zone H. rewrite <- app_assoc in H.
  destruct (IH data p (n ++ rest) stack zone H) as (k & Hk & Hrun).
  exists (k + 1)%nat. split; [rewrite length_app; lia|]. intros f.
  rewrite <- Nat.add_assoc, Hrun. cbn [follow plus run].
  replace (S (p + length h - 1)) with (p + length h)%nat by lia.
  apply drop_cut in H. assert (Hl := f_equal length H). rewrite length_drop, length_app in Hl.
  destruct (Z.ltb_spec (Z.of_nat (length data) - Z.of_nat (p + length h)) trail); [lia|].
  replace (Z.to_nat trail) with (length n) by lia.
  rewrite (read_at _ _ _ _ H) by lia. rewrite length_app. f_equal. lia.
Qed.

(** [reads o enc]: the machine reads [enc] as the object [o], as an item of
    the innermost open container, when the stack has room for it. *)
Definition reads (o : obj) (enc : bytes) : Prop :=
  (1 <= length enc)%nat /\
  forall data p rest stack zone, drop p data = enc ++ rest ->
  (length stack + depth o <= MSGPACK_EMBED_STACK_SIZE)%nat ->
  exists n zone', (n <= length enc)%nat /\ forall f,
    run (n + f) data p Header stack zone [] =
    header_again (run f data) stack o (p + length enc - 1) zone' [].

Lemma reads_push h o : leads h (Push o) -> reads o h.
Proof.
  intros [Hh H]. split; [done|]. intros data p rest stack zone Hd _.
  destruct (H data p rest stack zone Hd) as (n & Hn & Hr). by exists n, zone.
Qed.

Lemma need_zone_nil zone : need_zone zone [] = (true, []).
Proof. by destruct zone. Qed.

Lemma reads_variable h cs s o :
  leads h (PushVariable cs s) -> template_callback_variable cs s = inr o ->
  ((cs =? MSGPACK_ACS_EXT_VALUE) && (size s =? 0)) = false -> reads o h.
Proof.
  intros [Hh H] Ho Hz. split; [done|]. intros data p rest stack zone Hd _.
  destruct (H data p rest stack zone Hd) as (n & Hn & Hr). exists n, true. split; [done|].
  intros f. rewrite Hr. cbn [follow]. by rewrite Hz, need_zone_nil, Ho.
Qed.

(** The items of an open container, one after the other. *)
Definition array_frame (l : list obj) (count : nat) : frame :=
  {| f_obj := MSGPACK_OBJECT_ARRAY l; f_count := Z.of_nat count; f_ct := MSGPACK_CT_ARRAY_ITEM;
     f_map_key := MSGPACK_OBJECT_NIL |}.

Lemma reads_items l encs : Forall2 reads l encs -> l <> [] ->
  forall acc data p rest stack zone, drop p data = concat encs ++ rest ->
  (length stack + S (foldr max O (map depth l)) <= MSGPACK_EMBED_STACK_SIZE)%nat ->
  (1 <= length (concat encs))%nat /\
  exists n zone', (n <= length (concat encs))%nat /\ forall f,
    run (n + f) data p Header (array_frame acc (length l) :: stack) zone [] =
    header_again (run f data) stack (MSGPACK_OBJECT_ARRAY (acc ++ l)) (p + length (concat encs) - 1) zone' [].
Proof.
  induction 1 as [|o e l encs [He Ho] Hl IH]; [done|]. intros _ acc data p rest stack zone Hd Hs.
  cbn [concat foldr map] in *. rewrite length_app, <- app_assoc in *. split; [lia|].
  destruct (Ho data p (concat encs ++ rest) (array_frame acc (length (o :: l)) :: stack) zone Hd)
    as (n & z & Hn & Hr); [cbn [length]; lia|].
  destruct l as [|o2 l].
  - inversion Hl. subst. exists n, z. split; [lia|]. intros f. rewrite Hr. cbn [concat length].
    rewrite Nat.add_0_r. done.
  - destruct (IH ltac:(done) (acc ++ [o]) data (p + length e)%nat rest stack z) as [Hc (m & z' & Hm & Hr2)].
    { by apply drop_cut in Hd. }
    { cbn [foldr map]. cbn [foldr map] in Hs. lia. }
    exists (n + m)%nat, z'. split; [lia|]. intros f. rewrite <- Nat.add_assoc, Hr.
    unfold header_again at 1. cbn [push array_frame f_ct f_count f_obj f_map_key template_callback_array_item].
    cbn [length]. destruct (Z.eqb_spec (Z.of_nat (S (S (length l))) - 1) 0); [lia|].
    replace (Z.of_nat (S (S (length l))) - 1) with (Z.of_nat (length (o2 :: l))) by (simpl; lia).
    replace (S (p + length e - 1)) with (p + length e)%nat by lia.
    fold (array_frame (acc ++ [o]) (length (o2 :: l))). rewrite Hr2, <- app_assoc. f_equal. lia.
Qed.

Definition map_frame (l : list (obj * obj)) (count : nat) (key : obj) : frame :=
  {| f_obj := MSGPACK_OBJECT_MAP l; f_count := Z.of_nat count; f_ct := MSGPACK_CT_MAP_KEY;
     f_map_key := key |}.

Definition reads_kv (kv : obj * obj) (e : bytes * bytes) : Prop := reads kv.1 e.1 /\ reads kv.2 e.2.
Definition kv_bytes (e : bytes * bytes) : bytes := e.1 ++ e.2.

(** A key and its value: the frame keeps the key until the value comes. *)
Lemma reads_pair kv e acc count key data p rest stack zone :
  reads_kv kv e -> drop p data = kv_bytes e ++ rest ->
  (length stack + S (max (depth kv.1) (depth kv.2)) <= MSGPACK_EMBED_STACK_SIZE)%nat ->
  exists n zone', (n <= length (kv_bytes e))%nat /\ forall f,
    run (n + f) data p Header (map_frame acc (S count) key :: stack) zone [] =
    match count with
    | O => header_again (run f data) stack (MSGPACK_OBJECT_MAP (acc ++ [kv])) (p + length (kv_bytes e) - 1) zone' []
    | S _ => run f data (p + length (kv_bytes e)) Header (map_frame (acc ++ [kv]) count kv.1 :: stack) zone' []
    end.
Proof.
  destruct kv as [k v], e as [ek ev]. intros [[Hk1 Hk] [Hv1 Hv]]. unfold kv_bytes. cbn [fst snd] in *.
  rewrite <- app_assoc, length_app. intros Hd Hs.
  destruct (Hk data p (ev ++ rest) (map_frame acc (S count) key :: stack) zone Hd)
    as (n & z & Hn & Hr); [cbn [length]; lia|].
  apply drop_cut in Hd.
  destruct (Hv data (p + length ek)%nat rest
    ({| f_obj := MSGPACK_OBJECT_MAP acc; f_count := Z.of_nat (S count); f_ct := MSGPACK_CT_MAP_VALUE;
        f_map_key := k |} :: stack) z Hd) as (m & z' & Hm & Hr2); [cbn [length]; lia|].
  exists (n + m)%nat, z'. split; [lia|]. intros f. rewrite <- Nat.add_assoc, Hr.
  unfold header_again at 1. cbn [push map_frame f_ct f_count f_obj f_map_key].
  replace (S (p + length ek - 1)) with (p + length ek)%nat by lia. rewrite Hr2.
  unfold header_again at 1. cbn [push f_ct f_count f_obj f_map_key template_callback_map_item].
  replace (Z.of_nat (S count) - 1) with (Z.of_nat count) by lia.
  rewrite Nat.add_assoc. destruct count as [|count]; [done|].
  destruct (Z.eqb_spec (Z.of_nat (S count)) 0); [lia|]. f_equal. lia.
Qed.

Lemma reads_pairs l encs : Forall2 reads_kv l encs -> l <> [] ->
  forall acc key data p rest stack zone, drop p data = concat (map kv_bytes encs) ++ rest ->
  (length stack + S (foldr max O (map (λ kv, max (depth kv.1) (depth kv.2)) l)) <= MSGPACK_EMBED_STACK_SIZE)%nat ->
  exists n zone', (n <= length (concat (map kv_bytes encs)))%nat /\ forall f,
    run (n + f) data p Header (map_frame acc (length l) key :: stack) zone [] =
    header_again (run f data) stack (MSGPACK_OBJECT_MAP (acc ++ l))
      (p + length (concat (map kv_bytes encs)) - 1) zone' [].
Proof.
  induction 1 as [|kv e l encs Hkv Hl IH]; [done|]. intros _ acc key data p rest stack zone Hd Hs.
  cbn [concat foldr map] in *. rewrite length_app, <- app_assoc in *.
  destruct (reads_pair kv e acc (length l) key data p (concat (map kv_bytes encs) ++ rest) stack zone
    Hkv Hd) as (n & z & Hn & Hr); [lia|].
  destruct l as [|kv2 l].
  - inversion Hl. subst. exists n, z. split; [lia|]. intros f. cbn [length] in *. rewrite Hr.
    cbn [concat map length]. by rewrite Nat.add_0_r.
  - destruct (IH ltac:(done) (acc ++ [kv]) kv.1 data (p + length (kv_bytes e))%nat rest stack z)
      as (m & z' & Hm & Hr2).
    { by apply drop_cut in Hd. }
    { cbn [foldr map] in *. lia. }
    exists (n + m)%nat, z'. split; [lia|]. intros f. cbn [length] in *.
    rewrite <- Nat.add_assoc, Hr, Hr2, <- app_assoc. f_equal. lia.
Qed.

(** Containers: a header that starts one, and its items. *)
Lemma reads_container h c count enc o :
  leads h (StartContainer c (Z.of_nat count)) ->
  (1 <= depth o)%nat ->
  (count = O -> enc = [] /\ o = template_callback_container c) ->
  (count <> O -> forall data p rest stack zone, drop p data = enc ++ rest ->
     (length stack + depth o <= MSGPACK_EMBED_STACK_SIZE)%nat ->
     exists n zone', (n <= length enc)%nat /\ forall f,
       run (n + f) data p Header
         ({| f_obj := template_callback_container c; f_count := Z.of_nat count; f_ct := container_ct c;
             f_map_key := MSGPACK_OBJECT_NIL |} :: stack) zone [] =
       header_again (run f data) stack o (p + length enc - 1) zone' []) ->
  reads o (h ++ enc).
Proof.
  intros [Hh Hlead] Hdep H0 H1. split; [rewrite length_app; lia|].
  intros data p rest stack zone Hd Hs. rewrite <- app_assoc in Hd.
  destruct (Hlead data p (enc ++ rest) stack zone Hd) as (n & Hn & Hr).
  assert (Hle : (MSGPACK_EMBED_STACK_SIZE <=? length stack)%nat = false) by (apply Nat.leb_gt; lia).
  rewrite length_app. destruct (decide (count = O)) as [->|Hc].
  - destruct (H0 eq_refl) as [-> ->]. exists n, true. split; [lia|]. intros f. rewrite Hr. cbn [follow].
    rewrite Hle, need_zone_nil. cbn [negb flb_malloc length]. by rewrite Nat.add_0_r.
  - apply drop_cut in Hd.
    destruct (H1 Hc data (p + length h)%nat rest stack true Hd Hs) as (m & z' & Hm & Hr2).
    exists (n + m)%nat, z'. split; [lia|]. intros f. rewrite <- Nat.add_assoc, Hr. cbn [follow].
    rewrite Hle, need_zone_nil. cbn [negb flb_malloc].
    destruct (Z.eqb_spec (Z.of_nat count) 0); [lia|].
    replace (S (p + length h - 1)) with (p + length h)%nat by lia. rewrite Hr2. f_equal. lia.
Qed.

Lemma reads_array h l encs :
  leads h (StartContainer CArray (Z.of_nat (length l))) -> Forall2 reads l encs ->
  reads (MSGPACK_OBJECT_ARRAY l) (h ++ concat encs).
Proof.
  intros Hh Hl. apply (reads_container h CArray (length l)); [done|simpl; lia| |].
  - intros H. destruct l; [|done]. by inversion Hl.
  - intros Hne data p rest stack zone Hd Hs.
    by apply (reads_items l encs Hl ltac:(by intros ->) [] data p rest stack zone Hd Hs).
Qed.

Lemma reads_map h l encs :
  leads h (StartContainer CMap (Z.of_nat (length l))) -> Forall2 reads_kv l encs ->
  reads (MSGPACK_OBJECT_MAP l) (h ++ concat (map kv_bytes encs)).
Proof.
  intros Hh Hl. apply (reads_container h CMap (length l)); [done|simpl; lia| |].
  - intros H. destruct l; [|done]. by inversion Hl.
  - intros Hne data p rest stack zone Hd Hs.
    apply (reads_pairs l encs Hl ltac:(by intros ->) [] MSGPACK_OBJECT_NIL data p rest stack zone Hd Hs).
Qed.

(** ** Each pack function writes what the machine reads back *)

Lemma leads_cons b cs trail n a :
  header b = Again cs trail -> size n = trail -> 1 <= trail -> trailing cs n = a -> leads (b :: n) a.
Proof. intros H. apply (leads_again [b]). by apply leads_1. Qed.

Lemma size_store n z : size (store n z) = Z.of_nat n.
Proof. unfold size. by rewrite length_store. Qed.

Lemma load_store_small n z : 0 <= z < 256 ^ Z.of_nat n -> load (store n z) = z.
Proof. intros. rewrite load_store. by apply Z.mod_small. Qed.

Lemma load_u8 z : load [u8 z] = u8 z.
Proof. done. Qed.

(** A fact about all numbers below a bound is checked one by one. *)
Lemma below_ind (P : Z -> Prop) n :
  Forall P (map Z.of_nat (seq 0 n)) -> forall z, 0 <= z < Z.of_nat n -> P z.
Proof.
  intros H z Hz. rewrite Forall_forall in H. apply H. apply elem_of_map.
  exists (Z.to_nat z). split; [lia|]. apply elem_of_seq. lia.
Qed.

Lemma header_fixarray n : 0 <= n < 16 -> header (Z.lor 0x90 n) = StartContainer CArray n.
Proof. revert n. apply (below_ind _ 16). repeat constructor. Qed.
Lemma header_fixmap n : 0 <= n < 16 -> header (Z.lor 0x80 n) = StartContainer CMap n.
Proof. revert n. apply (below_ind _ 16). repeat constructor. Qed.
Lemma header_fixstr n : 0 <= n < 32 ->
  header (Z.lor 0xa0 n) = again_fixed_trail_if_zero MSGPACK_ACS_STR_VALUE n.
Proof. revert n. apply (below_ind _ 32). repeat constructor. Qed.
Lemma header_fixint n : 0 <= n < 128 -> header n = Push (MSGPACK_OBJECT_POSITIVE_INTEGER n).
Proof. intros. unfold header. destruct (Z.leb_spec n 0x7f); [done|lia]. Qed.
Lemma header_negint m : 0 <= m < 32 ->
  header (u8 (m - 32)) = Push (MSGPACK_OBJECT_NEGATIVE_INTEGER (m - 32)).
Proof. revert m. apply (below_ind _ 32). repeat constructor. Qed.

(** Two's complement: what the sign extension makes of the stored bits. *)
Lemma sign_back h d : - h <= d < h -> (d mod (2 * h) + h) mod (2 * h) - h = d.
Proof. intros. rewrite Zplus_mod_idemp_l, Z.mod_small; lia. Qed.

Lemma callback_negative d e : d < 0 -> e = d -> Push (template_callback_int e) = Push (MSGPACK_OBJECT_NEGATIVE_INTEGER d).
Proof. intros Hd ->. unfold template_callback_int. destruct (Z.leb_spec 0 d); [lia|done]. Qed.

(** Evaluates the state after a header byte. *)
Ltac trail_value :=
  match goal with
  | |- trailing ?cs _ = _ => let c := eval vm_compute in cs in change cs with c
  end; cbn [trailing].

Lemma leads_array_header n : 0 <= n < 2 ^ 32 -> leads (msgpack_pack_array n) (StartContainer CArray n).
Proof.
  intros H. unfold msgpack_pack_array. zcase.
  - rewrite u8_small by lia. apply leads_1, header_fixarray. lia.
  - eapply leads_cons; [done|apply size_store|done|]. trail_value. by rewrite load_store_small by lia.
  - eapply leads_cons; [done|apply size_store|done|]. trail_value. by rewrite load_store_small by lia.
Qed.

Lemma leads_map_header n : 0 <= n < 2 ^ 32 -> leads (msgpack_pack_map n) (StartContainer CMap n).
Proof.
  intros H. unfold msgpack_pack_map. zcase.
  - rewrite u8_small by lia. apply leads_1, header_fixmap. lia.
  - eapply leads_cons; [done|apply size_store|done|]. trail_value. by rewrite load_store_small by lia.
  - eapply leads_cons; [done|apply size_store|done|]. trail_value. by rewrite load_store_small by lia.
Qed.

Lemma leads_uint64 d : 0 <= d < 2 ^ 64 ->
  leads (msgpack_pack_real_uint64 d) (Push (MSGPACK_OBJECT_POSITIVE_INTEGER d)).
Proof.
  intros H. unfold msgpack_pack_real_uint64. zcase.
  - rewrite u8_small by lia. apply leads_1, header_fixint. lia.
  - eapply leads_cons; [done|done|done|]; trail_value. by rewrite load_u8, u8_small by lia.
  - eapply leads_cons; [done|apply size_store|done|]. trail_value. by rewrite load_store_small by lia.
  - eapply leads_cons; [done|apply size_store|done|]. trail_value. by rewrite load_store_small by lia.
  - eapply leads_cons; [done|apply size_store|done|]. trail_value. by rewrite load_store_small by lia.
Qed.

Lemma leads_int64 d : - 2 ^ 63 <= d < 0 ->
  leads (msgpack_pack_real_int64 d) (Push (MSGPACK_OBJECT_NEGATIVE_INTEGER d)).
Proof.
  intros H. unfold msgpack_pack_real_int64. zcase; try lia.
  1-3: eapply leads_cons; [done|apply size_store|done|]; trail_value;
       apply callback_negative; [lia|]; rewrite load_store.
  - apply (sign_back (2 ^ 63)). lia.
  - apply (sign_back (2 ^ 31)). lia.
  - apply (sign_back (2 ^ 15)). lia.
  - eapply leads_cons; [done|done|done|]; trail_value. apply callback_negative; [lia|].
    apply (sign_back (2 ^ 7)). lia.
  - apply leads_1. replace d with (d + 32 - 32) by lia. apply header_negint. lia.
Qed.

Lemma leads_variable h cs trail s :
  leads h (again_fixed_trail_if_zero cs trail) -> size s = trail -> trail < 2 ^ 32 ->
  cs = MSGPACK_ACS_STR_VALUE \/ cs = MSGPACK_ACS_BIN_VALUE \/ cs = MSGPACK_ACS_EXT_VALUE ->
  leads (h ++ s) (PushVariable cs s).
Proof.
  unfold again_fixed_trail_if_zero, size. intros Hh Hs Ht Hcs. rewrite u32_small in Hh by lia.
  destruct (Z.eqb_spec trail 0).
  - destruct s; [|simpl in *; lia]. by rewrite app_nil_r.
  - eapply leads_again; [exact Hh|done|lia|]. by destruct Hcs as [->|[->| ->]].
Qed.

Lemma leads_str s : size s < 2 ^ 32 ->
  leads (msgpack_pack_str (size s) ++ s) (PushVariable MSGPACK_ACS_STR_VALUE s).
Proof.
  intros H. assert (0 <= size s) by (unfold size; lia).
  eapply (leads_variable _ _ (size s)); [|done|done|auto].
  unfold msgpack_pack_str. zcase.
  - rewrite u8_small by lia. apply leads_1, header_fixstr. lia.
  - eapply leads_cons; [done|done|done|]; trail_value.
    by rewrite load_u8, u8_small by lia.
  - eapply leads_cons; [done|apply size_store|done|]. trail_value.
    by rewrite load_store_small by lia.
  - eapply leads_cons; [done|apply size_store|done|]. trail_value.
    by rewrite load_store_small by lia.
Qed.

Lemma leads_bin s : size s < 2 ^ 32 ->
  leads (msgpack_pack_bin (size s) ++ s) (PushVariable MSGPACK_ACS_BIN_VALUE s).
Proof.
  intros H. assert (0 <= size s) by (unfold size; lia).
  eapply (leads_variable _ _ (size s)); [|done|done|auto].
  unfold msgpack_pack_bin. zcase.
  - eapply leads_cons; [done|done|done|]; trail_value.
    by rewrite load_u8, u8_small by lia.
  - eapply leads_cons; [done|apply size_store|done|]. trail_value.
    by rewrite load_store_small by lia.
  - eapply leads_cons; [done|apply size_store|done|]. trail_value.
    by rewrite load_store_small by lia.
Qed.

(** The type byte of an ext value is the first byte of its trail. *)
Lemma leads_ext type s : size s < 2 ^ 32 - 1 ->
  leads (msgpack_pack_ext (size s) type ++ s) (PushVariable MSGPACK_ACS_EXT_VALUE (u8 type :: s)).
Proof.
  intros H. assert (0 <= size s) by (unfold size; lia).
  assert (Hv : forall h, leads h (again_fixed_trail_if_zero MSGPACK_ACS_EXT_VALUE (size s + 1)) ->
    leads ((h ++ [u8 type]) ++ s) (PushVariable MSGPACK_ACS_EXT_VALUE (u8 type :: s))).
  { intros h Hh. rewrite <- app_assoc. eapply leads_variable; [exact Hh|unfold size; simpl; lia|lia|auto]. }
  assert (Hf : forall b, header b = again_fixed_trail_if_zero MSGPACK_ACS_EXT_VALUE (size s + 1) ->
    leads ([b; u8 type] ++ s) (PushVariable MSGPACK_ACS_EXT_VALUE (u8 type :: s))).
  { intros b Hb. apply (Hv [b]). by apply leads_1. }
  assert (Hg : leads ((if size s <? 256 then [0xc7; u8 (size s); u8 type]
      else if size s <? 65536 then 0xc8 :: store 2 (size s) ++ [u8 type]
      else 0xc9 :: store 4 (size s) ++ [u8 type]) ++ s) (PushVariable MSGPACK_ACS_EXT_VALUE (u8 type :: s))).
  { zcase.
    - apply (Hv [0xc7; u8 (size s)]). eapply leads_cons; [done|done|done|].
      trail_value. by rewrite load_u8, u8_small by lia.
    - apply (Hv (0xc8 :: store 2 (size s))). eapply leads_cons; [done|apply size_store|done|].
      trail_value. by rewrite load_store_small by lia.
    - apply (Hv (0xc9 :: store 4 (size s))). eapply leads_cons; [done|apply size_store|done|].
      trail_value. by rewrite load_store_small by lia. }
  unfold msgpack_pack_ext.
  destruct (Z.eq_dec (size s) 1) as [E|]; [rewrite E in *; by apply Hf|].
  destruct (Z.eq_dec (size s) 2) as [E|]; [rewrite E in *; by apply Hf|].
  destruct (Z.eq_dec (size s) 4) as [E|]; [rewrite E in *; by apply Hf|].
  destruct (Z.eq_dec (size s) 8) as [E|]; [rewrite E in *; by apply Hf|].
  destruct (Z.eq_dec (size s) 16) as [E|]; [rewrite E in *; by apply Hf|].
  clear Hv Hf. revert Hg. generalize (PushVariable MSGPACK_ACS_EXT_VALUE (u8 type :: s)) as a.
  intros a. generalize dependent (size s). intros z. intros.
  repeat (case_match; try done; try lia).
Qed.
Lemma i8_u8 z : - 2 ^ 7 <= z < 2 ^ 7 -> i8 (u8 z) = z.
Proof. apply (sign_back (2 ^ 7)). Qed.

Lemma concat_map_concat {A} (f : A -> list bytes) (l : list A) :
  concat (concat (map f l)) = concat (map (λ x, concat (f x)) l).
Proof. induction l as [|x l IH]; [done|]. simpl. by rewrite concat_app, IH. Qed.

(** The machine reads every encodable object back from its encoding. *)
Lemma reads_pack o : wf o -> reads o (pack o).
Proof.
  revert o. apply (obj_ind' (λ o, wf o -> reads o (pack o))); [intros o|intros l IH..].
  - destruct o; try done; unfold pack; cbn [msgpack_pack_object concat wf]; rewrite ?app_nil_r; intros H.
    + by apply reads_push, leads_1.
    + destruct boolean; by apply reads_push, leads_1.
    + by apply reads_push, leads_uint64.
    + by apply reads_push, leads_int64.
    + apply reads_push. eapply leads_cons; [done|apply size_store|done|]. trail_value.
      by rewrite load_store_small by lia.
    + apply reads_push. eapply leads_cons; [done|apply size_store|done|]. trail_value.
      by rewrite load_store_small by lia.
    + by eapply reads_variable; [apply leads_str, H| |].
    + by eapply reads_variable; [apply leads_bin, H| |].
    + eapply reads_variable; [apply leads_ext, H| |by apply andb_false_iff; right].
      unfold template_callback_variable. cbn. by rewrite i8_u8 by tauto.
  - cbn [wf]. rewrite foldr_and_Forall. intros [Hl Hw]. unfold pack. cbn [msgpack_pack_object concat].
    rewrite concat_map_concat. apply reads_array; [apply leads_array_header; lia|].
    apply Forall2_fmap_r, Forall_Forall2_diag, Forall_forall. rewrite Forall_forall in IH, Hw. auto.
  - cbn [wf]. rewrite foldr_and_Forall. intros [Hl Hw]. unfold pack. cbn [msgpack_pack_object concat].
    rewrite concat_map_concat.
    replace (map (λ x, concat (msgpack_pack_object x.1 ++ msgpack_pack_object x.2)) l)
      with (map kv_bytes (map (λ x, (pack x.1, pack x.2)) l))
      by (rewrite map_map; apply map_ext; intros []; unfold kv_bytes, pack; simpl; by rewrite concat_app).
    apply reads_map; [apply leads_map_header; lia|].
    apply Forall2_fmap_r, Forall_Forall2_diag, Forall_forall. rewrite Forall_forall in IH, Hw.
    intros kv Hkv. destruct (IH kv Hkv), (Hw kv Hkv). split; simpl; auto.
Qed.

(** Bytes that the machine reads as [o] are unpacked as [o], wherever they are. *)
Lemma pack_nonempty o : pack o <> [].
Proof.
  destruct o; unfold pack; cbn [msgpack_pack_object concat]; intros [H _]%app_nil; revert H.
  all: try done.
  all: unfold msgpack_pack_real_uint64, msgpack_pack_real_int64, msgpack_pack_str, msgpack_pack_bin,
    msgpack_pack_ext, msgpack_pack_array, msgpack_pack_map; repeat case_match; done.
Qed.

Lemma lor_byte x y : is_byte x -> is_byte y -> is_byte (Z.lor x y).
Proof.
  unfold is_byte. intros Hx Hy.
  assert (E : Z.lor x y = Z.lor x y mod 2 ^ 8).
  { rewrite <- !Z.land_ones, Z.land_lor_distr_l, !Z.land_ones, !Z.mod_small by lia. done. }
  rewrite E. apply Z.mod_pos_bound. lia.
Qed.

Lemma pack_bytes o : wf o -> is_bytes (pack o).
Proof.
  assert (Hu : forall z, is_byte (u8 z)) by (intros z; apply u8_range).
  assert (Hl : forall x z, is_byte x -> is_byte (Z.lor x (u8 z))) by (intros; by apply lor_byte).
  assert (Hc : forall n, is_byte n -> forall l, is_bytes l -> is_bytes (n :: l)) by (intros; by apply Forall_cons_2).
  assert (Hs := store_bytes). assert (Hn : is_bytes []) by constructor.
  assert (Ha : forall l m, is_bytes l -> is_bytes m -> is_bytes (l ++ m)) by (intros; by apply Forall_app_2).
  revert o. apply (obj_ind' (λ o, wf o -> is_bytes (pack o))); [intros o|intros l IH..].
  - destruct o; try done; unfold pack; cbn [msgpack_pack_object concat wf]; rewrite ?app_nil_r; intros H;
      unfold msgpack_pack_nil, msgpack_pack_true, msgpack_pack_false, msgpack_pack_real_uint64,
        msgpack_pack_real_int64, msgpack_pack_float, msgpack_pack_double, msgpack_pack_str,
        msgpack_pack_bin, msgpack_pack_ext;
      try apply Ha; repeat case_match; auto 8; try tauto;
      repeat (apply Hc; [auto; try apply Hl; unfold is_byte; lia|]); auto.
  - cbn [wf]. rewrite foldr_and_Forall. intros [Hle Hw]. unfold pack. cbn [msgpack_pack_object concat].
    rewrite concat_map_concat. apply Ha.
    + unfold msgpack_pack_array. repeat case_match; (apply Hc; [auto; try apply Hl; unfold is_byte; lia|]); auto.
    + apply Forall_concat, Forall_map. rewrite Forall_forall in *. intros o Ho. by apply IH, Hw.
  - cbn [wf]. rewrite foldr_and_Forall. intros [Hle Hw]. unfold pack. cbn [msgpack_pack_object concat].
    rewrite concat_map_concat. apply Ha.
    + unfold msgpack_pack_map. repeat case_match; (apply Hc; [auto; try apply Hl; unfold is_byte; lia|]); auto.
    + apply Forall_concat, Forall_map. rewrite Forall_forall in *. intros kv Hkv.
      destruct (IH kv Hkv) as [H1 H2]. destruct (Hw kv Hkv). rewrite concat_app. by apply Ha; [apply H1|apply H2].
Qed.

Lemma reads_unpack o enc pre post :
  reads o enc -> (depth o <= MSGPACK_EMBED_STACK_SIZE)%nat ->
  exists zone, msgpack_unpack_next [] (pre ++ enc ++ post) (length pre) =
    (Some {| up_ret := MSGPACK_UNPACK_SUCCESS; up_off := (length pre + length enc)%nat;
             up_data := Some o; up_zone := zone |}, []).
Proof.
  intros [He Hr] Hd.
  destruct (Hr (pre ++ enc ++ post) (length pre) post [] false) as (n & zone & Hn & Hrun);
    [by rewrite drop_app_length|simpl; lia|].
  exists zone. unfold msgpack_unpack_next, template_execute. rewrite !length_app.
  destruct (Nat.leb_spec (length pre + (length enc + length post)) (length pre)); [lia|].
  replace (S (length pre + (length enc + length post) - length pre))
    with (n + (S (length enc + length post) - n))%nat by lia.
  rewrite Hrun. unfold header_again. cbn [push].
  by replace (S (length pre + length enc - 1)) with (length pre + length enc)%nat by lia.
Qed.

(** C6: every object that the format can hold, nested at most 32 containers
    deep, is read back by [msgpack_unpack_next] from what [msgpack_pack_object]
    wrote, wherever the encoding stands in the data, and the offset moves to the
    first byte after it. *)
Theorem pack_unpack_roundtrip o pre post :
  wf o -> (depth o <= MSGPACK_EMBED_STACK_SIZE)%nat ->
  exists zone, msgpack_unpack_next [] (pre ++ concat (msgpack_pack_object o) ++ post) (length pre) =
    (Some {| up_ret := MSGPACK_UNPACK_SUCCESS;
             up_off := (length pre + length (concat (msgpack_pack_object o)))%nat;
             up_data := Some o; up_zone := zone |}, []).
Proof. intros Hw Hd. apply reads_unpack; [by apply reads_pack|done]. Qed.

(** ** What the machine makes of arbitrary data *)

(** Bytes that [read] gives are bytes of the data. *)
Lemma read_bytes data p n s : is_bytes data -> read data p n = Some s ->
  is_bytes s /\ length s = n /\ (p + n <= length data)%nat.
Proof.
  unfold read. intros Hb H. destruct (Nat.leb_spec (p + n) (length data)); [|done].
  injection H as <-. split_and!; [by apply Forall_take, Forall_drop| |done].
  rewrite length_take, length_drop. lia.
Qed.

Definition ok (d : nat) (o : obj) : Prop := wf o /\ (depth o <= d)%nat.

(** The open containers: the items they have, the count of those they wait
    for, and the nesting that is left. *)
Definition frame_ok (d : nat) (c : frame) : Prop :=
  1 <= f_count c /\
  match f_ct c with
  | MSGPACK_CT_ARRAY_ITEM =>
      exists l, f_obj c = MSGPACK_OBJECT_ARRAY l /\ Z.of_nat (length l) + f_count c < 2 ^ 32 /\
      Forall (ok d) l
  | ct =>
      exists l, f_obj c = MSGPACK_OBJECT_MAP l /\ Z.of_nat (length l) + f_count c < 2 ^ 32 /\
      Forall (λ kv, ok d kv.1 /\ ok d kv.2) l /\ (ct = MSGPACK_CT_MAP_VALUE -> ok d (f_map_key c))
  end.

Fixpoint stack_ok (stack : list frame) : Prop :=
  match stack with
  | [] => True
  | c :: st =>
      (length stack <= MSGPACK_EMBED_STACK_SIZE)%nat /\
      frame_ok (MSGPACK_EMBED_STACK_SIZE - length stack) c /\ stack_ok st
  end.

(** How many bytes each state can wait for. *)
Definition max_trail (cs : Z) : Z :=
  match cs with
  | 0x0b | 0x0f | 0x13 => 8
  | 0x20 | 0x21 | 0x22 => 2 ^ 32 - 1
  | _ => 4
  end.

Definition phase_ok (ph : phase) : Prop :=
  match ph with Header => True | Trail cs trail => 1 <= trail <= max_trail cs end.

Definition act_ok (a : act) : Prop :=
  match a with
  | Push o => wf o /\ depth o = O
  | PushVariable cs s => is_bytes s /\ size s < 2 ^ 32
  | Again cs trail => phase_ok (Trail cs trail)
  | StartContainer c count => 0 <= count < 2 ^ 32
  | Fails ret => ret = MSGPACK_UNPACK_PARSE_ERROR
  end.

Lemma ok_array d l : Forall (ok d) l -> Z.of_nat (length l) < 2 ^ 32 -> ok (S d) (MSGPACK_OBJECT_ARRAY l).
Proof.
  intros H Hl. split; cbn [wf depth].
  - rewrite foldr_and_Forall. split; [done|]. eapply Forall_impl; [exact H|]. by intros ? [].
  - apply le_n_S. apply foldr_max_le. eapply Forall_impl; [exact H|]. by intros ? [].
Qed.

Lemma ok_map d l : Forall (λ kv, ok d kv.1 /\ ok d kv.2) l -> Z.of_nat (length l) < 2 ^ 32 ->
  ok (S d) (MSGPACK_OBJECT_MAP l).
Proof.
  intros H Hl. split; cbn [wf depth].
  - rewrite foldr_and_Forall. split; [done|]. eapply Forall_impl; [exact H|]. by intros ? [[] []].
  - apply le_n_S. apply foldr_max_le. eapply Forall_impl; [exact H|]. intros ? [[] []]. lia.
Qed.

(** The value that completes a container makes it a well-formed value. *)
Lemma push_ok stack o :
  stack_ok stack -> ok (MSGPACK_EMBED_STACK_SIZE - length stack) o ->
  match push o stack with
  | inl r => ok MSGPACK_EMBED_STACK_SIZE r
  | inr st => stack_ok st
  end.
Proof.
  revert o. induction stack as [|c st IH]; intros o Hs Ho; cbn [push]; [by rewrite Nat.sub_0_r in Ho|].
  destruct Hs as (Hlen & [Hc Hf] & Hst). cbn [length] in *.
  assert (Hd : (MSGPACK_EMBED_STACK_SIZE - length st = S (MSGPACK_EMBED_STACK_SIZE - S (length st)))%nat) by lia.
  destruct (f_ct c) eqn:Hct; destruct Hf as (l & Hl & Hn & Hf); rewrite ?Hl.
  - cbn [template_callback_array_item].
    assert (Hf' : Forall (ok (MSGPACK_EMBED_STACK_SIZE - S (length st))) (l ++ [o]))
      by (apply Forall_app; split; [done|by apply Forall_singleton]).
    destruct (Z.eqb_spec (f_count c - 1) 0).
    + apply IH; [done|]. rewrite Hd. apply ok_array; [done|]. rewrite length_app. simpl. lia.
    + split; [done|]. split; [|done]. split; cbn [f_count f_ct f_obj]; [lia|].
      exists (l ++ [o]). split_and!; [done| |done]. rewrite length_app. simpl. lia.
  - split; [done|]. split; [|done]. split; [done|]. exists l. destruct Hf. split_and!; auto.
  - destruct Hf as [Hf Hk]. cbn [template_callback_map_item].
    assert (Hf' : Forall (λ kv, ok (MSGPACK_EMBED_STACK_SIZE - S (length st)) kv.1 /\
      ok (MSGPACK_EMBED_STACK_SIZE - S (length st)) kv.2) (l ++ [(f_map_key c, o)]))
      by (apply Forall_app; split; [done|by apply Forall_singleton; split; [apply Hk|]]).
    destruct (Z.eqb_spec (f_count c - 1) 0).
    + apply IH; [done|]. rewrite Hd. apply ok_map; [done|]. rewrite length_app. simpl. lia.
    + split; [done|]. split; [|done]. split; cbn [f_count f_ct f_obj]; [lia|].
      exists (l ++ [(f_map_key c, o)]). split_and!; [done| |done|done]. rewrite length_app. simpl. lia.
Qed.

Lemma callback_int_ok d : - 2 ^ 63 <= d < 2 ^ 63 -> act_ok (Push (template_callback_int d)).
Proof. intros. unfold template_callback_int. destruct (Z.leb_spec 0 d); split; cbn [wf]; lia || done. Qed.

Lemma if_zero_ok cs trail :
  cs = MSGPACK_ACS_STR_VALUE \/ cs = MSGPACK_ACS_BIN_VALUE \/ cs = MSGPACK_ACS_EXT_VALUE ->
  act_ok (again_fixed_trail_if_zero cs trail).
Proof.
  intros Hcs. unfold again_fixed_trail_if_zero. assert (Hr := u32_range trail).
  destruct (Z.eqb_spec (u32 trail) 0); [split; [constructor|done]|].
  assert (Hm : max_trail cs = 2 ^ 32 - 1) by (by destruct Hcs as [->|[->| ->]]).
  cbn [act_ok phase_ok]. lia.
Qed.

Lemma header_ok b : 0 <= b < 256 -> act_ok (header b).
Proof.
  intros H. unfold header.
  destruct (Z.leb_spec b 0x7f); [split; cbn [wf]; lia || done|].
  destruct (Z.leb_spec 0xe0 b).
  { apply callback_int_ok. unfold i8. pose proof (Z.mod_pos_bound (b + 2 ^ 7) (2 ^ 8)). lia. }
  destruct (Z.leb_spec 0xc0 b).
  { repeat (case_match; try done); try (apply if_zero_ok; auto); split; done. }
  destruct (Z.leb_spec 0xa0 b); [apply if_zero_ok; auto|].
  assert (0 <= Z.land b 0xf < 16) by (change 0xf with (Z.ones 4); rewrite Z.land_ones by lia;
    apply Z.mod_pos_bound; lia).
  destruct (Z.leb_spec 0x90 b); cbn [act_ok]; lia.
Qed.

Lemma load_le n k : is_bytes n -> size n <= k -> 0 <= load n < 256 ^ k.
Proof.
  intros Hb Hk. pose proof (load_range n Hb). unfold size in *.
  assert (256 ^ Z.of_nat (length n) <= 256 ^ k) by (apply Z.pow_le_mono_r; lia). lia.
Qed.

Lemma trailing_ok cs trail n :
  is_bytes n -> size n = trail -> phase_ok (Trail cs trail) -> act_ok (trailing cs n).
Proof.
  intros Hb Hn [Ht1 Ht2]. assert (H8 := λ H, load_le n 8 Hb H). assert (H4 := λ H, load_le n 4 Hb H).
  change (256 ^ 8) with (2 ^ 64) in H8. change (256 ^ 4) with (2 ^ 32) in H4.
  assert (Hi : forall h, 0 < h <= 2 ^ 63 -> act_ok (Push (template_callback_int ((load n + h) mod (2 * h) - h)))).
  { intros h Hh. apply callback_int_ok. pose proof (Z.mod_pos_bound (load n + h) (2 * h)). lia. }
  unfold trailing. repeat (case_match; subst; try done); cbn [max_trail] in Ht2;
    try (apply if_zero_ok; auto; fail);
    try (split; cbn [wf depth]; [|done]; specialize (H8 ltac:(lia)); lia);
    try (split; cbn [wf depth]; [|done]; specialize (H4 ltac:(lia)); lia);
    try (specialize (H4 ltac:(lia)); cbn [act_ok]; lia).
  all: first [apply (Hi (2 ^ 7)); lia | apply (Hi (2 ^ 15)); lia | apply (Hi (2 ^ 31)); lia
    | apply (Hi (2 ^ 63)); lia | split; [done|lia]].
Qed.

(** What every run gives, from position [p] of [len] bytes. *)
Definition result_ok (len p : nat) (r : result) : Prop :=
  match r with
  | Finish o p' _ _ => (p < p' <= len)%nat /\ ok MSGPACK_EMBED_STACK_SIZE o
  | Failed ret p' _ =>
      (p <= p' < len)%nat /\ (ret = MSGPACK_UNPACK_PARSE_ERROR \/ ret = MSGPACK_UNPACK_NOMEM_ERROR)
  | Out p' ph stack _ _ => (p <= p' <= len)%nat /\ stack_ok stack /\ phase_ok ph
  | Overrun | NoFuel => False
  end.

Lemma result_ok_later len p p' r : (p <= p')%nat -> result_ok len p' r -> result_ok len p r.
Proof. destruct r; simpl; intuition lia. Qed.

Lemma variable_ok cs s d o : is_bytes s -> size s < 2 ^ 32 ->
  template_callback_variable cs s = inr o -> ok d o.
Proof.
  intros Hb Hs. unfold template_callback_variable. repeat case_match; intros; simplify_eq.
  - split; [done|simpl; lia].
  - split; [done|simpl; lia].
  - apply Forall_cons in Hb as [Hb Hb']. unfold size in *. simpl in Hs.
    split; [cbn [wf]|simpl; lia]. split_and!; [..|done|unfold size; lia];
      unfold i8; pose proof (Z.mod_pos_bound (z + 2 ^ 7) (2 ^ 8)); lia.
Qed.

Section Steps.
Context (data : bytes) (k : nat -> phase -> list frame -> bool -> tape -> result) (fuel : nat).
Hypothesis k_ok : forall p ph stack zone t,
  (p <= length data)%nat -> (length data - p < fuel)%nat -> stack_ok stack -> phase_ok ph ->
  result_ok (length data) p (k p ph stack zone t).

Lemma header_again_ok stack o p zone t :
  (p < length data)%nat -> (length data - p <= fuel)%nat -> stack_ok stack ->
  ok (MSGPACK_EMBED_STACK_SIZE - length stack) o ->
  result_ok (length data) p (header_again k stack o p zone t).
Proof using k_ok.
  intros Hp Hf Hs Ho. unfold header_again. assert (H := push_ok stack o Hs Ho).
  destruct (push o stack); [split; [lia|done]|].
  apply (result_ok_later _ _ (S p)); [lia|]. apply k_ok; lia || done.
Qed.

Lemma follow_ok stack zone t a p :
  (p < length data)%nat -> (length data - p <= fuel)%nat -> stack_ok stack -> act_ok a ->
  result_ok (length data) p (follow k stack zone t a p).
Proof using k_ok.
  intros Hp Hf Hs Ha. destruct a as [o|cs s|cs trail|c count|ret]; cbn [follow act_ok] in *.
  - apply header_again_ok; [done..|]. destruct Ha as [Hw Hd]. split; [done|lia].
  - destruct (_ && _); [split; auto|]. destruct (need_zone zone t) as [[] t']; [|split; auto].
    destruct Ha as [Hb Hn]. cbn [negb].
    destruct (template_callback_variable cs s) as [ret|o] eqn:E.
    + split; [lia|]. unfold template_callback_variable in E. repeat case_match; simplify_eq. auto.
    + apply header_again_ok; [done..|]. by eapply variable_ok.
  - apply (result_ok_later _ _ (S p)); [lia|]. apply k_ok; lia || done.
  - destruct (Nat.leb_spec MSGPACK_EMBED_STACK_SIZE (length stack)); [split; auto|].
    destruct (need_zone zone t) as [[] t']; [|split; auto]. cbn [negb].
    destruct (flb_malloc t') as [[] t'']; [|split; auto]. cbn [negb].
    destruct (Z.eqb_spec count 0).
    + apply header_again_ok; [done..|]. split; [by destruct c|]. destruct c; simpl; lia.
    + apply (result_ok_later _ _ (S p)); [lia|]. apply k_ok; [lia|lia| |done].
      cbn [stack_ok length]. split; [lia|]. split; [|done]. split; [simpl; lia|].
      destruct c; exists []; split_and!; try done; simpl; lia.
  - split; [lia|auto].
Qed.
End Steps.

(** Every run ends, stays within the data, moves forward and gives a
    well-formed object or an error. *)
Lemma run_ok data fuel : is_bytes data -> forall p ph stack zone t,
  (p <= length data)%nat -> (length data - p < fuel)%nat -> stack_ok stack -> phase_ok ph ->
  result_ok (length data) p (run fuel data p ph stack zone t).
Proof.
  intros Hb. induction fuel as [|f IH]; intros p ph stack zone t Hp Hf Hs Hph; [lia|].
  cbn [run]. destruct ph as [|cs trail].
  - destruct (Nat.eqb_spec p (length data)); [split_and!; done || lia|].
    destruct (read data p 1) as [s|] eqn:E.
    + destruct (read_bytes data p 1 s Hb E) as (Hbs & Hl & _).
      destruct s as [|b [|]]; simplify_eq/=. apply Forall_cons in Hbs as [Hbb _].
      eapply follow_ok; [exact IH|lia|lia|done|by apply header_ok].
    + unfold read in E. destruct (Nat.leb_spec (p + 1) (length data)); [done|lia].
  - destruct Hph as [Ht1 Ht2].
    destruct (Z.ltb_spec (Z.of_nat (length data) - Z.of_nat p) trail); [split_and!; done || lia|].
    destruct (read data p (Z.to_nat trail)) as [s|] eqn:E.
    + destruct (read_bytes data p _ s Hb E) as (Hbs & Hl & _).
      apply (result_ok_later _ _ (p + Z.to_nat trail - 1)); [lia|].
      eapply follow_ok; [exact IH|lia|lia|done|].
      apply (trailing_ok cs trail); [done|unfold size; lia|done].
    + unfold read in E. destruct (Nat.leb_spec (p + Z.to_nat trail) (length data)); [done|lia].
Qed.

(** What the result of a run means for the caller. *)
Lemma unpack_next_cases t data off : is_bytes data ->
  exists u t', msgpack_unpack_next t data off = (Some u, t') /\
    (off <= up_off u <= max off (length data))%nat /\
    match up_data u with
    | Some o => up_ret u = MSGPACK_UNPACK_SUCCESS /\ (off < up_off u)%nat /\ ok MSGPACK_EMBED_STACK_SIZE o
    | None =>
        up_ret u = MSGPACK_UNPACK_CONTINUE \/ up_ret u = MSGPACK_UNPACK_PARSE_ERROR \/
        up_ret u = MSGPACK_UNPACK_NOMEM_ERROR
    end.
Proof.
  intros Hb. unfold msgpack_unpack_next.
  destruct (Nat.leb_spec (length data) off); [eexists _, _; split; [done|]; simpl; split; [lia|auto]|].
  assert (H1 := run_ok data (S (length data - off)) Hb off Header [] false t ltac:(lia) ltac:(lia) I I).
  unfold template_execute. destruct (run _ _ _ _ _ _ _); try done; cbn [result_ok] in H1;
    eexists _, _; (split; [done|]); cbn [up_off up_data up_ret]; (split; [lia|]).
  - destruct H1. split_and!; done || lia.
  - destruct H1 as [_ []]; auto.
  - auto.
Qed.

Lemma unpack_next_returns t data off : is_bytes data ->
  exists u t', msgpack_unpack_next t data off = (Some u, t') /\
    (off <= up_off u <= max off (length data))%nat /\
    (up_ret u = MSGPACK_UNPACK_SUCCESS -> off < up_off u)%nat.
Proof.
  intros Hb. destruct (unpack_next_cases t data off Hb) as (u & t' & E & Hoff & H). exists u, t'.
  split; [done|]. split; [done|]. intros Hr. rewrite Hr in H.
  destruct (up_data u); [tauto|]. by destruct H as [|[|]].
Qed.

(** C23: on any data, from any offset and whatever allocations fail,
    [msgpack_unpack_next] returns without reading outside of the data, with an
    offset between the old one and the end; it gives an object exactly when it
    reports success, and then the offset has moved and the object is well
    formed: integers in the range of their type, sizes that fit 32 bits, at most
    32 nested containers. *)
Theorem unpack_next_typed t data off :
  is_bytes data ->
  exists u t', msgpack_unpack_next t data off = (Some u, t') /\
    (off <= up_off u <= max off (length data))%nat /\
    match up_data u with
    | Some o =>
        up_ret u = MSGPACK_UNPACK_SUCCESS /\ (off < up_off u)%nat /\ wf o /\
        (depth o <= MSGPACK_EMBED_STACK_SIZE)%nat
    | None =>
        up_ret u = MSGPACK_UNPACK_CONTINUE \/ up_ret u = MSGPACK_UNPACK_PARSE_ERROR \/
        up_ret u = MSGPACK_UNPACK_NOMEM_ERROR
    end.
Proof. apply unpack_next_cases. Qed.

Lemma pack_unpack_roundtrip_witness :
  exists zone, msgpack_unpack_next [] ([0xc0] ++ concat (msgpack_pack_object sample) ++ [0x01]) 1 =
    (Some {| up_ret := MSGPACK_UNPACK_SUCCESS;
             up_off := (1 + length (concat (msgpack_pack_object sample)))%nat;
             up_data := Some sample; up_zone := zone |}, []).
Proof.
  apply (pack_unpack_roundtrip sample [0xc0] [0x01]); [|vm_compute; lia].
  assert (Hs : forall s, forallb (λ b, (0 <=? b) && (b <? 256)) s = true -> is_bytes s).
  { intros s. rewrite forallb_forall. intros H. apply Forall_forall. intros b Hb.
    apply list_elem_of_In, H in Hb. apply andb_true_iff in Hb as [H1 H2].
    apply Z.leb_le in H1. apply Z.ltb_lt in H2. by split. }
  unfold sample. cbn [wf map foldr fst snd]. split_and!; try done; try (by apply Hs); vm_compute; done.
Defined.

Lemma unpack_next_typed_witness :
  exists u t', msgpack_unpack_next [true; false] [0x92; 0x01; 0xa1; 0x41; 0xff] 0 = (Some u, t') /\
    (0 <= up_off u <= max 0 5)%nat /\
    match up_data u with
    | Some o =>
        up_ret u = MSGPACK_UNPACK_SUCCESS /\ (0 < up_off u)%nat /\ wf o /\
        (depth o <= MSGPACK_EMBED_STACK_SIZE)%nat
    | None =>
        up_ret u = MSGPACK_UNPACK_CONTINUE \/ up_ret u = MSGPACK_UNPACK_PARSE_ERROR \/
        up_ret u = MSGPACK_UNPACK_NOMEM_ERROR
    end.
Proof.
  apply (unpack_next_typed [true; false] [0x92; 0x01; 0xa1; 0x41; 0xff] 0).
  repeat (apply Forall_cons_2; [unfold is_byte; lia|]). constructor.
Defined.

End Msgpack.
