(* ===== verification/PackJson.v ===== *)
(** * JSON and MessagePack (src/flb_pack.c)

    Both directions: [flb_pack_json] and [flb_pack_json_state] turn the tokens of
    JSON text into MessagePack; [msgpack2json] and its callers write an object as
    JSON.  Texts and packed values are below 2 GiB, so that the positions and
    sizes, which are of type [int], do not overflow. *)

From S2P Require Import Prelude Utf8 Text Numbers Msgpack Jsmn.
From Stdlib Require Import SpecFloat.

Import Simd Escape Unescape Numbers Jsmn Msgpack.

(** ** From JSON to MessagePack *)

Module Reader.

Definition FLB_ERR_JSON_INVAL : Z := -501.
Definition FLB_ERR_JSON_PART : Z := -502.

(** [struct flb_pack_state]; the filled part of the array of tokens is in the
    parser, and of the buffer for strings only the size matters. *)
Record flb_pack_state := mkst {
  multiple : bool; tokens_count : Z; tokens_size : Z; last_byte : Z;
  parser : jsmn_parser; buf_size : Z; buf_len : Z }.

Definition set_parser (p : jsmn_parser) (s : flb_pack_state) : flb_pack_state :=
  mkst (multiple s) (tokens_count s) (tokens_size s) (last_byte s) p (buf_size s) (buf_len s).
Definition set_tokens_size (n : Z) (s : flb_pack_state) : flb_pack_state :=
  mkst (multiple s) (tokens_count s) n (last_byte s) (parser s) (buf_size s) (buf_len s).
Definition set_tokens_count (n : Z) (s : flb_pack_state) : flb_pack_state :=
  mkst (multiple s) n (tokens_size s) (last_byte s) (parser s) (buf_size s) (buf_len s).
Definition set_multiple (b : bool) (s : flb_pack_state) : flb_pack_state :=
  mkst b (tokens_count s) (tokens_size s) (last_byte s) (parser s) (buf_size s) (buf_len s).
Definition set_last_byte (n : Z) (s : flb_pack_state) : flb_pack_state :=
  mkst (multiple s) (tokens_count s) (tokens_size s) n (parser s) (buf_size s) (buf_len s).
Definition set_buf_size (n : Z) (s : flb_pack_state) : flb_pack_state :=
  mkst (multiple s) (tokens_count s) (tokens_size s) (last_byte s) (parser s) n (buf_len s).

Definition SIZEOF_JSMNTOK : Z := 20.

Definition flb_pack_state_init (t : tape) : option flb_pack_state * tape :=
  let tokens := 256 in
  let size := SIZEOF_JSMNTOK * tokens in
  let '(ok, t) := flb_malloc t in
  if ok then
    let '(ok, t) := flb_malloc t in
    if ok then (Some (mkst false 0 tokens 0 jsmn_init size 0), t) else (None, t)
  else (None, t).

(** [flb_json_tokenise].  The array grows by 256 tokens each time they run out;
    the fuel bounds how often.  [None] is a use of an index that is not one of a
    token, or the end of the fuel. *)
Fixpoint tokenise_loop (fuel : nat) (t : tape) (js : bytes) (s : flb_pack_state) :
    option (Z * flb_pack_state * tape) :=
  match jsmn_parse js (tokens_size s) (parser s) with
  | None => None
  | Some (ret, p) =>
      let s := set_parser p s in
      if ret =? JSMN_ERROR_NOMEM then
        let '(ok, t) := flb_malloc t in
        if ok then
          match fuel with
          | O => None
          | S f => tokenise_loop f t js (set_tokens_size (tokens_size s + 256) s)
          end
        else Some (-1, s, t)
      else if ret =? JSMN_ERROR_INVAL then Some (FLB_ERR_JSON_INVAL, s, t)
      else if ret =? JSMN_ERROR_PART then Some (FLB_ERR_JSON_PART, s, t)
      else Some (0, set_tokens_count (toknext p) s, t)
  end.

Definition flb_json_tokenise (t : tape) (js : bytes) (s : flb_pack_state) :
    option (Z * flb_pack_state * tape) :=
  tokenise_loop (S (length js)) t js s.

(** Whether the token is written as a float; the character after it is looked at
    too. *)
Fixpoint is_float (buf : bytes) (len : nat) : bool :=
  match len with
  | O => cget buf 0 =? ch "."
  | S n =>
      (((cget buf 0 =? ch "e") || (cget buf 0 =? ch "E")) &&
       ((cget buf 1 =? ch "-") || (cget buf 1 =? ch "+"))) ||
      (cget buf 0 =? ch ".") || is_float (tail buf) n
  end.

(** What [pack_numeric_token] writes; [p] is the text from the token on. *)
Definition numeric_bytes (p : bytes) (flen : nat) : bytes :=
  if is_float p flen then msgpack_pack_double (strtod p)
  else if cget p 0 =? ch "-" then
    let '(val, range) := strtoll p in
    if range then msgpack_pack_double (strtod p) else msgpack_pack_real_int64 val
  else
    let '(u_val, range) := strtoull p in
    if range then msgpack_pack_double (strtod p)
    else if u_val <=? 2 ^ 63 - 1 then msgpack_pack_real_int64 u_val
    else msgpack_pack_real_uint64 u_val.

(** A call of the packer: the result of the write is not looked at. *)
Definition pack_write (t : tape) (sb : msgpack_sbuffer) (buf : bytes) : msgpack_sbuffer * tape :=
  let '(_, sb, t) := msgpack_sbuffer_write t sb buf in (sb, t).

Definition pack_numeric_token (t : tape) (sb : msgpack_sbuffer) (p : bytes) (flen : nat) :
    msgpack_sbuffer * tape :=
  pack_write t sb (numeric_bytes p flen).

(** The temporary buffer grows to the string and a terminator; the length of the
    text that was unescaped, or -1. *)
Definition pack_string_token (t : tape) (s : flb_pack_state) (sb : msgpack_sbuffer) (text : bytes) :
    Z * flb_pack_state * msgpack_sbuffer * tape :=
  let len := size text in
  let '(ok, s, t) :=
    if buf_size s <? len + 1 then
      let '(ok, t) := flb_malloc t in (ok, if ok then set_buf_size (len + 1) s else s, t)
    else (true, s, t) in
  if ok then
    let out := (flb_unescape_string_utf8 text).1 in
    let '(sb, t) := pack_write t sb (msgpack_pack_str (size out)) in
    let '(sb, t) := pack_write t sb out in
    (size out, s, sb, t)
  else (-1, s, sb, t).

(** The text of a token. *)
Definition tok_bytes (js : bytes) (tok : jsmntok_t) : bytes :=
  take (Z.to_nat (end_ tok - start tok)) (drop (Z.to_nat (start tok)) js).

(** The state, the packer's buffer, the end of the last root and the number of
    roots. *)
Record converted := mkconv { cv_state : flb_pack_state; cv_buf : msgpack_sbuffer; cv_last : Z; cv_records : Z }.

(** One token of the loop of [tokens_to_msgpack]: whether the loop goes on. *)
Definition pack_token (t : tape) (js : bytes) (c : converted) (tok : jsmntok_t) : bool * converted * tape :=
  let put (x : msgpack_sbuffer * tape) := (true, mkconv (cv_state c) x.1 (cv_last c) (cv_records c), x.2) in
  let p := drop (Z.to_nat (start tok)) js in
  match type tok with
  | JSMN_OBJECT => put (pack_write t (cv_buf c) (msgpack_pack_map (Jsmn.size tok)))
  | JSMN_ARRAY => put (pack_write t (cv_buf c) (msgpack_pack_array (Jsmn.size tok)))
  | JSMN_STRING =>
      let '(ret, s, sb, t) := pack_string_token t (cv_state c) (cv_buf c) (tok_bytes js tok) in
      (0 <=? ret, mkconv s sb (cv_last c) (cv_records c), t)
  | JSMN_PRIMITIVE =>
      if cget p 0 =? ch "f" then put (pack_write t (cv_buf c) msgpack_pack_false)
      else if cget p 0 =? ch "t" then put (pack_write t (cv_buf c) msgpack_pack_true)
      else if cget p 0 =? ch "n" then put (pack_write t (cv_buf c) msgpack_pack_nil)
      else put (pack_numeric_token t (cv_buf c) p (Z.to_nat (end_ tok - start tok)))
  | JSMN_UNDEFINED => (false, c, t)
  end.

Fixpoint tokens_loop (t : tape) (js : bytes) (c : converted) (toks : list jsmntok_t) :
    bool * converted * tape :=
  match toks with
  | [] => (true, c, t)
  | tok :: toks =>
      if (start tok <? 0) || (end_ tok <=? 0) then (false, c, t)
      else
        let c := if parent tok =? -1 then mkconv (cv_state c) (cv_buf c) (end_ tok) (cv_records c + 1) else c in
        match pack_token t js c tok with
        | (true, c, t) => tokens_loop t js c toks
        | x => x
        end
  end.

(** Whether there is a buffer: that of a packer that nothing was written to is
    NULL. *)
Definition tokens_to_msgpack (t : tape) (js : bytes) (s : flb_pack_state) (last : Z) : bool * converted * tape :=
  let c := mkconv s msgpack_sbuffer_init last 0 in
  if tokens_count s =? 0 then (false, c, t)
  else
    let '(ok, c, t) := tokens_loop t js c (take (Z.to_nat (tokens_count s)) (tokens (parser s))) in
    (ok && negb (sb_alloc (cv_buf c) =? 0), c, t).

Record packed := mkpacked { pk_data : bytes; pk_root_type : jsmntype_t; pk_records : Z; pk_consumed : Z }.

(** [pack_json_to_msgpack], for [flb_pack_json] and [flb_pack_json_recs]: the
    outer option is that of the tokeniser.  [last] has no value before the first
    root token, and every list of tokens starts with one. *)
Definition pack_json_to_msgpack (t : tape) (js : bytes) : option (option packed) :=
  match flb_pack_state_init t with
  | (None, _) => Some None
  | (Some s, t) =>
      match flb_json_tokenise t js s with
      | None => None
      | Some (ret, s, t) =>
          if negb (ret =? 0) then Some None
          else if tokens_count s =? 0 then Some None
          else
            match tokens_to_msgpack t js s 0 with
            | (false, _, _) => Some None
            | (true, c, _) =>
                Some (Some (mkpacked (content (cv_buf c)) (from_option type JSMN_UNDEFINED (head (tokens (parser s))))
                              (cv_records c) (cv_last c)))
            end
      end
  end.

Definition flb_pack_json := pack_json_to_msgpack.
Definition flb_pack_json_recs := pack_json_to_msgpack.

(** The search of [flb_pack_json_state], from token [i] down to token 1, for the
    last root. *)
Fixpoint last_root (l : list jsmntok_t) (i : nat) : option nat :=
  match i with
  | O => None
  | S i' =>
      match l !! i with
      | Some t => if (parent t =? -1) && negb (end_ t =? 0) then Some i else last_root l i'
      | None => None
      end
  end.

(** [flb_pack_json_state]: the value returned, the data when it is 0, and the
    state. *)
Definition flb_pack_json_state (t : tape) (js : bytes) (s : flb_pack_state) :
    option (Z * option bytes * flb_pack_state * tape) :=
  match flb_json_tokenise t js s with
  | None => None
  | Some (ret, s, t) =>
      let s := set_multiple true s in
      let convert s :=
        if tokens_count s =? 0 then Some (FLB_ERR_JSON_INVAL, None, set_last_byte 0 s, t)
        else
          match tokens_to_msgpack t js s 0 with
          | (false, c, t) => Some (-1, None, cv_state c, t)
          | (true, c, t) => Some (0, Some (content (cv_buf c)), set_last_byte (cv_last c) (cv_state c), t)
          end in
      if ret =? FLB_ERR_JSON_PART then
        match last_root (tokens (parser s)) (pred (length (tokens (parser s)))) with
        | None => Some (ret, None, s, t)
        | Some delim => convert (set_tokens_count (tokens_count s + Z.of_nat delim) s)
        end
      else if negb (ret =? 0) then Some (ret, None, s, t)
      else convert s
  end.

Definition quoted (s : String.string) : bytes := map (λ c, if c =? 39 then 34 else c) (str s).
Arguments quoted s%_string_scope.

Example json_object_packs :
  flb_pack_json [] (quoted "{'a': [1, true, -70000], 'b':-2.5}") =
  Some (Some (mkpacked ([0x82; 0xa1; 97; 0x93; 1; 0xc3; 0xd2; 0xff; 0xfe; 0xee; 0x90; 0xa1; 98; 0xcb; 0xc0; 4] ++ replicate 6 0)
                JSMN_OBJECT 1 34)).
Proof. vm_compute. reflexivity. Qed.

(** *** The tokens of a text *)

(** What [flb_json_tokenise] makes of the result of a parse. *)
Definition tokenise_code (r : Z) : Z :=
  if r =? JSMN_ERROR_INVAL then FLB_ERR_JSON_INVAL
  else if r =? JSMN_ERROR_PART then FLB_ERR_JSON_PART else 0.

Lemma tokenise_loop_all fuel js : forall s, parser_ok js (parser s) ->
  Z.of_nat (length js) < tokens_size s + 256 * Z.of_nat fuel ->
  exists r q s', parse_all js (parser s) = Some (r, q) /\
    tokenise_loop fuel [] js s = Some (tokenise_code r, s', []) /\ parser s' = q /\
    tokens_count s' = (if tokenise_code r =? 0 then toknext q else tokens_count s) /\
    buf_size s' = buf_size s.
Proof.
  induction fuel as [|fuel IH]; intros s Hp Hf; cbn [tokenise_loop];
    pose proof (parse_all_eq js (tokens_size s) (parser s) Hp) as H;
    destruct (jsmn_parse js (tokens_size s) (parser s)) as [[r q]|]; [|done| |done];
    (destruct (Z.eqb_spec r JSMN_ERROR_NOMEM) as [->|Hne]; [destruct H as (Hm & Hq & H)|]).
  - exfalso. destruct Hq as (Hl & _). unfold toknext in Hm. lia.
  - rewrite H. exists r, q. unfold tokenise_code.
    destruct (r =? JSMN_ERROR_INVAL); [|destruct (r =? JSMN_ERROR_PART)]; eexists; by split_and!.
  - cbn [flb_malloc]. destruct (IH (set_tokens_size (tokens_size (set_parser q s) + 256) (set_parser q s)))
      as (r & q' & s' & H1 & H2 & H3 & H4 & H5); [done|simpl; lia|].
    simpl in H1. rewrite H. eexists _, _, _. split; [exact H1|]. by split_and!.
  - rewrite H. exists r, q. unfold tokenise_code.
    destruct (r =? JSMN_ERROR_INVAL); [|destruct (r =? JSMN_ERROR_PART)]; eexists; by split_and!.
Qed.

(** The array of tokens grows until they are enough, and the result does not
    depend on how often: with memory, [flb_json_tokenise] gives the tokens that
    the parser gives when there is one for every character. *)
Theorem json_tokenise_complete js s : parser_ok js (parser s) -> 0 <= tokens_size s ->
  exists r q s', parse_all js (parser s) = Some (r, q) /\
    flb_json_tokenise [] js s = Some (tokenise_code r, s', []) /\ parser s' = q /\
    (tokenise_code r = 0 -> tokens_count s' = toknext q /\ 0 <= r).
Proof.
  intros Hp Hs. destruct (tokenise_loop_all (S (length js)) js s Hp) as (r & q & s' & H1 & H2 & H3 & H4 & _); [lia|].
  exists r, q, s'. split_and!; [done|done|done|]. intros H0. rewrite H4, H0. split; [done|].
  destruct (parse_enough js (Z.of_nat (S (length js))) (parser s) Hp ltac:(lia)) as (r' & q' & E & Hr).
  destruct (jsmn_parse_spec js (Z.of_nat (S (length js))) (parser s) Hp) as (r2 & q2 & E2 & He & _).
  unfold parse_all in H1. rewrite H1 in E, E2. injection E as <- <-. injection E2 as <- <-.
  destruct He as [(-> & _)|(_ & _ & [[? _]|[->|[-> _]]])]; [done|done|done|unfold toknext; lia].
Qed.

Lemma json_tokenise_complete_witness :
  let s := mkst false 0 1 0 jsmn_init 5120 0 in
  exists r q s', parse_all (str "[1,[2],3]") (parser s) = Some (r, q) /\
    flb_json_tokenise [] (str "[1,[2],3]") s = Some (tokenise_code r, s', []) /\ parser s' = q /\
    (tokenise_code r = 0 -> tokens_count s' = toknext q /\ 0 <= r).
Proof.
  apply (json_tokenise_complete (str "[1,[2],3]") (mkst false 0 1 0 jsmn_init 5120 0)); [apply parser_ok_init|done].
Defined.

(** A key without a value is packed as a map that is cut short, and a write that
    finds no memory is left out of the result. *)
Example packed_cut_short :
  flb_pack_json [] (quoted "{'a'}") = Some (Some (mkpacked [0x81; 0xa1; 97] JSMN_OBJECT 1 5)) /\
  flb_pack_json [true; true; false] (quoted "{'a':1}") = Some (Some (mkpacked [0xa1; 97; 1] JSMN_OBJECT 1 7)).
Proof. vm_compute. done. Qed.

End Reader.

(** ** From MessagePack to JSON *)

Module Writer.

(** The strings and binaries of an object, in the order they are packed. *)
Fixpoint strings (o : obj) : list bytes :=
  match o with
  | MSGPACK_OBJECT_STR s | MSGPACK_OBJECT_BIN s => [s]
  | MSGPACK_OBJECT_ARRAY l => concat (map strings l)
  | MSGPACK_OBJECT_MAP l => concat (map (λ kv, strings kv.1 ++ strings kv.2) l)
  | _ => []
  end.

Section Write.
(** The instruction set of the writer of strings, the memory behind the n-th
    string of the object, and the options. *)
Variable a : arch.
Variable after : nat -> bytes.
Variable escape_unicode : bool.
Variable convert_nan_to_null : bool.
(** The size given to [msgpack2json]. *)
Variable left : Z.

(** The text so far, after a write that fits or one that does not; or a load past
    the memory of a string. *)
Inductive jres := Written (out : bytes) | Full (out : bytes) | Bad.

Definition and_then (r : jres) (k : bytes -> jres) : jres :=
  match r with Written out => k out | _ => r end.

Definition try_to_write (out s : bytes) : jres :=
  if left <=? size out + size s then Full out else Written (out ++ s).

(** [n] is the number of the string. *)
Definition try_to_write_str (n : nat) (out s : bytes) : jres :=
  match flb_utils_write_str a (size out) left s (after n) escape_unicode with
  | Wrote t => Written (out ++ t)
  | NoSpace t => Full (out ++ t)
  | BadRead | Stuck => Bad
  end.

(** A quote, the bytes if there are any, a quote. *)
Definition write_quoted (n : nat) (out s : bytes) : jres :=
  and_then (try_to_write out [34]) (λ out,
  and_then (if size s =? 0 then Written out else try_to_write_str n out s) (λ out,
  try_to_write out [34])).

(** [key_exists_in_map], for the entries after the key. *)
Definition key_exists_in_map (key : obj) (rest : list (obj * obj)) : bool :=
  match key with
  | MSGPACK_OBJECT_STR k =>
      existsb (λ kv, match kv.1 with MSGPACK_OBJECT_STR p => bool_decide (p = k) | _ => false end) rest
  | _ => false
  end.

(** A float: integral values with one decimal, the others with sixteen digits. *)
Definition float_text (bits : Z) : bytes :=
  let f := f64_of_bits bits in
  if SFeqb f (f64_of_int (f64_to_i64 f)) then fmt_f1_integral bits
  else if convert_nan_to_null && (match f with S754_nan => true | _ => false end) then str "null"
  else fmt_g16_bits bits.

(** A byte of an extension, from a signed character: a byte above 127 is printed
    with the digits of a negative integer. *)
Definition ext_byte (b : Z) : bytes :=
  let hex2 := [hex_char (b / 16 mod 16); hex_char (b mod 16)] in
  [92; ch "x"] ++ (if b <? 128 then hex2 else str "ffffff" ++ hex2).

Fixpoint write_ext (out : bytes) (s : bytes) : jres :=
  match s with
  | [] => Written out
  | b :: s => and_then (try_to_write out (ext_byte b)) (λ out, write_ext out s)
  end.

Section Items.
Variable item : nat -> bytes -> obj -> jres.

Fixpoint write_items (first : bool) (n : nat) (out : bytes) (l : list obj) : jres :=
  match l with
  | [] => Written out
  | o :: l =>
      and_then (if first then Written out else try_to_write out [ch ","]) (λ out,
      and_then (item n out o) (λ out, write_items false (n + length (strings o)) out l))
  end.

(** A key that occurs again later is left out. *)
Fixpoint write_entries (first : bool) (n : nat) (out : bytes) (l : list (obj * obj)) : jres :=
  match l with
  | [] => Written out
  | (k, v) :: l =>
      let n_v := (n + length (strings k))%nat in
      let n_next := (n_v + length (strings v))%nat in
      if key_exists_in_map k l then write_entries first n_next out l
      else
        and_then (if first then Written out else try_to_write out [ch ","]) (λ out,
        and_then (item n out k) (λ out,
        and_then (try_to_write out [ch ":"]) (λ out,
        and_then (item n_v out v) (λ out, write_entries false n_next out l))))
  end.
End Items.

(** [n] is the number of strings before the object. *)
Fixpoint msgpack2json (n : nat) (out : bytes) (o : obj) {struct o} : jres :=
  match o with
  | MSGPACK_OBJECT_NIL => try_to_write out (str "null")
  | MSGPACK_OBJECT_BOOLEAN b => try_to_write out (if b then str "true" else str "false")
  | MSGPACK_OBJECT_POSITIVE_INTEGER z => try_to_write out (dec z)
  | MSGPACK_OBJECT_NEGATIVE_INTEGER z => try_to_write out (fmt_int z)
  | MSGPACK_OBJECT_FLOAT32 b => try_to_write out (float_text (f64_of_f32 b))
  | MSGPACK_OBJECT_FLOAT64 b => try_to_write out (float_text b)
  | MSGPACK_OBJECT_STR s | MSGPACK_OBJECT_BIN s => write_quoted n out s
  | MSGPACK_OBJECT_EXT _ s =>
      and_then (try_to_write out [34]) (λ out, and_then (write_ext out s) (λ out, try_to_write out [34]))
  | MSGPACK_OBJECT_ARRAY l =>
      and_then (try_to_write out [ch "["]) (λ out,
      and_then (write_items msgpack2json true n out l) (λ out, try_to_write out [ch "]"]))
  | MSGPACK_OBJECT_MAP l =>
      and_then (try_to_write out [ch "{"]) (λ out,
      and_then (write_entries msgpack2json true n out l) (λ out, try_to_write out [ch "}"]))
  end.

End Write.

(** [flb_msgpack_to_json]: the value returned and the text in the buffer, before
    its terminator. *)
Definition flb_msgpack_to_json (a : arch) (after : nat -> bytes) (esc nan : bool) (json_size : Z) (o : obj) :
    option (Z * bytes) :=
  match msgpack2json a after esc nan (u64 (json_size - 1)) 0 [] o with
  | Written out => Some (size out, out)
  | Full out => Some (0, out)
  | Bad => None
  end.

(** The loops that grow the buffer until the text fits; the fuel bounds them. *)
Inductive grown := Text (out : bytes) | NoMemory | BadLoad | NoFuel.

Fixpoint raw_grow (fuel : nat) (t : tape) (a : arch) (after : nat -> bytes) (esc nan : bool)
    (out_size realloc_size : Z) (o : obj) : grown :=
  match flb_msgpack_to_json a after esc nan out_size o with
  | None => BadLoad
  | Some (ret, out) =>
      if ret <=? 0 then
        let realloc_size := u64 (realloc_size * 2) in
        let '(ok, t) := flb_malloc t in
        if ok then
          match fuel with
          | O => NoFuel
          | S f => raw_grow f t a after esc nan (u64 (out_size + realloc_size)) realloc_size o
          end
        else NoMemory
      else Text out
  end.

(** The strings of an unpacked object are not copied, they lie in the buffer.
    Where they end: the machine of [msgpack_unpack_next] run over the buffer,
    with the positions behind its strings and binaries. *)
Definition ends_follow (k : nat -> phase -> list nat) (x : act) (p : nat) : list nat :=
  match x with
  | Push _ | StartContainer _ _ => k (S p) Header
  | PushVariable cs _ => if cs =? MSGPACK_ACS_EXT_VALUE then k (S p) Header else S p :: k (S p) Header
  | Again cs trail => k (S p) (Trail cs trail)
  | Fails _ => []
  end.

Fixpoint string_ends (fuel : nat) (data : bytes) (p : nat) (ph : phase) : list nat :=
  match fuel with
  | O => []
  | S f =>
      match ph with
      | Header => match read data p 1 with
                  | Some [b] => ends_follow (string_ends f data) (header b) p
                  | _ => []
                  end
      | Trail cs trail =>
          match read data p (Z.to_nat trail) with
          | Some n => ends_follow (string_ends f data) (trailing cs n) (p + Z.to_nat trail - 1)
          | None => []
          end
      end
  end.

(** The memory behind the n-th string: the rest of the buffer, and what is behind
    the buffer. *)
Definition behind_string (in_buf behind : bytes) (n : nat) : bytes :=
  match string_ends (S (length in_buf)) in_buf 0 Header !! n with
  | Some p => drop p in_buf ++ behind
  | None => behind
  end.

(** [flb_msgpack_raw_to_json_sds], with the factors 2.0 and 0.10 of the build;
    [behind] is the memory behind [in_buf]; the inner option is a result of NULL. *)
Definition flb_msgpack_raw_to_json_sds (fuel : nat) (t : tape) (a : arch) (esc nan : bool)
    (in_buf behind : bytes) : option grown :=
  let out_size := 2 * size in_buf in
  let realloc_size := Z.max (size in_buf / 10) 256 in
  let '(ok, t) := flb_malloc t in
  if ok then
    match msgpack_unpack_next t in_buf 0 with
    | (Some u, t) =>
        match up_data u with
        | Some root =>
            if up_ret u =? MSGPACK_UNPACK_SUCCESS
            then Some (raw_grow fuel t a (behind_string in_buf behind) esc nan out_size realloc_size root)
            else None
        | None => None
        end
    | (None, _) => None
    end
  else None.

Fixpoint str_grow (fuel : nat) (t : tape) (a : arch) (after : nat -> bytes) (esc nan : bool)
    (sz : Z) (o : obj) : grown :=
  match flb_msgpack_to_json a after esc nan sz o with
  | None => BadLoad
  | Some (ret, out) =>
      if ret <=? 0 then
        let sz := u64 (sz * 2) in
        let '(ok, t) := flb_malloc t in
        if ok then match fuel with O => NoFuel | S f => str_grow f t a after esc nan sz o end
        else NoMemory
      else Text out
  end.

Definition flb_msgpack_to_json_str (fuel : nat) (t : tape) (a : arch) (after : nat -> bytes) (esc nan : bool)
    (sz : Z) (o : obj) : grown :=
  let sz := if sz <=? 0 then 128 else sz in
  let '(ok, t) := flb_malloc t in
  if ok then str_grow fuel t a after esc nan sz o else NoMemory.

Definition sample_json : obj :=
  MSGPACK_OBJECT_MAP
    [(MSGPACK_OBJECT_STR (str "k"), MSGPACK_OBJECT_NIL);
     (MSGPACK_OBJECT_STR (str "n"), MSGPACK_OBJECT_ARRAY [MSGPACK_OBJECT_NEGATIVE_INTEGER (-5); MSGPACK_OBJECT_FLOAT64 0x4008000000000000]);
     (MSGPACK_OBJECT_STR (str "k"), MSGPACK_OBJECT_BOOLEAN true)].

(** Where strings end in a packed buffer, with and without the short forms. *)
Example string_ends_sample :
  string_ends 100 ([0x82; 0xa1; 107; 0xd9; 2; 104; 105; 0xc4; 1; 7; 0x92; 0xcd; 0xa1; 0xa2; 0xa0; 0xd4; 1; 2]) 0 Header
    = [3; 7; 10; 15]%nat /\
  behind_string ([0x81; 0xa1; 107; 97]) [0] 0 = [97; 0].
Proof. vm_compute. done. Qed.

Example sample_json_text :
  flb_msgpack_to_json SSE2 (λ _, replicate 16 0) false false 100 sample_json =
  Some (23, map (λ c, if c =? 39 then 34 else c) (str "{'n':[-5,3.0],'k':true}")) /\
  flb_msgpack_to_json SSE2 (λ _, replicate 16 0) false false 8 sample_json =
  Some (0, map (λ c, if c =? 39 then 34 else c) (str "{'n':[")).
Proof. vm_compute. done. Qed.

(** Formats and dates by name. *)
Definition flb_pack_to_json_format_type (s : bytes) : Z :=
  if strcasecmp_is s (str "msgpack") then 0
  else if strcasecmp_is s (str "json") then 1
  else if strcasecmp_is s (str "json_stream") then 2
  else if strcasecmp_is s (str "json_lines") then 3
  else -1.

Definition flb_pack_to_json_date_type (s : bytes) : Z :=
  if strcasecmp_is s (str "double") then 0
  else if strcasecmp_is s (str "java_sql_timestamp") then 3
  else if strcasecmp_is s (str "iso8601") then 1
  else if strcasecmp_is s (str "epoch") then 2
  else if strcasecmp_is s (str "epoch_ms") || strcasecmp_is s (str "epoch_millis") ||
          strcasecmp_is s (str "epoch_milliseconds") then 4
  else -1.

(** [flb_msgpack_expand_map]: the entries of a packed map and those given. *)
Definition flb_msgpack_expand_map (t : tape) (map_data : bytes) (kv_arr : list (obj * obj)) : option bytes * tape :=
  match msgpack_unpack_next t map_data 0 with
  | (Some u, t) =>
      match up_data u with
      | Some (MSGPACK_OBJECT_MAP l) =>
          if up_ret u =? MSGPACK_UNPACK_SUCCESS then
            let step (x : msgpack_sbuffer * tape) kv :=
              let '(_, sb, t) := write_all x.2 x.1 (msgpack_pack_object kv.1) in
              let '(_, sb, t) := write_all t sb (msgpack_pack_object kv.2) in (sb, t) in
            let '(_, sb, t) := msgpack_sbuffer_write t msgpack_sbuffer_init
              (msgpack_pack_map (Z.of_nat (length kv_arr + length l))) in
            let '(sb, t) := fold_left step (l ++ kv_arr) (sb, t) in
            let '(ok, t) := flb_malloc t in
            (if ok then Some (content sb) else None, t)
          else (None, t)
      | _ => (None, t)
      end
  | (None, t) => (None, t)
  end.

(** *** The text of an object

    Strings have a text for each way the writer may copy or escape their
    characters; everything else has one. *)

Definition seq (P Q : bytes -> Prop) (t : bytes) : Prop := exists t1 t2, t = t1 ++ t2 /\ P t1 /\ Q t2.

Section Text.
Variable esc nan : bool.

Section Items.
Variable P : obj -> bytes -> Prop.

Definition comma_if (first : bool) : bytes := if first then [] else [ch ","].

Fixpoint items_text (first : bool) (l : list obj) : bytes -> Prop :=
  match l with
  | [] => eq []
  | o :: l => seq (eq (comma_if first)) (seq (P o) (items_text false l))
  end.

Fixpoint entries_text (first : bool) (l : list (obj * obj)) : bytes -> Prop :=
  match l with
  | [] => eq []
  | (k, v) :: l =>
      if key_exists_in_map k l then entries_text first l
      else seq (eq (comma_if first)) (seq (P k) (seq (eq [ch ":"]) (seq (P v) (entries_text false l))))
  end.
End Items.

Fixpoint json_text (o : obj) : bytes -> Prop :=
  match o with
  | MSGPACK_OBJECT_NIL => eq (str "null")
  | MSGPACK_OBJECT_BOOLEAN b => eq (if b then str "true" else str "false")
  | MSGPACK_OBJECT_POSITIVE_INTEGER n => eq (dec n)
  | MSGPACK_OBJECT_NEGATIVE_INTEGER n => eq (fmt_int n)
  | MSGPACK_OBJECT_FLOAT32 b => eq (float_text nan (f64_of_f32 b))
  | MSGPACK_OBJECT_FLOAT64 b => eq (float_text nan b)
  | MSGPACK_OBJECT_STR s | MSGPACK_OBJECT_BIN s =>
      seq (eq [34]) (seq (λ t, esc_to (one_char esc) s t []) (eq [34]))
  | MSGPACK_OBJECT_EXT _ s => seq (eq [34]) (seq (eq (concat (map ext_byte s))) (eq [34]))
  | MSGPACK_OBJECT_ARRAY l => seq (eq [ch "["]) (seq (items_text json_text true l) (eq [ch "]"]))
  | MSGPACK_OBJECT_MAP l => seq (eq [ch "{"]) (seq (entries_text json_text true l) (eq [ch "}"]))
  end.

(** No text of the object is longer. *)
Fixpoint text_bound (o : obj) : Z :=
  match o with
  | MSGPACK_OBJECT_NIL | MSGPACK_OBJECT_BOOLEAN _ => 5
  | MSGPACK_OBJECT_POSITIVE_INTEGER n => size (dec n)
  | MSGPACK_OBJECT_NEGATIVE_INTEGER n => size (fmt_int n)
  | MSGPACK_OBJECT_FLOAT32 b => size (float_text nan (f64_of_f32 b))
  | MSGPACK_OBJECT_FLOAT64 b => size (float_text nan b)
  | MSGPACK_OBJECT_STR s | MSGPACK_OBJECT_BIN s => 6 * size s + 2
  | MSGPACK_OBJECT_EXT _ s => size (concat (map ext_byte s)) + 2
  | MSGPACK_OBJECT_ARRAY l => foldr (λ o n, text_bound o + 1 + n) 2 l
  | MSGPACK_OBJECT_MAP l => foldr (λ kv n, text_bound kv.1 + text_bound kv.2 + 2 + n) 2 l
  end.
End Text.

Lemma size_nonneg (s : bytes) : 0 <= size s.
Proof. unfold size. lia. Qed.

Lemma size_app (s t : bytes) : size (s ++ t) = size s + size t.
Proof. unfold size. rewrite length_app. lia. Qed.

Lemma text_bound_nonneg nan o : 0 <= text_bound nan o.
Proof.
  revert o. apply obj_ind'; [intros o|intros l IH|intros l IH].
  - destruct o; cbn [text_bound]; try done; unfold size; lia.
  - induction IH as [|o l Ho _ IHl]; simpl in *; lia.
  - induction IH as [|kv l [Hk Hv] _ IHl]; simpl in *; lia.
Qed.

Lemma foldr_plus {A} (f : A -> Z) (l : list A) n : foldr (λ x m, f x + m) n l = foldr (λ x m, f x + m) 0 l + n.
Proof. induction l as [|x l IH]; simpl; lia. Qed.

Lemma foldr_nonneg {A} (f : A -> Z) (l : list A) : (forall x, 0 <= f x) -> 0 <= foldr (λ x m, f x + m) 0 l.
Proof. intros Hf. induction l as [|x l IH]; simpl; [lia|]. specialize (Hf x). lia. Qed.

Lemma item_bound_nonneg nan o : 0 <= text_bound nan o + 1.
Proof. pose proof (text_bound_nonneg nan o). lia. Qed.

Lemma entry_bound_nonneg nan (kv : obj * obj) : 0 <= text_bound nan kv.1 + text_bound nan kv.2 + 2.
Proof. pose proof (text_bound_nonneg nan kv.1). pose proof (text_bound_nonneg nan kv.2). lia. Qed.

(** *** What the writer writes *)

(** The values of an object whose strings are bytes. *)
Fixpoint byte_strings (o : obj) : Prop :=
  match o with
  | MSGPACK_OBJECT_STR s | MSGPACK_OBJECT_BIN s | MSGPACK_OBJECT_EXT _ s => is_bytes s
  | MSGPACK_OBJECT_ARRAY l => foldr and True (map byte_strings l)
  | MSGPACK_OBJECT_MAP l => foldr and True (map (λ kv, byte_strings kv.1 /\ byte_strings kv.2) l)
  | _ => True
  end.

(** The memory behind the strings of an object, the first of which has the number
    [n], lets them be written. *)
Definition safe_at (a : arch) (after : nat -> bytes) (n : nat) (l : list bytes) : Prop :=
  forall i s, l !! i = Some s -> block_safe a s (after (n + i)%nat).

Lemma safe_at_app a after n l1 l2 :
  safe_at a after n (l1 ++ l2) -> safe_at a after n l1 /\ safe_at a after (n + length l1) l2.
Proof.
  intros H. split; intros i s Hi.
  - apply H. by apply lookup_app_l_Some.
  - rewrite <- Nat.add_assoc. apply H. rewrite lookup_app_r by lia.
    by replace (length l1 + i - length l1)%nat with i by lia.
Qed.

Definition strings_safe (a : arch) (after : nat -> bytes) (o : obj) : Prop :=
  (forall n, is_bytes (after n)) /\ safe_at a after 0 (strings o).

Lemma behind_string_bytes in_buf behind n :
  is_bytes in_buf -> is_bytes behind -> is_bytes (behind_string in_buf behind n).
Proof.
  intros Hi Hb. unfold behind_string. destruct (_ !! n) as [p|]; [|done].
  apply Forall_app_2; [by apply Forall_drop|done].
Qed.

Section WriteFacts.
Context (a : arch) (after : nat -> bytes) (esc nan : bool) (left : Z).
Context (Hafter : forall n, is_bytes (after n)) (Hleft : 0 <= left < 2 ^ 64).

(** A write after [out], of a text of at most [n] bytes. *)
Definition wrote (P : bytes -> Prop) (n : Z) (out : bytes) (r : jres) : Prop :=
  match r with
  | Written out' => exists t, out' = out ++ t /\ P t /\ size t <= n /\ size out' <= left
  | Full out' => size out' <= left /\ left <= size out + n
  | Bad => False
  end.

Lemma wrote_then P Q n1 n2 out r k : wrote P n1 out r -> 0 <= n2 ->
  (forall t, P t -> size (out ++ t) <= left -> wrote Q n2 (out ++ t) (k (out ++ t))) ->
  wrote (seq P Q) (n1 + n2) out (and_then r k).
Proof.
  intros Hr Hn Hk. destruct r as [out'|out'|]; [|simpl in *; lia|done].
  destruct Hr as (t & -> & HP & Ht & Hl). specialize (Hk t HP Hl). cbn [and_then].
  destruct (k (out ++ t)) as [out'|out'|]; [|simpl in *; rewrite size_app in *; lia|done].
  destruct Hk as (t' & -> & HQ & Ht' & Hl'). exists (t ++ t'). rewrite <- app_assoc in *.
  split_and!; [done|by exists t, t'|rewrite size_app; lia|done].
Qed.

Lemma wrote_weaken (P Q : bytes -> Prop) n n' out r : wrote P n out r -> (forall t, P t -> Q t) -> n <= n' ->
  wrote Q n' out r.
Proof.
  intros H HQ Hn. destruct r as [out'|out'|]; simpl in *; [|lia|done].
  destruct H as (t & ? & ? & ? & ?). exists t. split_and!; (auto || lia).
Qed.

Lemma wrote_plain out s : size out <= left -> wrote (eq s) (size s) out (try_to_write left out s).
Proof.
  intros Ho. unfold try_to_write. destruct (Z.leb_spec left (size out + size s)); [simpl; lia|].
  exists s. split_and!; [done|done|lia|rewrite size_app; lia].
Qed.

Lemma wrote_nothing P out : size out <= left -> P [] -> wrote P 0 out (Written out).
Proof. intros Ho HP. exists []. rewrite app_nil_r. by split_and!. Qed.

Lemma wrote_str n out s : size out <= left -> is_bytes s -> block_safe a s (after n) ->
  wrote (λ t, esc_to (one_char esc) s t []) (6 * size s) out
    (if size s =? 0 then Written out else try_to_write_str a after esc left n out s).
Proof.
  intros Ho Hs Hg. destruct (Z.eqb_spec (size s) 0) as [E|_].
  { rewrite E. destruct s; [|done]. apply wrote_nothing; [done|constructor]. }
  unfold try_to_write_str. pose proof (Hafter n) as Ha.
  pose proof (write_str_good a (size out) left s (after n) esc) as H.
  pose proof (size_nonneg out). specialize (H ltac:(lia) ltac:(lia) ltac:(by apply Forall_app) Hg).
  destruct (flb_utils_write_str _ _ _ _ _ _) as [t|t| |]; [..|done|done].
  - destruct H as [H1 H2]. exists t. pose proof (esc_to_length _ s t [] Hs H1) as H3. simpl in H3.
    rewrite size_app. unfold size in *. split_and!; (done || lia).
  - simpl. rewrite size_app. unfold size in *. lia.
Qed.

Lemma wrote_ext s : forall out, size out <= left ->
  wrote (eq (concat (map ext_byte s))) (size (concat (map ext_byte s))) out (write_ext left out s).
Proof.
  induction s as [|b s IH]; intros out Ho; [by apply wrote_nothing|].
  cbn [write_ext map concat]. rewrite size_app.
  eapply wrote_weaken; [apply wrote_then; [by apply wrote_plain|apply size_nonneg|]|..|reflexivity].
  - intros t _ Ht. by apply IH.
  - by intros t (t1 & t2 & -> & <- & <-).
Qed.

(** A writer of items that writes their text. *)
Section Items.
Variable item : nat -> bytes -> obj -> jres.
Let writes (o : obj) : Prop := forall n out, safe_at a after n (strings o) -> size out <= left ->
  wrote (json_text esc nan o) (text_bound nan o) out (item n out o).

Lemma wrote_comma first out : size out <= left ->
  wrote (eq (comma_if first)) 1 out (if first then Written out else try_to_write left out [ch ","]).
Proof.
  intros Ho. destruct first; [|by apply wrote_plain].
  apply (wrote_weaken (eq []) _ 0); [by apply wrote_nothing|done|lia].
Qed.

Lemma wrote_items l : Forall writes l -> forall first n out,
  safe_at a after n (concat (map strings l)) -> size out <= left ->
  wrote (items_text (json_text esc nan) first l) (foldr (λ o n, text_bound nan o + 1 + n) 0 l) out
    (write_items left item first n out l).
Proof.
  induction 1 as [|o l Ho Hl IH]; intros first n out Hsafe Hs; [by apply wrote_nothing|].
  cbn [map concat] in Hsafe. apply safe_at_app in Hsafe as [Hs1 Hs2].
  pose proof (foldr_nonneg _ l (item_bound_nonneg nan)) as Hn. cbv beta in Hn.
  pose proof (text_bound_nonneg nan o). cbn [write_items items_text foldr].
  eapply wrote_weaken; [apply wrote_then; [by apply wrote_comma| |]|done|].
  2:{ intros t _ Ht. apply wrote_then; [by apply Ho|exact Hn|]. intros t' _ Ht'. by apply IH. }
  all: lia.
Qed.

Definition entries_bound (l : list (obj * obj)) : Z :=
  foldr (λ kv n, text_bound nan kv.1 + text_bound nan kv.2 + 2 + n) 0 l.

Lemma wrote_entries l : Forall (λ kv, writes kv.1 /\ writes kv.2) l -> forall first n out,
  safe_at a after n (concat (map (λ kv, strings kv.1 ++ strings kv.2) l)) -> size out <= left ->
  wrote (entries_text (json_text esc nan) first l) (entries_bound l) out (write_entries left item first n out l).
Proof.
  induction 1 as [|[k v] l [Hk Hv] Hl IH]; intros first n out Hsafe Hs; [by apply wrote_nothing|].
  cbn [map concat fst snd] in Hsafe. rewrite <- app_assoc in Hsafe.
  apply safe_at_app in Hsafe as [Hs1 [Hs2 Hs3]%safe_at_app].
  pose proof (foldr_nonneg _ l (entry_bound_nonneg nan)) as Hn. cbv beta in Hn. fold (entries_bound l) in Hn.
  simpl in Hk, Hv. pose proof (text_bound_nonneg nan k). pose proof (text_bound_nonneg nan v).
  change (entries_bound ((k, v) :: l)) with (text_bound nan k + text_bound nan v + 2 + entries_bound l).
  cbn [write_entries entries_text]. destruct (key_exists_in_map k l).
  { eapply wrote_weaken; [by apply IH|done|lia]. }
  eapply wrote_weaken; [apply wrote_then; [by apply wrote_comma| |]|done|].
  2:{ intros t1 _ Ht1. apply wrote_then; [by apply Hk| |].
      2:{ intros t2 _ Ht2. apply wrote_then; [by apply wrote_plain| |].
          2:{ intros t3 _ Ht3. apply wrote_then; [by apply Hv|exact Hn|]. intros t4 _ Ht4. by apply IH. }
          lia. }
      change (size [ch ":"]) with 1. lia. }
  all: change (size [ch ":"]) with 1; lia.
Qed.
End Items.

(** The text of a container between its brackets. *)
Lemma wrote_between (P : bytes -> Prop) n o c out body : 0 <= n -> size out <= left ->
  (forall out, size out <= left -> wrote P n out (body out)) ->
  wrote (seq (eq [o]) (seq P (eq [c]))) (n + 2) out
    (and_then (try_to_write left out [o]) (λ out, and_then (body out) (λ out, try_to_write left out [c]))).
Proof.
  intros Hn Ho Hb. eapply wrote_weaken; [apply wrote_then; [by apply wrote_plain| |]|done|].
  2:{ intros t _ Ht. apply wrote_then; [by apply Hb|apply size_nonneg|]. intros t' _ Ht'. by apply wrote_plain. }
  all: unfold size; simpl; lia.
Qed.

Lemma wrote_json o : byte_strings o -> forall n out, safe_at a after n (strings o) -> size out <= left ->
  wrote (json_text esc nan o) (text_bound nan o) out (msgpack2json a after esc nan left n out o).
Proof.
  revert o. apply (obj_ind' (λ o, byte_strings o -> forall n out, safe_at a after n (strings o) ->
    size out <= left -> wrote (json_text esc nan o) (text_bound nan o) out (msgpack2json a after esc nan left n out o)));
    [intros o|intros l IH..].
  - assert (Hq : forall n s, is_bytes s -> safe_at a after n [s] -> forall out, size out <= left ->
      wrote (seq (eq [34]) (seq (λ t, esc_to (one_char esc) s t []) (eq [34]))) (6 * size s + 2) out
        (write_quoted a after esc left n out s)).
    { intros n s Hs Hsafe out Ho. specialize (Hsafe 0%nat s eq_refl). rewrite Nat.add_0_r in Hsafe.
      apply wrote_between; [unfold size; lia|done|]. intros out' Ho'. by apply wrote_str. }
    destruct o; cbn [byte_strings text_bound json_text msgpack2json strings]; try done;
      intros Hb n0 out Hsafe Ho; try by apply wrote_plain; try by apply Hq.
    + eapply wrote_weaken; [by apply wrote_plain|done|done].
    + eapply wrote_weaken; [by apply wrote_plain|done|by destruct boolean].
    + by apply Hq.
    + by apply Hq.
    + apply wrote_between; [apply size_nonneg|done|]. intros out' Ho'. by apply wrote_ext.
  - cbn [byte_strings text_bound json_text msgpack2json strings]. rewrite foldr_and_Forall. intros Hb n out Hsafe Ho.
    rewrite foldr_plus. apply wrote_between; [apply (foldr_nonneg _ l (item_bound_nonneg nan))|done|].
    intros out' Ho'. apply wrote_items; [|done|done].
    eapply Forall_impl; [apply Forall_and; split; [exact IH|exact Hb]|].
    intros o [H1 H2] m out2 Hm Ho2. by apply H1.
  - cbn [byte_strings text_bound json_text msgpack2json strings]. rewrite foldr_and_Forall. intros Hb n out Hsafe Ho.
    rewrite foldr_plus. apply wrote_between; [apply (foldr_nonneg _ l (entry_bound_nonneg nan))|done|].
    intros out' Ho'. apply wrote_entries; [|done|done].
    eapply Forall_impl; [apply Forall_and; split; [exact IH|exact Hb]|].
    intros kv [[H1 H2] [H3 H4]]. split; intros m out2 Hm Ho2; by (apply H1 || apply H2).
Qed.

End WriteFacts.

(** What [flb_msgpack_to_json] gives. *)
Lemma to_json_spec a after esc nan json_size o :
  strings_safe a after o -> 1 <= json_size <= 2 ^ 64 -> byte_strings o ->
  exists ret out, flb_msgpack_to_json a after esc nan json_size o = Some (ret, out) /\ size out < json_size /\
    ((ret = size out /\ json_text esc nan o out) \/ (ret = 0 /\ json_size <= text_bound nan o + 1)).
Proof.
  intros Ha Hs Hb. unfold flb_msgpack_to_json. rewrite u64_small by lia.
  pose proof (wrote_json a after esc nan (json_size - 1) (proj1 Ha) ltac:(lia) o Hb 0%nat [] (proj2 Ha) ltac:(unfold size; simpl; lia)) as H.
  destruct (msgpack2json _ _ _ _ _ _ _ _) as [out|out|]; [..|done].
  - destruct H as (t & -> & Ht & _ & Hl). eexists _, _. split; [done|]. split; [lia|by left].
  - simpl in H. unfold size at 2 in H. simpl in H. eexists _, _. split; [done|]. split; [lia|right; lia].
Qed.

(** No text is empty. *)
Lemma json_text_nonempty esc nan o t : json_text esc nan o t -> 0 < size t.
Proof.
  assert (Hne : forall t : bytes, t <> [] -> 0 < size t) by (intros [|c l]; [done|unfold size; simpl; lia]).
  assert (Hq : forall c P t, seq (eq [c]) P t -> 0 < size t).
  { intros c P t' (t1 & t2 & -> & <- & _). unfold size. simpl. lia. }
  assert (Hf : forall b, 0 < size (float_text nan b)).
  { intros b. apply Hne. unfold float_text, fmt_f1_integral. destruct (SFeqb _ _).
    - intros [_ [_ ?]%app_nil]%app_nil. done.
    - destruct (nan && _); [done|apply fmt_g16_bits_nonempty]. }
  destruct o; cbn [json_text]; try apply Hq; intros <-; auto; apply Hne.
  - by destruct boolean.
  - apply dec_nonempty.
  - unfold fmt_int. destruct (_ <? _); [done|apply dec_nonempty].
Qed.

Lemma to_json_done a after esc nan json_size o :
  strings_safe a after o -> 1 <= json_size <= 2 ^ 64 -> byte_strings o ->
  exists ret out, flb_msgpack_to_json a after esc nan json_size o = Some (ret, out) /\
    if ret <=? 0 then json_size <= text_bound nan o + 1 else json_text esc nan o out.
Proof.
  intros Ha Hs Hb. destruct (to_json_spec a after esc nan json_size o Ha Hs Hb) as (ret & out & -> & Hl & Hr).
  eexists _, _. split; [done|]. destruct Hr as [[-> Ht]|[-> Hr]]; [|done].
  pose proof (json_text_nonempty _ _ _ _ Ht). by rewrite (proj2 (Z.leb_gt _ _)) by lia.
Qed.

(** Growing the buffer ends, with memory: the sizes stay far from the width. *)
Section Growth.
Context (a : arch) (after : nat -> bytes) (esc nan : bool) (o : obj).
Context (Hafter : strings_safe a after o) (Hb : byte_strings o).
Context (Hbound : text_bound nan o < 2 ^ 60).

Lemma raw_grow_ends fuel : forall out_size realloc_size, 1 <= out_size <= 2 ^ 62 ->
  1 <= realloc_size <= out_size + 512 -> text_bound nan o + 1 - out_size < Z.of_nat fuel ->
  exists out, raw_grow fuel [] a after esc nan out_size realloc_size o = Text out /\ json_text esc nan o out.
Proof.
  induction fuel as [|fuel IH]; intros os rs Ho Hr Hf; cbn [raw_grow];
    destruct (to_json_done a after esc nan os o Hafter ltac:(lia) Hb) as (ret & out & -> & H);
    destruct (ret <=? 0); cbv iota in H; eauto; [lia|].
  cbn [flb_malloc]. rewrite (u64_small (rs * 2)), (u64_small (os + rs * 2)) by lia. apply IH; lia.
Qed.

Lemma str_grow_ends fuel : forall sz, 1 <= sz <= 2 ^ 62 -> text_bound nan o + 1 - sz < Z.of_nat fuel ->
  exists out, str_grow fuel [] a after esc nan sz o = Text out /\ json_text esc nan o out.
Proof.
  induction fuel as [|fuel IH]; intros sz Ho Hf; cbn [str_grow];
    destruct (to_json_done a after esc nan sz o Hafter ltac:(lia) Hb) as (ret & out & -> & H);
    destruct (ret <=? 0); cbv iota in H; eauto; [lia|].
  cbn [flb_malloc]. rewrite u64_small by lia. apply IH; lia.
Qed.
End Growth.

(** *** Theorems of the writer *)


(** [flb_msgpack_to_json_str] returns: with memory, its buffer grows until it
    holds the text, whatever the first size. *)
Theorem to_json_str_returns a after esc nan sz o :
  strings_safe a after o -> byte_strings o ->
  text_bound nan o < 2 ^ 60 -> sz <= 2 ^ 62 ->
  exists out, flb_msgpack_to_json_str (S (Z.to_nat (text_bound nan o))) [] a after esc nan sz o = Text out /\
    json_text esc nan o out.
Proof.
  intros Ha Hb Ht Hs. unfold flb_msgpack_to_json_str. cbn [flb_malloc]. pose proof (text_bound_nonneg nan o).
  apply str_grow_ends; [done|done|done|destruct (Z.leb_spec sz 0); lia|destruct (Z.leb_spec sz 0); lia].
Qed.

Lemma sample_json_bytes : byte_strings sample_json.
Proof. unfold sample_json. cbn [byte_strings map foldr fst snd]. split_and!; try done; by apply bytes_ascii. Qed.

Lemma zeros_after o : strings_safe SSE2 (λ _, replicate 16 0) o.
Proof. split; [intros n; by apply bytes_ascii|]. intros i s _. left. apply zeros_guarded. Qed.


Lemma to_json_str_returns_witness : exists out,
  flb_msgpack_to_json_str (S (Z.to_nat (text_bound false sample_json))) [] SSE2 (λ _, replicate 16 0) false false 3 sample_json
    = Text out /\ json_text false false sample_json out.
Proof.
  apply (to_json_str_returns SSE2 (λ _, replicate 16 0) false false 3 sample_json (zeros_after _));
    [exact sample_json_bytes|vm_compute; done|lia].
Defined.

End Writer.
