(* ===== verification/JsonRoundTrip.v ===== *)
(** * What is written as JSON reads back

    The text that src/flb_pack.c writes of an object, read by the same file: the
    tokens of lib/jsmn are those of the object, and what they are packed to is
    the object, without the entries of maps whose key occurs again. *)

From S2P Require Import Prelude Utf8 Text Numbers Msgpack Jsmn PackJson.

Import Utf8 Simd Escape Unescape Numbers Jsmn Msgpack Reader Writer.

Module JsonRoundTrip.

(** ** Tokens as MessagePack *)







(** ** Strings, as the tokeniser reads them *)



















(** ** Numbers, as they are packed *)








(** ** What reads back *)





(** ** Steps over the text of a value *)

Section Steps.
Context (js : bytes) (num : Z) (Hnum : Z.of_nat (length js) < num).

Abbreviation steps := (rtc (step js num)).

















(** *** Values *)














(** *** Containers *)






Section Items.
Variable P : obj -> bytes -> Prop.
Context (A : list jsmntok_t) (st par : Z).
Context (Hst : st <> -1).


End Items.

Section Entries.
Context (esc nan : bool) (A : list jsmntok_t) (st par : Z) (Hst : st <> -1).








End Entries.

(** *** Objects *)






End Steps.

(** ** The text of an object, read *)






(** ** Streams

    [flb_pack_json_state] on text that may hold several messages, the last of them
    not complete. *)









(** ** Theorems *)





(** *** On concrete text *)






(** A message that is complete is held back when the text ends within a value
    behind it, as that value is no token yet. *)
Example stream_holds_back :
  match flb_pack_json_state [] (quoted "{'a':1}{'b':2}'c") (mkst false 0 256 0 jsmn_init 5120 0) with
  | Some (ret, data, s, _) => ret = 0 /\ data = Some [0x81; 0xa1; 97; 1] /\ last_byte s = 7
  | None => False
  end.
Proof. vm_compute. done. Qed.

Example stream_delivers :
  match flb_pack_json_state [] (quoted "{'a':1}[tru") (mkst false 0 256 0 jsmn_init 5120 0) with
  | Some (ret, data, s, _) => ret = 0 /\ data = Some [0x81; 0xa1; 97; 1] /\ last_byte s = 7
  | None => False
  end.
Proof. vm_compute. done. Qed.

End JsonRoundTrip.
