(* ===== verification/LogEvent.v ===== *)
(** * Log events: the encoder and the decoder of records

    src/flb_log_event_encoder.c, src/flb_log_event_encoder_primitives.c,
    src/flb_log_event_encoder_dynamic_field.c, src/flb_log_event_decoder.c, the
    header and chunk functions of src/flb_mp.c and the times of src/flb_time.c
    and include/fluent-bit/flb_time.h.

    Module [Encoder] has the three fields of a record (metadata, body, root),
    each a buffer of Msgpack.v with a stack of open maps and arrays whose sizes
    are patched when they are closed.  Module [Decoder] has the iteration over
    the records of a buffer.  The memory of unpacked objects are zones of a
    heap; a pointer names the zone it points into, so that freeing a zone twice
    or keeping a pointer into a freed one can be told. *)

From S2P Require Import Prelude Numbers Msgpack.
From Stdlib Require Import SpecFloat.
Import Numbers Msgpack.

(** ** Times (flb_time.h, flb_time.c) *)

Module Time.

Record flb_time := { tv_sec : Z; tv_nsec : Z }.

Definition flb_time_zero : flb_time := {| tv_sec := 0; tv_nsec := 0 |}.

Definition ONESEC_IN_NSEC : Z := 1000000000.

(** The two assignments of the branches for doubles. *)
Definition time_of_f64 (bits : Z) : flb_time :=
  let d := f64_of_bits bits in
  let sec := f64_to_i64 d in
  {| tv_sec := sec;
     tv_nsec := f64_to_i64 (SFmul 53 1024 (SFsub 53 1024 d (f64_of_int sec)) (f64_of_int ONESEC_IN_NSEC)) |}.

(** An EventTime: seconds and nanoseconds, 32 bits each, in network order. *)
Definition eventtime (tm : flb_time) : bytes :=
  store 4 (u32 (tv_sec tm)) ++ store 4 (u32 (tv_nsec tm)).

Definition flb_time_add (base duration : flb_time) : flb_time :=
  let sec := i64 (tv_sec base + tv_sec duration) in
  let nsec := i64 (tv_nsec base + tv_nsec duration) in
  if ONESEC_IN_NSEC <? nsec then {| tv_sec := i64 (sec + 1); tv_nsec := nsec - ONESEC_IN_NSEC |}
  else if nsec <? 0 then {| tv_sec := i64 (sec - 1); tv_nsec := nsec + ONESEC_IN_NSEC |}
  else {| tv_sec := sec; tv_nsec := nsec |}.

(** [inl]: the codes of an underflow. *)
Definition flb_time_diff (time1 time0 : flb_time) : Z + flb_time :=
  if tv_sec time0 <=? tv_sec time1 then
    let sec := tv_sec time1 - tv_sec time0 in
    if tv_nsec time0 <=? tv_nsec time1 then inr {| tv_sec := sec; tv_nsec := tv_nsec time1 - tv_nsec time0 |}
    else if sec =? 0 then inl (-2)
    else inr {| tv_sec := sec - 1; tv_nsec := ONESEC_IN_NSEC + tv_nsec time1 - tv_nsec time0 |}
  else inl (-3).

(** [flb_time_msgpack_to_time]; the seconds of an EventTime are unsigned here. *)
Definition flb_time_msgpack_to_time (o : obj) : option flb_time :=
  match o with
  | MSGPACK_OBJECT_POSITIVE_INTEGER u => Some {| tv_sec := i64 u; tv_nsec := 0 |}
  | MSGPACK_OBJECT_FLOAT64 b => Some (time_of_f64 b)
  | MSGPACK_OBJECT_EXT type s =>
      if negb (type =? 0) || negb (size s =? 8) then None
      else Some {| tv_sec := load (take 4 s); tv_nsec := load (drop 4 s) |}
  | _ => None
  end.

(** [flb_time_append_to_msgpack] with a given time, in the formats of
    [flb_time_eventtime_fmt]; a format outside of the enumeration is the default. *)
Definition FLB_TIME_ETFMT_INT : Z := 1.
Definition FLB_TIME_ETFMT_V1_FIXEXT : Z := 4.
Definition FLB_TIME_ETFMT_OTHER : Z := 5.

Definition flb_time_append_to_msgpack (tm : flb_time) (fmt : Z) : list bytes :=
  let fmt := if (FLB_TIME_ETFMT_INT <=? fmt) && (fmt <? FLB_TIME_ETFMT_OTHER)
             then fmt else FLB_TIME_ETFMT_V1_FIXEXT in
  if fmt =? FLB_TIME_ETFMT_INT then [msgpack_pack_real_uint64 (u64 (tv_sec tm))]
  else [msgpack_pack_ext 8 0; eventtime tm].

Example one_and_a_half : time_of_f64 0x3ff8000000000000 = {| tv_sec := 1; tv_nsec := 500000000 |}.
Proof. vm_compute. reflexivity. Qed.

End Time.
Import Time.

(** ** Map and array headers whose size is set afterwards (flb_mp.c) *)

Module Mp.

(** Bytes of the buffer, overwritten in place. *)
Definition poke (sb : msgpack_sbuffer) (off : nat) (s : bytes) : msgpack_sbuffer :=
  {| sb_size := sb_size sb; sb_alloc := sb_alloc sb;
     sb_data := take off (sb_data sb) ++ s ++ drop (off + length s) (sb_data sb) |}.

(** The byte at [off] is the header that [*_header_init] wrote; when that write
    failed there is none, and the model leaves the buffer alone. *)
Definition flb_mp_set_map_header_size (sb : msgpack_sbuffer) (off : nat) (sz : Z) : msgpack_sbuffer :=
  match sb_data sb !! off with
  | Some h =>
      if Z.shiftr h 4 =? 0x8 then poke sb off [Z.lor (Z.shiftl 0x8 4) (u8 sz)]
      else if h =? 0xde then poke sb (S off) (store 2 sz)
      else if h =? 0xdf then poke sb (S off) (store 4 sz)
      else sb
  | None => sb
  end.

Definition flb_mp_set_array_header_size (sb : msgpack_sbuffer) (off : nat) (sz : Z) : msgpack_sbuffer :=
  match sb_data sb !! off with
  | Some h =>
      if Z.shiftr h 4 =? 0x9 then poke sb off [Z.lor (Z.shiftl 0x9 4) (u8 sz)]
      else if h =? 0xdc then poke sb (S off) (store 2 sz)
      else if h =? 0xdd then poke sb (S off) (store 4 sz)
      else sb
  | None => sb
  end.

Record flb_mp_map_header := { mh_offset : nat; mh_entries : Z }.

Definition mp_header_type_init (sb : msgpack_sbuffer) : flb_mp_map_header :=
  {| mh_offset := sb_size sb; mh_entries := 0 |}.

(** The result is that of the write. *)
Definition flb_mp_map_header_init (t : tape) (sb : msgpack_sbuffer) :
    flb_mp_map_header * (Z * msgpack_sbuffer * tape) :=
  (mp_header_type_init sb, msgpack_sbuffer_write t sb (msgpack_pack_map 65536)).

Definition flb_mp_array_header_init (t : tape) (sb : msgpack_sbuffer) :
    flb_mp_map_header * (Z * msgpack_sbuffer * tape) :=
  (mp_header_type_init sb, msgpack_sbuffer_write t sb (msgpack_pack_array 65536)).

Definition flb_mp_map_header_append (mh : flb_mp_map_header) : flb_mp_map_header :=
  {| mh_offset := mh_offset mh; mh_entries := mh_entries mh + 1 |}.

Definition flb_mp_map_header_end (mh : flb_mp_map_header) (sb : msgpack_sbuffer) : msgpack_sbuffer :=
  flb_mp_set_map_header_size sb (mh_offset mh) (mh_entries mh).

Definition flb_mp_array_header_end (mh : flb_mp_map_header) (sb : msgpack_sbuffer) : msgpack_sbuffer :=
  flb_mp_set_array_header_size sb (mh_offset mh) (mh_entries mh).

End Mp.
Import Mp.

(** ** Formats and kinds of records (flb_log_event.h) *)

Definition FLB_LOG_EVENT_FORMAT_FORWARD_LEGACY : Z := 1.
Definition FLB_LOG_EVENT_FORMAT_FORWARD : Z := 2.
Definition FLB_LOG_EVENT_FORMAT_FLUENT_BIT_V2 : Z := 4.

Definition FLB_LOG_EVENT_NORMAL : Z := 0.
Definition FLB_LOG_EVENT_GROUP_START : Z := -1.
Definition FLB_LOG_EVENT_GROUP_END : Z := -2.

(** ** The encoder *)

Module Encoder.

Definition FLB_EVENT_ENCODER_SUCCESS : Z := 0.
Definition FLB_EVENT_ENCODER_ERROR_ALLOCATION_ERROR : Z := -2.
Definition FLB_EVENT_ENCODER_ERROR_INVALID_CONTEXT : Z := -3.
Definition FLB_EVENT_ENCODER_ERROR_INVALID_ARGUMENT : Z := -4.
Definition FLB_EVENT_ENCODER_ERROR_SERIALIZATION_FAILURE : Z := -5.

(** *** Dynamic fields (flb_log_event_encoder_dynamic_field.c) *)

Record scope := { sc_offset : nat; sc_header : flb_mp_map_header; sc_type : container }.

(** [fd_data]: the pointer [data] is set; it points to the buffer of the field.
    The first scope of the list is the innermost. *)
Record field := { fd_buffer : msgpack_sbuffer; fd_scopes : list scope; fd_data : bool; fd_size : nat }.

Definition set_buffer (f : field) (sb : msgpack_sbuffer) : field :=
  {| fd_buffer := sb; fd_scopes := fd_scopes f; fd_data := fd_data f; fd_size := fd_size f |}.

Definition set_scopes (f : field) (l : list scope) : field :=
  {| fd_buffer := fd_buffer f; fd_scopes := l; fd_data := fd_data f; fd_size := fd_size f |}.

(** [flb_log_event_encoder_dynamic_field_append]: the innermost scope counts
    one entry more. *)
Definition field_append (f : field) : field :=
  match fd_scopes f with
  | [] => f
  | sc :: l =>
      set_scopes f ({| sc_offset := sc_offset sc; sc_header := flb_mp_map_header_append (sc_header sc);
                       sc_type := sc_type sc |} :: l)
  end.

(** [flb_log_event_encoder_dynamic_field_scope_enter]; the result of the write
    of the header is not looked at. *)
Definition scope_enter (t : tape) (f : field) (type : container) : Z * field * tape :=
  let f := field_append f in
  let '(ok, t) := flb_malloc t in
  if negb ok then (FLB_EVENT_ENCODER_ERROR_ALLOCATION_ERROR, f, t)
  else
    let '(mh, (_, sb, t)) :=
      match type with
      | CMap => flb_mp_map_header_init t (fd_buffer f)
      | CArray => flb_mp_array_header_init t (fd_buffer f)
      end in
    let sc := {| sc_offset := sb_size (fd_buffer f); sc_header := mh; sc_type := type |} in
    (FLB_EVENT_ENCODER_SUCCESS, set_scopes (set_buffer f sb) (sc :: fd_scopes f), t).

(** [flb_log_event_encoder_dynamic_field_scope_leave], of the current scope. *)
Definition scope_leave (f : field) (commit : bool) : Z * field :=
  match fd_scopes f with
  | [] => (FLB_EVENT_ENCODER_ERROR_INVALID_ARGUMENT, f)
  | sc :: l =>
      let sb :=
        if commit then
          match sc_type sc with
          | CMap =>
              flb_mp_map_header_end
                {| mh_offset := mh_offset (sc_header sc); mh_entries := mh_entries (sc_header sc) / 2 |}
                (fd_buffer f)
          | CArray => flb_mp_array_header_end (sc_header sc) (fd_buffer f)
          end
        else {| sb_size := sc_offset sc; sb_data := sb_data (fd_buffer f); sb_alloc := sb_alloc (fd_buffer f) |} in
      (FLB_EVENT_ENCODER_SUCCESS, set_scopes (set_buffer f sb) l)
  end.

(** begin_map, begin_array, commit_map, commit_array, rollback_map and
    rollback_array; the last one commits. *)
Definition field_begin_map (t : tape) (f : field) : Z * field * tape := scope_enter t f CMap.
Definition field_begin_array (t : tape) (f : field) : Z * field * tape := scope_enter t f CArray.
Definition field_commit_map (f : field) : Z * field := scope_leave f true.
Definition field_commit_array (f : field) : Z * field := scope_leave f true.
Definition field_rollback_map (f : field) : Z * field := scope_leave f false.
Definition field_rollback_array (f : field) : Z * field := scope_leave f true.

(** [flb_log_event_encoder_dynamic_field_flush_scopes]: one pass per scope. *)
Fixpoint flush_scopes (n : nat) (f : field) (commit : bool) : field :=
  match n with
  | O => f
  | S n => flush_scopes n (scope_leave f commit).2 commit
  end.

Definition field_flush_scopes (f : field) (commit : bool) : field :=
  flush_scopes (length (fd_scopes f)) f commit.

(** [flb_log_event_encoder_dynamic_field_flush]; [buffer.data] is NULL until
    something is allocated. *)
Definition field_flush (f : field) : field :=
  let f := field_flush_scopes f true in
  {| fd_buffer := fd_buffer f; fd_scopes := fd_scopes f;
     fd_data := negb (sb_alloc (fd_buffer f) =? 0); fd_size := sb_size (fd_buffer f) |}.

(** [flb_log_event_encoder_dynamic_field_reset]. *)
Definition field_reset (f : field) : field :=
  let f := set_buffer f (msgpack_sbuffer_clear (fd_buffer f)) in
  let f := field_flush_scopes f false in
  {| fd_buffer := fd_buffer f; fd_scopes := fd_scopes f; fd_data := false; fd_size := 0 |}.

(** [flb_log_event_encoder_dynamic_field_init]. *)
Definition field_init : field :=
  field_reset {| fd_buffer := msgpack_sbuffer_init; fd_scopes := []; fd_data := false; fd_size := 0 |}.

(** The bytes at [data], [size] of them. *)
Definition field_bytes (f : field) : bytes := take (fd_size f) (sb_data (fd_buffer f)).

(** *** The context (flb_log_event_encoder.h) *)

Record encoder := {
  en_timestamp : flb_time;
  en_metadata : field;
  en_body : field;
  en_root : field;
  en_buffer : msgpack_sbuffer;
  en_output_length : nat;
  en_format : Z }.

Inductive target := FLB_LOG_EVENT_ROOT | FLB_LOG_EVENT_METADATA | FLB_LOG_EVENT_BODY.

Definition get_field (c : encoder) (f : target) : field :=
  match f with
  | FLB_LOG_EVENT_ROOT => en_root c
  | FLB_LOG_EVENT_METADATA => en_metadata c
  | FLB_LOG_EVENT_BODY => en_body c
  end.

Definition set_field (c : encoder) (f : target) (v : field) : encoder :=
  {| en_timestamp := en_timestamp c;
     en_metadata := match f with FLB_LOG_EVENT_METADATA => v | _ => en_metadata c end;
     en_body := match f with FLB_LOG_EVENT_BODY => v | _ => en_body c end;
     en_root := match f with FLB_LOG_EVENT_ROOT => v | _ => en_root c end;
     en_buffer := en_buffer c; en_output_length := en_output_length c; en_format := en_format c |}.

(** The values of [append_value], by [value_type].  A NULL [value_buffer] is [None]. *)
Inductive value :=
  | STRING_LENGTH (l : Z) | STRING_BODY (s : option bytes)
  | BINARY_LENGTH (l : Z) | BINARY_BODY (s : option bytes)
  | EXT_LENGTH (type l : Z) | EXT_BODY (s : option bytes)
  | NULL_VALUE | CHAR (c : Z)
  | INT8 (v : Z) | INT16 (v : Z) | INT32 (v : Z) | INT64 (v : Z)
  | UINT8 (v : Z) | UINT16 (v : Z) | UINT32 (v : Z) | UINT64 (v : Z)
  | DOUBLE (bits : Z) | BOOLEAN (v : Z)
  | MSGPACK_OBJECT (o : option obj) | MSGPACK_RAW (s : option bytes)
  | TIMESTAMP_TYPES      (* FLB_LOG_EVENT_*TIMESTAMP_VALUE_TYPE, with a buffer *)
  | UNKNOWN_TYPE.        (* any other number *)

(** The writes of a value, or the error of the checks before them. *)
Definition value_writes (v : value) : Z + list bytes :=
  let body s := match s with
                | Some s => inr [s]
                | None => inl FLB_EVENT_ENCODER_ERROR_INVALID_ARGUMENT
                end in
  match v with
  | STRING_LENGTH l => inr [msgpack_pack_str l]
  | BINARY_LENGTH l => inr [msgpack_pack_bin l]
  | EXT_LENGTH type l => inr [msgpack_pack_ext l type]
  | NULL_VALUE => inr [msgpack_pack_nil]
  | STRING_BODY s | BINARY_BODY s | EXT_BODY s | MSGPACK_RAW s => body s
  | CHAR c => inr [msgpack_pack_real_int8 c]
  | INT8 v => inr [msgpack_pack_real_int8 v]
  | INT16 v => inr [msgpack_pack_real_int16 v]
  | INT32 v => inr [msgpack_pack_real_int32 v]
  | INT64 v => inr [msgpack_pack_real_int64 v]
  | UINT8 v => inr [msgpack_pack_real_uint8 v]
  | UINT16 v => inr [msgpack_pack_real_uint16 v]
  | UINT32 v => inr [msgpack_pack_real_uint32 v]
  | UINT64 v => inr [msgpack_pack_real_uint64 v]
  | DOUBLE b => inr [msgpack_pack_double b]
  | BOOLEAN v => inr [if v =? 0 then msgpack_pack_false else msgpack_pack_true]
  | MSGPACK_OBJECT (Some o) => inr (msgpack_pack_object o)
  | MSGPACK_OBJECT None => inl FLB_EVENT_ENCODER_ERROR_INVALID_ARGUMENT
  | TIMESTAMP_TYPES | UNKNOWN_TYPE => inl FLB_EVENT_ENCODER_ERROR_INVALID_CONTEXT
  end.

(** The length values return what the write returned, the others a code. *)
Definition translated (v : value) (ret : Z) : Z :=
  match v with
  | STRING_LENGTH _ | BINARY_LENGTH _ | EXT_LENGTH _ _ | NULL_VALUE => ret
  | _ => if ret =? 0 then FLB_EVENT_ENCODER_SUCCESS else FLB_EVENT_ENCODER_ERROR_SERIALIZATION_FAILURE
  end.

(** [flb_log_event_encoder_append_value], on the field it finds. *)
Definition field_append_value (t : tape) (f : field) (increment_entry_count : bool) (v : value) :
    Z * field * tape :=
  match v with
  | UNKNOWN_TYPE => (FLB_EVENT_ENCODER_ERROR_INVALID_ARGUMENT, f, t)
  | _ =>
      let f := if increment_entry_count then field_append f else f in
      match value_writes v with
      | inl err => (err, f, t)
      | inr bufs =>
          let '(ret, sb, t) := write_all t (fd_buffer f) bufs in
          (translated v ret, set_buffer f sb, t)
      end
  end.

Definition append_value (t : tape) (c : encoder) (tf : target) (increment_entry_count : bool) (v : value) :
    Z * encoder * tape :=
  let '(ret, f, t) := field_append_value t (get_field c tf) increment_entry_count v in
  (ret, set_field c tf f, t).

(** *** The append functions (flb_log_event_encoder_primitives.c) *)

Definition append_string_length t c tf l := append_value t c tf true (STRING_LENGTH l).
Definition append_string_body t c tf s := append_value t c tf false (STRING_BODY s).
Definition append_binary_length t c tf l := append_value t c tf true (BINARY_LENGTH l).
Definition append_binary_body t c tf s := append_value t c tf false (BINARY_BODY s).
Definition append_ext_length t c tf type l := append_value t c tf true (EXT_LENGTH type l).
Definition append_ext_body t c tf s := append_value t c tf false (EXT_BODY s).
Definition append_int8 t c tf v := append_value t c tf true (INT8 v).
Definition append_int16 t c tf v := append_value t c tf true (INT16 v).
Definition append_int32 t c tf v := append_value t c tf true (INT32 v).
Definition append_int64 t c tf v := append_value t c tf true (INT64 v).
Definition append_uint8 t c tf v := append_value t c tf true (UINT8 v).
Definition append_uint16 t c tf v := append_value t c tf true (UINT16 v).
Definition append_uint32 t c tf v := append_value t c tf true (UINT32 v).
Definition append_uint64 t c tf v := append_value t c tf true (UINT64 v).
Definition append_double t c tf bits := append_value t c tf true (DOUBLE bits).
Definition append_boolean t c tf v := append_value t c tf true (BOOLEAN v).
Definition append_null t c tf := append_value t c tf true NULL_VALUE.
Definition append_character t c tf v := append_value t c tf true (CHAR v).
Definition append_msgpack_object t c tf o := append_value t c tf true (MSGPACK_OBJECT o).
Definition append_raw_msgpack t c tf s := append_value t c tf true (MSGPACK_RAW s).

(** A call, and the next one when it succeeded. *)
Definition and_then (r : Z * encoder * tape) (k : tape -> encoder -> Z * encoder * tape) : Z * encoder * tape :=
  let '(ret, c, t) := r in
  if ret =? FLB_EVENT_ENCODER_SUCCESS then k t c else (ret, c, t).

Definition append_binary t c tf s :=
  and_then (append_binary_length t c tf (size s)) (λ t c, append_binary_body t c tf (Some s)).
Definition append_string t c tf s :=
  and_then (append_string_length t c tf (size s)) (λ t c, append_string_body t c tf (Some s)).
Definition append_ext t c tf type s :=
  and_then (append_ext_length t c tf type (size s)) (λ t c, append_ext_body t c tf (Some s)).

Definition append_legacy_timestamp t c tf tm := append_value t c tf true (UINT64 (u64 (tv_sec tm))).
Definition append_forward_v1_timestamp t c tf tm := append_ext t c tf 0 (eventtime tm).
Definition append_fluent_bit_v1_timestamp t c tf tm := append_forward_v1_timestamp t c tf tm.
Definition append_fluent_bit_v2_timestamp t c tf tm := append_fluent_bit_v1_timestamp t c tf tm.

(** FLUENT_BIT_V1 is the same number as FORWARD. *)
Definition append_timestamp (t : tape) (c : encoder) (tf : target) (tm : flb_time) : Z * encoder * tape :=
  if en_format c =? FLB_LOG_EVENT_FORMAT_FORWARD_LEGACY then append_legacy_timestamp t c tf tm
  else if en_format c =? FLB_LOG_EVENT_FORMAT_FORWARD then append_forward_v1_timestamp t c tf tm
  else if en_format c =? FLB_LOG_EVENT_FORMAT_FLUENT_BIT_V2 then append_fluent_bit_v2_timestamp t c tf tm
  else (FLB_EVENT_ENCODER_ERROR_INVALID_ARGUMENT, c, t).

(** Operations on a field, as operations on the context. *)
Definition on_field (c : encoder) (tf : target) (r : Z * field * tape) : Z * encoder * tape :=
  let '(ret, f, t) := r in (ret, set_field c tf f, t).

Definition begin_map (t : tape) (c : encoder) (tf : target) := on_field c tf (field_begin_map t (get_field c tf)).
Definition begin_array (t : tape) (c : encoder) (tf : target) := on_field c tf (field_begin_array t (get_field c tf)).
Definition commit_map (t : tape) (c : encoder) (tf : target) :=
  on_field c tf (field_commit_map (get_field c tf), t).
Definition commit_array (t : tape) (c : encoder) (tf : target) :=
  on_field c tf (field_commit_array (get_field c tf), t).

(** *** Records (flb_log_event_encoder.c) *)

Definition with_timestamp (c : encoder) (tm : flb_time) : encoder :=
  {| en_timestamp := tm; en_metadata := en_metadata c; en_body := en_body c; en_root := en_root c;
     en_buffer := en_buffer c; en_output_length := en_output_length c; en_format := en_format c |}.

Definition with_buffer (c : encoder) (sb : msgpack_sbuffer) : encoder :=
  {| en_timestamp := en_timestamp c; en_metadata := en_metadata c; en_body := en_body c; en_root := en_root c;
     en_buffer := sb; en_output_length := en_output_length c; en_format := en_format c |}.

Definition update_internal_state (c : encoder) : encoder :=
  {| en_timestamp := en_timestamp c; en_metadata := en_metadata c; en_body := en_body c; en_root := en_root c;
     en_buffer := en_buffer c; en_output_length := sb_size (en_buffer c); en_format := en_format c |}.

(** What the plugins read: [output_buffer] and [output_length]. *)
Definition output (c : encoder) : bytes := take (en_output_length c) (sb_data (en_buffer c)).

(** [inl]: the code of a refused format. *)
Definition flb_log_event_encoder_init (format : Z) : Z + encoder :=
  if (format <? FLB_LOG_EVENT_FORMAT_FORWARD) || (FLB_LOG_EVENT_FORMAT_FLUENT_BIT_V2 <? format)
  then inl FLB_EVENT_ENCODER_ERROR_INVALID_ARGUMENT
  else inr {| en_timestamp := flb_time_zero; en_metadata := field_init; en_body := field_init;
              en_root := field_init; en_buffer := msgpack_sbuffer_init; en_output_length := 0;
              en_format := format |}.

Definition flb_log_event_encoder_reset_record (c : encoder) : encoder :=
  {| en_timestamp := flb_time_zero; en_metadata := field_reset (en_metadata c);
     en_body := field_reset (en_body c); en_root := field_reset (en_root c);
     en_buffer := en_buffer c; en_output_length := en_output_length c; en_format := en_format c |}.

Definition flb_log_event_encoder_reset (c : encoder) : encoder :=
  update_internal_state
    {| en_timestamp := en_timestamp c; en_metadata := field_reset (en_metadata c);
       en_body := field_reset (en_body c); en_root := field_reset (en_root c);
       en_buffer := msgpack_sbuffer_clear (en_buffer c); en_output_length := en_output_length c;
       en_format := en_format c |}.

(** The pointer of a flushed field. *)
Definition data_of (f : field) : option bytes := if fd_data f then Some (field_bytes f) else None.

(** The root array of a record, when the caller did not set it. *)
Definition build_root (t : tape) (c : encoder) : Z * encoder * tape :=
  let v2 := en_format c =? FLB_LOG_EVENT_FORMAT_FLUENT_BIT_V2 in
  let skip t c := (FLB_EVENT_ENCODER_SUCCESS, c, t) in
  and_then (begin_array t c FLB_LOG_EVENT_ROOT) (λ t c,
  and_then (if v2 then begin_array t c FLB_LOG_EVENT_ROOT else skip t c) (λ t c,
  and_then (append_timestamp t c FLB_LOG_EVENT_ROOT (en_timestamp c)) (λ t c,
  and_then (if v2 then
              and_then (append_raw_msgpack t c FLB_LOG_EVENT_ROOT (data_of (en_metadata c))) (λ t c,
              commit_array t c FLB_LOG_EVENT_ROOT)
            else skip t c) (λ t c,
  and_then (append_raw_msgpack t c FLB_LOG_EVENT_ROOT (data_of (en_body c))) (λ t c,
  (FLB_EVENT_ENCODER_SUCCESS, set_field c FLB_LOG_EVENT_ROOT (field_flush (en_root c)), t)))))).

Definition flb_log_event_encoder_emit_record (t : tape) (c : encoder) : Z * encoder * tape :=
  let '(ret, c, t) :=
    and_then
      (if (fd_size (en_root c) =? 0)%nat then build_root t c else (FLB_EVENT_ENCODER_SUCCESS, c, t))
      (λ t c,
         let '(w, sb, t) := msgpack_sbuffer_write t (en_buffer c) (field_bytes (en_root c)) in
         (if w =? 0 then FLB_EVENT_ENCODER_SUCCESS else FLB_EVENT_ENCODER_ERROR_SERIALIZATION_FAILURE,
          with_buffer c sb, t)) in
  (ret, flb_log_event_encoder_reset_record (update_internal_state c), t).

Definition flb_log_event_encoder_emit_raw_record (t : tape) (c : encoder) (s : bytes) : Z * encoder * tape :=
  let '(w, sb, t) := msgpack_sbuffer_write t (en_buffer c) s in
  (if w =? 0 then FLB_EVENT_ENCODER_SUCCESS else FLB_EVENT_ENCODER_ERROR_SERIALIZATION_FAILURE,
   flb_log_event_encoder_reset_record (update_internal_state (with_buffer c sb)), t).

(** The results of begin_map are not looked at. *)
Definition flb_log_event_encoder_begin_record (t : tape) (c : encoder) : Z * encoder * tape :=
  let c := flb_log_event_encoder_reset_record c in
  let '(_, c, t) := begin_map t c FLB_LOG_EVENT_METADATA in
  let '(_, c, t) := begin_map t c FLB_LOG_EVENT_BODY in
  (FLB_EVENT_ENCODER_SUCCESS, c, t).

(** Flushing a field always succeeds. *)
Definition flb_log_event_encoder_commit_record (t : tape) (c : encoder) : Z * encoder * tape :=
  let c := set_field c FLB_LOG_EVENT_METADATA (field_flush (en_metadata c)) in
  let c := set_field c FLB_LOG_EVENT_BODY (field_flush (en_body c)) in
  flb_log_event_encoder_emit_record t c.

Definition flb_log_event_encoder_rollback_record (c : encoder) : encoder :=
  flb_log_event_encoder_reset_record c.

(** With a given time. *)
Definition flb_log_event_encoder_set_timestamp (c : encoder) (tm : flb_time) : encoder := with_timestamp c tm.

Definition set_from (t : tape) (c : encoder) (tf : target)
    (append : tape -> encoder -> target -> Z * encoder * tape) : Z * encoder * tape :=
  let c := set_field c tf (field_reset (get_field c tf)) in
  and_then (append t c tf) (λ t c,
  (FLB_EVENT_ENCODER_SUCCESS, set_field c tf (field_flush (get_field c tf)), t)).

Definition set_from_msgpack_object (t : tape) (c : encoder) (tf : target) (o : obj) :=
  set_from t c tf (λ t c tf, append_msgpack_object t c tf (Some o)).
Definition set_from_raw_msgpack (t : tape) (c : encoder) (tf : target) (s : bytes) :=
  set_from t c tf (λ t c tf, append_raw_msgpack t c tf (Some s)).

Definition flb_log_event_encoder_group_init (t : tape) (c : encoder) : Z * encoder * tape :=
  let '(ret, c, t) := flb_log_event_encoder_begin_record t c in
  if negb (ret =? FLB_EVENT_ENCODER_SUCCESS) then (-1, c, t)
  else (0, with_timestamp c {| tv_sec := FLB_LOG_EVENT_GROUP_START; tv_nsec := 0 |}, t).

Definition flb_log_event_encoder_group_header_end (t : tape) (c : encoder) : Z * encoder * tape :=
  let '(ret, c, t) := flb_log_event_encoder_commit_record t c in
  (if ret =? -1 then -1 else 0, c, t).

Definition flb_log_event_encoder_group_end (t : tape) (c : encoder) : Z * encoder * tape :=
  let '(ret, c, t) := flb_log_event_encoder_begin_record t c in
  if negb (ret =? FLB_EVENT_ENCODER_SUCCESS) then (-1, c, t)
  else
    let c := with_timestamp c {| tv_sec := FLB_LOG_EVENT_GROUP_END; tv_nsec := 0 |} in
    let '(ret, c, t) := flb_log_event_encoder_commit_record t c in
    (if ret =? -1 then -1 else 0, c, t).

End Encoder.

(** ** The decoder (flb_log_event_decoder.c) *)

Module Decoder.

Definition FLB_EVENT_DECODER_SUCCESS : Z := 0.
Definition FLB_EVENT_DECODER_ERROR_INITIALIZATION_FAILURE : Z := -1.
Definition FLB_EVENT_DECODER_ERROR_INVALID_CONTEXT : Z := -2.
Definition FLB_EVENT_DECODER_ERROR_INVALID_ARGUMENT : Z := -3.
Definition FLB_EVENT_DECODER_ERROR_WRONG_ROOT_TYPE : Z := -4.
Definition FLB_EVENT_DECODER_ERROR_WRONG_ROOT_SIZE : Z := -5.
Definition FLB_EVENT_DECODER_ERROR_WRONG_HEADER_SIZE : Z := -7.
Definition FLB_EVENT_DECODER_ERROR_WRONG_TIMESTAMP_TYPE : Z := -8.
Definition FLB_EVENT_DECODER_ERROR_WRONG_METADATA_TYPE : Z := -9.
Definition FLB_EVENT_DECODER_ERROR_WRONG_BODY_TYPE : Z := -10.
Definition FLB_EVENT_DECODER_ERROR_DESERIALIZATION_FAILURE : Z := -11.
Definition FLB_EVENT_DECODER_ERROR_INSUFFICIENT_DATA : Z := -12.

(** *** Zones: the memory of unpacked objects *)

Record heap := { h_next : nat; h_live : gset nat; h_bad : bool }.

(** [msgpack_zone_free]: freeing what is not allocated is recorded. *)
Definition msgpack_zone_free (h : heap) (z : nat) : heap :=
  {| h_next := h_next h; h_live := h_live h ∖ {[z]};
     h_bad := h_bad h || negb (bool_decide (z ∈ h_live h)) |}.

Definition zone_new (h : heap) : nat * heap :=
  (h_next h, {| h_next := S (h_next h); h_live := {[h_next h]} ∪ h_live h; h_bad := h_bad h |}).

(** A pointer to an object of a zone. *)
Record pointer := { pt_zone : option nat; pt_obj : obj }.

Record unpacked_t := { uz : option nat; ud : obj }.

Definition msgpack_unpacked_init : unpacked_t := {| uz := None; ud := MSGPACK_OBJECT_NIL |}.

Definition msgpack_unpacked_destroy (h : heap) (u : unpacked_t) : heap * unpacked_t :=
  match uz u with
  | Some z => (msgpack_zone_free h z, msgpack_unpacked_init)
  | None => (h, u)
  end.

(** [msgpack_unpack_next] on a result structure: what it held is destroyed, and
    the zone of the new object, when there is one, is kept in it. *)
Definition unpack_next (t : tape) (h : heap) (u : unpacked_t) (data : bytes) (off : nat) :
    option (Z * nat * unpacked_t * heap) * tape :=
  let '(h, u) := msgpack_unpacked_destroy h u in
  match Msgpack.msgpack_unpack_next t data off with
  | (None, t) => (None, t)
  | (Some r, t) =>
      let '(zone, h) := if up_zone r then let '(z, h) := zone_new h in (Some z, h) else (None, h) in
      let u := {| uz := zone; ud := match up_data r with Some o => o | None => ud u end |} in
      (Some (up_ret r, up_off r, u, h), t)
  end.

(** *** Contexts and events *)

Record decoder := {
  de_group_metadata : option pointer;
  de_group_attributes : option pointer;
  de_group_record : unpacked_t;
  de_event : unpacked_t;
  de_unpacked_empty_map : unpacked_t;
  de_empty_map : option pointer;
  de_buffer : bytes;
  de_offset : nat;
  de_previous_offset : nat;
  de_record_base : option nat;
  de_record_length : nat;
  de_last_result : Z;
  de_read_groups : bool }.

Record flb_log_event := {
  ev_group_attributes : option pointer;
  ev_group_metadata : option pointer;
  ev_raw_timestamp : pointer;
  ev_timestamp : flb_time;
  ev_metadata : pointer;
  ev_format : Z;
  ev_body : pointer;
  ev_root : obj }.

(** [flb_log_event_decoder_decode_timestamp]; [inl] is the error. *)
Definition flb_log_event_decoder_decode_timestamp (input : obj) : Z + flb_time :=
  match input with
  | MSGPACK_OBJECT_POSITIVE_INTEGER u => inr {| tv_sec := i64 u; tv_nsec := 0 |}
  | MSGPACK_OBJECT_FLOAT64 b => inr (time_of_f64 b)
  | MSGPACK_OBJECT_EXT type s =>
      if negb (type =? 0) || negb (size s =? 8) then inl FLB_EVENT_DECODER_ERROR_WRONG_TIMESTAMP_TYPE
      else inr {| tv_sec := i32 (load (take 4 s)); tv_nsec := i32 (load (drop 4 s)) |}
  | _ => inl FLB_EVENT_DECODER_ERROR_WRONG_TIMESTAMP_TYPE
  end.

Definition is_timestamp_type (o : obj) : bool :=
  match o with
  | MSGPACK_OBJECT_POSITIVE_INTEGER _ | MSGPACK_OBJECT_FLOAT64 _ | MSGPACK_OBJECT_EXT _ _ => true
  | _ => false
  end.

Definition is_map (o : obj) : bool := match o with MSGPACK_OBJECT_MAP _ => true | _ => false end.

(** The header of a record: the timestamp, the metadata and the format. *)
Definition decode_header (zone : option nat) (empty_map : pointer) (header : obj) :
    Z + (pointer * pointer * Z) :=
  match header with
  | MSGPACK_OBJECT_ARRAY l =>
      match l with
      | [ts; md] =>
          inr ({| pt_zone := zone; pt_obj := ts |}, {| pt_zone := zone; pt_obj := md |},
               FLB_LOG_EVENT_FORMAT_FLUENT_BIT_V2)
      | _ => inl FLB_EVENT_DECODER_ERROR_WRONG_HEADER_SIZE
      end
  | ts => inr ({| pt_zone := zone; pt_obj := ts |}, empty_map, FLB_LOG_EVENT_FORMAT_FORWARD)
  end.

(** [flb_event_decoder_decode_object], of the object [root] in [zone]; the
    record that the caller can take as it is, [record_base] and [record_length],
    is set by the caller of this definition. *)
Definition flb_event_decoder_decode_object (zone : option nat) (empty_map : pointer) (root : obj) :
    Z + flb_log_event :=
  match root with
  | MSGPACK_OBJECT_ARRAY l =>
      match l with
      | [header; body] =>
          match decode_header zone empty_map header with
          | inl err => inl err
          | inr (ts, md, format) =>
              if negb (is_timestamp_type (pt_obj ts)) then inl FLB_EVENT_DECODER_ERROR_WRONG_TIMESTAMP_TYPE
              else if negb (is_map (pt_obj md)) then inl FLB_EVENT_DECODER_ERROR_WRONG_METADATA_TYPE
              else if negb (is_map body) then inl FLB_EVENT_DECODER_ERROR_WRONG_BODY_TYPE
              else match flb_log_event_decoder_decode_timestamp (pt_obj ts) with
                   | inl err => inl err
                   | inr tm =>
                       inr {| ev_group_attributes := None; ev_group_metadata := None;
                              ev_raw_timestamp := ts; ev_timestamp := tm; ev_metadata := md;
                              ev_format := format; ev_body := {| pt_zone := zone; pt_obj := body |};
                              ev_root := root |}
                   end
          end
      | _ => inl FLB_EVENT_DECODER_ERROR_WRONG_ROOT_SIZE
      end
  | _ => inl FLB_EVENT_DECODER_ERROR_WRONG_ROOT_TYPE
  end.

(** [flb_log_event_decoder_get_record_type]: [None] is the result -1. *)
Definition flb_log_event_decoder_get_record_type (tm : flb_time) : option Z :=
  let s := i32 (tv_sec tm) in
  if 0 <=? s then Some FLB_LOG_EVENT_NORMAL
  else if s =? FLB_LOG_EVENT_GROUP_START then Some FLB_LOG_EVENT_GROUP_START
  else if s =? FLB_LOG_EVENT_GROUP_END then Some FLB_LOG_EVENT_GROUP_END
  else None.

(** *** Updates of the context *)

Definition set_result (d : decoder) (r : Z) : decoder :=
  {| de_group_metadata := de_group_metadata d; de_group_attributes := de_group_attributes d;
     de_group_record := de_group_record d; de_event := de_event d;
     de_unpacked_empty_map := de_unpacked_empty_map d; de_empty_map := de_empty_map d;
     de_buffer := de_buffer d; de_offset := de_offset d; de_previous_offset := de_previous_offset d;
     de_record_base := de_record_base d; de_record_length := de_record_length d;
     de_last_result := r; de_read_groups := de_read_groups d |}.

Definition set_event (d : decoder) (u : unpacked_t) (off : nat) : decoder :=
  {| de_group_metadata := de_group_metadata d; de_group_attributes := de_group_attributes d;
     de_group_record := de_group_record d; de_event := u;
     de_unpacked_empty_map := de_unpacked_empty_map d; de_empty_map := de_empty_map d;
     de_buffer := de_buffer d; de_offset := off; de_previous_offset := de_previous_offset d;
     de_record_base := de_record_base d; de_record_length := de_record_length d;
     de_last_result := de_last_result d; de_read_groups := de_read_groups d |}.

Definition set_record (d : decoder) (prev : nat) (base : option nat) (len : nat) : decoder :=
  {| de_group_metadata := de_group_metadata d; de_group_attributes := de_group_attributes d;
     de_group_record := de_group_record d; de_event := de_event d;
     de_unpacked_empty_map := de_unpacked_empty_map d; de_empty_map := de_empty_map d;
     de_buffer := de_buffer d; de_offset := de_offset d; de_previous_offset := prev;
     de_record_base := base; de_record_length := len;
     de_last_result := de_last_result d; de_read_groups := de_read_groups d |}.

Definition set_group (d : decoder) (rec : unpacked_t) (metadata attributes : option pointer) : decoder :=
  {| de_group_metadata := metadata; de_group_attributes := attributes;
     de_group_record := rec; de_event := de_event d;
     de_unpacked_empty_map := de_unpacked_empty_map d; de_empty_map := de_empty_map d;
     de_buffer := de_buffer d; de_offset := de_offset d; de_previous_offset := de_previous_offset d;
     de_record_base := de_record_base d; de_record_length := de_record_length d;
     de_last_result := de_last_result d; de_read_groups := de_read_groups d |}.

Definition with_group (e : flb_log_event) (metadata attributes : option pointer) : flb_log_event :=
  {| ev_group_attributes := attributes; ev_group_metadata := metadata;
     ev_raw_timestamp := ev_raw_timestamp e; ev_timestamp := ev_timestamp e; ev_metadata := ev_metadata e;
     ev_format := ev_format e; ev_body := ev_body e; ev_root := ev_root e |}.

(** *** The iteration *)

(** The result of a call: the code, the event when it was filled, the context,
    the zones.  [None] is a run that does not return, or reads outside of the
    buffer. *)
Definition answer : Type := option (Z * option flb_log_event * decoder * heap) * tape.

(** The group of a record that opens or closes one. *)
Definition track_group (h : heap) (d : decoder) (e : flb_log_event) (record_type : Z) : decoder * heap :=
  let '(h, rec) := msgpack_unpacked_destroy h (de_group_record d) in
  if record_type =? FLB_LOG_EVENT_GROUP_START
  then (set_group d (de_event d) (Some (ev_metadata e)) (Some (ev_body e)), h)
  else (set_group d rec None None, h).

(** The two [unpacked] structures share a zone after a group was opened: the
    event lets go of it without freeing it. *)
Definition release_shared (d : decoder) : decoder :=
  if bool_decide (uz (de_group_record d) = uz (de_event d))
  then set_event d msgpack_unpacked_init (de_offset d) else d.

(** The context just before the record is unpacked. *)
Definition prepared (d : decoder) : decoder := release_shared (set_record d (de_previous_offset d) None 0).

(** The empty map that [init] makes; it is set whenever the decoder works. *)
Definition empty_map_of (d : decoder) : pointer :=
  match de_empty_map d with
  | Some q => q
  | None => {| pt_zone := None; pt_obj := MSGPACK_OBJECT_NIL |}
  end.

(** [flb_log_event_decoder_next] with a context and an event; the call of
    itself after a group record takes fuel. *)
Fixpoint next (fuel : nat) (t : tape) (h : heap) (d : decoder) : answer :=
  match fuel with
  | O => (None, t)
  | S f =>
      if (length (de_buffer d) =? 0)%nat then
        let d := set_result d FLB_EVENT_DECODER_ERROR_INSUFFICIENT_DATA in
        (Some (de_last_result d, None, d, h), t)
      else
        let d := prepared d in
        let previous_offset := de_offset d in
        match unpack_next t h (de_event d) (de_buffer d) (de_offset d) with
        | (None, t) => (None, t)
        | (Some (ret, off, u, h), t) =>
            let d := set_event d u off in
            if ret =? MSGPACK_UNPACK_CONTINUE then
              let d := set_result d FLB_EVENT_DECODER_ERROR_INSUFFICIENT_DATA in
              (Some (de_last_result d, None, d, h), t)
            else if negb (ret =? MSGPACK_UNPACK_SUCCESS) then
              let d := set_result d FLB_EVENT_DECODER_ERROR_DESERIALIZATION_FAILURE in
              (Some (de_last_result d, None, d, h), t)
            else
              match flb_event_decoder_decode_object (uz u) (empty_map_of d) (ud u) with
              | inl err =>
                  let d := set_result (set_record d previous_offset None 0) err in
                  (Some (err, None, d, h), t)
              | inr e =>
                  let d := set_record d previous_offset (Some previous_offset) (off - previous_offset) in
                  let d := set_result d FLB_EVENT_DECODER_SUCCESS in
                  match flb_log_event_decoder_get_record_type (ev_timestamp e) with
                  | None =>
                      let d := set_group d (de_group_record d) None None in
                      let d := set_result d FLB_EVENT_DECODER_ERROR_DESERIALIZATION_FAILURE in
                      (Some (de_last_result d, Some e, d, h), t)
                  | Some record_type =>
                      if negb (record_type =? FLB_LOG_EVENT_NORMAL) then
                        let '(d, h) := track_group h d e record_type in
                        if negb (de_read_groups d) then next f t h d
                        else (Some (de_last_result d, Some e, d, h), t)
                      else
                        (Some (de_last_result d,
                               Some (with_group e (de_group_metadata d) (de_group_attributes d)), d, h), t)
                  end
              end
        end
  end.

(** The call, with the checks of its arguments. *)
Definition flb_log_event_decoder_next (t : tape) (h : heap) (context : option decoder) (event_given : bool) :
    option (Z * option flb_log_event * option decoder * heap) * tape :=
  match context with
  | None => (Some (FLB_EVENT_DECODER_ERROR_INVALID_CONTEXT, None, None, h), t)
  | Some d =>
      if negb event_given && negb (length (de_buffer d) =? 0)%nat then
        let d := set_result (set_record d (de_previous_offset d) None 0) FLB_EVENT_DECODER_ERROR_INVALID_ARGUMENT in
        (Some (de_last_result d, None, Some d, h), t)
      else
        match next (S (length (de_buffer d) - de_offset d)) t h d with
        | (None, t) => (None, t)
        | (Some (ret, e, d, h), t) => (Some (ret, e, Some d, h), t)
        end
  end.

Definition flb_log_event_decoder_get_last_result (d : decoder) : Z * decoder :=
  let d :=
    if (de_last_result d =? FLB_EVENT_DECODER_ERROR_INSUFFICIENT_DATA) &&
       (de_offset d =? length (de_buffer d))%nat
    then set_result d FLB_EVENT_DECODER_SUCCESS else d in
  (de_last_result d, d).

(** *** Making, resetting and destroying a decoder *)

Definition flb_log_event_decoder_reset (h : heap) (d : decoder) (input : bytes) : heap * decoder :=
  let '(h, _) := msgpack_unpacked_destroy h (de_group_record d) in
  let '(h, _) := msgpack_unpacked_destroy h (de_event d) in
  (h, {| de_group_metadata := None; de_group_attributes := None;
         de_group_record := msgpack_unpacked_init; de_event := msgpack_unpacked_init;
         de_unpacked_empty_map := de_unpacked_empty_map d; de_empty_map := de_empty_map d;
         de_buffer := input; de_offset := 0; de_previous_offset := de_previous_offset d;
         de_record_base := de_record_base d; de_record_length := de_record_length d;
         de_last_result := FLB_EVENT_DECODER_ERROR_INSUFFICIENT_DATA; de_read_groups := de_read_groups d |}).

(** [create_empty_map]: an empty map is packed and unpacked. *)
Definition create_empty_map (t : tape) (h : heap) : Z * unpacked_t * option pointer * heap * tape :=
  let '(w, sb, t) := msgpack_sbuffer_write t Msgpack.msgpack_sbuffer_init (msgpack_pack_map 0) in
  if negb (w =? 0) then
    (FLB_EVENT_DECODER_ERROR_INITIALIZATION_FAILURE, msgpack_unpacked_init, None, h, t)
  else
    match unpack_next t h msgpack_unpacked_init (content sb) 0 with
    | (Some (ret, _, u, h), t) =>
        if negb (ret =? MSGPACK_UNPACK_SUCCESS)
        then (FLB_EVENT_DECODER_ERROR_INITIALIZATION_FAILURE, u, None, h, t)
        else (FLB_EVENT_DECODER_SUCCESS, u, Some {| pt_zone := uz u; pt_obj := ud u |}, h, t)
    | (None, t) => (FLB_EVENT_DECODER_ERROR_INITIALIZATION_FAILURE, msgpack_unpacked_init, None, h, t)
    end.

Definition flb_log_event_decoder_init (t : tape) (h : heap) (input : bytes) : Z * decoder * heap * tape :=
  let '(ret, u, em, h, t) := create_empty_map t h in
  (ret,
   {| de_group_metadata := None; de_group_attributes := None;
      de_group_record := msgpack_unpacked_init; de_event := msgpack_unpacked_init;
      de_unpacked_empty_map := u; de_empty_map := em;
      de_buffer := input; de_offset := 0; de_previous_offset := 0;
      de_record_base := None; de_record_length := 0;
      de_last_result := FLB_EVENT_DECODER_ERROR_INSUFFICIENT_DATA; de_read_groups := false |}, h, t).

Definition flb_log_event_decoder_read_groups (d : decoder) (read_groups : bool) : decoder :=
  {| de_group_metadata := de_group_metadata d; de_group_attributes := de_group_attributes d;
     de_group_record := de_group_record d; de_event := de_event d;
     de_unpacked_empty_map := de_unpacked_empty_map d; de_empty_map := de_empty_map d;
     de_buffer := de_buffer d; de_offset := de_offset d; de_previous_offset := de_previous_offset d;
     de_record_base := de_record_base d; de_record_length := de_record_length d;
     de_last_result := de_last_result d; de_read_groups := read_groups |}.

Definition flb_log_event_decoder_destroy (h : heap) (d : decoder) : heap :=
  let d := release_shared d in
  let '(h, _) := msgpack_unpacked_destroy h (de_group_record d) in
  let '(h, _) := msgpack_unpacked_destroy h (de_unpacked_empty_map d) in
  let '(h, _) := msgpack_unpacked_destroy h (de_event d) in
  h.

(** The loop of the callers: events until [next] does not succeed. *)
Fixpoint read_all (fuel : nat) (t : tape) (h : heap) (d : decoder) : option (list flb_log_event * decoder * heap) :=
  match fuel with
  | O => None
  | S f =>
      match flb_log_event_decoder_next t h (Some d) true with
      | (Some (ret, Some e, Some d, h), t) =>
          if ret =? FLB_EVENT_DECODER_SUCCESS
          then match read_all f t h d with
               | Some (l, d, h) => Some (e :: l, d, h)
               | None => None
               end
          else Some ([], d, h)
      | (Some (_, None, Some d, h), _) => Some ([], d, h)
      | _ => None
      end
  end.

End Decoder.

(** ** What the encoder writes *)

Module EncoderFacts.
Import Encoder.

(** What is known of a field: its content and its open scopes. *)
Definition field_is (f : field) (c : bytes) (scs : list scope) : Prop :=
  sb_ok (fd_buffer f) /\ content (fd_buffer f) = c /\ fd_scopes f = scs.

Definition bump (scs : list scope) : list scope :=
  match scs with
  | [] => []
  | sc :: l => {| sc_offset := sc_offset sc; sc_header := flb_mp_map_header_append (sc_header sc);
                  sc_type := sc_type sc |} :: l
  end.

Lemma field_append_is f c scs : field_is f c scs -> field_is (field_append f) c (bump scs).
Proof. intros (H1 & H2 & <-). unfold field_append. destruct (fd_scopes f) eqn:E; split_and!; done. Qed.

Lemma append_value_is f c scs inc v bufs :
  field_is f c scs -> value_writes v = inr bufs ->
  exists f', field_append_value [] f inc v = (0, f', []) /\
    field_is f' (c ++ concat bufs) (if inc then bump scs else scs).
Proof.
  intros Hf Hv. unfold field_append_value.
  set (g := if inc then field_append f else f).
  assert (Hg : field_is g c (if inc then bump scs else scs)).
  { unfold g. destruct inc; [by apply field_append_is|done]. }
  destruct Hg as (Hs & Hc & Hsc). destruct (write_all_ok bufs (fd_buffer g) Hs) as (sb & E & Hs' & Hc').
  exists (set_buffer g sb). rewrite Hv, E.
  split; [by destruct v|]. split_and!; [done| |done]. cbn [set_buffer fd_buffer]. by rewrite Hc', Hc.
Qed.

(** The 32-bit header of an open container. *)
Definition header32 (type : container) (n : Z) : bytes :=
  match type with CMap => 0xdf :: store 4 n | CArray => 0xdd :: store 4 n end.

Definition new_scope (c : bytes) (type : container) : scope :=
  {| sc_offset := length c; sc_header := {| mh_offset := length c; mh_entries := 0 |}; sc_type := type |}.

Lemma content_length sb : sb_ok sb -> length (content sb) = sb_size sb.
Proof. intros [H _]. unfold content. rewrite length_take. lia. Qed.

Lemma scope_enter_is f c scs type : field_is f c scs ->
  exists f', scope_enter [] f type = (0, f', []) /\
    field_is f' (c ++ header32 type 65536) (new_scope c type :: bump scs).
Proof.
  intros Hf. apply field_append_is in Hf. destruct Hf as (Hs & Hc & Hsc).
  unfold scope_enter. cbn [flb_malloc negb].
  destruct (write_ok (fd_buffer (field_append f)) (header32 type 65536) Hs) as (sb & E & Hs' & Hc').
  assert (Hl : sb_size (fd_buffer (field_append f)) = length c) by (by rewrite <- Hc, content_length).
  eexists. destruct type; unfold flb_mp_map_header_init, flb_mp_array_header_init, mp_header_type_init;
    change (msgpack_pack_map 65536) with (header32 CMap 65536);
    change (msgpack_pack_array 65536) with (header32 CArray 65536);
    rewrite E, Hl; (split; [reflexivity|]);
    unfold field_is; cbn [set_scopes set_buffer fd_buffer fd_scopes]; rewrite Hc', Hc, Hsc; done.
Qed.

(** Closing a container writes the number of its entries in its header. *)
Lemma poke_content sb off s : sb_ok sb -> (off + length s <= sb_size sb)%nat ->
  sb_ok (poke sb off s) /\
  content (poke sb off s) = take off (content sb) ++ s ++ drop (off + length s) (content sb).
Proof.
  intros [H1 H2] H. unfold sb_ok, content, poke. cbn [sb_size sb_data sb_alloc].
  rewrite !length_app, length_take, length_drop. split; [lia|].
  rewrite app_assoc, take_app_ge by (rewrite length_app, length_take; lia).
  rewrite length_app, length_take, take_take, <- app_assoc.
  f_equal; [f_equal; lia|]. f_equal. rewrite skipn_firstn_comm. f_equal. lia.
Qed.

Lemma set_header_size c0 type n m body sb :
  sb_ok sb -> content sb = c0 ++ header32 type n ++ body ->
  let sb' := match type with
             | CMap => flb_mp_set_map_header_size sb (length c0) m
             | CArray => flb_mp_set_array_header_size sb (length c0) m
             end in
  sb_ok sb' /\ content sb' = c0 ++ header32 type m ++ body.
Proof.
  intros Hs Hc. assert (Hlen := content_length sb Hs). rewrite Hc, !length_app in Hlen.
  assert (Hh : length (header32 type n) = 5%nat) by (by destruct type).
  set (b := match type with CMap => 0xdf | CArray => 0xdd end).
  assert (Hb : header32 type n = b :: store 4 n) by (by destruct type).
  assert (Hat : sb_data sb !! length c0 = Some b).
  { rewrite <- (lookup_take_lt (sb_data sb) (sb_size sb)) by lia. fold (content sb).
    by rewrite Hc, lookup_app_r, Nat.sub_diag, Hb by lia. }
  destruct (poke_content sb (S (length c0)) (store 4 m) Hs) as [H1 H2]; [rewrite length_store; lia|].
  assert (Hgoal : content (poke sb (S (length c0)) (store 4 m)) = c0 ++ (b :: store 4 m) ++ body).
  { rewrite H2, Hc, Hb, length_store.
    change (c0 ++ (b :: store 4 n) ++ body) with (c0 ++ [b] ++ store 4 n ++ body).
    rewrite (app_assoc c0 [b]).
    replace (S (length c0)) with (length (c0 ++ [b])) by (rewrite length_app; simpl; lia).
    rewrite take_app_length. replace (length (c0 ++ [b]) + 4)%nat with (length ((c0 ++ [b]) ++ store 4 n))
      by (rewrite length_app, length_store; lia).
    rewrite (app_assoc _ (store 4 n) body), drop_app_length, <- !app_assoc. done. }
  unfold flb_mp_set_map_header_size, flb_mp_set_array_header_size. rewrite Hat.
  destruct type; simpl; split; [exact H1|exact Hgoal|exact H1|exact Hgoal].
Qed.

Definition scope_count (sc : scope) : Z :=
  match sc_type sc with CMap => mh_entries (sc_header sc) / 2 | CArray => mh_entries (sc_header sc) end.

Lemma scope_leave_is f c0 body sc scs n :
  field_is f (c0 ++ header32 (sc_type sc) n ++ body) (sc :: scs) ->
  mh_offset (sc_header sc) = length c0 ->
  exists f', scope_leave f true = (0, f') /\
    field_is f' (c0 ++ header32 (sc_type sc) (scope_count sc) ++ body) scs.
Proof.
  intros (Hs & Hc & Hsc) Ho. unfold scope_leave. rewrite Hsc. eexists. split; [reflexivity|].
  assert (H := set_header_size c0 (sc_type sc) n (scope_count sc) body (fd_buffer f) Hs Hc).
  unfold scope_count in *. unfold flb_mp_map_header_end, flb_mp_array_header_end.
  destruct (sc_type sc); cbn [mh_offset mh_entries] in *; rewrite Ho; destruct H; split_and!; done.
Qed.

(** *** Values of records, as plugins append them

    A value is appended as an object, as a string, or between the begin and the
    commit of a map or an array. *)

Inductive item :=
  | IObj (o : obj)
  | IStr (s : bytes)
  | IArr (l : list item)
  | IMap (l : list (item * item)).

(** The elements of a list, one append after the other. *)
Definition append_each {A} (f : tape -> encoder -> A -> Z * encoder * tape) :
    tape -> encoder -> list A -> Z * encoder * tape :=
  fix go t c l :=
    match l with
    | [] => (FLB_EVENT_ENCODER_SUCCESS, c, t)
    | x :: l => and_then (f t c x) (λ t c, go t c l)
    end.

Fixpoint append_item (tf : target) (t : tape) (c : encoder) (i : item) : Z * encoder * tape :=
  match i with
  | IObj o => append_msgpack_object t c tf (Some o)
  | IStr s => append_string t c tf s
  | IArr l =>
      and_then (begin_array t c tf) (λ t c,
      and_then (append_each (λ t c i, append_item tf t c i) t c l) (λ t c, commit_array t c tf))
  | IMap l =>
      and_then (begin_map t c tf) (λ t c,
      and_then (append_each (λ t c kv, and_then (append_item tf t c kv.1) (λ t c, append_item tf t c kv.2)) t c l)
        (λ t c, commit_map t c tf))
  end.

Definition append_pair (tf : target) (t : tape) (c : encoder) (kv : item * item) : Z * encoder * tape :=
  and_then (append_item tf t c kv.1) (λ t c, append_item tf t c kv.2).

(** The object that is meant, and the bytes that are written. *)
Fixpoint item_obj (i : item) : obj :=
  match i with
  | IObj o => o
  | IStr s => MSGPACK_OBJECT_STR s
  | IArr l => MSGPACK_OBJECT_ARRAY (map item_obj l)
  | IMap l => MSGPACK_OBJECT_MAP (map (λ kv, (item_obj kv.1, item_obj kv.2)) l)
  end.

Fixpoint item_bytes (i : item) : bytes :=
  match i with
  | IObj o => pack o
  | IStr s => msgpack_pack_str (size s) ++ s
  | IArr l => header32 CArray (Z.of_nat (length l)) ++ concat (map item_bytes l)
  | IMap l =>
      header32 CMap (Z.of_nat (length l)) ++ concat (map (λ kv, item_bytes kv.1 ++ item_bytes kv.2) l)
  end.

Definition pair_obj (kv : item * item) : obj * obj := (item_obj kv.1, item_obj kv.2).
Definition pair_bytes (kv : item * item) : bytes := item_bytes kv.1 ++ item_bytes kv.2.

Fixpoint item_wf (i : item) : Prop :=
  match i with
  | IObj o => wf o
  | IStr s => is_bytes s /\ size s < 2 ^ 32
  | IArr l => Z.of_nat (length l) < 2 ^ 32 /\ foldr and True (map item_wf l)
  | IMap l => Z.of_nat (length l) < 2 ^ 32 /\ foldr and True (map (λ kv, item_wf kv.1 /\ item_wf kv.2) l)
  end.

Lemma item_ind' (P : item -> Prop)
  (HO : forall o, P (IObj o)) (HS : forall s, P (IStr s))
  (HA : forall l, Forall P l -> P (IArr l))
  (HM : forall l, Forall (λ kv, P kv.1 /\ P kv.2) l -> P (IMap l)) :
  forall i, P i.
Proof.
  fix IH 1. intros [o|s|l|l]; [apply HO|apply HS|apply HA|apply HM].
  - induction l as [|o l IHl]; constructor; auto.
  - induction l as [|[k v] l IHl]; constructor; auto.
Qed.

Lemma leads_header32 type n : 0 <= n < 2 ^ 32 -> leads (header32 type n) (StartContainer type n).
Proof.
  intros H. destruct type; (eapply leads_cons; [done|apply size_store|done|]); trail_value;
    by rewrite load_store_small by lia.
Qed.

(** The machine of Msgpack.v reads what was written as the object meant. *)
Lemma item_reads i : item_wf i -> reads (item_obj i) (item_bytes i).
Proof.
  induction i as [o|s|l IH|l IH] using item_ind'; cbn [item_wf item_obj item_bytes].
  - apply reads_pack.
  - intros [_ H]. by eapply reads_variable; [apply leads_str, H| |].
  - rewrite foldr_and_Forall. intros [Hl Hw]. apply reads_array.
    + rewrite length_map. apply leads_header32. lia.
    + apply Forall2_fmap_l, Forall2_fmap_r, Forall_Forall2_diag, Forall_forall.
      rewrite Forall_forall in IH, Hw. auto.
  - rewrite foldr_and_Forall. intros [Hl Hw].
    replace (map (λ kv, item_bytes kv.1 ++ item_bytes kv.2) l)
      with (map kv_bytes (map (λ kv, (item_bytes kv.1, item_bytes kv.2)) l)) by (by rewrite map_map).
    apply reads_map; [rewrite length_map; apply leads_header32; lia|].
    apply Forall2_fmap_l, Forall2_fmap_r, Forall_Forall2_diag, Forall_forall.
    rewrite Forall_forall in IH, Hw. intros kv Hkv.
    destruct (IH kv Hkv), (Hw kv Hkv). split; simpl; auto.
Qed.

(** *** The appends write those bytes *)

Lemma get_set_field c tf f : get_field (set_field c tf f) tf = f.
Proof. by destruct tf. Qed.
Lemma set_set_field c tf f g : set_field (set_field c tf f) tf g = set_field c tf g.
Proof. by destruct tf. Qed.
Lemma set_get_field c tf : set_field c tf (get_field c tf) = c.
Proof. by destruct c, tf. Qed.

(** [adds f x k]: on a field whose content is known, the append [f] of [x] succeeds,
    writes the bytes [b] and counts [k] entries in the innermost scope. *)
Definition adds (tf : target) (r : encoder -> Z * encoder * tape) (b : bytes) (k : nat) : Prop :=
  forall c cont scs, field_is (get_field c tf) cont scs ->
  exists f', r c = (0, set_field c tf f', []) /\ field_is f' (cont ++ b) (Nat.iter k bump scs).

Lemma adds_value tf v bufs (inc : bool) : value_writes v = inr bufs ->
  adds tf (λ c, append_value [] c tf inc v) (concat bufs) (if inc then 1 else 0).
Proof.
  intros Hv c cont scs Hf. destruct (append_value_is _ _ _ inc v bufs Hf Hv) as (f' & E & Hf').
  exists f'. unfold append_value. rewrite E. split; [done|]. by destruct inc.
Qed.

Lemma adds_then tf r1 r2 b1 b2 k1 k2 :
  adds tf r1 b1 k1 -> adds tf (r2 []) b2 k2 ->
  adds tf (λ c, and_then (r1 c) r2) (b1 ++ b2) (k2 + k1).
Proof.
  intros H1 H2 c cont scs Hf. destruct (H1 c cont scs Hf) as (f1 & E1 & Hf1).
  destruct (H2 (set_field c tf f1) (cont ++ b1) (Nat.iter k1 bump scs)) as (f2 & E2 & Hf2);
    [by rewrite get_set_field|].
  exists f2. rewrite E1. cbn [and_then]. simpl. rewrite E2, set_set_field. split; [done|].
  rewrite app_assoc, Nat.iter_add. done.
Qed.

Lemma adds_each {A} tf (f : tape -> encoder -> A -> Z * encoder * tape) (enc : A -> bytes) k l :
  Forall (λ x, adds tf (λ c, f [] c x) (enc x) k) l ->
  adds tf (λ c, append_each f [] c l) (concat (map enc l)) (length l * k).
Proof.
  induction 1 as [|x l Hx Hl IH].
  - intros c cont scs Hf. exists (get_field c tf). simpl. rewrite set_get_field, app_nil_r. done.
  - cbn [map concat length]. rewrite Nat.mul_succ_l.
    apply (adds_then tf (λ c, f [] c x) (λ t c, append_each f t c l) _ _ k (length l * k) Hx IH).
Qed.

(** The count of a scope that was entered and got [n] entries. *)
Lemma iter_bump n sc scs :
  Nat.iter n bump (sc :: scs) =
  {| sc_offset := sc_offset sc; sc_type := sc_type sc;
     sc_header := {| mh_offset := mh_offset (sc_header sc);
                     mh_entries := mh_entries (sc_header sc) + Z.of_nat n |} |} :: scs.
Proof.
  induction n as [|n IH]; [destruct sc as [? [? ?] ?]; simpl; by rewrite Z.add_0_r|].
  simpl Nat.iter. rewrite IH. cbn [bump sc_offset sc_type sc_header flb_mp_map_header_append mh_offset mh_entries].
  by replace (mh_entries (sc_header sc) + Z.of_nat (S n)) with (mh_entries (sc_header sc) + Z.of_nat n + 1) by lia.
Qed.

(** A container: begin, the appends of its entries, commit. *)
Lemma adds_container tf type (r : tape -> encoder -> Z * encoder * tape) b k :
  adds tf (r []) b k ->
  adds tf
    (λ c, and_then (on_field c tf (scope_enter [] (get_field c tf) type)) (λ t c,
          and_then (r t c) (λ t c, on_field c tf (scope_leave (get_field c tf) true, t))))
    (header32 type (match type with CMap => Z.of_nat k / 2 | CArray => Z.of_nat k end) ++ b) 1.
Proof.
  intros Hr c cont scs Hf. destruct (scope_enter_is _ _ _ type Hf) as (f1 & E1 & Hf1).
  rewrite E1. cbn [on_field and_then].
  destruct (Hr (set_field c tf f1) _ _ ltac:(rewrite get_set_field; exact Hf1)) as (f2 & E2 & Hf2).
  rewrite iter_bump in Hf2. cbn [Z.eqb FLB_EVENT_ENCODER_SUCCESS]. rewrite E2, set_set_field. cbn [and_then].
  rewrite <- app_assoc in Hf2.
  cbn [new_scope sc_offset sc_header sc_type mh_offset mh_entries] in Hf2. rewrite Z.add_0_l in Hf2.
  destruct (scope_leave_is f2 cont b
    {| sc_offset := length cont; sc_header := {| mh_offset := length cont; mh_entries := Z.of_nat k |};
       sc_type := type |} (bump scs) 65536 Hf2 eq_refl) as (f3 & E3 & Hf3).
  exists f3. simpl. rewrite get_set_field, E3. cbn [on_field]. rewrite set_set_field. split; [done|].
  exact Hf3.
Qed.

Lemma append_string_adds tf s :
  adds tf (λ c, append_string [] c tf s) (msgpack_pack_str (size s) ++ s) 1.
Proof.
  assert (H1 := adds_value tf (STRING_LENGTH (size s)) [msgpack_pack_str (size s)] true eq_refl).
  assert (H2 := adds_value tf (STRING_BODY (Some s)) [s] false eq_refl).
  cbn [concat] in *. rewrite app_nil_r in *.
  apply (adds_then tf _ (λ t c, append_string_body t c tf (Some s)) _ _ _ _ H1 H2).
Qed.

Lemma append_item_adds tf i : adds tf (λ c, append_item tf [] c i) (item_bytes i) 1.
Proof.
  induction i as [o|s|l IH|l IH] using item_ind'.
  - apply (adds_value tf (MSGPACK_OBJECT (Some o)) (msgpack_pack_object o) true eq_refl).
  - apply append_string_adds.
  - assert (H := adds_each tf (λ t c i, append_item tf t c i) item_bytes 1 l IH). rewrite Nat.mul_1_r in H.
    exact (adds_container tf CArray _ _ _ H).
  - assert (H := adds_each tf (append_pair tf) pair_bytes 2 l).
    assert (H' : adds tf (λ c, append_each (append_pair tf) [] c l) (concat (map pair_bytes l)) (length l * 2)).
    { apply H. eapply Forall_impl; [exact IH|]. intros kv [Hk Hv].
      apply (adds_then tf _ (λ t c, append_item tf t c kv.2) _ _ 1 1 Hk Hv). }
    apply (adds_container tf CMap (λ t c, append_each (append_pair tf) t c l)) in H'.
    rewrite Nat2Z.inj_mul, Z.div_mul in H' by lia. exact H'.
Qed.

(** *** A record as a whole *)

Definition encode_pairs (t : tape) (c : encoder) (metadata body : list (item * item)) : Z * encoder * tape :=
  and_then (append_each (append_pair FLB_LOG_EVENT_METADATA) t c metadata) (λ t c,
  append_each (append_pair FLB_LOG_EVENT_BODY) t c body).

(** What is encoded: records, and the marks that open and close a group. *)
Inductive entry :=
  | Record (tm : flb_time) (metadata body : list (item * item))
  | GroupStart (metadata attributes : list (item * item))
  | GroupEnd.

(** The calls that encode an entry. *)
Definition encode_entry (t : tape) (c : encoder) (e : entry) : Z * encoder * tape :=
  match e with
  | Record tm metadata body =>
      and_then (flb_log_event_encoder_begin_record t c) (λ t c,
      let c := flb_log_event_encoder_set_timestamp c tm in
      and_then (encode_pairs t c metadata body) flb_log_event_encoder_commit_record)
  | GroupStart metadata attributes =>
      and_then (flb_log_event_encoder_group_init t c) (λ t c,
      and_then (encode_pairs t c metadata attributes) flb_log_event_encoder_group_header_end)
  | GroupEnd => flb_log_event_encoder_group_end t c
  end.

Definition entry_time (e : entry) : flb_time :=
  match e with
  | Record tm _ _ => tm
  | GroupStart _ _ => {| tv_sec := FLB_LOG_EVENT_GROUP_START; tv_nsec := 0 |}
  | GroupEnd => {| tv_sec := FLB_LOG_EVENT_GROUP_END; tv_nsec := 0 |}
  end.
Definition entry_metadata (e : entry) : list (item * item) :=
  match e with Record _ m _ | GroupStart m _ => m | GroupEnd => [] end.
Definition entry_body (e : entry) : list (item * item) :=
  match e with Record _ _ b | GroupStart _ b => b | GroupEnd => [] end.

Definition is_v2 (format : Z) : bool := format =? FLB_LOG_EVENT_FORMAT_FLUENT_BIT_V2.

(** The bytes of an entry. *)
Definition record_bytes (format : Z) (tm : flb_time) (metadata body : list (item * item)) : bytes :=
  let ts := msgpack_pack_ext 8 0 ++ eventtime tm in
  header32 CArray 2 ++
  (if is_v2 format then header32 CArray 2 ++ ts ++ item_bytes (IMap metadata) else ts) ++
  item_bytes (IMap body).

Definition entry_bytes (format : Z) (e : entry) : bytes :=
  record_bytes format (entry_time e) (entry_metadata e) (entry_body e).

(** An encoder between two records. *)
Definition field_empty (f : field) : Prop := field_is f [] [] /\ fd_size f = O.

Definition clean (c : encoder) : Prop :=
  field_empty (en_metadata c) /\ field_empty (en_body c) /\ field_empty (en_root c) /\
  sb_ok (en_buffer c) /\ en_output_length c = sb_size (en_buffer c).

Lemma clear_ok sb : sb_ok sb -> sb_ok (msgpack_sbuffer_clear sb).
Proof. intros []. unfold sb_ok. simpl. lia. Qed.

Lemma reset_empty f c : field_is f c [] -> field_empty (field_reset f).
Proof.
  intros (Hs & _ & Hsc). unfold field_reset, field_flush_scopes. cbn [set_buffer fd_scopes]. rewrite Hsc.
  split; [|done]. split; [by apply clear_ok|]. done.
Qed.

(** Flushing a field with one open scope closes it. *)
Lemma flush_is f type body sc n :
  field_is f (header32 type n ++ body) [sc] -> sc_type sc = type -> mh_offset (sc_header sc) = O ->
  let b := header32 type (scope_count sc) ++ body in
  field_is (field_flush f) b [] /\ data_of (field_flush f) = Some b /\ field_bytes (field_flush f) = b /\
  fd_size (field_flush f) = length b.
Proof.
  intros Hf <- Ho. destruct (scope_leave_is f [] body sc [] n Hf Ho) as (f' & E & Hs' & Hc' & Hsc').
  cbn [app] in Hc'. assert (Hl := content_length _ Hs'). rewrite Hc' in Hl.
  unfold data_of, field_bytes, field_flush, field_flush_scopes. destruct Hf as (_ & _ & ->).
  cbn [length flush_scopes]. rewrite E. cbn [snd fd_buffer fd_scopes fd_data fd_size].
  fold (content (fd_buffer f')). rewrite Hc'.
  assert (sb_alloc (fd_buffer f') <> 0).
  { destruct Hs' as [_ Ha]. rewrite <- Hl in Ha. destruct (sc_type sc); simpl length in Ha; lia. }
  destruct (Z.eqb_spec (sb_alloc (fd_buffer f')) 0); [done|]. cbn [negb].
  split_and!; [done..|lia].
Qed.

Lemma and_then_ok c t k : and_then (0, c, t) k = k t c.
Proof. done. Qed.

Lemma begin_record_ok c : clean c ->
  exists c', flb_log_event_encoder_begin_record [] c = (0, c', []) /\
    field_is (en_metadata c') (header32 CMap 65536) [new_scope [] CMap] /\
    field_is (en_body c') (header32 CMap 65536) [new_scope [] CMap] /\
    field_empty (en_root c') /\ en_buffer c' = en_buffer c /\ en_format c' = en_format c.
Proof.
  intros ([Hm _] & [Hb _] & [Hr _] & _). apply reset_empty in Hm as [Hm _], Hb as [Hb _], Hr.
  unfold flb_log_event_encoder_begin_record.
  destruct (scope_enter_is _ _ _ CMap Hm) as (f1 & E1 & Hf1).
  destruct (scope_enter_is _ _ _ CMap Hb) as (f2 & E2 & Hf2).
  unfold begin_map, field_begin_map. cbn [get_field flb_log_event_encoder_reset_record en_metadata].
  rewrite E1. cbn [on_field set_field en_body en_metadata en_root en_buffer en_format en_output_length en_timestamp].
  cbn [get_field set_field flb_log_event_encoder_reset_record en_body]. rewrite E2. eexists. split; [reflexivity|]. by split_and!.
Qed.

(** The metadata and the body of the caller are in their fields. *)
Lemma encode_pairs_ok c metadata body :
  field_is (en_metadata c) (header32 CMap 65536) [new_scope [] CMap] ->
  field_is (en_body c) (header32 CMap 65536) [new_scope [] CMap] ->
  exists c', encode_pairs [] c metadata body = (0, c', []) /\
    data_of (field_flush (en_metadata c')) = Some (item_bytes (IMap metadata)) /\
    field_is (field_flush (en_metadata c')) (item_bytes (IMap metadata)) [] /\
    data_of (field_flush (en_body c')) = Some (item_bytes (IMap body)) /\
    field_is (field_flush (en_body c')) (item_bytes (IMap body)) [] /\
    en_root c' = en_root c /\ en_buffer c' = en_buffer c /\ en_format c' = en_format c /\
    en_timestamp c' = en_timestamp c.
Proof.
  intros Hm Hb.
  assert (Hpairs : forall tf l, adds tf (λ c, append_each (append_pair tf) [] c l)
    (concat (map pair_bytes l)) (length l * 2)).
  { intros tf l. apply adds_each, Forall_forall. intros kv _.
    apply (adds_then tf _ (λ t c, append_item tf t c kv.2) _ _ 1 1); apply append_item_adds. }
  assert (Hfl : forall f l,
    field_is f (header32 CMap 65536 ++ concat (map pair_bytes l)) (Nat.iter (length l * 2) bump [new_scope [] CMap]) ->
    data_of (field_flush f) = Some (item_bytes (IMap l)) /\ field_is (field_flush f) (item_bytes (IMap l)) []).
  { intros f l Hf. rewrite iter_bump in Hf.
    apply (flush_is f CMap) in Hf as (H1 & H2 & _); [|done|done].
    unfold scope_count in *. cbn [new_scope sc_type sc_header mh_entries] in *.
    rewrite Z.add_0_l, Nat2Z.inj_mul, Z.div_mul in * by lia. done. }
  unfold encode_pairs.
  destruct (Hpairs FLB_LOG_EVENT_METADATA metadata c _ _ Hm) as (f1 & E1 & Hf1). rewrite E1, and_then_ok.
  destruct (Hpairs FLB_LOG_EVENT_BODY body (set_field c FLB_LOG_EVENT_METADATA f1) _ _ Hb) as (f2 & E2 & Hf2).
  rewrite E2. eexists. split; [reflexivity|].
  cbn [set_field en_metadata en_body en_root en_buffer en_format en_timestamp].
  destruct (Hfl _ _ Hf1), (Hfl _ _ Hf2). by split_and!.
Qed.

Lemma append_raw_adds tf s : adds tf (λ c, append_raw_msgpack [] c tf (Some s)) s 1.
Proof.
  assert (H := adds_value tf (MSGPACK_RAW (Some s)) [s] true eq_refl).
  cbn [concat] in H. by rewrite app_nil_r in H.
Qed.

Definition good_format (format : Z) : Prop :=
  format = FLB_LOG_EVENT_FORMAT_FORWARD \/ format = FLB_LOG_EVENT_FORMAT_FLUENT_BIT_V2.

Lemma append_forward_adds tf tm :
  adds tf (λ c, append_forward_v1_timestamp [] c tf tm) (msgpack_pack_ext 8 0 ++ eventtime tm) 1.
Proof.
  assert (H1 := adds_value tf (EXT_LENGTH 0 8) [msgpack_pack_ext 8 0] true eq_refl).
  assert (H2 := adds_value tf (EXT_BODY (Some (eventtime tm))) [eventtime tm] false eq_refl).
  cbn [concat] in *. rewrite app_nil_r in *.
  exact (adds_then tf _ (λ t c, append_ext_body t c tf (Some (eventtime tm))) _ _ _ _ H1 H2).
Qed.

Lemma append_timestamp_ok c tf tm cont scs : good_format (en_format c) -> field_is (get_field c tf) cont scs ->
  exists f', append_timestamp [] c tf tm = (0, set_field c tf f', []) /\
    field_is f' (cont ++ msgpack_pack_ext 8 0 ++ eventtime tm) (bump scs).
Proof.
  intros Hg Hf. destruct (append_forward_adds tf tm c cont scs Hf) as (f' & E & H). exists f'. split; [|done].
  unfold append_timestamp. destruct Hg as [-> | ->]; exact E.
Qed.

(** The other parts of a context whose root field changed. *)
Section Root.
Context (c : encoder) (f : field).
Lemma root_root : en_root (set_field c FLB_LOG_EVENT_ROOT f) = f.
Proof. done. Qed.
Lemma root_metadata : en_metadata (set_field c FLB_LOG_EVENT_ROOT f) = en_metadata c.
Proof. done. Qed.
Lemma root_body : en_body (set_field c FLB_LOG_EVENT_ROOT f) = en_body c.
Proof. done. Qed.
Lemma root_timestamp : en_timestamp (set_field c FLB_LOG_EVENT_ROOT f) = en_timestamp c.
Proof. done. Qed.
End Root.

Ltac root_simpl := rewrite ?and_then_ok, ?set_set_field, ?root_root, ?root_metadata, ?root_body, ?root_timestamp.

Lemma root_begin c f cont scs : field_is f cont scs ->
  exists f', begin_array [] (set_field c FLB_LOG_EVENT_ROOT f) FLB_LOG_EVENT_ROOT =
    (0, set_field c FLB_LOG_EVENT_ROOT f', []) /\
    field_is f' (cont ++ header32 CArray 65536) (new_scope cont CArray :: bump scs).
Proof.
  intros Hf. destruct (scope_enter_is _ _ _ CArray Hf) as (f' & E & Hf'). exists f'. split; [|done].
  unfold begin_array, field_begin_array. rewrite get_set_field, E. cbn [on_field]. by rewrite set_set_field.
Qed.

Lemma root_time c f cont scs tm : good_format (en_format c) -> field_is f cont scs ->
  exists f', append_timestamp [] (set_field c FLB_LOG_EVENT_ROOT f) FLB_LOG_EVENT_ROOT tm =
    (0, set_field c FLB_LOG_EVENT_ROOT f', []) /\
    field_is f' (cont ++ msgpack_pack_ext 8 0 ++ eventtime tm) (bump scs).
Proof.
  intros Hg Hf.
  destruct (append_timestamp_ok (set_field c FLB_LOG_EVENT_ROOT f) FLB_LOG_EVENT_ROOT tm cont scs Hg Hf)
    as (f' & E & Hf'). exists f'. by rewrite E, set_set_field.
Qed.

Lemma root_raw c f cont scs b : field_is f cont scs ->
  exists f', append_raw_msgpack [] (set_field c FLB_LOG_EVENT_ROOT f) FLB_LOG_EVENT_ROOT (Some b) =
    (0, set_field c FLB_LOG_EVENT_ROOT f', []) /\ field_is f' (cont ++ b) (bump scs).
Proof.
  intros Hf. destruct (append_raw_adds FLB_LOG_EVENT_ROOT b (set_field c FLB_LOG_EVENT_ROOT f) cont scs Hf)
    as (f' & E & Hf'). exists f'. by rewrite E, set_set_field.
Qed.

(** The root array of the two formats. *)
Definition root_bytes (v2 : bool) (ts mb bb : bytes) : bytes :=
  header32 CArray 2 ++ (if v2 then header32 CArray 2 ++ ts ++ mb else ts) ++ bb.

Definition root_scope (n : Z) : scope :=
  {| sc_offset := 0; sc_header := {| mh_offset := 0; mh_entries := n |}; sc_type := CArray |}.

Lemma build_root_ok c mb bb :
  good_format (en_format c) -> field_empty (en_root c) ->
  data_of (en_metadata c) = Some mb -> data_of (en_body c) = Some bb ->
  exists f, build_root [] c = (0, set_field c FLB_LOG_EVENT_ROOT f, []) /\
    let b := root_bytes (is_v2 (en_format c)) (msgpack_pack_ext 8 0 ++ eventtime (en_timestamp c)) mb bb in
    field_is f b [] /\ field_bytes f = b.
Proof.
  intros Hg [Hr _] Hm Hb. assert (Hc := set_get_field c FLB_LOG_EVENT_ROOT). cbn [get_field] in Hc.
  replace (build_root [] c) with (build_root [] (set_field c FLB_LOG_EVENT_ROOT (en_root c))) by (by rewrite Hc).
  unfold build_root. destruct (root_begin c _ _ _ Hr) as (f1 & -> & Hf1). root_simpl.
  change (en_format (set_field c FLB_LOG_EVENT_ROOT (en_root c))) with (en_format c).
  set (ts := msgpack_pack_ext 8 0 ++ eventtime (en_timestamp c)).
  unfold root_bytes, is_v2. destruct (en_format c =? FLB_LOG_EVENT_FORMAT_FLUENT_BIT_V2).
  - destruct (root_begin c _ _ _ Hf1) as (f2 & -> & Hf2). root_simpl.
    destruct (root_time c f2 _ _ (en_timestamp c) Hg Hf2) as (f3 & -> & Hf3). root_simpl. rewrite Hm.
    destruct (root_raw c f3 _ _ mb Hf3) as (f4 & -> & Hf4). root_simpl.
    fold ts in Hf4. rewrite <- !app_assoc in Hf4. cbn [app bump new_scope] in Hf4.
    destruct (scope_leave_is f4 (header32 CArray 65536) (ts ++ mb)
      {| sc_offset := 5; sc_header := {| mh_offset := 5; mh_entries := 2 |}; sc_type := CArray |}
      [root_scope 1] 65536 Hf4 eq_refl) as (f5 & E5 & Hf5).
    unfold commit_array, field_commit_array. rewrite get_set_field, E5. cbn [on_field]. root_simpl. rewrite Hb.
    destruct (root_raw c f5 _ _ bb Hf5) as (f6 & -> & Hf6). root_simpl.
    rewrite <- !app_assoc in Hf6. exists (field_flush f6). split; [done|].
    destruct (flush_is f6 CArray _ (root_scope 2) 65536 Hf6 eq_refl eq_refl) as (H1 & _ & H2 & _).
    rewrite <- !app_assoc. done.
  - root_simpl. destruct (root_time c f1 _ _ (en_timestamp c) Hg Hf1) as (f3 & -> & Hf3). root_simpl. rewrite Hb.
    destruct (root_raw c f3 _ _ bb Hf3) as (f6 & -> & Hf6). root_simpl.
    fold ts in Hf6. rewrite <- !app_assoc in Hf6. exists (field_flush f6). split; [done|].
    exact (let '(conj H1 (conj _ (conj H2 _))) :=
      flush_is f6 CArray _ (root_scope 2) 65536 Hf6 eq_refl eq_refl in conj H1 H2).
Qed.

(** Committing a record appends its bytes to the output and leaves the
    encoder as it was between records. *)
Lemma commit_ok c mb bb :
  good_format (en_format c) -> field_empty (en_root c) -> sb_ok (en_buffer c) ->
  data_of (field_flush (en_metadata c)) = Some mb -> field_is (field_flush (en_metadata c)) mb [] ->
  data_of (field_flush (en_body c)) = Some bb -> field_is (field_flush (en_body c)) bb [] ->
  exists c', flb_log_event_encoder_commit_record [] c = (0, c', []) /\ clean c' /\
    en_format c' = en_format c /\
    content (en_buffer c') = content (en_buffer c) ++
      root_bytes (is_v2 (en_format c)) (msgpack_pack_ext 8 0 ++ eventtime (en_timestamp c)) mb bb.
Proof.
  intros Hg Hr Hs Hm1 Hm2 Hb1 Hb2. unfold flb_log_event_encoder_commit_record.
  change (en_body (set_field c FLB_LOG_EVENT_METADATA (field_flush (en_metadata c)))) with (en_body c).
  set (c1 := set_field (set_field c FLB_LOG_EVENT_METADATA (field_flush (en_metadata c)))
    FLB_LOG_EVENT_BODY (field_flush (en_body c))).
  destruct (build_root_ok c1 mb bb Hg Hr Hm1 Hb1) as (f & E & Hf & Hfb).
  unfold flb_log_event_encoder_emit_record.
  assert (Hz : fd_size (en_root c1) = O) by apply Hr. rewrite Hz. cbn [Nat.eqb].
  rewrite E, and_then_ok. cbn [set_field en_root en_buffer c1]. rewrite Hfb.
  destruct (write_ok (en_buffer c) (root_bytes (is_v2 (en_format c1))
    (msgpack_pack_ext 8 0 ++ eventtime (en_timestamp c1)) mb bb) Hs) as (sb & Ew & Hs' & Hc').
  rewrite Ew. cbn [Z.eqb]. eexists. split; [reflexivity|].
  split; [|split; [done|exact Hc']].
  unfold clean. cbn [flb_log_event_encoder_reset_record update_internal_state with_buffer set_field
    en_metadata en_body en_root en_buffer en_output_length c1].
  split_and!; try done; eapply reset_empty; eassumption.
Qed.

Lemma encode_entry_ok c e : clean c -> good_format (en_format c) ->
  exists c', encode_entry [] c e = (0, c', []) /\ clean c' /\ en_format c' = en_format c /\
    content (en_buffer c') = content (en_buffer c) ++ entry_bytes (en_format c) e.
Proof.
  intros Hc Hg. destruct (begin_record_ok c Hc) as (c1 & E1 & Hm & Hb & Hr & Hbuf & Hfmt).
  assert (Hgen : forall tm m b, exists c', and_then (encode_pairs [] (with_timestamp c1 tm) m b)
      flb_log_event_encoder_commit_record = (0, c', []) /\ clean c' /\ en_format c' = en_format c /\
      content (en_buffer c') = content (en_buffer c) ++ record_bytes (en_format c) tm m b).
  { intros tm m b.
    destruct (encode_pairs_ok (with_timestamp c1 tm) m b Hm Hb)
      as (c2 & -> & H1 & H2 & H3 & H4 & Hr2 & Hbuf2 & Hfmt2 & Htm). rewrite and_then_ok.
    destruct (commit_ok c2 _ _ ltac:(rewrite Hfmt2; simpl; by rewrite Hfmt) ltac:(by rewrite Hr2)
      ltac:(rewrite Hbuf2; simpl; rewrite Hbuf; apply Hc) H1 H2 H3 H4) as (c3 & E3 & Hcl & Hf3 & Hct).
    exists c3. rewrite E3, Hct, Hf3, Hbuf2, Hfmt2, Htm. simpl. rewrite Hbuf, Hfmt. done. }
  destruct e as [tm m b|m b|]; cbn [encode_entry].
  - rewrite E1, and_then_ok. apply Hgen.
  - unfold flb_log_event_encoder_group_init. rewrite E1. cbn [Z.eqb negb FLB_EVENT_ENCODER_SUCCESS].
    rewrite and_then_ok. destruct (Hgen {| tv_sec := FLB_LOG_EVENT_GROUP_START; tv_nsec := 0 |} m b) as (c' & E & H).
    destruct (encode_pairs [] _ m b) as [[r c2] t2]. cbn [and_then] in *.
    destruct (r =? FLB_EVENT_ENCODER_SUCCESS); [|by eauto].
    unfold flb_log_event_encoder_group_header_end. rewrite E. by exists c'.
  - unfold flb_log_event_encoder_group_end. rewrite E1. cbn [Z.eqb negb FLB_EVENT_ENCODER_SUCCESS].
    destruct (Hgen {| tv_sec := FLB_LOG_EVENT_GROUP_END; tv_nsec := 0 |} [] []) as (c' & E & H).
    unfold encode_pairs in E. cbn [append_each] in E. rewrite !and_then_ok in E. rewrite E. by exists c'.
Qed.

End EncoderFacts.

(** ** What the decoder reads of what the encoder wrote *)

Module RoundTrip.
Import Encoder EncoderFacts Decoder.

(** The object of an entry. *)
Definition metadata_obj (format : Z) (metadata : list (item * item)) : obj :=
  if is_v2 format then item_obj (IMap metadata) else MSGPACK_OBJECT_MAP [].

Definition entry_obj (format : Z) (e : entry) : obj :=
  let ts := MSGPACK_OBJECT_EXT 0 (eventtime (entry_time e)) in
  MSGPACK_OBJECT_ARRAY
    [if is_v2 format then MSGPACK_OBJECT_ARRAY [ts; item_obj (IMap (entry_metadata e))] else ts;
     item_obj (IMap (entry_body e))].

(** Times that an EventTime can hold and that are not taken for a mark of a
    group, and values that fit the format and the nesting of the unpacker. *)
Definition entry_wf (e : entry) : Prop :=
  match e with Record tm _ _ => 0 <= tv_sec tm < 2 ^ 31 /\ 0 <= tv_nsec tm < 2 ^ 31 | _ => True end /\
  item_wf (IMap (entry_metadata e)) /\ (depth (item_obj (IMap (entry_metadata e))) <= 30)%nat /\
  item_wf (IMap (entry_body e)) /\ (depth (item_obj (IMap (entry_body e))) <= 31)%nat.

Lemma entry_reads format e : entry_wf e ->
  reads (entry_obj format e) (entry_bytes format e) /\
  (depth (entry_obj format e) <= MSGPACK_EMBED_STACK_SIZE)%nat.
Proof.
  intros (_ & Hm & Hmd & Hb & Hbd). apply item_reads in Hm, Hb.
  assert (Hts : reads (MSGPACK_OBJECT_EXT 0 (eventtime (entry_time e)))
    (msgpack_pack_ext 8 0 ++ eventtime (entry_time e))).
  { eapply reads_variable; [apply (leads_ext 0 (eventtime (entry_time e))); done|done|done]. }
  unfold entry_obj, entry_bytes, record_bytes. split.
  - rewrite <- (app_nil_r (item_bytes (IMap (entry_body e)))).
    apply (reads_array (header32 CArray 2) [_; _] [_; _]); [by apply leads_header32|].
    constructor; [|constructor; [exact Hb|constructor]]. destruct (is_v2 format); [|exact Hts].
    rewrite <- (app_nil_r (item_bytes (IMap (entry_metadata e)))).
    apply (reads_array (header32 CArray 2) [_; _] [_; _]); [by apply leads_header32|].
    constructor; [exact Hts|constructor; [exact Hm|constructor]].
  - unfold MSGPACK_EMBED_STACK_SIZE. cbn [depth map foldr]. cbn [item_obj depth] in Hmd, Hbd.
    destruct (is_v2 format); cbn [depth map foldr item_obj]; lia.
Qed.

Lemma length_eventtime tm : size (eventtime tm) = 8.
Proof. unfold size, eventtime. by rewrite length_app, !length_store. Qed.

Lemma decode_eventtime tm :
  - 2 ^ 31 <= tv_sec tm < 2 ^ 31 -> - 2 ^ 31 <= tv_nsec tm < 2 ^ 31 ->
  flb_log_event_decoder_decode_timestamp (MSGPACK_OBJECT_EXT 0 (eventtime tm)) = inr tm.
Proof.
  intros Hs Hn. unfold flb_log_event_decoder_decode_timestamp. rewrite length_eventtime. cbn [negb Z.eqb orb].
  assert (Hi : forall z, - 2 ^ 31 <= z < 2 ^ 31 -> i32 (load (store 4 (u32 z))) = z).
  { intros z Hz. rewrite load_store_small by apply u32_range. apply (sign_back (2 ^ 31)). lia. }
  unfold eventtime. rewrite take_app_length', drop_app_length' by (by rewrite length_store).
  rewrite !Hi by done. by destruct tm.
Qed.

Lemma entry_time_range e : entry_wf e ->
  - 2 ^ 31 <= tv_sec (entry_time e) < 2 ^ 31 /\ - 2 ^ 31 <= tv_nsec (entry_time e) < 2 ^ 31.
Proof. intros [H _]. destruct e; simpl in *; unfold FLB_LOG_EVENT_GROUP_START, FLB_LOG_EVENT_GROUP_END; lia. Qed.

(** *** The events that a reader sees *)

Record seen := { s_time : flb_time; s_metadata : obj; s_body : obj; s_group : option (obj * obj) }.

Definition group_of (metadata attributes : option pointer) : option (obj * obj) :=
  match metadata, attributes with
  | Some m, Some a => Some (pt_obj m, pt_obj a)
  | _, _ => None
  end.

Definition see (e : flb_log_event) : seen :=
  {| s_time := ev_timestamp e; s_metadata := pt_obj (ev_metadata e); s_body := pt_obj (ev_body e);
     s_group := group_of (ev_group_metadata e) (ev_group_attributes e) |}.

(** Every record, in order, with the group that is open where it stands. *)
Fixpoint expected (format : Z) (cur : option (obj * obj)) (es : list entry) : list seen :=
  match es with
  | [] => []
  | Record tm m b :: es =>
      {| s_time := tm; s_metadata := metadata_obj format m; s_body := item_obj (IMap b); s_group := cur |}
      :: expected format cur es
  | GroupStart m a :: es => expected format (Some (metadata_obj format m, item_obj (IMap a))) es
  | GroupEnd :: es => expected format None es
  end.

(** The first record of the entries, the group it is in, and what follows. *)
Fixpoint first_record (format : Z) (cur : option (obj * obj)) (es : list entry) :
    option (seen * option (obj * obj) * list entry) :=
  match es with
  | [] => None
  | Record tm m b :: es =>
      Some ({| s_time := tm; s_metadata := metadata_obj format m; s_body := item_obj (IMap b); s_group := cur |},
            cur, es)
  | GroupStart m a :: es => first_record format (Some (metadata_obj format m, item_obj (IMap a))) es
  | GroupEnd :: es => first_record format None es
  end.

(** A decoder that stands before the entries [es]. *)
Definition stands (format : Z) (d : decoder) (es : list entry) (cur : option (obj * obj)) : Prop :=
  exists pre, de_buffer d = pre ++ concat (map (entry_bytes format) es) /\ de_offset d = length pre /\
  de_read_groups d = false /\ group_of (de_group_metadata d) (de_group_attributes d) = cur /\
  (is_Some (de_group_metadata d) <-> is_Some (de_group_attributes d)) /\
  pt_obj (empty_map_of d) = MSGPACK_OBJECT_MAP [].

(** The object of an entry is decoded. *)
Lemma decode_entry format zone em e : entry_wf e -> pt_obj em = MSGPACK_OBJECT_MAP [] ->
  exists ev, flb_event_decoder_decode_object zone em (entry_obj format e) = inr ev /\
    ev_timestamp ev = entry_time e /\ pt_obj (ev_metadata ev) = metadata_obj format (entry_metadata e) /\
    pt_obj (ev_body ev) = item_obj (IMap (entry_body e)).
Proof.
  intros He Hem. destruct (entry_time_range e He) as [Hs Hn].
  assert (Ht := decode_eventtime (entry_time e) Hs Hn).
  unfold entry_obj, metadata_obj, flb_event_decoder_decode_object. destruct (is_v2 format).
  - cbn [decode_header pt_obj is_timestamp_type negb item_obj is_map]. rewrite Ht. by eexists.
  - cbn [decode_header pt_obj is_timestamp_type negb item_obj is_map]. rewrite Hem. cbn [is_map negb].
    rewrite Ht. by eexists.
Qed.

(** *** One record *)

Lemma unpack_entry format e h u pre post : entry_wf e ->
  exists z h', unpack_next [] h u (pre ++ entry_bytes format e ++ post) (length pre) =
    (Some (MSGPACK_UNPACK_SUCCESS, (length pre + length (entry_bytes format e))%nat,
           {| uz := z; ud := entry_obj format e |}, h'), []).
Proof.
  intros He. destruct (entry_reads format e He) as [Hr Hd].
  destruct (reads_unpack _ _ pre post Hr Hd) as [zone E]. unfold unpack_next.
  destruct (msgpack_unpacked_destroy h u) as [h1 u1]. rewrite E. cbn [up_zone up_ret up_off up_data].
  destruct zone; by eexists _, _.
Qed.

Lemma prepared_fields d :
  de_buffer (prepared d) = de_buffer d /\ de_offset (prepared d) = de_offset d /\
  de_read_groups (prepared d) = de_read_groups d /\ de_group_metadata (prepared d) = de_group_metadata d /\
  de_group_attributes (prepared d) = de_group_attributes d /\ de_empty_map (prepared d) = de_empty_map d.
Proof. unfold prepared, release_shared. by case_bool_decide. Qed.

Definition is_group (e : entry) : bool := match e with Record _ _ _ => false | _ => true end.

Definition group_after (format : Z) (cur : option (obj * obj)) (e : entry) : option (obj * obj) :=
  match e with
  | Record _ _ _ => cur
  | GroupStart m a => Some (metadata_obj format m, item_obj (IMap a))
  | GroupEnd => None
  end.

Lemma record_type_of e : entry_wf e ->
  flb_log_event_decoder_get_record_type (entry_time e) =
  Some (match e with
        | Record _ _ _ => FLB_LOG_EVENT_NORMAL
        | GroupStart _ _ => FLB_LOG_EVENT_GROUP_START
        | GroupEnd => FLB_LOG_EVENT_GROUP_END
        end).
Proof.
  intros [H _]. destruct e as [tm m b| |]; [|done..]. unfold flb_log_event_decoder_get_record_type.
  cbn [entry_time]. rewrite i32_small by (unfold INT_MIN, INT_MAX; lia).
  destruct (Z.leb_spec 0 (tv_sec tm)); [done|lia].
Qed.

(** [next] before an entry: a record is returned, a mark is passed over. *)
Lemma next_entry format f h d e es cur :
  entry_wf e -> stands format d (e :: es) cur ->
  exists d' h', stands format d' es (group_after format cur e) /\
  if is_group e then next (S f) [] h d = next f [] h' d'
  else exists ev, next (S f) [] h d = (Some (FLB_EVENT_DECODER_SUCCESS, Some ev, d', h'), []) /\
    see ev = {| s_time := entry_time e; s_metadata := metadata_obj format (entry_metadata e);
                s_body := item_obj (IMap (entry_body e)); s_group := cur |}.
Proof.
  intros He (pre & Hbuf & Hoff & Hrg & Hgr & Hboth & Hem).
  cbn [map concat] in Hbuf. cbn [next].
  destruct (prepared_fields d) as (P1 & P2 & P3 & P4 & P5 & P6).
  assert (Hlen : (1 <= length (entry_bytes format e))%nat) by apply (entry_reads format e He).
  assert (Hne : (length (de_buffer d) =? 0)%nat = false).
  { apply Nat.eqb_neq. rewrite Hbuf, !length_app. lia. }
  rewrite Hne, P1, P2, Hbuf, Hoff.
  destruct (unpack_entry format e h (de_event (prepared d)) pre (concat (map (entry_bytes format) es)) He)
    as (z & h1 & ->).
  cbn [Z.eqb Pos.eqb negb MSGPACK_UNPACK_SUCCESS MSGPACK_UNPACK_CONTINUE]. cbn [ud uz].
  assert (Hem1 : empty_map_of (set_event (prepared d) {| uz := z; ud := entry_obj format e |}
    (length pre + length (entry_bytes format e))) = empty_map_of d).
  { unfold empty_map_of. cbn [set_event de_empty_map]. by rewrite P6. }
  rewrite Hem1. destruct (decode_entry format z (empty_map_of d) e He Hem) as (ev & -> & Ht & Hm & Hb).
  rewrite Ht, (record_type_of e He). cbn [set_event].
  assert (Hst : forall d', de_buffer d' = pre ++ entry_bytes format e ++ concat (map (entry_bytes format) es) ->
    de_offset d' = (length pre + length (entry_bytes format e))%nat -> de_read_groups d' = false ->
    group_of (de_group_metadata d') (de_group_attributes d') = group_after format cur e ->
    (is_Some (de_group_metadata d') <-> is_Some (de_group_attributes d')) ->
    de_empty_map d' = de_empty_map d -> stands format d' es (group_after format cur e)).
  { intros d' H1 H2 H3 H4 H5 H6. exists (pre ++ entry_bytes format e). rewrite length_app, <- app_assoc.
    unfold empty_map_of. rewrite H6. by split_and!. }
  destruct e as [tm m b|m a|]; cbn [is_group].
  - eexists _, h1. split; [|eexists; split; [reflexivity|]].
    + apply Hst; try done; cbn; rewrite ?P1, ?P3, ?P4, ?P5, ?P6; done.
    + unfold see. cbn [with_group ev_timestamp ev_metadata ev_body ev_group_metadata ev_group_attributes].
      cbn [set_result set_record set_event de_group_metadata de_group_attributes].
      rewrite Ht, Hm, Hb, P4, P5, Hgr. done.
  - cbn [Z.eqb Pos.eqb negb FLB_LOG_EVENT_GROUP_START FLB_LOG_EVENT_NORMAL]. unfold track_group.
    destruct (msgpack_unpacked_destroy h1 _) as [h2 u2]. cbn [Z.eqb Pos.eqb FLB_LOG_EVENT_GROUP_START FLB_LOG_EVENT_GROUP_END].
    cbn [set_group set_result set_record set_event de_read_groups]. rewrite P3, Hrg. cbn [negb].
    eexists _, h2. split; [|reflexivity].
    apply Hst; try done; cbn; rewrite ?P1, ?P3, ?P6; try done. by rewrite Hm, Hb.
  - cbn [Z.eqb Pos.eqb negb FLB_LOG_EVENT_GROUP_END FLB_LOG_EVENT_NORMAL]. unfold track_group.
    destruct (msgpack_unpacked_destroy h1 _) as [h2 u2]. cbn [Z.eqb Pos.eqb FLB_LOG_EVENT_GROUP_START FLB_LOG_EVENT_GROUP_END].
    cbn [set_group set_result set_record set_event de_read_groups]. rewrite P3, Hrg. cbn [negb].
    eexists _, h2. split; [|reflexivity].
    apply Hst; try done; cbn; rewrite ?P1, ?P3, ?P6; done.
Qed.

(** *** All records *)

Lemma next_end format f h d cur : stands format d [] cur ->
  exists d' h', next (S f) [] h d = (Some (FLB_EVENT_DECODER_ERROR_INSUFFICIENT_DATA, None, d', h'), []) /\
    (flb_log_event_decoder_get_last_result d').1 = FLB_EVENT_DECODER_SUCCESS.
Proof.
  intros (pre & Hbuf & Hoff & _). cbn [map concat] in Hbuf. rewrite app_nil_r in Hbuf. subst pre.
  cbn [next]. destruct (prepared_fields d) as (P1 & P2 & _).
  destruct (Nat.eqb_spec (length (de_buffer d)) 0) as [E|].
  - eexists _, h. split; [reflexivity|]. unfold flb_log_event_decoder_get_last_result.
    cbn [set_result de_last_result de_offset de_buffer]. by rewrite Hoff, Nat.eqb_refl.
  - unfold unpack_next, msgpack_unpack_next. rewrite P1, P2, Hoff, Nat.leb_refl.
    destruct (msgpack_unpacked_destroy h (de_event (prepared d))) as [h1 u1]. cbn [up_zone up_ret up_off up_data].
    cbn [Z.eqb MSGPACK_UNPACK_CONTINUE].
    eexists _, h1. split; [reflexivity|]. unfold flb_log_event_decoder_get_last_result.
    cbn [set_result set_event de_last_result de_offset de_buffer]. by rewrite P1, Nat.eqb_refl.
Qed.

Lemma next_ok format es : Forall entry_wf es -> forall fuel h d cur,
  stands format d es cur -> (length es < fuel)%nat ->
  match first_record format cur es with
  | None =>
      exists d' h', next fuel [] h d = (Some (FLB_EVENT_DECODER_ERROR_INSUFFICIENT_DATA, None, d', h'), []) /\
        (flb_log_event_decoder_get_last_result d').1 = FLB_EVENT_DECODER_SUCCESS
  | Some (s, cur', rest) =>
      exists ev d' h', next fuel [] h d = (Some (FLB_EVENT_DECODER_SUCCESS, Some ev, d', h'), []) /\
        see ev = s /\ stands format d' rest cur'
  end.
Proof.
  induction 1 as [|e es He Hes IH]; intros fuel h d cur Hst Hf; (destruct fuel as [|f]; [simpl in Hf; lia|]).
  - by eapply next_end.
  - destruct (next_entry format f h d e es cur He Hst) as (d' & h' & Hst' & Hn). cbn [length] in Hf.
    destruct e as [tm m b|m a|]; cbn [is_group first_record group_after] in *.
    + destruct Hn as (ev & Hn & Hs). by exists ev, d', h'.
    + rewrite Hn. apply IH; [done|lia].
    + rewrite Hn. apply IH; [done|lia].
Qed.

Lemma expected_first format cur es :
  expected format cur es =
  match first_record format cur es with
  | None => []
  | Some (s, cur', rest) => s :: expected format cur' rest
  end.
Proof. revert cur. induction es as [|[] es IH]; intros cur; simpl; auto. Qed.

Lemma first_record_rest format cur es s cur' rest :
  first_record format cur es = Some (s, cur', rest) -> exists l, es = l ++ rest /\ (length rest < length es)%nat.
Proof.
  revert cur. induction es as [|e es IH]; intros cur H; [done|].
  destruct e as [tm m b|m a|]; simpl in H; simplify_eq.
  - exists [Record tm m b]. simpl. split; [done|lia].
  - destruct (IH _ H) as (l & -> & Hl). exists (GroupStart m a :: l). simpl. split; [done|lia].
  - destruct (IH _ H) as (l & -> & Hl). exists (GroupEnd :: l). simpl. split; [done|lia].
Qed.

Lemma entries_length format es : Forall entry_wf es ->
  (length es <= length (concat (map (entry_bytes format) es)))%nat.
Proof.
  induction 1 as [|e es He Hes IH]; simpl; [lia|]. rewrite length_app.
  assert (1 <= length (entry_bytes format e))%nat by apply (entry_reads format e He). lia.
Qed.

Lemma read_all_ok format fuel : forall es h d cur, Forall entry_wf es ->
  stands format d es cur -> (length es < fuel)%nat ->
  exists evs d' h', read_all fuel [] h d = Some (evs, d', h') /\ map see evs = expected format cur es /\
    (flb_log_event_decoder_get_last_result d').1 = FLB_EVENT_DECODER_SUCCESS.
Proof.
  induction fuel as [|f IH]; intros es h d cur Hes Hst Hf; [lia|].
  cbn [read_all]. unfold flb_log_event_decoder_next. cbn [negb andb].
  assert (Hn := next_ok format es Hes (S (length (de_buffer d) - de_offset d)) h d cur Hst).
  destruct (Hst) as (pre & Hbuf & Hoff & _). assert (Hlen := entries_length format es Hes).
  rewrite Hbuf, Hoff, length_app in Hn |- *. specialize (Hn ltac:(lia)). rewrite expected_first.
  destruct (first_record format cur es) as [[[s cur'] rest]|] eqn:Efr.
  - destruct Hn as (ev & d' & h' & -> & Hs & Hst'). cbn [Z.eqb FLB_EVENT_DECODER_SUCCESS].
    destruct (first_record_rest _ _ _ _ _ _ Efr) as (l & -> & Hl).
    apply Forall_app in Hes as [_ Hrest].
    destruct (IH rest h' d' cur' Hrest Hst' ltac:(lia)) as (evs & d2 & h2 & -> & Hm & Hlast).
    exists (ev :: evs), d2, h2. split; [done|]. split; [|done]. simpl. by rewrite Hs, Hm.
  - destruct Hn as (d' & h' & -> & Hlast). by exists [], d', h'.
Qed.

(** Encoding entries one after the other. *)
Lemma encode_all_ok es : forall c, clean c -> good_format (en_format c) ->
  exists c', append_each encode_entry [] c es = (0, c', []) /\ clean c' /\
    content (en_buffer c') = content (en_buffer c) ++ concat (map (entry_bytes (en_format c)) es).
Proof.
  induction es as [|e es IH]; intros c Hc Hg; cbn [append_each map concat].
  - exists c. by rewrite app_nil_r.
  - destruct (encode_entry_ok c e Hc Hg) as (c1 & -> & Hc1 & Hf1 & Hb1). rewrite and_then_ok.
    destruct (IH c1 Hc1 ltac:(by rewrite Hf1)) as (c2 & E2 & Hc2 & Hb2). exists c2.
    split; [exact E2|]. split; [done|]. by rewrite Hb2, Hb1, Hf1, <- app_assoc.
Qed.

Lemma init_clean format c : flb_log_event_encoder_init format = inr c ->
  clean c /\ en_format c = format /\ content (en_buffer c) = [].
Proof.
  unfold flb_log_event_encoder_init. destruct (_ || _); intros H; simplify_eq.
  split; [|done]. unfold clean, field_empty, field_is, sb_ok. simpl. split_and!; done || lia.
Qed.

(** C2: records that were encoded with the calls of plugins (maps, arrays, strings and
    objects appended to the metadata and the body, between the marks of groups or
    not) are decoded in order, each with its time, its body and the attributes of
    the group it stands in; in the Fluent Bit V2 format also with its metadata and
    the metadata of the group, while the FORWARD format has no place for metadata:
    there both are the empty map.  The marks are not seen and the decoder ends
    without an error.  The conditions: no allocation fails, the seconds and
    nanoseconds of a record are in 0 .. 2^31 - 1 (later times are read as negative
    ones, [time_after_2038]), and values fit msgpack and are nested at most 30
    (metadata) or 31 (body) containers deep, the map itself included, the stack of
    the unpacker having 32 places. *)
Theorem log_event_roundtrip format es h :
  good_format format -> Forall entry_wf es ->
  exists c c' d h1, flb_log_event_encoder_init format = inr c /\
    append_each encode_entry [] c es = (0, c', []) /\
    flb_log_event_decoder_init [] h (output c') = (0, d, h1, []) /\
    exists evs d' h', read_all (S (length es)) [] h1 d = Some (evs, d', h') /\
      map see evs = expected format None es /\
      (flb_log_event_decoder_get_last_result d').1 = FLB_EVENT_DECODER_SUCCESS.
Proof.
  intros Hg Hes.
  assert (exists c, flb_log_event_encoder_init format = inr c) as [c Hc]
    by (destruct Hg as [-> | ->]; by eexists).
  destruct (init_clean format c Hc) as (Hcl & Hfmt & Hnil).
  destruct (encode_all_ok es c Hcl ltac:(by rewrite Hfmt)) as (c' & He & Hcl' & Hb).
  exists c, c'. assert (Hout : output c' = concat (map (entry_bytes format) es)).
  { unfold output. destruct Hcl' as (_ & _ & _ & _ & ->). fold (content (en_buffer c')).
    by rewrite Hb, Hnil, Hfmt. }
  destruct (flb_log_event_decoder_init [] h (output c')) as [[[r d] h1] t1] eqn:Ed.
  unfold flb_log_event_decoder_init in Ed.
  replace (create_empty_map [] h) with
    (0, {| uz := Some (h_next h); ud := MSGPACK_OBJECT_MAP [] |},
     Some {| pt_zone := Some (h_next h); pt_obj := MSGPACK_OBJECT_MAP [] |}, (zone_new h).2, @nil bool) in Ed
    by reflexivity.
  injection Ed as <- <- <- <-. eexists _, _. split; [done|]. split; [done|]. split; [done|].
  apply (read_all_ok format); [done| |lia].
  exists []. cbn [de_buffer de_offset app length]. by rewrite Hout.
Qed.

(** Two records in a group, one of them with a nested value, and one outside. *)
Definition sample_entries : list entry :=
  [GroupStart [(IStr (str "host"), IStr (str "a"))] [(IStr (str "k"), IArr [IStr (str "x"); IObj MSGPACK_OBJECT_NIL])];
   Record {| tv_sec := 1700000000; tv_nsec := 5 |} [] [(IStr (str "log"), IStr (str "one"))];
   Record {| tv_sec := 1700000001; tv_nsec := 0 |} [(IStr (str "m"), IMap [])] [(IStr (str "log"), IStr (str "two"))];
   GroupEnd;
   Record {| tv_sec := 1700000002; tv_nsec := 999999999 |} [] []].

Lemma str_bytes s : is_bytes (str s).
Proof.
  induction s as [|a s IH]; [constructor|]. apply Forall_cons_2; [|done].
  unfold is_byte, ch. pose proof (Ascii.N_ascii_bounded a). lia.
Qed.

Lemma log_event_roundtrip_witness :
  exists c c' d h1, flb_log_event_encoder_init 4 = inr c /\
    append_each encode_entry [] c sample_entries = (0, c', []) /\
    flb_log_event_decoder_init [] {| h_next := 0; h_live := ∅; h_bad := false |} (output c') = (0, d, h1, []) /\
    exists evs d' h', read_all (S (length sample_entries)) [] h1 d = Some (evs, d', h') /\
      map see evs = expected 4 None sample_entries /\
      (flb_log_event_decoder_get_last_result d').1 = FLB_EVENT_DECODER_SUCCESS.
Proof.
  apply (log_event_roundtrip 4 sample_entries); [by right|].
  assert (Hm : forall l, item_wf (IMap l) <-> Z.of_nat (length l) < 2 ^ 32 /\
    Forall (λ kv, item_wf kv.1 /\ item_wf kv.2) l) by (intros l; cbn [item_wf]; by rewrite foldr_and_Forall).
  assert (Hs : forall s, size (str s) < 2 ^ 32 -> item_wf (IStr (str s))) by (intros s H; split; [apply str_bytes|done]).
  unfold sample_entries, entry_wf.
  repeat (apply Forall_cons_2); [..|by apply Forall_nil]; cbn [entry_metadata entry_body];
    rewrite !Hm; split_and!; try done; try (cbn; lia);
    repeat (apply Forall_cons_2; [split; cbn [fst snd]; try (by apply Hs)|]); try (by apply Forall_nil);
    cbn [item_wf map foldr length]; split_and!; try done; by apply str_bytes.
Defined.

End RoundTrip.

(** ** The decoder on arbitrary data *)

Module DecoderFacts.
Import Decoder.

(** *** Typed records *)

(** The shape of a record: a header and a body, the header being a timestamp
    with metadata or, in the older format, the timestamp alone. *)
Inductive record_shape : obj -> obj -> option obj -> obj -> Prop :=
  | shape_v2 ts m b :
      record_shape
        (MSGPACK_OBJECT_ARRAY [MSGPACK_OBJECT_ARRAY [ts; MSGPACK_OBJECT_MAP m]; MSGPACK_OBJECT_MAP b])
        ts (Some (MSGPACK_OBJECT_MAP m)) (MSGPACK_OBJECT_MAP b)
  | shape_forward ts b :
      record_shape (MSGPACK_OBJECT_ARRAY [ts; MSGPACK_OBJECT_MAP b]) ts None (MSGPACK_OBJECT_MAP b).

Inductive time_shape : obj -> flb_time -> Prop :=
  | time_integer u : time_shape (MSGPACK_OBJECT_POSITIVE_INTEGER u) {| tv_sec := i64 u; tv_nsec := 0 |}
  | time_double b : time_shape (MSGPACK_OBJECT_FLOAT64 b) (time_of_f64 b)
  | time_event s n : length s = 4%nat -> length n = 4%nat ->
      time_shape (MSGPACK_OBJECT_EXT 0 (s ++ n)) {| tv_sec := i32 (load s); tv_nsec := i32 (load n) |}.

Lemma decode_timestamp_shape ts tm :
  flb_log_event_decoder_decode_timestamp ts = inr tm <-> time_shape ts tm.
Proof.
  split.
  - destruct ts as [| | | | | | | | | |type s]; simpl; intros H; simplify_eq; try constructor.
    destruct (Z.eqb_spec type 0), (Z.eqb_spec (size s) 8); simplify_eq/=.
    unfold size in *. rewrite <- (take_drop 4 s) at 1. constructor; rewrite ?length_take, ?length_drop; lia.
  - intros []; [done|done|]. unfold flb_log_event_decoder_decode_timestamp, size.
    rewrite length_app, H, H0. cbn [negb Z.eqb orb]. simpl.
    by rewrite take_app_length', drop_app_length'.
Qed.

(** C22: [flb_event_decoder_decode_object] accepts an object exactly when it has
    the shape of a record with a valid timestamp, and then the event has the
    parts of the object: its time, its metadata (the empty map when the record
    has none), its body and the format that the shape tells. *)
Theorem decode_object_typed zone empty_map root e :
  is_map (pt_obj empty_map) = true ->
  flb_event_decoder_decode_object zone empty_map root = inr e <->
  exists ts md body tm, record_shape root ts md body /\ time_shape ts tm /\
    e = {| ev_group_attributes := None; ev_group_metadata := None;
           ev_raw_timestamp := {| pt_zone := zone; pt_obj := ts |}; ev_timestamp := tm;
           ev_metadata := match md with Some m => {| pt_zone := zone; pt_obj := m |} | None => empty_map end;
           ev_format := match md with
                        | Some _ => FLB_LOG_EVENT_FORMAT_FLUENT_BIT_V2
                        | None => FLB_LOG_EVENT_FORMAT_FORWARD
                        end;
           ev_body := {| pt_zone := zone; pt_obj := body |}; ev_root := root |}.
Proof.
  intros Hem. split.
  - unfold flb_event_decoder_decode_object.
    destruct root as [| | | | | | |l| | |]; try done. destruct l as [|hd [|body [|]]]; try done.
    destruct (decode_header zone empty_map hd) as [|[[ts md] fmt]] eqn:Eh; [done|].
    destruct (is_timestamp_type (pt_obj ts)) eqn:Et; [|done]. cbn [negb].
    destruct (is_map (pt_obj md)) eqn:Em; [|done]. destruct (is_map body) eqn:Eb; [|done]. cbn [negb].
    destruct (flb_log_event_decoder_decode_timestamp (pt_obj ts)) as [|tm] eqn:Etm; [done|].
    intros H. simplify_eq. apply decode_timestamp_shape in Etm.
    destruct body as [| | | | | | | |b| |]; try done.
    destruct hd as [| | | | | | |hl| | |]; simplify_eq/=; try (eexists _, None, _, _; split_and!; [constructor|done|done]).
    destruct hl as [|ts' [|md' [|]]]; simplify_eq/=. destruct md' as [| | | | | | | |m| |]; try done.
    eexists _, (Some _), _, _. split_and!; [constructor|done|done].
  - intros (ts & md & body & tm & Hr & Ht & ->). apply decode_timestamp_shape in Ht.
    assert (Hty : is_timestamp_type ts = true) by (by destruct ts).
    destruct Hr; unfold flb_event_decoder_decode_object.
    + cbn [decode_header pt_obj]. rewrite Hty. cbn [is_map negb]. by rewrite Ht.
    + assert (Hh : decode_header zone empty_map ts =
        inr ({| pt_zone := zone; pt_obj := ts |}, empty_map, FLB_LOG_EVENT_FORMAT_FORWARD)) by (by destruct ts).
      rewrite Hh. cbn [pt_obj]. rewrite Hty, Hem. cbn [is_map negb]. by rewrite Ht.
Qed.

(** *** Zones *)

Definition zset (o : option nat) : gset nat := match o with Some z => {[z]} | None => ∅ end.

(** The zones of a decoder are allocated, and nothing else is but [other]; the
    pointers it keeps are into zones that it owns. *)
Record dec_ok (other : gset nat) (h : heap) (d : decoder) : Prop := {
  ok_good : h_bad h = false;
  ok_live : h_live h = zset (uz (de_group_record d)) ∪ zset (uz (de_event d)) ∪
              zset (uz (de_unpacked_empty_map d)) ∪ other;
  ok_other : other ## zset (uz (de_group_record d)) ∪ zset (uz (de_event d)) ∪
              zset (uz (de_unpacked_empty_map d));
  ok_empty_apart : zset (uz (de_unpacked_empty_map d)) ##
              zset (uz (de_group_record d)) ∪ zset (uz (de_event d));
  ok_next : forall z, z ∈ h_live h -> (z < h_next h)%nat;
  ok_empty_map : forall q, de_empty_map d = Some q -> pt_zone q = uz (de_unpacked_empty_map d);
  ok_metadata : forall q, de_group_metadata d = Some q ->
              pt_zone q = uz (de_group_record d) \/ pt_zone q = uz (de_unpacked_empty_map d) \/ pt_zone q = None;
  ok_attributes : forall q, de_group_attributes d = Some q ->
              pt_zone q = uz (de_group_record d) \/ pt_zone q = None }.

(** The objects of an event are in allocated zones. *)
Definition pointer_live (h : heap) (q : pointer) : Prop := zset (pt_zone q) ⊆ h_live h.

Definition event_live (h : heap) (e : flb_log_event) : Prop :=
  pointer_live h (ev_raw_timestamp e) /\ pointer_live h (ev_metadata e) /\ pointer_live h (ev_body e) /\
  (forall q, ev_group_metadata e = Some q -> pointer_live h q) /\
  (forall q, ev_group_attributes e = Some q -> pointer_live h q).

(** Freeing the zone of a structure that owns it. *)
Lemma unpacked_destroy_spec h u :
  h_bad h = false -> zset (uz u) ⊆ h_live h ->
  exists h', msgpack_unpacked_destroy h u = (h', {| uz := None; ud := ud (msgpack_unpacked_destroy h u).2 |}) /\
    h_bad h' = false /\ h_live h' = h_live h ∖ zset (uz u) /\ h_next h' = h_next h.
Proof.
  intros Hb Hz. unfold msgpack_unpacked_destroy. destruct u as [[z|] o]; cbn [uz ud snd zset] in *.
  - eexists. split; [done|]. cbn [msgpack_zone_free h_bad h_live h_next]. rewrite Hb.
    rewrite bool_decide_true by set_solver. done.
  - exists h. split; [done|]. split; [done|]. split; [set_solver|done].
Qed.

Lemma prepared_ok other h d : dec_ok other h d ->
  dec_ok other h (prepared d) /\
  zset (uz (de_group_record (prepared d))) ## zset (uz (de_event (prepared d))).
Proof.
  intros [H1 H2 H3 H4 H5 H6 H7 H8]. unfold prepared, release_shared.
  cbn [set_record de_group_record de_event]. case_bool_decide as Heq.
  - split; [|set_solver]. rewrite <- Heq in *. constructor; cbn; try done; set_solver.
  - split; [by constructor|]. cbn. destruct (uz (de_group_record d)), (uz (de_event d)); set_solver.
Qed.

Lemma unpack_ok other t h d off :
  is_bytes (de_buffer d) -> dec_ok other h d ->
  zset (uz (de_group_record d)) ## zset (uz (de_event d)) ->
  exists ret off' u h' t', unpack_next t h (de_event d) (de_buffer d) off = (Some (ret, off', u, h'), t') /\
    dec_ok other h' (set_event d u off') /\ zset (uz (de_group_record d)) ## zset (uz u) /\
    (ret = MSGPACK_UNPACK_SUCCESS -> off < off' <= length (de_buffer d))%nat.
Proof.
  intros Hb [H1 H2 H3 H4 H5 H6 H7 H8] Hap. unfold unpack_next.
  destruct (unpacked_destroy_spec h (de_event d) H1 ltac:(set_solver)) as (h1 & -> & Hb1 & Hl1 & Hn1).
  destruct (unpack_next_returns t (de_buffer d) off Hb) as (r & t' & -> & Hoff & Hprog).
  assert (Hl : h_live h1 = zset (uz (de_group_record d)) ∪ zset (uz (de_unpacked_empty_map d)) ∪ other) by
    (rewrite Hl1, H2; apply set_eq; set_solver).
  assert (Hlt : forall z, z ∈ h_live h1 -> (z < h_next h1)%nat) by (intros z Hz; rewrite Hn1; apply H5; set_solver).
  destruct (up_zone r); cbn [zone_new].
  - assert (Hfresh : forall z, z ∈ h_live h1 -> z <> h_next h1) by (intros z Hz; specialize (Hlt z Hz); lia).
    eexists _, _, _, _, _. split; [reflexivity|]. cbn [uz zset].
    split_and!; [|rewrite Hl in Hfresh; set_solver|intros Hr; specialize (Hprog Hr); lia].
    rewrite Hl in Hfresh.
    constructor; cbn [h_bad h_live h_next set_event de_group_record de_event de_unpacked_empty_map uz zset
      de_empty_map de_group_metadata de_group_attributes]; try done.
    + rewrite Hl. apply set_eq. set_solver.
    + set_solver.
    + set_solver.
    + intros z [->%elem_of_singleton|Hz]%elem_of_union; [lia|]. specialize (Hlt z Hz). lia.
  - eexists _, _, _, _, _. split; [reflexivity|]. cbn [uz zset].
    split_and!; [|set_solver|intros Hr; specialize (Hprog Hr); lia].
    constructor; cbn [set_event de_group_record de_event de_unpacked_empty_map uz zset
      de_empty_map de_group_metadata de_group_attributes]; try done.
    + rewrite Hl. apply set_eq. set_solver.
    + set_solver.
    + set_solver.
Qed.

(** The zones of the parts of an event. *)
Lemma decode_zones zone em root e : flb_event_decoder_decode_object zone em root = inr e ->
  pt_zone (ev_raw_timestamp e) = zone /\ pt_zone (ev_body e) = zone /\
  (pt_zone (ev_metadata e) = zone \/ ev_metadata e = em) /\
  ev_group_metadata e = None /\ ev_group_attributes e = None.
Proof.
  unfold flb_event_decoder_decode_object, decode_header. intros H.
  repeat (case_match; simplify_eq/=); auto 10.
Qed.

(** A record of a group takes the zone of its mark. *)
Lemma track_group_ok other h d e ty :
  dec_ok other h d -> zset (uz (de_group_record d)) ## zset (uz (de_event d)) ->
  pt_zone (ev_body e) = uz (de_event d) ->
  (pt_zone (ev_metadata e) = uz (de_event d) \/ pt_zone (ev_metadata e) = uz (de_unpacked_empty_map d) \/
   pt_zone (ev_metadata e) = None) ->
  exists d' h', track_group h d e ty = (d', h') /\ dec_ok other h' d' /\
    de_event d' = de_event d /\ de_unpacked_empty_map d' = de_unpacked_empty_map d /\
    de_buffer d' = de_buffer d /\ de_offset d' = de_offset d.
Proof.
  intros [H1 H2 H3 H4 H5 H6 H7 H8] Hap Hbd Hmd. unfold track_group.
  destruct (unpacked_destroy_spec h (de_group_record d) H1 ltac:(set_solver)) as (h1 & -> & Hb1 & Hl1 & Hn1).
  assert (Hl : h_live h1 = zset (uz (de_event d)) ∪ zset (uz (de_unpacked_empty_map d)) ∪ other) by
    (rewrite Hl1, H2; apply set_eq; set_solver).
  assert (Hlt : forall z, z ∈ h_live h1 -> (z < h_next h1)%nat) by (intros z Hz; rewrite Hn1; apply H5; set_solver).
  destruct (ty =? FLB_LOG_EVENT_GROUP_START); eexists _, _; (split; [reflexivity|]); split_and!; try done;
    constructor; cbn [set_group de_group_record de_event de_unpacked_empty_map uz zset
      de_empty_map de_group_metadata de_group_attributes]; try done; try set_solver.
Qed.

(** Contexts that differ in what the zones do not depend on. *)
Lemma dec_ok_ext other h d d' : dec_ok other h d ->
  de_group_record d' = de_group_record d -> de_event d' = de_event d ->
  de_unpacked_empty_map d' = de_unpacked_empty_map d -> de_empty_map d' = de_empty_map d ->
  (de_group_metadata d' = de_group_metadata d \/ de_group_metadata d' = None) ->
  (de_group_attributes d' = de_group_attributes d \/ de_group_attributes d' = None) ->
  dec_ok other h d'.
Proof.
  intros [H1 H2 H3 H4 H5 H6 H7 H8] E1 E2 E3 E4 E5 E6. constructor; rewrite ?E1, ?E2, ?E3, ?E4; try done.
  - destruct E5 as [-> | ->]; [done|]. done.
  - destruct E6 as [-> | ->]; [done|]. done.
Qed.

Lemma event_zone_live other h d q : dec_ok other h d ->
  pt_zone q = uz (de_event d) \/ pt_zone q = uz (de_group_record d) \/
  pt_zone q = uz (de_unpacked_empty_map d) \/ pt_zone q = None ->
  pointer_live h q.
Proof.
  intros Hd H. unfold pointer_live. rewrite (ok_live _ _ _ Hd).
  destruct H as [-> |[-> |[-> | ->]]]; set_solver.
Qed.

(** The parts of a decoded event are in the zones of the context. *)
Lemma decoded_zones other h d e :
  dec_ok other h d ->
  flb_event_decoder_decode_object (uz (de_event d)) (empty_map_of d) (ud (de_event d)) = inr e ->
  pt_zone (ev_body e) = uz (de_event d) /\
  (pt_zone (ev_metadata e) = uz (de_event d) \/ pt_zone (ev_metadata e) = uz (de_unpacked_empty_map d) \/
   pt_zone (ev_metadata e) = None) /\
  forall d' h', dec_ok other h' d' -> de_event d' = de_event d ->
    de_unpacked_empty_map d' = de_unpacked_empty_map d -> event_live h' e.
Proof.
  intros Hd Ee. destruct (decode_zones _ _ _ _ Ee) as (Z1 & Z2 & Z3 & Z4 & Z5).
  assert (Zm : pt_zone (ev_metadata e) = uz (de_event d) \/
    pt_zone (ev_metadata e) = uz (de_unpacked_empty_map d) \/ pt_zone (ev_metadata e) = None).
  { destruct Z3 as [->|Hem]; [by left|]. rewrite Hem. unfold empty_map_of.
    destruct (de_empty_map d) eqn:E; [right; left; by apply (ok_empty_map _ _ _ Hd)|auto]. }
  split_and!; [done..|]. intros d' h' Hd' E1 E2. unfold event_live. rewrite Z4, Z5.
  split_and!; try done; apply (event_zone_live other h' d'); try done; rewrite E1, E2; tauto.
Qed.

Lemma with_group_live other h d e :
  dec_ok other h d -> event_live h e ->
  event_live h (with_group e (de_group_metadata d) (de_group_attributes d)).
Proof.
  intros Hd (L1 & L2 & L3 & _). split_and!; try done; intros q Hq; apply (event_zone_live other h d q Hd).
  - destruct (ok_metadata _ _ _ Hd q Hq) as [|[|]]; auto.
  - destruct (ok_attributes _ _ _ Hd q Hq) as [|]; auto.
Qed.

(** Every call returns and keeps the zones in order. *)
Lemma next_safe other fuel : forall t h d,
  is_bytes (de_buffer d) -> (length (de_buffer d) - de_offset d < fuel)%nat -> dec_ok other h d ->
  exists ret e d' h' t', next fuel t h d = (Some (ret, e, d', h'), t') /\ dec_ok other h' d' /\
    (forall ev, e = Some ev -> event_live h' ev).
Proof.
  induction fuel as [|f IH]; intros t h d Hb Hf Hd; [lia|]. cbn [next].
  destruct (length (de_buffer d) =? 0)%nat.
  { eexists _, _, _, _, _. split; [reflexivity|]. split; [|done]. eapply dec_ok_ext; [exact Hd|..]; auto. }
  destruct (prepared_ok other h d Hd) as [Hp Hap].
  assert (Pb : de_buffer (prepared d) = de_buffer d) by (unfold prepared, release_shared; by case_bool_decide).
  assert (Po : de_offset (prepared d) = de_offset d) by (unfold prepared, release_shared; by case_bool_decide).
  destruct (unpack_ok other t h (prepared d) (de_offset (prepared d)) ltac:(by rewrite Pb) Hp Hap)
    as (ret & off & u & h1 & t1 & -> & Hd1 & Hap1 & Hprog).
  destruct (ret =? MSGPACK_UNPACK_CONTINUE).
  { eexists _, _, _, _, _. split; [reflexivity|]. split; [|done]. eapply dec_ok_ext; [exact Hd1|..]; auto. }
  destruct (Z.eqb_spec ret MSGPACK_UNPACK_SUCCESS) as [Hret|]; cbn [negb];
    [|eexists _, _, _, _, _; split; [reflexivity|]; split; [|done]; eapply dec_ok_ext; [exact Hd1|..]; auto].
  specialize (Hprog Hret). rewrite Pb, Po in Hprog. set (d1 := set_event (prepared d) u off) in *.
  destruct (flb_event_decoder_decode_object (uz u) (empty_map_of d1) (ud u)) as [err|e] eqn:Ee.
  { eexists _, _, _, _, _. split; [reflexivity|]. split; [|done]. eapply dec_ok_ext; [exact Hd1|..]; auto. }
  destruct (decoded_zones other h1 d1 e Hd1 Ee) as (Z2 & Zm & Hlive).
  set (d2 := set_result (set_record d1 _ _ _) _).
  assert (Hd2 : dec_ok other h1 d2) by (eapply dec_ok_ext; [exact Hd1|..]; auto).
  destruct (flb_log_event_decoder_get_record_type (ev_timestamp e)) as [ty|].
  2:{ eexists _, _, _, _, _. split; [reflexivity|].
      assert (Hx : dec_ok other h1 (set_result (set_group d2 (de_group_record d2) None None)
        FLB_EVENT_DECODER_ERROR_DESERIALIZATION_FAILURE)) by (eapply dec_ok_ext; [exact Hd1|..]; auto).
      split; [exact Hx|]. intros ev [= <-]. by eapply Hlive. }
  destruct (ty =? FLB_LOG_EVENT_NORMAL); cbn [negb].
  - eexists _, _, _, _, _. split; [reflexivity|]. split; [exact Hd2|]. intros ev [= <-].
    apply (with_group_live other h1 d2 e Hd2). by apply (Hlive d2).
  - destruct (track_group_ok other h1 d2 e ty Hd2 Hap1 Z2 Zm) as (d3 & h3 & -> & Hd3 & E1 & E2 & E3 & E4).
    destruct (negb (de_read_groups d3)).
    + apply IH; [by rewrite E3; cbn; rewrite Pb|rewrite E3, E4; cbn; rewrite Pb; lia|done].
    + eexists _, _, _, _, _. split; [reflexivity|]. split; [done|]. intros ev [= <-]. by eapply Hlive.
Qed.

(** Destroying a decoder frees what it owns, once. *)
Lemma decoder_destroy_ok other h d : dec_ok other h d ->
  h_live (flb_log_event_decoder_destroy h d) = other /\ h_bad (flb_log_event_decoder_destroy h d) = false.
Proof.
  intros Hd. destruct (prepared_ok other h d Hd) as [[H1 H2 H3 H4 _ _ _ _] Hap].
  unfold flb_log_event_decoder_destroy.
  assert (E : de_group_record (release_shared d) = de_group_record (prepared d) /\
    de_event (release_shared d) = de_event (prepared d) /\
    de_unpacked_empty_map (release_shared d) = de_unpacked_empty_map (prepared d)).
  { unfold prepared, release_shared. cbn [set_record de_group_record de_event]. by case_bool_decide. }
  destruct E as (-> & -> & ->). generalize dependent (prepared d). clear Hd d. intros d H2 H3 H4 Hap.
  destruct (unpacked_destroy_spec h (de_group_record d) H1 ltac:(set_solver)) as (h1 & -> & Hb1 & Hl1 & _).
  destruct (unpacked_destroy_spec h1 (de_unpacked_empty_map d) Hb1 ltac:(set_solver)) as (h2 & -> & Hb2 & Hl2 & _).
  destruct (unpacked_destroy_spec h2 (de_event d) Hb2 ltac:(set_solver)) as (h3 & -> & Hb3 & Hl3 & _).
  split; [|done]. rewrite Hl3, Hl2, Hl1, H2. apply set_eq. set_solver.
Qed.

(** C21: whatever the buffer holds and whatever allocations fail, every call of
    [flb_log_event_decoder_next] returns, never frees a zone twice, keeps
    exactly the zones of the context allocated, and gives events whose parts,
    the metadata and attributes of their group included, are in allocated zones;
    destroying the decoder at any time frees all its zones. *)
Theorem decoder_memory_safe other t h d :
  is_bytes (de_buffer d) -> dec_ok other h d ->
  (exists ret e d' h' t',
    flb_log_event_decoder_next t h (Some d) true = (Some (ret, e, Some d', h'), t') /\
    dec_ok other h' d' /\ (forall ev, e = Some ev -> event_live h' ev)) /\
  h_live (flb_log_event_decoder_destroy h d) = other /\
  h_bad (flb_log_event_decoder_destroy h d) = false.
Proof.
  intros Hb Hd. split; [|by apply decoder_destroy_ok].
  destruct (next_safe other (S (length (de_buffer d) - de_offset d)) t h d Hb ltac:(lia) Hd)
    as (ret & e & d' & h' & t' & E & H). exists ret, e, d', h', t'.
  unfold flb_log_event_decoder_next. cbn [negb andb]. by rewrite E.
Qed.

(** A decoder that was just made owns its empty map. *)
Lemma init_dec_ok t h input : h_bad h = false -> (forall z, z ∈ h_live h -> (z < h_next h)%nat) ->
  let '(ret, d, h', _) := flb_log_event_decoder_init t h input in
  ret = FLB_EVENT_DECODER_SUCCESS -> dec_ok (h_live h) h' d.
Proof.
  intros Hb Hn. unfold flb_log_event_decoder_init, create_empty_map.
  destruct (msgpack_sbuffer_write _ _ _) as [[w sb] t1]. destruct (w =? 0); [|done]. cbn [negb].
  unfold unpack_next. cbn [msgpack_unpacked_destroy msgpack_unpacked_init uz].
  destruct (msgpack_unpack_next t1 _ 0) as [[r|] t2]; [|done]. destruct (up_zone r); cbn [zone_new].
  - destruct (up_ret r =? MSGPACK_UNPACK_SUCCESS); [|done]. intros _.
    assert (h_next h ∉ h_live h) by (intros Hx; specialize (Hn _ Hx); lia).
    constructor; cbn; try done; try set_solver.
  - destruct (up_ret r =? MSGPACK_UNPACK_SUCCESS); [|done]. intros _.
    constructor; cbn; try done; set_solver.
Qed.

(** *** Examples *)

Definition empty_heap : heap := {| h_next := 0; h_live := ∅; h_bad := false |}.

(** The mark of a group with an empty header: [[EventTime(-1, 0), {}], {}]. *)
Definition group_mark : bytes :=
  pack (MSGPACK_OBJECT_ARRAY
    [MSGPACK_OBJECT_ARRAY [MSGPACK_OBJECT_EXT 0 (eventtime {| tv_sec := -1; tv_nsec := 0 |}); MSGPACK_OBJECT_MAP []];
     MSGPACK_OBJECT_MAP []]).

Definition group_reader : decoder * heap :=
  let '(_, d, h, _) := flb_log_event_decoder_init [] empty_heap group_mark in
  (flb_log_event_decoder_read_groups d true, h).

(** A reader of groups that stops after the mark of a group and resets its
    decoder frees the zone of the mark twice. *)
Example reset_after_group_mark :
  match flb_log_event_decoder_next [] group_reader.2 (Some group_reader.1) true with
  | (Some (ret, _, Some d, h), _) =>
      ret = FLB_EVENT_DECODER_SUCCESS /\ h_bad (flb_log_event_decoder_reset h d []).1 = true /\
      h_bad (flb_log_event_decoder_destroy h d) = false
  | _ => False
  end.
Proof. vm_compute. auto. Qed.

(** A buffer that ends within a record, before the first byte of one of its
    values, is reported as read to the end without an error. *)
Example truncated_is_success :
  let '(_, d, h, _) := flb_log_event_decoder_init [] empty_heap (take 1 group_mark) in
  match flb_log_event_decoder_next [] h (Some d) true with
  | (Some (ret, _, Some d, _), _) =>
      ret = FLB_EVENT_DECODER_ERROR_INSUFFICIENT_DATA /\
      (flb_log_event_decoder_get_last_result d).1 = FLB_EVENT_DECODER_SUCCESS
  | _ => False
  end.
Proof. vm_compute. auto. Qed.

(** Seconds from 2^31 on are not read: the time is taken for a negative one. *)
Example time_after_2038 :
  let r := pack (MSGPACK_OBJECT_ARRAY [MSGPACK_OBJECT_POSITIVE_INTEGER (2 ^ 31); MSGPACK_OBJECT_MAP []]) in
  let '(_, d, h, _) := flb_log_event_decoder_init [] empty_heap r in
  match flb_log_event_decoder_next [] h (Some d) true with
  | (Some (ret, _, _, _), _) => ret = FLB_EVENT_DECODER_ERROR_DESERIALIZATION_FAILURE
  | _ => False
  end.
Proof. vm_compute. auto. Qed.

Lemma decode_object_typed_witness :
  flb_event_decoder_decode_object None {| pt_zone := None; pt_obj := MSGPACK_OBJECT_MAP [] |}
    (MSGPACK_OBJECT_ARRAY [MSGPACK_OBJECT_POSITIVE_INTEGER 7; MSGPACK_OBJECT_MAP []]) =
  inr {| ev_group_attributes := None; ev_group_metadata := None;
         ev_raw_timestamp := {| pt_zone := None; pt_obj := MSGPACK_OBJECT_POSITIVE_INTEGER 7 |};
         ev_timestamp := {| tv_sec := 7; tv_nsec := 0 |};
         ev_metadata := {| pt_zone := None; pt_obj := MSGPACK_OBJECT_MAP [] |};
         ev_format := FLB_LOG_EVENT_FORMAT_FORWARD;
         ev_body := {| pt_zone := None; pt_obj := MSGPACK_OBJECT_MAP [] |};
         ev_root := MSGPACK_OBJECT_ARRAY [MSGPACK_OBJECT_POSITIVE_INTEGER 7; MSGPACK_OBJECT_MAP []] |}.
Proof.
  apply (decode_object_typed None {| pt_zone := None; pt_obj := MSGPACK_OBJECT_MAP [] |}); [done|].
  exists (MSGPACK_OBJECT_POSITIVE_INTEGER 7), None, (MSGPACK_OBJECT_MAP []), {| tv_sec := 7; tv_nsec := 0 |}.
  split; [constructor|]. split; [apply (time_integer 7)|reflexivity].
Defined.

Lemma group_reader_ok : dec_ok ∅ group_reader.2 group_reader.1.
Proof.
  assert (H := init_dec_ok [] empty_heap group_mark eq_refl ltac:(set_solver)). unfold group_reader.
  destruct (flb_log_event_decoder_init [] empty_heap group_mark) as [[[ret d] h] t] eqn:E.
  assert (Hr : ret = FLB_EVENT_DECODER_SUCCESS) by (revert E; vm_compute; by intros [= <- _ _ _]).
  eapply dec_ok_ext; [exact (H Hr)|..]; auto.
Qed.

Lemma decoder_memory_safe_witness :
  (exists ret e d' h' t',
    flb_log_event_decoder_next [true; false] group_reader.2 (Some group_reader.1) true =
      (Some (ret, e, Some d', h'), t') /\
    dec_ok ∅ h' d' /\ (forall ev, e = Some ev -> event_live h' ev)) /\
  h_live (flb_log_event_decoder_destroy group_reader.2 group_reader.1) = ∅ /\
  h_bad (flb_log_event_decoder_destroy group_reader.2 group_reader.1) = false.
Proof.
  apply (decoder_memory_safe ∅ [true; false] group_reader.2 group_reader.1).
  - vm_compute. repeat (apply Forall_cons_2; [split; reflexivity || discriminate|]). constructor.
  - exact group_reader_ok.
Defined.

End DecoderFacts.

(** ** The records of a chunk that was found in storage (flb_mp.c) *)

Module Validate.
Import Encoder EncoderFacts Decoder RoundTrip.

(** The checks of one record. *)
Definition valid_record (o : obj) : bool :=
  match o with
  | MSGPACK_OBJECT_ARRAY [header; record] =>
      match header with
      | MSGPACK_OBJECT_ARRAY [ts; metadata] => is_map metadata && is_timestamp_type ts
      | MSGPACK_OBJECT_ARRAY _ => false
      | ts => is_timestamp_type ts
      end && is_map record
  | _ => false
  end.

(** [memcmp (ptr, ptr + 1, size - 1) == 0] and [ptr[0] == 0]. *)
Definition all_zero (s : bytes) : bool :=
  (hd 0 s =? 0) && bool_decide (removelast s = tl s).

(** [flb_mp_validate_log_chunk]: the result, the records and the bytes they take. *)
Fixpoint validate (fuel : nat) (t : tape) (data : bytes) (off pre_off : nat) (count : Z) : option (Z * Z * nat) :=
  match fuel with
  | O => None
  | S f =>
      match msgpack_unpack_next t data off with
      | (None, _) => None
      | (Some u, t) =>
          if up_ret u =? MSGPACK_UNPACK_SUCCESS then
            match up_data u with
            | Some (MSGPACK_OBJECT_ARRAY _ as o) =>
                if valid_record o then validate f t data (up_off u) (up_off u) (count + 1)
                else Some (-1, count, pre_off)
            | Some _ => if all_zero (drop pre_off data) then Some (0, count, pre_off) else Some (-1, count, pre_off)
            | None => None
            end
          else Some (0, count, pre_off)
      end
  end.

Definition flb_mp_validate_log_chunk (t : tape) (data : bytes) : option (Z * Z * nat) :=
  validate (S (length data)) t data 0 0 0.

Lemma all_zero_replicate n : all_zero (replicate (S n) 0) = true.
Proof.
  unfold all_zero. cbn [replicate hd tl Z.eqb andb]. apply bool_decide_eq_true.
  change (0 :: replicate n 0) with (replicate (S n) 0). rewrite replicate_S_end.
  apply removelast_last.
Qed.

Lemma entry_valid format e : valid_record (entry_obj format e) = true.
Proof. unfold entry_obj, valid_record. by destruct (is_v2 format). Qed.

Lemma validate_entries format n es : Forall entry_wf es -> forall fuel pre count,
  (length es + 1 < fuel)%nat ->
  validate fuel [] (pre ++ concat (map (entry_bytes format) es) ++ replicate n 0) (length pre) (length pre) count =
  Some (0, count + Z.of_nat (length es), (length pre + length (concat (map (entry_bytes format) es)))%nat).
Proof.
  induction 1 as [|e es He Hes IH]; intros fuel pre count Hf; (destruct fuel as [|f]; [lia|]);
    cbn [map concat length validate app].
  - rewrite Z.add_0_r, Nat.add_0_r. destruct n as [|n].
    + rewrite app_nil_r. unfold msgpack_unpack_next. by rewrite Nat.leb_refl.
    + destruct (reads_unpack (MSGPACK_OBJECT_POSITIVE_INTEGER 0) [0] pre (replicate n 0)) as [zone E];
        [by apply reads_push, leads_1|simpl; lia|].
      change (pre ++ replicate (S n) 0) with (pre ++ [0] ++ replicate n 0). rewrite E.
      cbn [up_ret up_data Z.eqb Pos.eqb MSGPACK_UNPACK_SUCCESS]. rewrite drop_app_length.
      change ([0] ++ replicate n 0) with (replicate (S n) 0). by rewrite all_zero_replicate.
  - destruct (entry_reads format e He) as [Hr Hd].
    destruct (reads_unpack _ _ pre (concat (map (entry_bytes format) es) ++ replicate n 0) Hr Hd) as [zone E].
    rewrite <- app_assoc, E. cbn [up_ret up_data up_off Z.eqb Pos.eqb MSGPACK_UNPACK_SUCCESS].
    assert (Hv := entry_valid format e). unfold entry_obj in Hv |- *. rewrite Hv.
    rewrite (app_assoc pre). rewrite <- length_app.
    cbn [length] in Hf. rewrite IH by lia. rewrite !length_app. do 2 f_equal; [f_equal; lia|lia].
Qed.

(** A chunk of storage that holds encoded records, with or without the zero
    bytes that a stopped program leaves at its end, is validated: the records
    are counted, marks of groups included, and the bytes before the padding are
    reported as the valid ones. *)
Theorem validate_recovers format es n :
  Forall entry_wf es ->
  flb_mp_validate_log_chunk [] (concat (map (entry_bytes format) es) ++ replicate n 0) =
  Some (0, Z.of_nat (length es), length (concat (map (entry_bytes format) es))).
Proof.
  intros Hes. unfold flb_mp_validate_log_chunk. assert (Hl := entries_length format es Hes).
  destruct es as [|e es'].
  - destruct n as [|n]; [done|]. apply (validate_entries format (S n) [] Hes _ [] 0). cbn. lia.
  - assert (Hb : (2 <= length (entry_bytes format e))%nat).
    { unfold entry_bytes, record_bytes. rewrite !length_app. cbn [header32 length store]. lia. }
    apply (validate_entries format n (e :: es') Hes _ [] 0).
    rewrite length_app. cbn [map concat length] in *. rewrite length_app in *.
    assert (Hl' := entries_length format es' (Forall_inv_tail Hes)). lia.
Qed.

Lemma validate_recovers_witness :
  flb_mp_validate_log_chunk [] (concat (map (entry_bytes 4) [GroupEnd]) ++ replicate 3 0) =
  Some (0, 1, length (concat (map (entry_bytes 4) [GroupEnd]))).
Proof.
  apply (validate_recovers 4 [GroupEnd] 3). apply Forall_cons_2; [|by apply Forall_nil].
  unfold entry_wf. cbn. split_and!; try done; lia.
Defined.

End Validate.
