(* ===== verification/Multiline.v ===== *)
(** * Multiline messages

    src/multiline: lines that belong together are joined into one record.  A
    multiline context has groups of parser instances; every instance has streams,
    a stream has groups (such as stdout and stderr), and each of these keeps the
    text of the message it is joining.  flb_ml_rule.c has the state machine of the
    REGEX type, flb_ml_group.c the bounded concatenation, flb_ml_stream.c the
    streams and groups, flb_ml.c the appending of text and of maps, and the
    flushing.

    Regular expressions, the parsers of [flb_parser_do], the clock, the hash of
    stream names and the hash that tells metadata entries apart are parameters.
    Buffers are assumed to grow when they have to ([flb_sds_cat_safe] and the
    encoder do not fail).  The buffers of packed objects are lists of
    objects; the callback that takes a record is the list of records emitted. *)

From S2P Require Import Prelude.

Module Multiline.

(** Objects of msgpack, as far as the code looks into them. *)
Inductive obj := OStr (s : bytes) | OMap (m : list (obj * obj)) | OOther (n : Z).
Abbreviation omap_t := (list (obj * obj)).

Inductive ml_type := FLB_ML_REGEX | FLB_ML_ENDSWITH | FLB_ML_EQ.

Definition FLB_MULTILINE_OK : Z := 0.
Definition FLB_MULTILINE_PROCESSED : Z := 1.
Definition FLB_MULTILINE_TRUNCATED : Z := 2.
Definition FLB_ML_MAX_GROUPS : nat := 6.

(** A record handed to the flush callback. *)
Record event := mkevent {
  e_time : Z; e_meta : omap_t; e_truncated : bool; e_body : omap_t }.

(** [struct flb_ml_stream_group]: [ctx] is [mp_sbuf], [md] is [mp_md_sbuf]. *)
Record group := mkgroup {
  g_name : bytes;
  buf : bytes;
  first_line : bool;
  rule_to_state : option nat;
  md : list omap_t;
  ctx : list obj;
  mp_time : Z;
  truncated : bool;
}.

Record stream := mkstream { st_id : Z; groups : list group; last_group : option nat }.

Section Code.

Context {regex parser_t : Type}.
Variable flb_regex_match : regex -> bytes -> Z.
Variable flb_parser_do : parser_t -> bytes -> option (omap_t * Z).
Variable hash_entry : obj -> obj -> Z.

(** A rule; [to_state_map] has the indices of the rules it leads to. *)
Record rule := mkrule {
  start_state : bool;
  from_states : list bytes;
  to_state : option bytes;
  rx : regex;
  rx_end : option regex;
  to_state_map : list nat;
}.

(** [struct flb_ml_parser] *)
Record ml_parser := mkparser {
  type : ml_type;
  negate : bool;
  match_str : bytes;
  p_key_group : option bytes;
  parser : option parser_t;
  regex_rules : list rule;
}.

Record parser_ins := mkins {
  ml_parser_of : ml_parser;
  key_content : option bytes;
  key_pattern : option bytes;
  key_group : option bytes;
  streams : list stream;
  last_stream_id : Z;
}.

Record ml_group := mkmlgroup { parsers : list parser_ins; lru_parser : option nat }.

Record ml := mkml {
  ml_groups : list ml_group;
  buffer_limit : Z;
  last_flush : Z;
  emitted : list event;
}.

(** ** Rules *)

Definition start_name : bytes := str "start_state".

Definition get_start_state (l : list bytes) : bool := existsb (λ e, strcmp_eq e start_name) l.

(** [flb_ml_rule_create]: the tokens of [from_states], the compiled patterns
    ([None]: the pattern is refused).  A rule that is refused is unlinked. *)
Definition flb_ml_rule_create (p : ml_parser) (from : list bytes) (pattern : option regex)
    (to : option bytes) (end_pattern : option (option regex)) : Z * ml_parser :=
  let first_rule := bool_decide (regex_rules p = []) in
  if bool_decide (from = []) then (-1, p)
  else
    let start := get_start_state from in
    if negb start && first_rule then (-1, p)
    else
      match pattern, end_pattern with
      | None, _ | _, Some None => (-1, p)
      | Some r, e =>
          let re := match e with Some x => x | None => None end in
          (0, mkparser (type p) (negate p) (match_str p) (p_key_group p) (parser p)
                (regex_rules p ++ [mkrule start from to r re []]))
      end.

Definition to_states_matches_rule (r : rule) (state : bytes) : bool :=
  existsb (λ e, strcmp_eq e state) (from_states r).

Definition to_states_exists (rules : list rule) (state : bytes) : bool :=
  existsb (λ r, to_states_matches_rule r state) rules.

Definition with_map (r : rule) (m : list nat) : rule :=
  mkrule (start_state r) (from_states r) (to_state r) (rx r) (rx_end r) m.

(** [set_to_state_map]: the entries are appended to the map of the rule.  The
    check that the state exists is inside the loop over the rules. *)
Definition set_to_state_map (rules : list rule) (r : rule) : option rule :=
  match to_state r with
  | None => Some r
  | Some state =>
      foldl (λ acc i,
        acc ← acc;
        if to_states_exists rules state then
          match rules !! i with
          | Some r' => if to_states_matches_rule r' state
                       then Some (with_map acc (to_state_map acc ++ [i])) else Some acc
          | None => Some acc
          end
        else None) (Some r) (seq 0 (length rules))
  end.

(** [flb_ml_rule_init]: the maps of all rules; [None] when a state is not
    registered. *)
Fixpoint rule_init_from (all rest : list rule) : option (list rule) :=
  match rest with
  | [] => Some []
  | r :: rest' =>
      r' ← set_to_state_map all r; rest'' ← rule_init_from all rest'; Some (r' :: rest'')
  end.

Definition flb_ml_rule_init (p : ml_parser) : option ml_parser :=
  rules ← rule_init_from (regex_rules p) (regex_rules p);
  Some (mkparser (type p) (negate p) (match_str p) (p_key_group p) (parser p) rules).

(** ** The buffer of a group *)

Definition with_buf (b : bytes) (g : group) : group :=
  mkgroup (g_name g) b (first_line g) (rule_to_state g) (md g) (ctx g) (mp_time g) (truncated g).
Definition with_rule (r : option nat) (g : group) : group :=
  mkgroup (g_name g) (buf g) (first_line g) r (md g) (ctx g) (mp_time g) (truncated g).
Definition with_truncated (t : bool) (g : group) : group :=
  mkgroup (g_name g) (buf g) (first_line g) (rule_to_state g) (md g) (ctx g) (mp_time g) t.
Definition with_first (f : bool) (g : group) : group :=
  mkgroup (g_name g) (buf g) f (rule_to_state g) (md g) (ctx g) (mp_time g) (truncated g).
Definition with_md (m : list omap_t) (g : group) : group :=
  mkgroup (g_name g) (buf g) (first_line g) (rule_to_state g) m (ctx g) (mp_time g) (truncated g).
Definition with_ctx (c : list obj) (g : group) : group :=
  mkgroup (g_name g) (buf g) (first_line g) (rule_to_state g) (md g) c (mp_time g) (truncated g).
Definition with_time (t : Z) (g : group) : group :=
  mkgroup (g_name g) (buf g) (first_line g) (rule_to_state g) (md g) (ctx g) t (truncated g).

Definition cat (data : bytes) (g : group) : group := with_buf (buf g ++ data) g.

(** The last byte of the buffer is not a newline. *)
Definition unterminated (b : bytes) : bool :=
  match last b with Some c => negb (c =? 10) | None => false end.

(** [flb_ml_group_cat]: concatenation within the limit of the context. *)
Definition flb_ml_group_cat (limit : Z) (g : group) (data : bytes) : Z * group :=
  let blen := Z.of_nat (length (buf g)) in
  if 0 <? limit then
    if limit <=? blen then (FLB_MULTILINE_TRUNCATED, with_truncated true g)
    else
      let avail := limit - blen in
      if avail <? Z.of_nat (length data) then
        (FLB_MULTILINE_TRUNCATED, cat (take (Z.to_nat avail) data) (with_truncated true g))
      else (FLB_MULTILINE_OK, cat data g)
  else (FLB_MULTILINE_OK, cat data g).

(** [flb_ml_register_context]; NULL time or map as [None]. *)
Definition flb_ml_register_context (g : group) (tm : option Z) (map : option omap_t) : group :=
  let g := match tm with Some t => with_time t g | None => g end in
  match map with Some m => with_ctx (ctx g ++ [OMap m]) g | None => g end.

Definition breakline_prepare (pi : parser_ins) (g : group) : group :=
  if key_content pi is Some _ then g
  else if unterminated (buf g) then cat [10] g else g.

(** ** Flushing *)

(** The entries of metadata whose hash was not seen before. *)
Definition dedup_step (acc : list Z * omap_t) (kv : obj * obj) : list Z * omap_t :=
  let h := hash_entry kv.1 kv.2 in
  if bool_decide (h ∈ acc.1) then acc else (acc.1 ++ [h], acc.2 ++ [kv]).

Definition flb_ml_flush_metadata_buffer (maps : list omap_t) : omap_t :=
  (foldl dedup_step ([], []) (concat maps)).2.

(** The keys of the first line, with the text in place of the content key.
    [len] is the variable that holds the length of the content key and, once
    that key was found, the length of the text. *)
Fixpoint repack (content : bytes) (text : bytes) (len : Z) (m : omap_t) : omap_t :=
  match m with
  | [] => []
  | (k, v) :: m' =>
      match k with
      | OStr s =>
          if (Z.of_nat (length s) =? len) && strncmp_eq s content (Z.to_nat len)
          then (k, OStr text) :: repack content text (Z.of_nat (length text)) m'
          else (k, v) :: repack content text len m'
      | _ => (k, v) :: repack content text len m'
      end
  end.

(** The body of the record: the keys of the first line with the text, or the
    text alone; no body when there is neither.  [None] when the object kept is not
    a map.  A text is kept beside a map only when the map had the content key,
    so the key is there in the last case. *)
Definition flush_body (pi : parser_ins) (g : group) : option (option omap_t * group) :=
  match ctx g with
  | [] =>
      if bool_decide (buf g = []) then Some (None, g)
      else Some (Some [(OStr (default (str "log") (key_content pi)), OStr (buf g))], g)
  | OMap m :: _ =>
      let g' := with_md [] (with_ctx [] g) in
      if bool_decide (buf g = []) then Some (Some m, g')
      else
        match key_content pi with
        | Some kc => Some (Some (repack kc (buf g) (Z.of_nat (length kc)) m), g')
        | None => Some (Some m, g')
        end
  | _ :: _ => None
  end.

(** [flb_ml_flush_stream_group]: the record, if one is emitted, and the group
    after it. *)
Definition flb_ml_flush_stream_group (now : Z) (pi : parser_ins) (g : group)
  : list event * group :=
  let g := breakline_prepare pi g in
  let time := if mp_time g =? 0 then now else mp_time g in
  match flush_body pi g with
  | None => ([], with_ctx [] g)
  | Some (body, g) =>
      let out := match body with
                 | Some b => [mkevent time (flb_ml_flush_metadata_buffer (md g)) (truncated g) b]
                 | None => []
                 end in
      (out, with_md [] (with_truncated false (with_buf [] g)))
  end.

(** ** The state machine of the rules *)

(** [try_start_state]: the first start rule that matches. *)
Fixpoint find_rule (p : rule -> bool) (i : nat) (rules : list rule) : option nat :=
  match rules with
  | [] => None
  | r :: rules' => if p r then Some i else find_rule p (S i) rules'
  end.

Definition rx_matches (r : rule) (line : bytes) : bool := negb (flb_regex_match (rx r) line =? 0).

Definition try_start_state (rules : list rule) (line : bytes) : option nat :=
  find_rule (λ r, start_state r && rx_matches r line) 0 rules.

(** The continuation rules of a state, tried in order. *)
Fixpoint try_continuation (rules : list rule) (map : list nat) (line : bytes) : option nat :=
  match map with
  | [] => None
  | i :: map' =>
      match rules !! i with
      | Some r => if negb (start_state r) && rx_matches r line then Some i
                  else try_continuation rules map' line
      | None => try_continuation rules map' line
      end
  end.

Definition state_map (rules : list rule) (i : nat) : list nat :=
  match rules !! i with Some r => to_state_map r | None => [] end.

Definition leads_to_start (rules : list rule) (i : nat) : bool :=
  existsb (λ j, match rules !! j with Some r => start_state r | None => false end)
    (state_map rules i).

Definition try_flushing_buffer (now : Z) (rules : list rule) (pi : parser_ins) (g : group)
  : list event * group :=
  let next_start := match rule_to_state g with
                    | None => true
                    | Some i => leads_to_start rules i
                    end in
  if next_start && negb (bool_decide (buf g = [])) then
    let '(out, g) := flb_ml_flush_stream_group now pi g in (out, with_first true g)
  else ([], g).

(** The continuation part of [flb_ml_rule_process]: the text joined to the
    message. *)
Definition join (limit : Z) (g : group) (line : bytes) : Z * group :=
  let g := if unterminated (buf g) then cat [10] g else g in
  if bool_decide (line = []) then (FLB_MULTILINE_OK, cat [10] g)
  else flb_ml_group_cat limit g line.

(** A line that continues the message by rule [j]. *)
Definition rule_continue (now limit : Z) (pi : parser_ins) (g : group) (j : nat) (line : bytes)
  : Z * list event * group :=
  let '(ret, g) := join limit g line in
  if ret =? FLB_MULTILINE_TRUNCATED then
    let '(out, g) := flb_ml_flush_stream_group now pi g in (ret, out, with_rule None g)
  else
    let '(out, g) := try_flushing_buffer now (regex_rules (ml_parser_of pi)) pi (with_rule (Some j) g) in
    (FLB_MULTILINE_OK, out, g).

(** A line that starts a message by rule [j]: the one before it is flushed. *)
Definition rule_start (now limit : Z) (pi : parser_ins) (g : group) (full_map : option omap_t)
    (tm : Z) (j : nat) (line : bytes) : Z * list event * group :=
  let '(out, g) := if bool_decide (buf g = []) then ([], g)
                   else flb_ml_flush_stream_group now pi g in
  let g := with_rule (Some j) g in
  let '(ret, g) := flb_ml_group_cat limit g line in
  if ret =? FLB_MULTILINE_TRUNCATED then (ret, out, g)
  else
    let g := flb_ml_register_context g (Some tm) full_map in
    let '(out2, g) := try_flushing_buffer now (regex_rules (ml_parser_of pi)) pi g in
    (FLB_MULTILINE_OK, out ++ out2, g).

(** [flb_ml_rule_process]; [line] is the content: that of the content key, or the
    text itself. *)
Definition flb_ml_rule_process (now limit : Z) (pi : parser_ins) (g : group)
    (full_map : option omap_t) (tm : Z) (line : bytes) : Z * list event * group :=
  let rules := regex_rules (ml_parser_of pi) in
  let cont := match rule_to_state g with
              | Some i => try_continuation rules (state_map rules i) line
              | None => None
              end in
  match cont with
  | Some j => rule_continue now limit pi g j line
  | None =>
      match try_start_state rules line with
      | None => (-1, [], g)
      | Some j => rule_start now limit pi g full_map tm j line
      end
  end.

(** ** Streams and their groups *)

Definition stream_group_create (name : bytes) : group :=
  mkgroup name [] true None [] [] 0 false.

(** [flb_sds_cmp (s, str, len) == 0]. *)
Definition sds_eq (s x : bytes) : bool :=
  Nat.eqb (length s) (length x) && strncmp_eq s x (length x).

(** [flb_ml_stream_group_get]: the index of the group, creating it; [None] when
    there are too many.  The default group is the first. *)
Fixpoint find_group (name : bytes) (i : nat) (gs : list group) : option nat :=
  match gs with
  | [] => None
  | g :: gs' => if sds_eq (g_name g) name then Some i else find_group name (S i) gs'
  end.

Definition flb_ml_stream_group_get (p : ml_parser) (st : stream) (name : option bytes)
  : option nat * stream :=
  match p_key_group p, name with
  | Some _, Some n =>
      match find_group n 0 (groups st) with
      | Some i => (Some i, st)
      | None =>
          if Nat.leb FLB_ML_MAX_GROUPS (length (groups st)) then (None, st)
          else (Some (length (groups st)),
                mkstream (st_id st) (groups st ++ [stream_group_create n]) (last_group st))
      end
  | _, _ => (Some 0%nat, st)
  end.

(** [stream_create]: a stream with its default group. *)
Definition stream_create (id : Z) : stream := mkstream id [stream_group_create []] None.

Fixpoint find_stream (id : Z) (i : nat) (l : list stream) : option nat :=
  match l with
  | [] => None
  | st :: l' => if st_id st =? id then Some i else find_stream id (S i) l'
  end.

Definition flb_ml_stream_get (pi : parser_ins) (id : Z) : option nat := find_stream id 0 (streams pi).

Definition with_streams (l : list stream) (pi : parser_ins) : parser_ins :=
  mkins (ml_parser_of pi) (key_content pi) (key_pattern pi) (key_group pi) l (last_stream_id pi).

Definition with_groups (gs : list group) (st : stream) : stream :=
  mkstream (st_id st) gs (last_group st).

Definition add_stream (id : Z) (pi : parser_ins) : parser_ins :=
  match flb_ml_stream_get pi id with
  | Some _ => pi
  | None => with_streams (streams pi ++ [stream_create id]) pi
  end.

(** [flb_ml_stream_create]: a stream on every parser instance; its id is the hash
    of the name. *)
Definition flb_ml_stream_create (cfl_hash_64bits : bytes -> Z) (m : ml) (name : bytes) : Z * ml :=
  let id := cfl_hash_64bits name in
  (id, mkml (map (λ g, mkmlgroup (map (add_stream id) (parsers g)) (lru_parser g)) (ml_groups m))
         (buffer_limit m) (last_flush m) (emitted m)).

(** ** Appending to a stream *)

Definition match_negate (p : ml_parser) (matched : bool) : bool :=
  if matched then negb (negate p) else negate p.

Definition ends_with (m b : bytes) : bool :=
  bool_decide (drop (length b - length m) b = m).

(** The ENDSWITH and EQ types: the line is joined whatever it is, and a match
    completes the message. *)
Definition package_match (now : Z) (pi : parser_ins) (g : group) (full_map : option omap_t)
    (tm : Z) (line : bytes) (matched : bool) : list event * group :=
  let rule_match := match_negate (ml_parser_of pi) matched in
  let g := if bool_decide (ctx g = []) then flb_ml_register_context g (Some tm) full_map else g in
  let g := breakline_prepare pi g in
  let g := cat line g in
  if rule_match then flb_ml_flush_stream_group now pi g else ([], g).

(** [package_content] on the group: [line] is the content, [pattern] what the
    types ENDSWITH and EQ look at.  The result is that of the function: -1, 0 when
    nothing was done, 1, or [FLB_MULTILINE_TRUNCATED]. *)
Definition package_group (now limit : Z) (pi : parser_ins) (g : group) (metadata full_map : option omap_t)
    (tm : Z) (line pattern : bytes) : Z * list event * group :=
  let p := ml_parser_of pi in
  let add_md (x : list event * group) :=
    (x.1, match metadata with Some m => with_md (md x.2 ++ [m]) x.2 | None => x.2 end) in
  match type p with
  | FLB_ML_REGEX =>
      let '(ret, out, g) := flb_ml_rule_process now limit pi g full_map tm line in
      if ret =? -1 then (-1, out, g)
      else
        let '(out, g) := add_md (out, g) in
        (if ret =? FLB_MULTILINE_TRUNCATED then FLB_MULTILINE_TRUNCATED else 1, out, g)
  | FLB_ML_ENDSWITH =>
      if Nat.leb (length (match_str p)) (length pattern) then
        let '(out, g) := add_md (package_match now pi g full_map tm line (ends_with (match_str p) pattern)) in
        (1, out, g)
      else (0, [], g)
  | FLB_ML_EQ =>
      let '(out, g) := add_md (package_match now pi g full_map tm line (bool_decide (pattern = match_str p))) in
      (1, out, g)
  end.

(** [package_content] on the stream.  [None]: the group is NULL and is used. *)
Definition package_content (now limit : Z) (pi : parser_ins) (st : stream)
    (metadata full_map : option omap_t) (tm : Z) (line pattern : bytes)
    (val_group : option bytes) : option (Z * list event * stream) :=
  let '(i, st) := flb_ml_stream_group_get (ml_parser_of pi) st val_group in
  i ← i;
  g ← groups st !! i;
  let '(ret, out, g) := package_group now limit pi g metadata full_map tm line pattern in
  Some (ret, out, mkstream (st_id st) (<[i := g]> (groups st)) (Some i)).

(** [get_key_id], as the value of the key: a string key with a string value. *)
Fixpoint get_key (name : bytes) (m : omap_t) : option bytes :=
  match m with
  | [] => None
  | (OStr k, OStr v) :: m' =>
      if sds_eq k name then Some v
      else get_key name m'
  | _ :: m' => get_key name m'
  end.

(** What is appended: text, or a map, with the map that replaces it when a
    parser was applied to its content. *)
Inductive payload := Text (b : bytes) | Map (m : omap_t).

Definition process_append (now limit : Z) (pi : parser_ins) (st : stream) (tm : Z)
    (metadata : option omap_t) (p : payload) : option (Z * list event * stream) :=
  match p with
  | Text b => package_content now limit pi st None None tm b b None
  | Map m =>
      match key_content pi with
      | None => Some (-1, [], st)
      | Some kc =>
          match get_key kc m with
          | None => Some (-1, [], st)
          | Some content =>
              let pattern := default content (kp ← key_pattern pi; get_key kp m) in
              let val_group := kg ← key_group pi; get_key kg m in
              '(ret, out, st) ← package_content now limit pi st metadata (Some m) tm content pattern val_group;
              Some (if ret =? 0 then -1 else ret, out, st)
          end
      end
  end.

(** The value of the first entry with the key, whatever its type. *)
Fixpoint first_content (name : bytes) (m : omap_t) : option obj :=
  match m with
  | [] => None
  | (OStr k, v) :: m' =>
      if sds_eq k name then Some v
      else first_content name m'
  | _ :: m' => first_content name m'
  end.

(** [ml_append_try_parser_type_text] and [_map]: the payload to process and the
    time the parser found (0: none).  [Some None]: the parser does not take it;
    [None]: the content key is NULL and is used. *)
Definition try_parser (pi : parser_ins) (tm : Z) (p : payload) : option (option (payload * Z)) :=
  match parser (ml_parser_of pi) with
  | None => Some (Some (p, 0))
  | Some ps =>
      let text (b : bytes) :=
        Some (match flb_parser_do ps b with
              | Some (m, t) => Some (Map m, if t =? 0 then tm else t)
              | None => None
              end) in
      match p with
      | Text b => text b
      | Map m =>
          kc ← key_content pi;
          match first_content kc m with
          | Some (OStr b) => text b
          | Some _ => Some None
          | None => Some (Some (p, 0))
          end
      end
  end.

(** [ml_append_try_parser].  Without the stream the result is that of the step
    before, 0. *)
Definition ml_append_try_parser (now limit : Z) (pi : parser_ins) (id tm : Z)
    (metadata : option omap_t) (p : payload) : option (Z * list event * parser_ins) :=
  r ← try_parser pi tm p;
  match r with
  | None => Some (-1, [], pi)
  | Some (p, t) =>
      let t := if t =? 0 then (if tm =? 0 then now else tm) else t in
      match flb_ml_stream_get pi id with
      | None => Some (0, [], pi)
      | Some i =>
          st ← streams pi !! i;
          '(ret, out, st) ← process_append now limit pi st t metadata p;
          Some (ret, out, with_streams (<[i := st]> (streams pi)) pi)
      end
  end.

(** ** Flushing a parser instance, a context *)

(** [flb_ml_flush_parser_instance]: the groups of the streams with the id, of all
    streams when it is 0. *)
Fixpoint flush_groups (now : Z) (pi : parser_ins) (gs : list group) : list event * list group :=
  match gs with
  | [] => ([], [])
  | g :: gs' =>
      let '(out, g) := flb_ml_flush_stream_group now pi g in
      let '(out', gs') := flush_groups now pi gs' in (out ++ out', g :: gs')
  end.

Fixpoint flush_streams (now id : Z) (pi : parser_ins) (l : list stream) : list event * list stream :=
  match l with
  | [] => ([], [])
  | st :: l' =>
      let '(out, st) :=
        if negb (id =? 0) && negb (st_id st =? id) then ([], st)
        else let '(out, gs) := flush_groups now pi (groups st) in (out, with_groups gs st) in
      let '(out', l') := flush_streams now id pi l' in (out ++ out', st :: l')
  end.

Definition flb_ml_flush_parser_instance (now id : Z) (pi : parser_ins) : list event * parser_ins :=
  let '(out, l) := flush_streams now id pi (streams pi) in (out, with_streams l pi).

Fixpoint flush_parsers (now id : Z) (l : list parser_ins) : list event * list parser_ins :=
  match l with
  | [] => ([], [])
  | pi :: l' =>
      let '(out, pi) := flb_ml_flush_parser_instance now id pi in
      let '(out', l') := flush_parsers now id l' in (out ++ out', pi :: l')
  end.

Fixpoint flush_ml_groups (now id : Z) (l : list ml_group) : list event * list ml_group :=
  match l with
  | [] => ([], [])
  | g :: l' =>
      let '(out, ps) := flush_parsers now id (parsers g) in
      let '(out', l') := flush_ml_groups now id l' in
      (out ++ out', mkmlgroup ps (lru_parser g) :: l')
  end.

(** [flb_ml_flush_pending]: the parsers of the first group; [None] without one. *)
Definition flb_ml_flush_pending (now : Z) (m : ml) : option ml :=
  match ml_groups m with
  | [] => None
  | g :: gs =>
      let '(out, ps) := flush_parsers now 0 (parsers g) in
      Some (mkml (mkmlgroup ps (lru_parser g) :: gs) (buffer_limit m) now (emitted m ++ out))
  end.

(** [cb_ml_flush_timer]. *)
Definition cb_ml_flush_timer (flush_ms now : Z) (m : ml) : option ml :=
  if now <? last_flush m + flush_ms then Some m else flb_ml_flush_pending now m.

(** ** Appending to a context *)

Definition get_ins (m : ml) (gi pi : nat) : option parser_ins :=
  g ← ml_groups m !! gi; parsers g !! pi.

(** The instance after an attempt, and the records it emitted. *)
Definition put_ins (m : ml) (gi pi : nat) (ins : parser_ins) (out : list event) : ml :=
  mkml (alter (λ g, mkmlgroup (<[pi := ins]> (parsers g)) (lru_parser g)) gi (ml_groups m))
    (buffer_limit m) (last_flush m) (emitted m ++ out).

(** [group->lru_parser = parser_i; parser_i->last_stream_id = stream_id]. *)
Definition set_lru (m : ml) (gi pi : nat) (id : Z) : ml :=
  mkml (alter (λ g,
          mkmlgroup (alter (λ i, mkins (ml_parser_of i) (key_content i) (key_pattern i) (key_group i)
                                   (streams i) id) pi (parsers g)) (Some pi)) gi (ml_groups m))
    (buffer_limit m) (last_flush m) (emitted m).

Definition try_one (now id tm : Z) (metadata : option omap_t) (p : payload) (m : ml) (gi pi : nat)
  : option (Z * ml) :=
  ins ← get_ins m gi pi;
  '(ret, out, ins) ← ml_append_try_parser now (buffer_limit m) ins id tm metadata p;
  Some (ret, put_ins m gi pi ins out).

(** Whether the instance was the last one to take a line of the stream. *)
Definition is_lru (m : ml) (gi pi : nat) (id : Z) : bool :=
  match ml_groups m !! gi with
  | Some g => bool_decide (lru_parser g = Some pi) &&
      match parsers g !! pi with Some i => last_stream_id i =? id | None => false end
  | None => false
  end.

(** The first pass: the last parser of each group that took a line of the
    stream.  The result is the status once a parser takes the line. *)
Fixpoint try_lru (now id tm : Z) (metadata : option omap_t) (p : payload) (m : ml) (gis : list nat)
  : option (option Z * ml) :=
  match gis with
  | [] => Some (None, m)
  | gi :: gis' =>
      g ← ml_groups m !! gi;
      match lru_parser g with
      | Some pi =>
          if is_lru m gi pi id then
            '(ret, m) ← try_one now id tm metadata p m gi pi;
            if 0 <=? ret then Some (Some ret, m) else try_lru now id tm metadata p m gis'
          else try_lru now id tm metadata p m gis'
      | None => try_lru now id tm metadata p m gis'
      end
  end.

(** The second pass: every other parser, in order. *)
Fixpoint try_all (now id tm : Z) (metadata : option omap_t) (p : payload) (m : ml)
    (l : list (nat * nat)) : option (option Z * ml) :=
  match l with
  | [] => Some (None, m)
  | (gi, pi) :: l' =>
      if is_lru m gi pi id then try_all now id tm metadata p m l'
      else
        '(ret, m) ← try_one now id tm metadata p m gi pi;
        if 0 <=? ret then Some (Some ret, set_lru m gi pi id)
        else try_all now id tm metadata p m l'
  end.

(** The parser instances of a context, by group and position. *)
Definition all_parsers (m : ml) : list (nat * nat) :=
  concat (imap (λ gi g, map (λ pi, (gi, pi)) (seq 0 (length (parsers g)))) (ml_groups m)).

Definition append_status (ret : Z) : Z :=
  if ret =? FLB_MULTILINE_TRUNCATED then FLB_MULTILINE_TRUNCATED else FLB_MULTILINE_OK.

(** No parser takes the line: what is pending on the stream is flushed and the
    line is a message of its own, on the default group of the first parser. *)
Definition append_alone (now id tm : Z) (p : payload) (m : ml) : option (Z * ml) :=
  let '(out, gs) := flush_ml_groups now id (ml_groups m) in
  let m := mkml gs (buffer_limit m) (last_flush m) (emitted m ++ out) in
  ins ← get_ins m 0 0;
  match flb_ml_stream_get ins id with
  | None => Some (-1, m)
  | Some i =>
      st ← streams ins !! i;
      g ← groups st !! 0%nat;
      let '(ret, g) :=
        match p with
        | Text b => flb_ml_group_cat (buffer_limit m) (flb_ml_register_context g (Some tm) None) b
        | Map o => (FLB_MULTILINE_OK, flb_ml_register_context g (Some tm) (Some o))
        end in
      let '(out, g) := flb_ml_flush_stream_group now ins g in
      let st := with_groups (<[0%nat := g]> (groups st)) st in
      Some (append_status ret, put_ins m 0 0 (with_streams (<[i := st]> (streams ins)) ins) out)
  end.

(** [flb_ml_append_text] and [flb_ml_append_object]: the two passes, then the
    line alone.  [None]: a NULL pointer is used. *)
Definition flb_ml_append (now id tm : Z) (metadata : option omap_t) (p : payload) (m : ml)
  : option (Z * ml) :=
  '(r, m) ← try_lru now id tm metadata p m (seq 0 (length (ml_groups m)));
  match r with
  | Some ret => Some (append_status ret, m)
  | None =>
      '(r, m) ← try_all now id tm metadata p m (all_parsers m);
      match r with
      | Some ret => Some (append_status ret, m)
      | None => append_alone now id tm p m
      end
  end.

Definition flb_ml_append_text (now id tm : Z) (b : bytes) (m : ml) : option (Z * ml) :=
  flb_ml_append now id tm None (Text b) m.

(** Metadata that is NULL is replaced by an empty map. *)
Definition flb_ml_append_object (now id tm : Z) (metadata : option omap_t) (o : obj) (m : ml)
  : option (Z * ml) :=
  match o with
  | OMap x => flb_ml_append now id tm (Some (default [] metadata)) (Map x) m
  | _ => Some (-1, m)
  end.

(** ** The text of a message *)

(** Text with its newline at the end. *)
Definition norm (b : bytes) : bytes := if unterminated b then b ++ [10] else b.

Lemma unterminated_app b l : l <> [] -> unterminated (b ++ l) = unterminated l.
Proof.
  intros Hl. unfold unterminated. destruct l as [|c l _] using rev_ind; [done|].
  by rewrite app_assoc, !last_snoc.
Qed.


Lemma norm_nil b : norm b = [] <-> b = [].
Proof.
  split; [|by intros ->]. unfold norm. destruct (unterminated b); [|done].
  intros H. by apply app_eq_nil in H as [? _].
Qed.

Lemma norm_length b : (length b <= length (norm b) <= S (length b))%nat.
Proof. unfold norm. destruct (unterminated b); rewrite ?length_app; simpl; lia. Qed.

Lemma norm_unterminated b : unterminated (norm b) = false.
Proof.
  unfold norm. destruct (unterminated b) eqn:H; [|done]. by rewrite unterminated_app.
Qed.

Lemma norm_idem b : norm (norm b) = norm b.
Proof. unfold norm at 1. by rewrite norm_unterminated. Qed.

(** The text that a record carries, and that of a list of records. *)
Definition body_text (e : event) : bytes :=
  match e_body e with [(_, OStr t)] => t | _ => [] end.
Definition texts (l : list event) : bytes := concat (map body_text l).


(** A group of a context that gets text only: no keys of a first line, and the
    newline is the context's to add. *)
Definition text_group (g : group) : Prop := ctx g = [].

Lemma breakline_norm pi g : key_content pi = None ->
  buf (breakline_prepare pi g) = norm (buf g) /\ ctx (breakline_prepare pi g) = ctx g /\
  rule_to_state (breakline_prepare pi g) = rule_to_state g.
Proof.
  intros Hk. unfold breakline_prepare, norm. rewrite Hk. by destruct (unterminated (buf g)).
Qed.

(** Flushing emits the text, whole, and empties the group. *)
Lemma flush_text now pi g : text_group g -> key_content pi = None ->
  let '(out, g') := flb_ml_flush_stream_group now pi g in
  texts out = norm (buf g) /\ buf g' = [] /\ text_group g' /\
  rule_to_state g' = rule_to_state g /\
  Forall (λ e, (length (body_text e) <= S (length (buf g)))%nat) out.
Proof.
  intros Hc Hk. unfold flb_ml_flush_stream_group.
  destruct (breakline_norm pi g Hk) as (Hb & Hx & Hr).
  unfold flush_body. rewrite Hx, Hc, Hb, Hk. unfold text_group in *.
  case_bool_decide as Hn; simpl.
  - rewrite Hn, Hx, Hr. split_and!; try done; constructor.
  - unfold texts, body_text. simpl. rewrite app_nil_r, Hx, Hr. split_and!; try done.
    apply Forall_singleton. apply norm_length.
Qed.


Lemma try_flushing_text now rules pi g : text_group g -> key_content pi = None ->
  let '(out, g') := try_flushing_buffer now rules pi g in
  texts out ++ norm (buf g') = norm (buf g) /\ text_group g' /\
  (length (buf g') <= length (buf g))%nat /\
  Forall (λ e, (length (body_text e) <= S (length (buf g)))%nat) out.
Proof.
  intros Hc Hk. unfold try_flushing_buffer.
  destruct (_ && _); [|split_and!; try done; constructor].
  pose proof (flush_text now pi g Hc Hk) as H.
  destruct (flb_ml_flush_stream_group now pi g) as [out g'].
  destruct H as (H1 & H2 & H3 & H4 & H5). simpl. rewrite H2. simpl.
  rewrite app_nil_r. split_and!; [done|done|lia|done].
Qed.

(** *** Text is neither lost nor reordered *)














(** Lines appended one after the other. *)
Fixpoint append_lines (now id tm : Z) (lines : list bytes) (m : ml) : option ml :=
  match lines with
  | [] => Some m
  | l :: lines' =>
      '(_, m) ← flb_ml_append_text now id tm l m; append_lines now id tm lines' m
  end.




(** *** The limit of the buffer *)

Lemma group_cat_bounded limit g data : 0 < limit -> Z.of_nat (length (buf g)) <= limit + 1 ->
  let '(ret, g') := flb_ml_group_cat limit g data in
  Z.of_nat (length (buf g')) <= limit + 1 /\ ctx g' = ctx g /\
  (ret = FLB_MULTILINE_OK -> Z.of_nat (length (buf g')) <= limit) /\
  (Z.of_nat (length (buf g)) <= limit -> Z.of_nat (length (buf g')) <= limit) /\
  (ret = FLB_MULTILINE_OK \/ ret = FLB_MULTILINE_TRUNCATED /\ truncated g' = true /\ buf g' <> []).
Proof.
  intros Hl Hb. unfold flb_ml_group_cat. rewrite (proj2 (Z.ltb_lt _ _)) by done.
  destruct (Z.leb_spec limit (Z.of_nat (length (buf g)))) as [Hfull|Hroom].
  { split_and!; simpl; try done. right. split_and!; [done|done|].
    intros Hn. rewrite Hn in Hfull. simpl in Hfull. lia. }
  destruct (Z.ltb_spec (limit - Z.of_nat (length (buf g))) (Z.of_nat (length data))) as [Hcut|Hfit];
    simpl; rewrite length_app, ?length_take.
  - split_and!; try done; try lia. right. split_and!; [done|done|].
    intros Hn. apply (f_equal length) in Hn. rewrite length_app, length_take in Hn. simpl in Hn. lia.
  - split_and!; try done; try lia; auto.
Qed.

(** A flush of a group that was cut marks its record. *)
Lemma flush_marks now pi g : text_group g -> truncated g = true -> buf g <> [] ->
  exists e, e ∈ (flb_ml_flush_stream_group now pi g).1 /\ e_truncated e = true.
Proof.
  intros Hc Ht Hb. unfold flb_ml_flush_stream_group, flush_body.
  assert (Hg : ctx (breakline_prepare pi g) = [] /\ truncated (breakline_prepare pi g) = true /\
    buf (breakline_prepare pi g) <> []).
  { unfold breakline_prepare. repeat case_match; simpl; split_and!; try done.
    intros Hn. by apply app_eq_nil in Hn as [? _]. }
  destruct Hg as (-> & H2 & H3). rewrite bool_decide_eq_false_2 by done. simpl.
  eexists. split; [left|done].
Qed.

(** The records of a list are no longer than [n], and the group holds at most
    [limit]. *)
Definition bounded (limit : Z) (out : list event) (g : group) : Prop :=
  Z.of_nat (length (buf g)) <= limit /\
  Forall (λ e, Z.of_nat (length (body_text e)) <= limit + 2) out.

Lemma flush_bounded now pi g limit : text_group g -> key_content pi = None ->
  0 < limit -> Z.of_nat (length (buf g)) <= limit + 1 ->
  let '(out, g') := flb_ml_flush_stream_group now pi g in bounded limit out g' /\ text_group g'.
Proof.
  intros Hc Hk Hl Hb. pose proof (flush_text now pi g Hc Hk) as H.
  destruct (flb_ml_flush_stream_group now pi g) as [out g']. destruct H as (_ & H2 & H3 & _ & H5).
  split; [|done]. split; [rewrite H2; simpl; lia|]. eapply Forall_impl; [exact H5|]. simpl. lia.
Qed.

Lemma try_flushing_bounded now rules pi g limit : text_group g -> key_content pi = None ->
  0 < limit -> Z.of_nat (length (buf g)) <= limit ->
  let '(out, g') := try_flushing_buffer now rules pi g in bounded limit out g' /\ text_group g'.
Proof.
  intros Hc Hk Hl Hb. pose proof (try_flushing_text now rules pi g Hc Hk) as H.
  destruct (try_flushing_buffer now rules pi g) as [out g']. destruct H as (_ & H2 & H3 & H4).
  split; [|done]. split; [lia|]. eapply Forall_impl; [exact H4|]. simpl. lia.
Qed.

(** What a line does to a group with a limit. *)
Definition within (limit : Z) (r : Z * list event * group) : Prop :=
  let '(ret, out, g) := r in
  bounded limit out g /\ text_group g /\
  (ret = FLB_MULTILINE_TRUNCATED ->
     truncated g = true \/ exists e, e ∈ out /\ e_truncated e = true).

Lemma rule_continue_bounded now limit pi g j line :
  0 < limit -> line <> [] -> text_group g -> key_content pi = None ->
  Z.of_nat (length (buf g)) <= limit -> within limit (rule_continue now limit pi g j line).
Proof.
  intros Hl Hne Hc Hk Hb. unfold rule_continue, join. rewrite bool_decide_eq_false_2 by done.
  set (g0 := if unterminated (buf g) then cat [10] g else g).
  assert (Hg0 : text_group g0 /\ Z.of_nat (length (buf g0)) <= limit + 1).
  { unfold g0, text_group in *. case_match; simpl; rewrite ?length_app; simpl; split; try done; lia. }
  destruct Hg0 as [Hc0 Hb0]. pose proof (group_cat_bounded limit g0 line Hl Hb0) as H.
  destruct (flb_ml_group_cat limit g0 line) as [ret g1]. destruct H as (H1 & H2 & H3 & _ & H5).
  assert (Hc1 : text_group g1) by (unfold text_group in *; congruence).
  destruct H5 as [->|(-> & Ht & Hn)].
  - change (FLB_MULTILINE_OK =? FLB_MULTILINE_TRUNCATED) with false.
    pose proof (try_flushing_bounded now (regex_rules (ml_parser_of pi)) pi (with_rule (Some j) g1)
      limit Hc1 Hk Hl (H3 eq_refl)) as Hf.
    destruct (try_flushing_buffer _ _ _ _) as [out g2]. destruct Hf. by split_and!.
  - rewrite Z.eqb_refl. pose proof (flush_bounded now pi g1 limit Hc1 Hk Hl H1) as Hf.
    pose proof (flush_marks now pi g1 Hc1 Ht Hn) as Hm.
    destruct (flb_ml_flush_stream_group now pi g1) as [out g2]. destruct Hf as [Hf1 Hf2].
    split_and!; [done|done|]. intros _. by right.
Qed.

Lemma rule_start_bounded now limit pi g tm j line :
  0 < limit -> text_group g -> key_content pi = None ->
  Z.of_nat (length (buf g)) <= limit -> within limit (rule_start now limit pi g None tm j line).
Proof.
  intros Hl Hc Hk Hb. unfold rule_start.
  assert (Hstep : exists out1 g1, (if bool_decide (buf g = []) then ([], g)
    else flb_ml_flush_stream_group now pi g) = (out1, g1) /\ bounded limit out1 g1 /\ text_group g1).
  { pose proof (flush_bounded now pi g limit Hc Hk Hl ltac:(lia)) as Hf.
    case_bool_decide; [exists [], g; split_and!; try done; by constructor|].
    destruct (flb_ml_flush_stream_group now pi g) as [o g1]. by exists o, g1. }
  destruct Hstep as (out1 & g1 & -> & [Hb1 Ho1] & Hc1).
  pose proof (group_cat_bounded limit (with_rule (Some j) g1) line Hl ltac:(simpl; lia)) as H.
  destruct (flb_ml_group_cat limit (with_rule (Some j) g1) line) as [ret g2].
  destruct H as (_ & H2 & _ & H4 & H5). simpl in H2, H4.
  assert (Hc2 : text_group g2) by (unfold text_group in *; congruence).
  destruct H5 as [->|(-> & Ht & Hn)].
  - change (FLB_MULTILINE_OK =? FLB_MULTILINE_TRUNCATED) with false.
    match goal with |- context [try_flushing_buffer now ?rules pi ?x] =>
      pose proof (try_flushing_bounded now rules pi x limit Hc2 Hk Hl (H4 Hb1)) as Hf;
      destruct (try_flushing_buffer now rules pi x) as [out2 g3] end.
    destruct Hf as [[Hf1 Hf2] Hf3]. split_and!; [split; [done|by apply Forall_app]|done|done].
  - rewrite Z.eqb_refl. split_and!; [split; [auto|done]|done|]. by left.
Qed.

(** With a limit, the REGEX type never keeps more than it, never emits a text of
    more than two bytes above it, and marks what it cut, for lines that are not
    empty. *)
Theorem rule_process_bounded now limit pi g tm line :
  0 < limit -> line <> [] -> text_group g -> key_content pi = None ->
  Z.of_nat (length (buf g)) <= limit ->
  within limit (flb_ml_rule_process now limit pi g None tm line).
Proof.
  intros Hl Hne Hc Hk Hb. unfold flb_ml_rule_process.
  destruct (match rule_to_state g with Some _ => _ | None => None end) as [j|];
    [by apply rule_continue_bounded|].
  destruct (try_start_state _ line) as [j|]; [by apply rule_start_bounded|].
  split_and!; [split; [done|constructor]|done|done].
Qed.

(** *** Linking the rules *)

(** The rules a state leads to: those that have it among their states. *)
Definition leads (rules : list rule) (state : bytes) (i : nat) : bool :=
  match rules !! i with Some r => to_states_matches_rule r state | None => false end.

Definition targets (rules : list rule) (state : bytes) : list nat :=
  List.filter (leads rules state) (seq 0 (length rules)).

Definition link (rules : list rule) (r : rule) : rule :=
  match to_state r with
  | Some state => with_map r (to_state_map r ++ targets rules state)
  | None => r
  end.

(** The state of a rule, if it names one, is a state of some rule. *)
Definition registered (rules : list rule) (r : rule) : bool :=
  match to_state r with Some state => to_states_exists rules state | None => true end.

Definition link_step (rules : list rule) (state : bytes) (acc : option rule) (i : nat) : option rule :=
  acc ← acc;
  if to_states_exists rules state then
    match rules !! i with
    | Some r' => if to_states_matches_rule r' state
                 then Some (with_map acc (to_state_map acc ++ [i])) else Some acc
    | None => Some acc
    end
  else None.

Lemma link_fold rules state l : to_states_exists rules state = true -> forall r,
  foldl (link_step rules state) (Some r) l
  = Some (with_map r (to_state_map r ++
      List.filter (leads rules state) l)).
Proof.
  intros He. induction l as [|i l IH]; intros r.
  { simpl. rewrite app_nil_r. by destruct r. }
  cbn [foldl List.filter]. unfold link_step at 2. cbn [mbind option_bind]. rewrite He.
  unfold leads at 1. destruct (rules !! i) as [r'|]; [|by rewrite IH].
  destruct (to_states_matches_rule r' state) eqn:Hm; rewrite IH; [|done].
  unfold with_map. simpl. by rewrite <- app_assoc.
Qed.

Lemma link_fold_none rules state l : foldl (link_step rules state) None l = None.
Proof. by induction l. Qed.

Lemma set_to_state_map_spec rules r : rules <> [] ->
  set_to_state_map rules r = if registered rules r then Some (link rules r) else None.
Proof.
  intros Hne. unfold set_to_state_map, registered, link. destruct (to_state r) as [st|]; [|done].
  change (foldl _ (Some r) (seq 0 (length rules)))
    with (foldl (link_step rules st) (Some r) (seq 0 (length rules))).
  destruct (to_states_exists rules st) eqn:He; [by apply link_fold|].
  destruct rules as [|r0 rules]; [done|]. cbn [length seq foldl].
  unfold link_step at 2. cbn [mbind option_bind]. rewrite He. apply link_fold_none.
Qed.

Lemma rule_init_from_spec all rest : all <> [] ->
  rule_init_from all rest
  = if forallb (registered all) rest then Some (map (link all) rest) else None.
Proof.
  intros Hne. induction rest as [|r rest IH]; [done|]. cbn [rule_init_from forallb map].
  rewrite set_to_state_map_spec by done. destruct (registered all r); [|done].
  cbn [mbind option_bind andb]. rewrite IH. by destruct (forallb (registered all) rest).
Qed.

(** Initialisation links every rule to exactly the rules that have its next state
    among their states, in order, and fails exactly when a rule names a state
    that no rule has. *)
Theorem rule_init_links p :
  flb_ml_rule_init p =
    if forallb (registered (regex_rules p)) (regex_rules p)
    then Some (mkparser (type p) (negate p) (match_str p) (p_key_group p) (parser p)
                 (map (link (regex_rules p)) (regex_rules p)))
    else None.
Proof.
  unfold flb_ml_rule_init. destruct (regex_rules p) as [|r rules] eqn:Hr; [done|].
  rewrite rule_init_from_spec by done. by destruct (forallb _ _).
Qed.

(** Metadata is emptied before it is read when there are keys of a first line, so
    records of maps have none. *)
Theorem flush_of_map_has_no_metadata now pi g : ctx g <> [] ->
  Forall (λ e, e_meta e = []) (flb_ml_flush_stream_group now pi g).1.
Proof.
  intros Hc. unfold flb_ml_flush_stream_group, flush_body.
  assert (Hx : ctx (breakline_prepare pi g) = ctx g)
    by (unfold breakline_prepare; by repeat case_match).
  rewrite Hx. destruct (ctx g) as [|[b|m|n] l]; [done|constructor| |constructor].
  case_bool_decide; [|destruct (key_content pi)]; by apply Forall_singleton.
Qed.

End Code.

(** ** On concrete lines *)

(** Patterns that are prefixes; no parser; messages that start with a letter A and
    go on with lines that start with a blank. *)
Definition prefix_match (r b : bytes) : Z := if bool_decide (take (length r) b = r) then 1 else 0.
Definition no_parser (p : unit) (b : bytes) : option (omap_t * Z) := None.
Definition hash0 (k v : obj) : Z := match k, v with OStr a, OStr b => Z.of_nat (length a + length b) | _, _ => 0 end.

Definition example_rules : list (@rule bytes) :=
  [mkrule true [start_name] (Some (str "cont")) (str "A") None [1%nat];
   mkrule false [str "cont"] (Some (str "cont")) (str " ") None [1%nat]].

Definition example_ins (ty : ml_type) (ms : bytes) (kc kg : option bytes) : @parser_ins bytes unit :=
  mkins (mkparser ty false ms kg None example_rules) kc None kg [stream_create 7] 0.

Definition example_ml (limit : Z) (pi : @parser_ins bytes unit) : @ml bytes unit :=
  mkml [mkmlgroup [pi] None] limit 0 [].



Lemma rule_process_bounded_witness :
  within 4 (flb_ml_rule_process prefix_match hash0 5 4 (example_ins FLB_ML_REGEX [] None None)
    (stream_group_create []) None 5 (str "A first")).
Proof. apply rule_process_bounded; [lia|done|done|done|simpl; lia]. Defined.

(** The texts of the records after some lines. *)
Definition shown (r : option (@ml bytes unit)) : option (list bytes) :=
  m ← r; Some (map body_text (emitted m)).

(** Records of the lines above: the message of two lines, the line alone; the
    last is pending. *)
Example messages :
  shown (append_lines prefix_match no_parser hash0 5 7 5
    [str "A first"; str " more"; str "other"; str "A next"]
    (example_ml 0 (example_ins FLB_ML_REGEX [] None None)))
  = Some [norm (str "A first") ++ norm (str " more"); norm (str "other")].
Proof. vm_compute. reflexivity. Qed.

(** ENDSWITH on text: a line shorter than the string is taken and lost. *)
Example short_line_lost :
  flb_ml_append_text prefix_match no_parser hash0 5 7 5 (str "ok")
    (example_ml 0 (example_ins FLB_ML_ENDSWITH (str "END") None None))
  = Some (FLB_MULTILINE_OK,
      set_lru (put_ins (example_ml 0 (example_ins FLB_ML_ENDSWITH (str "END") None None)) 0 0
        (with_streams [mkstream 7 [stream_group_create []] (Some 0%nat)]
           (example_ins FLB_ML_ENDSWITH (str "END") None None)) []) 0 0 7).
Proof. vm_compute. reflexivity. Qed.

(** Empty lines that continue a message pass the limit. *)
Example empty_lines_pass_limit :
  (r ← append_lines (λ (r b : bytes), 1) no_parser hash0 5 7 5
     (str "A" :: replicate 9 []) (example_ml 4 (example_ins FLB_ML_REGEX [] None None));
   i ← get_ins r 0 0; st ← streams i !! 0%nat; g ← groups st !! 0%nat; Some (length (buf g)))
  = Some 11%nat.
Proof. vm_compute. reflexivity. Qed.

(** A line that no rule takes does not end the state: the next continuation line
    is joined to the message as if the line had not been there. *)
Example state_survives_foreign_line :
  shown (m ← append_lines prefix_match no_parser hash0 5 7 5
    [str "A one"; str "foreign"; str " tail"]
    (example_ml 0 (example_ins FLB_ML_REGEX [] None None)); flb_ml_flush_pending hash0 5 m)
  = Some [norm (str "A one"); norm (str "foreign"); norm (str " tail")].
Proof. vm_compute. reflexivity. Qed.

(** More names of groups than a stream may have: the seventh group is NULL. *)
Definition grouped (n : Z) : obj := OMap [(OStr (str "log"), OStr (str "A")); (OStr (str "g"), OStr [65 + n])].

Fixpoint append_objects (l : list obj) (m : @ml bytes unit) : option (@ml bytes unit) :=
  match l with
  | [] => Some m
  | o :: l' => '(_, m) ← flb_ml_append_object prefix_match no_parser hash0 5 7 5 None o m; append_objects l' m
  end.

Example too_many_groups :
  let m := example_ml 0 (example_ins FLB_ML_REGEX [] (Some (str "log")) (Some (str "g"))) in
  is_Some (append_objects (map grouped [0; 1; 2; 3; 4]) m) /\
  append_objects (map grouped [0; 1; 2; 3; 4; 5]) m = None.
Proof. vm_compute. split; [by eexists|reflexivity]. Qed.

End Multiline.
