(* ===== verification/RingBuffer.v ===== *)
(** * The ring buffer between threads (src/flb_ring_buffer.c, lib/lwrb)

    Threaded inputs hand their data to the engine through a ring buffer: the
    thread of the input writes, the engine reads, and there is no lock.  [Lwrb]
    has the operations of lib/lwrb/lwrb/src/lwrb/lwrb.c, [Ring] those of
    src/flb_ring_buffer.c; here one thread runs at a time, RingThreads.v lets the
    two interleave.  Indices are [nat]; they stay below the size of the buffer. *)

From S2P Require Import Prelude.
From S2P Require Import Numbers.

(** ** The buffer of bytes *)

Module Lwrb.

(** [lwrb_t]: the memory, its size, the positions to read and to write at.  The
    memory of a buffer that was freed is gone. *)
Record lwrb_t := mkbuf { buff : option bytes; size : nat; r : nat; w : nat }.

Definition lwrb_init (buffdata : bytes) : option lwrb_t :=
  if (length buffdata =? 0)%nat then None else Some (mkbuf (Some buffdata) (length buffdata) 0 0).

(** [BUF_IS_VALID] *)
Definition lwrb_is_ready (b : lwrb_t) : bool :=
  match buff b with Some _ => (0 <? size b)%nat | None => false end.

Definition lwrb_free (b : lwrb_t) : lwrb_t :=
  if lwrb_is_ready b then mkbuf None (size b) (r b) (w b) else b.

Definition lwrb_get_free (b : lwrb_t) : nat :=
  if lwrb_is_ready b then
    let sz := if (w b =? r b)%nat then size b
              else if (w b <? r b)%nat then (r b - w b)%nat
              else (size b - (w b - r b))%nat in
    (sz - 1)%nat
  else 0%nat.

Definition lwrb_get_full (b : lwrb_t) : nat :=
  if lwrb_is_ready b then
    if (w b =? r b)%nat then 0%nat
    else if (r b <? w b)%nat then (w b - r b)%nat
    else (size b - (r b - w b))%nat
  else 0%nat.

(** memcpy to [n] bytes of the memory from position [at_]. *)
Definition put (m : bytes) (at_ : nat) (d : bytes) : bytes := take at_ m ++ d ++ drop (at_ + length d) m.
Definition get (m : bytes) (at_ n : nat) : bytes := take n (drop at_ m).

(** The bytes written, and the buffer. *)
Definition lwrb_write (b : lwrb_t) (data : bytes) : nat * lwrb_t :=
  match buff b with
  | Some m =>
      if negb (lwrb_is_ready b) || (length data =? 0)%nat then (0%nat, b)
      else
        let btw := min (lwrb_get_free b) (length data) in
        if (btw =? 0)%nat then (0%nat, b)
        else
          let tocopy := min (size b - w b) btw in
          let m := put m (w b) (take tocopy data) in
          let rest := (btw - tocopy)%nat in
          let '(m, w1) :=
            if (0 <? rest)%nat then (put m 0 (take rest (drop tocopy data)), rest) else (m, (w b + tocopy)%nat) in
          let w1 := if (size b <=? w1)%nat then 0%nat else w1 in
          ((tocopy + rest)%nat, mkbuf (Some m) (size b) (r b) w1)
  | None => (0%nat, b)
  end.

(** The bytes read, and the buffer. *)
Definition lwrb_read (b : lwrb_t) (btr : nat) : bytes * lwrb_t :=
  match buff b with
  | Some m =>
      if negb (lwrb_is_ready b) || (btr =? 0)%nat then ([], b)
      else
        let btr := min (lwrb_get_full b) btr in
        if (btr =? 0)%nat then ([], b)
        else
          let tocopy := min (size b - r b) btr in
          let d := get m (r b) tocopy in
          let rest := (btr - tocopy)%nat in
          let '(d, r1) :=
            if (0 <? rest)%nat then (d ++ get m 0 rest, rest) else (d, (r b + tocopy)%nat) in
          let r1 := if (size b <=? r1)%nat then 0%nat else r1 in
          (d, mkbuf (Some m) (size b) r1 (w b))
  | None => ([], b)
  end.

Definition lwrb_peek (b : lwrb_t) (skip_count btp : nat) : bytes :=
  match buff b with
  | Some m =>
      if negb (lwrb_is_ready b) || (btp =? 0)%nat then []
      else
        let full := lwrb_get_full b in
        if (full <=? skip_count)%nat then []
        else
          let r1 := (r b + skip_count)%nat in
          let r1 := if (size b <=? r1)%nat then (r1 - size b)%nat else r1 in
          let btp := min (full - skip_count) btp in
          let tocopy := min (size b - r1) btp in
          let d := get m r1 tocopy in
          let rest := (btp - tocopy)%nat in
          if (0 <? rest)%nat then d ++ get m 0 rest else d
  | None => []
  end.

Definition lwrb_reset (b : lwrb_t) : lwrb_t :=
  if lwrb_is_ready b then mkbuf (buff b) (size b) 0 0 else b.

Definition lwrb_get_linear_block_read_length (b : lwrb_t) : nat :=
  if lwrb_is_ready b then
    if (r b <? w b)%nat then (w b - r b)%nat else if (w b <? r b)%nat then (size b - r b)%nat else 0%nat
  else 0%nat.

Definition lwrb_get_linear_block_write_length (b : lwrb_t) : nat :=
  if lwrb_is_ready b then
    if (r b <=? w b)%nat then
      let len := (size b - w b)%nat in if (r b =? 0)%nat then (len - 1)%nat else len
    else (r b - w b - 1)%nat
  else 0%nat.

Definition lwrb_skip (b : lwrb_t) (len : nat) : nat * lwrb_t :=
  if negb (lwrb_is_ready b) || (len =? 0)%nat then (0%nat, b)
  else
    let len := min len (lwrb_get_full b) in
    let r1 := (r b + len)%nat in
    let r1 := if (size b <=? r1)%nat then (r1 - size b)%nat else r1 in
    (len, mkbuf (buff b) (size b) r1 (w b)).

Definition lwrb_advance (b : lwrb_t) (len : nat) : nat * lwrb_t :=
  if negb (lwrb_is_ready b) || (len =? 0)%nat then (0%nat, b)
  else
    let len := min len (lwrb_get_free b) in
    let w1 := (w b + len)%nat in
    let w1 := if (size b <=? w1)%nat then (w1 - size b)%nat else w1 in
    (len, mkbuf (buff b) (size b) (r b) w1).

Example wraps :
  let b0 := mkbuf (Some (str "......")) 6 4 4 in
  let '(n, b) := lwrb_write b0 (str "abcde") in
  n = 5%nat /\ buff b = Some (str "cde.ab") /\ lwrb_get_free b = 0%nat /\
  (lwrb_read b 4).1 = str "abcd" /\ lwrb_peek b 2 9 = str "cde" /\
  (lwrb_write b (str "x")).1 = 0%nat.
Proof. vm_compute. done. Qed.


(** *** The bytes in the buffer

    [window m a k] are the [k] bytes of the memory from position [a], going
    round at the end.  The buffer holds the bytes from [r] to [w]. *)

Definition window (m : bytes) (a k : nat) : bytes :=
  (λ i, m !!! ((a + i) `mod` length m)%nat) <$> seq 0 k.

Definition queued (b : lwrb_t) : bytes := window (default [] (buff b)) (r b) (lwrb_get_full b).

(** A buffer in use: both positions are inside the memory. *)
Definition wf (b : lwrb_t) : Prop :=
  exists m, buff b = Some m /\ length m = size b /\ (r b < size b)%nat /\ (w b < size b)%nat.

Lemma length_window m a k : length (window m a k) = k.
Proof. unfold window. by rewrite length_fmap, length_seq. Qed.

Lemma lookup_window m a k i : (i < k)%nat ->
  window m a k !! i = Some (m !!! ((a + i) `mod` length m)%nat).
Proof. intros Hi. unfold window. rewrite list_lookup_fmap, lookup_seq_lt by lia. done. Qed.

Lemma window_ext m m' a a' k : 
  (forall i, (i < k)%nat -> m !!! ((a + i) `mod` length m)%nat = m' !!! ((a' + i) `mod` length m')%nat) ->
  window m a k = window m' a' k.
Proof.
  intros H. apply list_eq_same_length with k; rewrite ?length_window; [done..|].
  intros i x y Hi. rewrite !lookup_window by done. rewrite H by done. congruence.
Qed.

Lemma window_mod m a k : m <> [] -> window m (a `mod` length m) k = window m a k.
Proof.
  intros Hm. destruct m as [|x m]; [done|]. apply window_ext. intros i _.
  by rewrite Nat.Div0.add_mod_idemp_l.
Qed.

Lemma window_app m a j k : window m a (j + k) = window m a j ++ window m (a + j) k.
Proof.
  unfold window. rewrite seq_app, fmap_app. f_equal. rewrite Nat.add_0_l.
  rewrite <- (Nat.add_0_r j) at 1. rewrite <- fmap_add_seq, <- list_fmap_compose.
  apply list_fmap_ext. intros i x _. simpl. by rewrite Nat.add_assoc.
Qed.

Lemma window_take m a j k : (j <= k)%nat -> take j (window m a k) = window m a j.
Proof.
  intros Hj. replace k with (j + (k - j))%nat by lia.
  rewrite window_app. apply take_app_length'. by rewrite length_window.
Qed.

Lemma window_drop m a j k : (j <= k)%nat -> drop j (window m a k) = window m (a + j) (k - j).
Proof.
  intros Hj. replace k with (j + (k - j))%nat at 1 by lia.
  rewrite window_app. apply drop_app_length'. by rewrite length_window.
Qed.

Lemma window_linear m a k : (a + k <= length m)%nat -> window m a k = get m a k.
Proof.
  intros Hk. apply list_eq_same_length with k;
    [unfold get; rewrite length_take, length_drop; lia|apply length_window|].
  intros i x y Hi. rewrite lookup_window by done. rewrite Nat.mod_small by lia.
  unfold get. rewrite lookup_take_lt, lookup_drop by done.
  intros [= <-] Hy. by apply list_lookup_total_correct.
Qed.

(** Two copies read the bytes that go round the end. *)
Lemma window_split m a k : (a <= length m)%nat -> (length m < a + k)%nat -> (k <= length m)%nat ->
  window m a k = get m a (length m - a) ++ get m 0 (k - (length m - a)).
Proof.
  intros Ha Hk Hl. replace k with ((length m - a) + (k - (length m - a)))%nat at 1 by lia.
  rewrite window_app, window_linear by lia. f_equal.
  replace (a + (length m - a))%nat with (0 + length m)%nat by lia.
  rewrite <- window_mod by (intros ->; simpl in *; lia).
  rewrite Nat.add_0_l, Nat.Div0.mod_same, window_linear by lia. done.
Qed.

(** *** What a copy leaves in the memory *)

Lemma length_put m a d : (a + length d <= length m)%nat -> length (put m a d) = length m.
Proof. intros H. unfold put. rewrite !length_app, length_take, length_drop. lia. Qed.

Lemma put_inside m a d i : (a + length d <= length m)%nat -> (i < length d)%nat ->
  put m a d !!! (a + i)%nat = d !!! i.
Proof.
  intros H Hi. unfold put. rewrite lookup_total_app_r; rewrite length_take; [|lia].
  rewrite lookup_total_app_l by lia. f_equal. lia.
Qed.

Lemma put_outside m a d p : (a + length d <= length m)%nat -> (p < a \/ a + length d <= p)%nat ->
  put m a d !!! p = m !!! p.
Proof.
  intros H Hp. unfold put. destruct (decide (p < a)%nat) as [Hlt|Hge].
  - rewrite lookup_total_app_l by (rewrite length_take; lia).
    by rewrite !list_lookup_total_alt, lookup_take_lt by done.
  - rewrite !lookup_total_app_r; rewrite !length_take; [|lia|lia].
    rewrite !list_lookup_total_alt, lookup_drop. do 2 f_equal. lia.
Qed.

(** [m'] is [m] with the bytes [d] from position [a], going round at the end. *)
Definition wrote (m : bytes) (a : nat) (d : bytes) (m' : bytes) : Prop :=
  length m' = length m /\
  (forall i, (i < length d)%nat -> m' !!! ((a + i) `mod` length m)%nat = d !!! i) /\
  (forall p, (p < length m)%nat -> (forall i, (i < length d)%nat -> p <> ((a + i) `mod` length m)%nat) ->
     m' !!! p = m !!! p).

Lemma wrote_unique m a d m1 m2 : wrote m a d m1 -> wrote m a d m2 -> m1 = m2.
Proof.
  intros (L1 & I1 & O1) (L2 & I2 & O2). apply list_eq_same_length with (length m); [done..|].
  intros p x y Hp <-%list_lookup_total_correct <-%list_lookup_total_correct.
  destruct (decide (Exists (λ i, p = ((a + i) `mod` length m)%nat) (seq 0 (length d)))) as [He|Hn].
  - apply Exists_exists in He as (i & Hi%elem_of_seq & ->). rewrite I1, I2 by lia. done.
  - assert (forall i, (i < length d)%nat -> p <> ((a + i) `mod` length m)%nat).
    { intros i Hi ->. apply Hn, Exists_exists. exists i. split; [apply elem_of_seq; lia|done]. }
    rewrite O1, O2 by done. done.
Qed.

Lemma wrote_linear m a d : (a + length d <= length m)%nat -> wrote m a d (put m a d).
Proof.
  intros H. split; [by apply length_put|]. split.
  - intros i Hi. rewrite Nat.mod_small by lia. by apply put_inside.
  - intros p Hp Hn. apply put_outside; [done|].
    destruct (decide (p < a)%nat); [by left|]. destruct (decide (a + length d <= p)%nat); [by right|].
    destruct (Hn (p - a)%nat); [lia|]. rewrite Nat.mod_small by lia. lia.
Qed.

Lemma wrote_split m a d k : (a < length m)%nat -> (length d <= length m)%nat ->
  (a + k = length m)%nat -> (k <= length d)%nat ->
  wrote m a d (put (put m a (take k d)) 0 (drop k d)).
Proof.
  intros Ha Hd Hk Hle.
  assert (Ht : length (take k d) = k) by (rewrite length_take; lia).
  assert (Hl : length (put m a (take k d)) = length m) by (apply length_put; lia).
  assert (Hdr : (0 + length (drop k d) <= length (put m a (take k d)))%nat) by (rewrite length_drop; lia).
  assert (Hmod : forall i, (k <= i < length d)%nat -> ((a + i) `mod` length m = i - k)%nat).
  { intros i Hi. replace (a + i)%nat with ((i - k) + 1 * length m)%nat by lia.
    rewrite Nat.Div0.mod_add. apply Nat.mod_small. lia. }
  split; [by rewrite length_put|]. split.
  - intros i Hi. destruct (decide (i < k)%nat).
    + rewrite Nat.mod_small, put_outside by (rewrite ?length_drop; lia).
      rewrite put_inside by lia. by rewrite !list_lookup_total_alt, lookup_take_lt.
    + rewrite Hmod by lia. replace (i - k)%nat with (0 + (i - k))%nat at 1 by lia.
      rewrite put_inside by (rewrite ?length_drop; lia).
      rewrite !list_lookup_total_alt, lookup_drop. do 2 f_equal. lia.
  - intros p Hp Hn. 
    assert (~ (p < length d - k)%nat).
    { intros Hlt. apply (Hn (p + k)%nat); [lia|]. rewrite Hmod by lia. lia. }
    assert (~ (a <= p)%nat).
    { intros Hge. apply (Hn (p - a)%nat); [lia|]. rewrite Nat.mod_small by lia. lia. }
    rewrite put_outside by (rewrite ?length_drop; lia). apply put_outside; lia.
Qed.

(** What was written is there, and what lies outside is as it was. *)
Lemma window_wrote m a d m' : wrote m a d m' -> window m' a (length d) = d.
Proof.
  intros (L & I & _). apply list_eq_same_length with (length d); [done|apply length_window|].
  intros i x y Hi. rewrite lookup_window, L, I by done. intros [= <-] <-%list_lookup_total_correct. done.
Qed.

Lemma cyclic_distinct n a i j : (i < n)%nat -> (j < n)%nat -> i <> j ->
  ((a + i) `mod` n <> (a + j) `mod` n)%nat.
Proof.
  intros Hi Hj Hne He.
  assert (Hs := Nat.div_mod_eq (a + i) n). assert (Ht := Nat.div_mod_eq (a + j) n).
  rewrite He in Hs. set (q := ((a + i) / n)%nat) in *. set (q' := ((a + j) / n)%nat) in *.
  destruct (Nat.lt_trichotomy q q') as [Hq|[Hq|Hq]].
  - assert (n * q + n <= n * q')%nat by nia. lia.
  - rewrite Hq in Hs. lia.
  - assert (n * q' + n <= n * q)%nat by nia. lia.
Qed.

Lemma window_kept m a b d k m' : wrote m b d m' -> (0 < length m)%nat ->
  b = ((a + k) `mod` length m)%nat -> (k + length d <= length m)%nat ->
  window m' a k = window m a k.
Proof.
  intros (L & _ & O) Hm -> Hk. apply window_ext. intros i Hi. rewrite L. apply O.
  - apply Nat.mod_upper_bound. lia.
  - intros j Hj. rewrite Nat.Div0.add_mod_idemp_l, <- Nat.add_assoc. apply cyclic_distinct; lia.
Qed.

(** *** Lengths and positions *)

Lemma wf_ready b : wf b -> lwrb_is_ready b = true.
Proof. intros (m & Hm & _ & Hr & _). unfold lwrb_is_ready. rewrite Hm. apply Nat.ltb_lt. lia. Qed.

Lemma full_lt b : wf b -> (lwrb_get_full b < size b)%nat.
Proof.
  intros H. unfold lwrb_get_full. rewrite wf_ready by done. destruct H as (m & _ & _ & Hr & Hw).
  zcase; lia.
Qed.

Lemma free_full b : wf b -> (lwrb_get_free b + lwrb_get_full b + 1 = size b)%nat.
Proof.
  intros H. unfold lwrb_get_full, lwrb_get_free. rewrite wf_ready by done.
  destruct H as (m & _ & _ & Hr & Hw). zcase; lia.
Qed.

(** What is queued ends where the next write starts. *)
Lemma full_end b : wf b -> ((r b + lwrb_get_full b) `mod` size b = w b)%nat.
Proof.
  intros H. unfold lwrb_get_full. rewrite wf_ready by done. destruct H as (m & _ & _ & Hr & Hw). zcase.
  - rewrite Nat.add_0_r, Nat.mod_small by lia. lia.
  - rewrite Nat.mod_small by lia. lia.
  - replace (r b + (size b - (r b - w b)))%nat with (w b + 1 * size b)%nat by lia.
    rewrite Nat.Div0.mod_add. by apply Nat.mod_small.
Qed.

Lemma full_unique b f : wf b -> (f < size b)%nat -> ((r b + f) `mod` size b = w b)%nat -> lwrb_get_full b = f.
Proof.
  intros H Hf He. destruct (decide (lwrb_get_full b = f)) as [|Hne]; [done|].
  exfalso. apply (cyclic_distinct (size b) (r b) (lwrb_get_full b) f); [by apply full_lt|done..|].
  by rewrite full_end.
Qed.

Lemma length_queued b : length (queued b) = lwrb_get_full b.
Proof. apply length_window. Qed.

Lemma advanced_below n a k : (a < n)%nat -> (k <= n)%nat ->
  (if (n <=? a + k)%nat then (a + k - n)%nat else (a + k)%nat) = ((a + k) `mod` n)%nat.
Proof.
  intros Ha Hk. zcase; [|by rewrite Nat.mod_small].
  replace (a + k)%nat with ((a + k - n) + 1 * n)%nat at 2 by lia.
  rewrite Nat.Div0.mod_add, Nat.mod_small by lia. done.
Qed.

(** Moving the position to write at forward, and the position to read at. *)
Lemma grown b m k : wf b -> length m = size b -> (k <= lwrb_get_free b)%nat ->
  let b' := mkbuf (Some m) (size b) (r b) ((w b + k) `mod` size b) in
  wf b' /\ lwrb_get_full b' = (lwrb_get_full b + k)%nat.
Proof.
  intros H Hm Hk b'. assert (Hf := free_full b H).
  assert (Hwf : wf b').
  { destruct H as (m0 & _ & _ & Hr & Hw). exists m. split; [done|]. split; [done|]. split; [done|].
    simpl. apply Nat.mod_upper_bound. lia. }
  split; [done|]. apply full_unique; [done|simpl; lia|]. simpl.
  rewrite Nat.add_assoc, <- Nat.Div0.add_mod_idemp_l. by rewrite full_end.
Qed.

Lemma shrunk b m k : wf b -> length m = size b -> (k <= lwrb_get_full b)%nat ->
  let b' := mkbuf (Some m) (size b) ((r b + k) `mod` size b) (w b) in
  wf b' /\ lwrb_get_full b' = (lwrb_get_full b - k)%nat.
Proof.
  intros H Hm Hk b'. assert (Hf := full_lt b H).
  assert (Hwf : wf b').
  { destruct H as (m0 & _ & _ & Hr & Hw). exists m. split; [done|]. split; [done|]. split; [|done].
    simpl. apply Nat.mod_upper_bound. lia. }
  split; [done|]. apply full_unique; [done|simpl; lia|]. simpl.
  rewrite Nat.Div0.add_mod_idemp_l. replace (r b + k + _)%nat with (r b + lwrb_get_full b)%nat by lia.
  by apply full_end.
Qed.

(** *** Each operation on the bytes queued *)

(** A write of [d] that fits adds [d] at the end of what is queued. *)
Lemma queued_grown b m m' d : wf b -> buff b = Some m -> wrote m (w b) d m' ->
  (length d <= lwrb_get_free b)%nat ->
  queued (mkbuf (Some m') (size b) (r b) ((w b + length d) `mod` size b)) = queued b ++ d.
Proof.
  intros H Hm Hw Hd. assert (Hf := free_full b H). assert (He := full_end b H).
  assert (Hl : length m = size b) by (destruct H as (m0 & Hm0 & ? & _); congruence).
  destruct (grown b m' (length d) H) as [_ Hfull]; [by rewrite (proj1 Hw)|done|].
  unfold queued at 1. rewrite Hfull. simpl. rewrite window_app. f_equal.
  - unfold queued. rewrite Hm. eapply (window_kept m _ (w b) d); [done|lia| |lia]. by rewrite Hl.
  - rewrite <- (window_wrote m (w b) d m') at 2 by done.
    rewrite <- window_mod by (intros ->; destruct Hw as [Hw _]; simpl in *; lia).
    by rewrite (proj1 Hw), Hl, He.
Qed.

Lemma lwrb_write_spec b d : wf b ->
  let k := min (lwrb_get_free b) (length d) in
  exists m m', buff b = Some m /\ wrote m (w b) (take k d) m' /\
    lwrb_write b d = (k, mkbuf (Some m') (size b) (r b) ((w b + k) `mod` size b)).
Proof.
  intros H k. assert (Hf := free_full b H). assert (Hready := wf_ready b H).
  destruct H as (m & Hm & Hl & Hr & Hw). exists m. unfold lwrb_write. rewrite Hm, Hready. simpl.
  destruct (decide (k = 0)%nat) as [Hk|Hk].
  { exists m. rewrite Hk, Nat.add_0_r, (Nat.mod_small (w b)) by done. split; [done|]. split.
    - split; [done|]. split; [simpl; lia|done].
    - destruct b; simpl in *; subst. fold k. rewrite Hk. by destruct (_ =? 0)%nat. }
  assert ((length d =? 0)%nat = false) as -> by (apply Nat.eqb_neq; lia). fold k.
  assert ((k =? 0)%nat = false) as -> by (by apply Nat.eqb_neq).
  assert (Htk : length (take k d) = k) by (rewrite length_take; lia).
  destruct (decide (k <= size b - w b)%nat) as [Hlin|Hwrap].
  - rewrite Nat.min_r, Nat.sub_diag by done. simpl. eexists. split; [done|]. split; [by apply wrote_linear; lia|].
    f_equal; [lia|]. f_equal. zcase; [|by rewrite Nat.mod_small].
    replace (w b + k)%nat with (size b) by lia. by rewrite Nat.Div0.mod_same.
  - rewrite Nat.min_l by lia. assert ((0 <? k - (size b - w b))%nat = true) as -> by (apply Nat.ltb_lt; lia).
    eexists. split; [done|]. split.
    + apply (wrote_split m (w b) (take k d) (size b - w b)); lia.
    + rewrite take_take, Nat.min_l, skipn_firstn_comm by lia. f_equal; [lia|]. f_equal.
      rewrite <- advanced_below by lia. zcase; lia.
Qed.

(** One or two copies read a window of the memory. *)
Lemma read_copies m n a k : length m = n -> (a < n)%nat -> (k <= n)%nat ->
  (if (0 <? k - min (n - a) k)%nat then get m a (min (n - a) k) ++ get m 0 (k - min (n - a) k)
   else get m a (min (n - a) k)) = window m a k.
Proof.
  intros <- Ha Hk. destruct (decide (k <= length m - a)%nat) as [Hlin|Hwrap].
  - rewrite Nat.min_r, Nat.sub_diag by done. simpl. symmetry. apply window_linear. lia.
  - rewrite Nat.min_l by lia. assert ((0 <? k - (length m - a))%nat = true) as -> by (apply Nat.ltb_lt; lia).
    symmetry. apply window_split; lia.
Qed.

Lemma lwrb_read_spec b n : wf b ->
  let k := min (lwrb_get_full b) n in
  lwrb_read b n = (take n (queued b), mkbuf (buff b) (size b) ((r b + k) `mod` size b) (w b)).
Proof.
  intros H k. assert (Hf := full_lt b H). assert (Hready := wf_ready b H).
  destruct H as (m & Hm & Hl & Hr & Hw). unfold lwrb_read. rewrite Hm, Hready. simpl.
  assert (Hq : take n (queued b) = window m (r b) k).
  { unfold queued. rewrite Hm. simpl. destruct (decide (n <= lwrb_get_full b)%nat).
    - rewrite window_take by done. f_equal. lia.
    - rewrite take_ge by (rewrite length_window; lia). f_equal. lia. }
  rewrite Hq. fold k. destruct (decide (k = 0)%nat) as [Hk|Hk].
  { rewrite Hk, Nat.add_0_r, Nat.mod_small by done. simpl. destruct b; simpl in *; subst.
    by destruct (n =? 0)%nat. }
  assert ((n =? 0)%nat = false) as -> by (apply Nat.eqb_neq; lia).
  assert ((k =? 0)%nat = false) as -> by (by apply Nat.eqb_neq).
  rewrite <- (read_copies m (size b) (r b) k) by (done || lia).
  destruct (0 <? k - min (size b - r b) k)%nat eqn:E; f_equal; f_equal.
  - apply Nat.ltb_lt in E. rewrite <- advanced_below by lia. zcase; lia.
  - apply Nat.ltb_ge in E. rewrite <- advanced_below by lia. zcase; lia.
Qed.

(** Reading, or skipping, takes bytes from the front. *)
Lemma queued_shrunk b k : wf b -> (k <= lwrb_get_full b)%nat ->
  queued (mkbuf (buff b) (size b) ((r b + k) `mod` size b) (w b)) = drop k (queued b).
Proof.
  intros H Hk. assert (Hf := full_lt b H). pose proof H as (m & Hm & Hl & Hr & Hw).
  destruct (shrunk b m k H Hl Hk) as [_ Hfull].
  rewrite Hm. unfold queued. rewrite Hfull, Hm. simpl. rewrite window_drop by done.
  rewrite <- Hl. apply window_mod. intros ->. simpl in *. lia.
Qed.

Lemma lwrb_peek_spec b skip n : wf b -> lwrb_peek b skip n = take n (drop skip (queued b)).
Proof.
  intros H. assert (Hf := full_lt b H). assert (Hready := wf_ready b H).
  destruct H as (m & Hm & Hl & Hr & Hw). unfold lwrb_peek. rewrite Hm, Hready. simpl.
  destruct (n =? 0)%nat eqn:En; [apply Nat.eqb_eq in En as ->; by rewrite take_0|].
  destruct (lwrb_get_full b <=? skip)%nat eqn:Es.
  { apply Nat.leb_le in Es. rewrite drop_ge by (by rewrite length_queued). by rewrite take_nil. }
  apply Nat.leb_gt in Es. rewrite advanced_below by lia.
  unfold queued. rewrite Hm. simpl. rewrite window_drop by lia.
  set (k := min (lwrb_get_full b - skip) n).
  rewrite (read_copies m (size b)) by (done || lia || apply Nat.mod_upper_bound; lia).
  rewrite <- Hl, window_mod by (intros ->; simpl in *; lia).
  destruct (decide (n <= lwrb_get_full b - skip)%nat).
  - rewrite window_take by done. f_equal. lia.
  - rewrite take_ge by (rewrite length_window; lia). f_equal. lia.
Qed.

(** *** The queue of bytes it implements

    A queue of at most [size - 1] bytes: a write adds what fits, a read or a
    skip takes from the front, a peek copies, a reset empties. *)

Inductive op := OWrite (d : bytes) | ORead (n : nat) | OPeek (skip n : nat) | OSkip (n : nat) | OReset | OFree | OFull.
Inductive result := RCount (n : nat) | RBytes (d : bytes).

Definition run_op (b : lwrb_t) (o : op) : result * lwrb_t :=
  match o with
  | OWrite d => let '(n, b) := lwrb_write b d in (RCount n, b)
  | ORead n => let '(d, b) := lwrb_read b n in (RBytes d, b)
  | OPeek s n => (RBytes (lwrb_peek b s n), b)
  | OSkip n => let '(k, b) := lwrb_skip b n in (RCount k, b)
  | OReset => (RCount 0, lwrb_reset b)
  | OFree => (RCount (lwrb_get_free b), b)
  | OFull => (RCount (lwrb_get_full b), b)
  end.

Definition queue_op (capacity : nat) (q : bytes) (o : op) : result * bytes :=
  match o with
  | OWrite d => let k := min (capacity - length q) (length d) in (RCount k, q ++ take k d)
  | ORead n => (RBytes (take n q), drop n q)
  | OPeek s n => (RBytes (take n (drop s q)), q)
  | OSkip n => (RCount (min n (length q)), drop n q)
  | OReset => (RCount 0, [])
  | OFree => (RCount (capacity - length q), q)
  | OFull => (RCount (length q), q)
  end.

Fixpoint runs {S} (step : S -> op -> result * S) (s : S) (os : list op) : list result * S :=
  match os with
  | [] => ([], s)
  | o :: os => let '(x, s) := step s o in let '(xs, s) := runs step s os in (x :: xs, s)
  end.

Lemma write_refines b d : wf b ->
  let '(k, b') := lwrb_write b d in
  k = min (size b - 1 - length (queued b)) (length d) /\
  wf b' /\ size b' = size b /\ queued b' = queued b ++ take k d.
Proof.
  intros H. assert (Hf := free_full b H). destruct (lwrb_write_spec b d H) as (m & m' & Hm & Hw & ->).
  set (k := min (lwrb_get_free b) (length d)) in *.
  assert (Hk : k = length (take k d)) by (rewrite length_take; lia).
  assert (Hl : length m' = size b) by (rewrite (proj1 Hw); destruct H as (m0 & Hm0 & ? & _); congruence).
  split; [rewrite length_queued; lia|]. split; [apply grown; [done|done|lia]|]. split; [done|].
  rewrite Hk at 1. apply (queued_grown b m); [done..|lia].
Qed.

Lemma read_refines b n : wf b ->
  let '(d, b') := lwrb_read b n in
  d = take n (queued b) /\ wf b' /\ size b' = size b /\ queued b' = drop n (queued b).
Proof.
  intros H. rewrite lwrb_read_spec by done. split; [done|].
  assert (Hm : exists m, buff b = Some m /\ length m = size b) by (destruct H as (m & ? & ? & _); eauto).
  destruct Hm as (m & Hm & Hl).
  split; [rewrite Hm; apply shrunk; [done|done|lia]|]. split; [done|].
  rewrite queued_shrunk by (done || lia). destruct (decide (n <= lwrb_get_full b)%nat).
  - f_equal. lia.
  - rewrite !drop_ge by (rewrite length_queued; lia). done.
Qed.

Lemma skip_refines b n : wf b ->
  let '(k, b') := lwrb_skip b n in
  k = min n (length (queued b)) /\ wf b' /\ size b' = size b /\ queued b' = drop n (queued b).
Proof.
  intros H. assert (Hf := full_lt b H). unfold lwrb_skip. rewrite wf_ready by done. simpl.
  destruct (n =? 0)%nat eqn:En; [apply Nat.eqb_eq in En as ->; by rewrite drop_0|].
  assert (Hr := read_refines b n H). rewrite lwrb_read_spec in Hr by done.
  rewrite advanced_below; [|by destruct H as (m & _ & _ & ? & _)|lia].
  rewrite length_queued, (Nat.min_comm n). split; [done|]. by destruct Hr as [_ Hr].
Qed.

Lemma reset_refines b : wf b -> wf (lwrb_reset b) /\ size (lwrb_reset b) = size b /\ queued (lwrb_reset b) = [].
Proof.
  intros H. unfold lwrb_reset. rewrite wf_ready by done. pose proof H as (m & Hm & Hl & Hr & Hw).
  split; [|split; [done|]].
  - exists m. simpl. split; [done|]. split; [done|]. lia.
  - unfold queued, lwrb_get_full. simpl. by destruct (lwrb_is_ready _).
Qed.

Lemma op_refines b o : wf b ->
  let '(x, b') := run_op b o in
  wf b' /\ size b' = size b /\ queue_op (size b - 1) (queued b) o = (x, queued b').
Proof.
  intros H. assert (Hf := free_full b H). destruct o as [d|n|s n|n| | |]; simpl.
  - assert (Hw := write_refines b d H). destruct (lwrb_write b d) as [k b'].
    destruct Hw as (-> & ? & ? & ->). done.
  - assert (Hr := read_refines b n H). destruct (lwrb_read b n) as [d b'].
    destruct Hr as (-> & ? & ? & ->). done.
  - by rewrite lwrb_peek_spec.
  - assert (Hr := skip_refines b n H). destruct (lwrb_skip b n) as [d b'].
    destruct Hr as (-> & ? & ? & ->). done.
  - destruct (reset_refines b H) as (? & ? & ->). done.
  - rewrite length_queued. split; [done|]. split; [done|]. do 2 f_equal. lia.
  - by rewrite length_queued.
Qed.

(** C28: the ring buffer of lib/lwrb is a queue of bytes that holds one byte less
    than its memory: whatever the positions at the start, and however the
    operations wrap round the end of the memory, a sequence of writes, reads,
    peeks, skips, resets and queries of the free and the used space returns what
    the queue returns, and leaves what the queue leaves. *)
Theorem lwrb_refines_queue b os : wf b ->
  let '(xs, b') := runs run_op b os in
  wf b' /\ size b' = size b /\ runs (queue_op (size b - 1)) (queued b) os = (xs, queued b').
Proof.
  revert b. induction os as [|o os IH]; intros b H; simpl; [done|].
  assert (Ho := op_refines b o H). destruct (run_op b o) as [x b1]. destruct Ho as (Hw & Hs & ->).
  specialize (IH b1 Hw). destruct (runs run_op b1 os) as [xs b2]. destruct IH as (? & ? & HIH).
  rewrite <- Hs, HIH. split; [done|]. split; [congruence|done].
Qed.

Lemma lwrb_refines_queue_witness :
  let b := mkbuf (Some (str "......")) 6 4 4 in
  let '(xs, b') := runs run_op b [OWrite (str "abcdefg"); ORead 2; OWrite (str "xyz"); OPeek 1 3; OSkip 4; OFull] in
  xs = [RCount 5; RBytes (str "ab"); RCount 2; RBytes (str "dex"); RCount 4; RCount 1] /\
  queued b' = str "y" /\ wf b'.
Proof.
  assert (H : wf (mkbuf (Some (str "......")) 6 4 4)).
  { exists (str "......"). vm_compute. repeat split; lia. }
  pose proof (lwrb_refines_queue _ [OWrite (str "abcdefg"); ORead 2; OWrite (str "xyz"); OPeek 1 3; OSkip 4; OFull] H) as Hr.
  revert Hr. vm_compute. intros (Hwf & _ & Heq). split; [reflexivity|]. split; [reflexivity|exact Hwf].
Defined.

(** The memory of a new buffer is empty, and all of it but a byte can be used. *)
Lemma lwrb_init_wf m : m <> [] ->
  exists b, lwrb_init m = Some b /\ wf b /\ size b = length m /\ queued b = [].
Proof.
  intros Hm. unfold lwrb_init. destruct m as [|x m]; [done|]. simpl.
  eexists. split; [done|]. split; [|done]. exists (x :: m). simpl. repeat split; lia.
Qed.

(** Moving the position to write at, after the bytes were stored in place. *)
Lemma lwrb_advance_spec b n : wf b ->
  let '(k, b') := lwrb_advance b n in
  k = min n (lwrb_get_free b) /\ wf b' /\ length (queued b') = (length (queued b) + k)%nat /\
  take (length (queued b)) (queued b') = queued b.
Proof.
  intros H. assert (Hf := free_full b H). unfold lwrb_advance. rewrite wf_ready by done. simpl.
  rewrite !length_queued. destruct (n =? 0)%nat eqn:En.
  { apply Nat.eqb_eq in En as ->. rewrite length_queued. split; [done|]. split; [done|]. split; [lia|].
    apply take_ge. by rewrite length_queued. }
  pose proof H as (m & Hm & Hl & Hr & Hw). set (k := min n (lwrb_get_free b)).
  destruct (grown b m k H Hl) as [Hg Hfull]; [lia|].
  rewrite advanced_below, Hm by lia. split; [done|]. split; [done|]. split; [by rewrite length_queued|].
  unfold queued. rewrite Hfull, Hm. simpl. apply window_take. lia.
Qed.

(** The bytes that can be read in place are the first ones queued, and a write
    in place of the length allowed fits. *)
Lemma linear_blocks b m : wf b -> buff b = Some m ->
  get m (r b) (lwrb_get_linear_block_read_length b) = take (lwrb_get_linear_block_read_length b) (queued b) /\
  (lwrb_get_linear_block_write_length b <= lwrb_get_free b)%nat /\
  (w b + lwrb_get_linear_block_write_length b <= length m)%nat.
Proof.
  intros H Hm. assert (Hready := wf_ready b H). destruct H as (m' & Hm' & Hl & Hr & Hw).
  rewrite Hm in Hm'. injection Hm' as <-. unfold queued. rewrite Hm. simpl.
  unfold lwrb_get_linear_block_read_length, lwrb_get_linear_block_write_length, lwrb_get_full, lwrb_get_free.
  rewrite Hready. split; [|zcase; lia]. zcase; try lia; rewrite ?window_take, ?window_linear by lia; done.
Qed.

End Lwrb.

(** ** The ring buffer of an input

    src/flb_ring_buffer.c adds to the buffer of bytes a guard, so that a write
    is stored as a whole or not at all, and a signal on a pipe when the buffer
    is used beyond a window. *)

Module Ring.
Export Lwrb.

Record flb_ring_buffer := mkrb {
  ctx : lwrb_t;
  event_loop : bool;
  flush_pending : bool;
  signal_channel : Z;            (** signal_channels[1]; 0 from calloc until a pipe is made *)
  signals : list Z;              (** the descriptors that a signal was written to *)
  data_window : Z;
  data_size : nat
}.

Definition set_ctx (rb : flb_ring_buffer) (b : lwrb_t) : flb_ring_buffer :=
  mkrb b (event_loop rb) (flush_pending rb) (signal_channel rb) (signals rb) (data_window rb) (data_size rb).
Definition set_pending (rb : flb_ring_buffer) (p : bool) : flb_ring_buffer :=
  mkrb (ctx rb) (event_loop rb) p (signal_channel rb) (signals rb) (data_window rb) (data_size rb).
Definition signal (rb : flb_ring_buffer) : flb_ring_buffer :=
  mkrb (ctx rb) (event_loop rb) true (signal_channel rb) (signals rb ++ [signal_channel rb])
       (data_window rb) (data_size rb).

(** Three allocations: the structure, the lwrb context, the memory, which has
    one byte more than asked for. *)
Definition flb_ring_buffer_create (t : tape) (size : nat) : option flb_ring_buffer * tape :=
  let '(ok, t) := flb_malloc t in
  if negb ok then (None, t)
  else
    let '(ok, t) := flb_malloc t in
    if negb ok then (None, t)
    else
      let '(ok, t) := flb_malloc t in
      if negb ok then (None, t)
      else
        match lwrb_init (replicate (1 + size) 0) with
        | Some b => (Some (mkrb b false false 0 [] 0 size), t)
        | None => (None, t)
        end.

(** [pipe] is the writing end that flb_pipe_create makes, if it succeeds;
    [event] the allocation of the event; [add] the registration in the loop. *)
Definition flb_ring_buffer_add_event_loop (rb : flb_ring_buffer) (window_size : Z)
    (pipe : option Z) (event add : bool) : Z * flb_ring_buffer :=
  if window_size =? 0 then (-1, rb)
  else
    let window_size := if 100 <? window_size then 100 else window_size in
    let window := Numbers.f64_to_i64 (Numbers.f64_of_int (u64 (Z.of_nat (data_size rb) * window_size) / 100)) in
    let with_ (c : Z) (l : bool) := mkrb (ctx rb) l (flush_pending rb) c (signals rb) window (data_size rb) in
    match pipe with
    | None => (-2, with_ (signal_channel rb) (event_loop rb))
    | Some c =>
        if negb event then (-2, with_ c (event_loop rb))
        else if negb add then (-3, with_ c (event_loop rb))
        else (0, with_ c true)
    end.

Definition flb_ring_buffer_remove_event_loop (rb : flb_ring_buffer) : flb_ring_buffer :=
  if event_loop rb then
    mkrb (ctx rb) false (flush_pending rb) (signal_channel rb) (signals rb) 0 (data_size rb)
  else rb.

(** The size in use after the write, from the space that was free before. *)
Definition past_window (rb : flb_ring_buffer) (av size : nat) : bool :=
  data_window rb <=? u64 (Z.of_nat (data_size rb) - (Z.of_nat av - Z.of_nat size)).

Definition flb_ring_buffer_write (rb : flb_ring_buffer) (data : bytes) : Z * flb_ring_buffer :=
  let av := lwrb_get_free (ctx rb) in
  if (av <? length data)%nat then (-1, rb)
  else
    let '(ret, b) := lwrb_write (ctx rb) data in
    let rb := set_ctx rb b in
    if (ret =? 0)%nat then (-1, rb)
    else if negb (flush_pending rb) && past_window rb av (length data) then (0, signal rb)
    else (0, rb).

(** The result, the bytes copied to the caller's memory, the buffer. *)
Definition flb_ring_buffer_read (rb : flb_ring_buffer) (size : nat) : Z * bytes * flb_ring_buffer :=
  let '(d, b) := lwrb_read (ctx rb) size in
  ((if (length d =? 0)%nat then -1 else 0), d, set_ctx rb b).

(** A write is all or nothing, and never touches what is queued. *)
Lemma ring_write_spec rb d : wf (ctx rb) -> d <> [] ->
  let '(ret, rb') := flb_ring_buffer_write rb d in
  wf (ctx rb') /\ size (ctx rb') = size (ctx rb) /\
  if (length d <=? lwrb_get_free (ctx rb))%nat then ret = 0 /\ queued (ctx rb') = queued (ctx rb) ++ d
  else ret = -1 /\ rb' = rb.
Proof.
  intros H Hd. unfold flb_ring_buffer_write. assert (Hf := free_full _ H).
  destruct (Nat.ltb_spec (lwrb_get_free (ctx rb)) (length d)) as [Hlt|Hge].
  { split; [done|]. split; [done|]. by rewrite (proj2 (Nat.leb_gt _ _)). }
  rewrite (proj2 (Nat.leb_le _ _)) by done. assert (Hw := write_refines (ctx rb) d H).
  destruct (lwrb_write (ctx rb) d) as [k b]. destruct Hw as (Hk & Hwf & Hs & Hq).
  rewrite length_queued in Hk. assert (Hkd : k = length d) by lia.
  destruct (Nat.eqb_spec k 0) as [H0|_]; [destruct d; simpl in *; [done|lia]|].
  rewrite take_ge in Hq by lia.
  destruct (_ && _); simpl; (split; [done|]; split; [done|]; split; done).
Qed.

(** Without an event loop there is no pipe: the first write to a ring buffer
    that was never registered, as the one of the emitter input, still finds the
    buffer used beyond its window, which is 0, and writes its signal to
    descriptor 0. *)
Lemma signal_without_pipe n d rb :
  flb_ring_buffer_create [] n = (Some rb, []) -> d <> [] -> (length d <= n)%nat ->
  exists rb', flb_ring_buffer_write rb d = (0, rb') /\ signals rb' = [0] /\ event_loop rb' = false.
Proof.
  unfold flb_ring_buffer_create. destruct (lwrb_init_wf (replicate (1 + n) 0)) as (b & Hb & Hwf & Hs & Hq); [done|].
  cbn [flb_malloc negb]. rewrite Hb. intros [= <-] Hd Hl.
  unfold flb_ring_buffer_write. cbn [ctx]. assert (Hf := free_full b Hwf).
  rewrite length_replicate in Hs. assert (H0 := length_queued b). rewrite Hq in H0. cbn in H0.
  rewrite (proj2 (Nat.ltb_ge _ _)) by lia. assert (Hw := write_refines b d Hwf).
  destruct (lwrb_write b d) as [k b']. destruct Hw as (Hk & _). rewrite Hq in Hk. simpl in Hk.
  destruct (Nat.eqb_spec k 0) as [H1|_]; [destruct d; simpl in *; [done|lia]|].
  assert (Hp : past_window (set_ctx (mkrb b false false 0 [] 0 n) b') (lwrb_get_free b) (length d) = true).
  { unfold past_window. apply Z.leb_le. apply u64_range. }
  rewrite Hp. simpl. eauto.
Qed.

End Ring.
