(* ===== verification/RingThreads.v ===== *)
(** * The two threads on a ring buffer (src/flb_input_chunk.c, src/flb_ring_buffer.c)

    src/flb_input_chunk.c: [append_to_ring_buffer] runs in the thread of the
    input, [flb_input_chunk_ring_buffer_collector] in the engine.  They share
    the ring buffer and the heap.  A step is one access to what they share: the
    position of the other side is read once per operation, the bytes are copied
    one at a time in any order, and the own position is published last.
    Accesses happen in one order that both threads see.  The allocations of
    [append_to_ring_buffer] succeed: when one fails it returns before it touches
    what the threads share. *)

From S2P Require Import Prelude.
From S2P Require Import RingBuffer.

Module Threads.
Export Ring.

Record input_chunk_raw := mkraw {
  event_type : Z; records : Z; tag : option bytes; buf_data : bytes
}.

(** A pointer as the bytes that are copied, least significant first. *)
Definition ptr_size : nat := 8.
Definition ptr_bytes (p : Z) : bytes := le_bytes ptr_size p.

(** Where the writer is in [append_to_ring_buffer] and the functions it calls:
    about to try, with the retries so far; past the guard of
    [flb_ring_buffer_write], with the free space it saw; in the copies of
    [lwrb_write], with the bytes to store and the indices still to copy; at the
    test of the flag; past it. *)
Inductive writer :=
  | WIdle
  | WTry (p : Z) (retries : nat)
  | WGo (p : Z) (retries av : nat)
  | WCopy (p : Z) (av : nat) (d : bytes) (todo : gset nat)
  | WTest (av : nat)
  | WSignal.

(** Where the engine is in the collector: outside; at the top of the loop; in
    the copies of [lwrb_read]; with a pointer; past the loop. *)
Inductive reader :=
  | RIdle
  | RTop
  | RCopy (k : nat) (cr : bytes) (todo : gset nat)
  | RGot (cr : bytes)
  | RClear.

(** [results] are the chunks that the plugin gave, with whether they were
    accepted, and [delivered] those passed to [input_chunk_append_raw]. *)
Record state := mkst {
  rb : flb_ring_buffer;
  heap : gmap Z input_chunk_raw;
  wr : writer;
  rd : reader;
  results : list (input_chunk_raw * bool);
  delivered : list input_chunk_raw
}.

Definition at_w (s : state) (x : writer) : state := mkst (rb s) (heap s) x (rd s) (results s) (delivered s).
Definition at_r (s : state) (x : reader) : state := mkst (rb s) (heap s) (wr s) x (results s) (delivered s).
Definition with_rb (s : state) (x : flb_ring_buffer) : state :=
  mkst x (heap s) (wr s) (rd s) (results s) (delivered s).
Definition with_heap (s : state) (h : gmap Z input_chunk_raw) : state :=
  mkst (rb s) h (wr s) (rd s) (results s) (delivered s).
Definition with_result (s : state) (c : input_chunk_raw) (ok : bool) : state :=
  mkst (rb s) (heap s) (wr s) (rd s) (results s ++ [(c, ok)]) (delivered s).
Definition with_delivered (s : state) (c : input_chunk_raw) : state :=
  mkst (rb s) (heap s) (wr s) (rd s) (results s) (delivered s ++ [c]).

Definition mem (s : state) : bytes := default [] (buff (ctx (rb s))).
Definition with_buf (s : state) (m : bytes) (r w : nat) : state :=
  with_rb s (set_ctx (rb s) (mkbuf (Some m) (size (ctx (rb s))) r w)).
Definition rpos (s : state) : nat := r (ctx (rb s)).
Definition wpos (s : state) : nat := w (ctx (rb s)).
Definition len (s : state) : nat := size (ctx (rb s)).

Definition retry_limit : nat := 10.

(** The first part of [append_to_ring_buffer]: what it refuses, and the chunk it
    allocates. *)
Definition chunk_raw (event_type records : Z) (tag : option bytes) (buf : bytes) : option input_chunk_raw :=
  if (length buf =? 0)%nat then None
  else Some (mkraw event_type records
               (match tag with Some t => if (length t =? 0)%nat then None else Some t | None => None end) buf).

Inductive wstep (s : state) : state -> Prop :=
  | w_call c p et n t buf : wr s = WIdle -> chunk_raw et n t buf = Some c ->
      0 < p < 2 ^ 64 -> heap s !! p = None ->
      wstep s (at_w (with_heap s (<[p := c]> (heap s))) (WTry p 0))
  | w_give_up p k c : wr s = WTry p k -> (retry_limit <= k)%nat -> heap s !! p = Some c ->
      wstep s (at_w (with_result (with_heap s (delete p (heap s))) c false) WIdle)
  | w_full p k : wr s = WTry p k -> (k < retry_limit)%nat ->
      (lwrb_get_free (ctx (rb s)) < ptr_size)%nat ->
      wstep s (at_w s (WTry p (S k)))
  | w_room p k : wr s = WTry p k -> (k < retry_limit)%nat ->
      (ptr_size <= lwrb_get_free (ctx (rb s)))%nat ->
      wstep s (at_w s (WGo p k (lwrb_get_free (ctx (rb s)))))
  | w_nothing p k av : wr s = WGo p k av -> lwrb_get_free (ctx (rb s)) = 0%nat ->
      wstep s (at_w s (WTry p (S k)))
  | w_start p k av btw : wr s = WGo p k av ->
      btw = min (lwrb_get_free (ctx (rb s))) ptr_size -> btw <> 0%nat ->
      wstep s (at_w s (WCopy p av (take btw (ptr_bytes p)) (set_seq 0 btw)))
  | w_copy p av d todo i : wr s = WCopy p av d todo -> i ∈ todo ->
      wstep s (at_w (with_buf s (<[((wpos s + i) `mod` len s)%nat := d !!! i]> (mem s)) (rpos s) (wpos s))
                    (WCopy p av d (todo ∖ {[i]})))
  | w_publish p av d c : wr s = WCopy p av d ∅ -> heap s !! p = Some c ->
      wstep s (at_w (with_result (with_buf s (mem s) (rpos s) ((wpos s + length d) `mod` len s)) c true) (WTest av))
  | w_test av : wr s = WTest av ->
      wstep s (at_w s (if negb (flush_pending (rb s)) && past_window (rb s) av ptr_size then WSignal else WIdle))
  | w_signal : wr s = WSignal -> wstep s (at_w (with_rb s (signal (rb s))) WIdle).

(** [r_paused]: the input may be paused at any moment. *)
Inductive rstep (s : state) : state -> Prop :=
  | r_enter : rd s = RIdle -> rstep s (at_r s RTop)
  | r_paused : rd s = RTop -> rstep s (at_r s RClear)
  | r_empty : rd s = RTop -> lwrb_get_full (ctx (rb s)) = 0%nat -> rstep s (at_r s RClear)
  | r_start k : rd s = RTop -> k = min (lwrb_get_full (ctx (rb s))) ptr_size -> k <> 0%nat ->
      rstep s (at_r s (RCopy k (replicate ptr_size 0) (set_seq 0 k)))
  | r_copy k cr todo i : rd s = RCopy k cr todo -> i ∈ todo ->
      rstep s (at_r s (RCopy k (<[i := mem s !!! ((rpos s + i) `mod` len s)%nat]> cr) (todo ∖ {[i]})))
  | r_publish k cr : rd s = RCopy k cr ∅ ->
      rstep s (at_r (with_buf s (mem s) ((rpos s + k) `mod` len s) (wpos s)) (RGot cr))
  | r_null cr : rd s = RGot cr -> le_val cr = 0 -> rstep s (at_r s RTop)
  | r_deliver cr c : rd s = RGot cr -> le_val cr <> 0 -> heap s !! le_val cr = Some c ->
      rstep s (at_r (with_delivered (with_heap s (delete (le_val cr) (heap s))) c) RTop)
  | r_clear : rd s = RClear -> rstep s (at_r (with_rb s (set_pending (rb s) false)) RIdle).

Definition step (s s' : state) : Prop := wstep s s' \/ rstep s s'.

(** Both threads at rest on a buffer without content. *)
Definition start (rb : flb_ring_buffer) : state := mkst rb ∅ WIdle RIdle [] [].

(** *** Pointers *)

Lemma length_ptr p : length (ptr_bytes p) = ptr_size.
Proof. done. Qed.

Lemma ptr_val p : 0 < p < 2 ^ 64 -> le_val (ptr_bytes p) = p.
Proof. intros Hp. apply le_val_bytes. change (256 ^ Z.of_nat ptr_size) with (2 ^ 64). lia. Qed.

Lemma length_ptrs ps : length (concat (ptr_bytes <$> ps)) = (ptr_size * length ps)%nat.
Proof. induction ps as [|p ps IH]; [done|]. cbn [fmap list_fmap concat]. rewrite length_app, IH, length_ptr. simpl. lia. Qed.

(** *** The books: the chunks alive, and the order they were accepted in

    [front] are the pointers taken or queued, in order, [back] the one the
    writer is busy with. *)

Definition accepted (res : list (input_chunk_raw * bool)) : list input_chunk_raw :=
  fst <$> filter (λ x, snd x = true) res.

Record books (front back : list Z) (h : gmap Z input_chunk_raw)
    (res : list (input_chunk_raw * bool)) (del : list input_chunk_raw) : Prop := mkbooks {
  b_nodup : NoDup (front ++ back);
  b_range : Forall (λ p, 0 < p < 2 ^ 64) (front ++ back);
  b_alive : forall p, is_Some (h !! p) <-> p ∈ front ++ back;
  b_fifo : exists cs, (λ p, h !! p) <$> front = Some <$> cs /\ accepted res = del ++ cs
}.

Lemma accepted_app res c ok : accepted (res ++ [(c, ok)]) = accepted res ++ if ok then [c] else [].
Proof. unfold accepted. rewrite filter_app, fmap_app. by destruct ok. Qed.

Lemma lookups_ext (h h' : gmap Z input_chunk_raw) (l : list Z) :
  (forall p, p ∈ l -> h !! p = h' !! p) -> (λ p, h !! p) <$> l = (λ p, h' !! p) <$> l.
Proof. intros H. apply list_fmap_ext. intros i x Hx. by apply H, list_elem_of_lookup_2 with i. Qed.

Lemma books_call front h res del p c : books front [] h res del -> 0 < p < 2 ^ 64 -> h !! p = None ->
  books front [p] (<[p := c]> h) res del.
Proof.
  intros [Hn Hr Ha (cs & Hf & He)] Hp Hh. rewrite app_nil_r in *.
  assert (Hni : p ∉ front) by (intros Hin; apply Ha in Hin as [x Hx]; congruence).
  split.
  - apply NoDup_app. split; [done|]. split; [|apply NoDup_singleton].
    intros x Hx ->%list_elem_of_singleton. done.
  - by apply Forall_app_2; [|apply Forall_singleton].
  - intros q. rewrite lookup_insert_is_Some, Ha, elem_of_app, list_elem_of_singleton.
    destruct (decide (p = q)); naive_solver.
  - exists cs. split; [|done]. rewrite <- Hf. apply lookups_ext. intros q Hq.
    rewrite lookup_insert_ne; [done|]. by intros ->.
Qed.

Lemma books_give_up front h res del p c : books front [p] h res del ->
  books front [] (delete p h) (res ++ [(c, false)]) del.
Proof.
  intros [Hn Hr Ha (cs & Hf & He)]. apply NoDup_app in Hn as (Hn & Hd & _).
  assert (Hni : p ∉ front) by (intros Hin; apply (Hd p Hin), list_elem_of_singleton; done).
  split; rewrite ?app_nil_r; [done|by apply Forall_app in Hr as [? _]| |].
  - intros q. rewrite lookup_delete_is_Some, Ha, elem_of_app, list_elem_of_singleton. naive_solver.
  - exists cs. rewrite accepted_app, app_nil_r. split; [|done]. rewrite <- Hf. apply lookups_ext.
    intros q Hq. rewrite lookup_delete_ne; [done|]. by intros ->.
Qed.

Lemma books_publish front h res del p c : books front [p] h res del -> h !! p = Some c ->
  books (front ++ [p]) [] h (res ++ [(c, true)]) del.
Proof.
  intros [Hn Hr Ha (cs & Hf & He)] Hc. split; rewrite ?app_nil_r; [done..|].
  exists (cs ++ [c]). rewrite accepted_app, !fmap_app, Hf, He, <- app_assoc. split; [|done].
  simpl. by rewrite Hc.
Qed.

Lemma books_deliver front back h res del p c : books (p :: front) back h res del -> h !! p = Some c ->
  books front back (delete p h) res (del ++ [c]).
Proof.
  intros [Hn Hr Ha (cs & Hf & He)] Hc. simpl in *. apply NoDup_cons in Hn as [Hni Hn].
  apply Forall_cons in Hr as [_ Hr]. split; [done..| |].
  - intros q. rewrite lookup_delete_is_Some, Ha, elem_of_cons. naive_solver.
  - destruct cs as [|c' cs]; [done|]. cbn in Hf. rewrite Hc in Hf. injection Hf as <- Hf.
    change ((λ p, h !! p) <$> front = Some <$> cs) in Hf.
    exists cs. rewrite <- app_assoc. split; [|done]. rewrite <- Hf. apply lookups_ext.
    intros q Hq. rewrite lookup_delete_ne; [done|]. intros ->. apply Hni. rewrite elem_of_app. by left.
Qed.

(** *** The invariant of the two threads *)

Definition rptrs (x : reader) : list Z := match x with RGot cr => [le_val cr] | _ => [] end.
Definition wptrs (x : writer) : list Z :=
  match x with WTry p _ | WGo p _ _ | WCopy p _ _ _ => [p] | _ => [] end.

(** The bytes the writer has copied are in place, in free memory. *)
Definition writer_ok (b : lwrb_t) (x : writer) : Prop :=
  match x with
  | WTry _ k => (k <= retry_limit)%nat
  | WGo _ k _ => (k < retry_limit)%nat /\ (ptr_size <= lwrb_get_free b)%nat
  | WCopy p _ d todo =>
      d = ptr_bytes p /\ (ptr_size <= lwrb_get_free b)%nat /\
      (forall i, i ∈ todo -> (i < ptr_size)%nat) /\
      (forall i, (i < ptr_size)%nat -> i ∉ todo ->
         default [] (buff b) !!! ((w b + i) `mod` size b)%nat = d !!! i)
  | _ => True
  end.

(** The bytes the engine has copied are those queued. *)
Definition reader_ok (b : lwrb_t) (x : reader) : Prop :=
  match x with
  | RCopy k cr todo =>
      k = ptr_size /\ length cr = ptr_size /\ (ptr_size <= lwrb_get_full b)%nat /\
      (forall i, i ∈ todo -> (i < ptr_size)%nat) /\
      (forall i, (i < ptr_size)%nat -> i ∉ todo ->
         cr !!! i = default [] (buff b) !!! ((r b + i) `mod` size b)%nat)
  | RGot cr => exists p, 0 < p < 2 ^ 64 /\ cr = ptr_bytes p
  | _ => True
  end.

Record inv (s : state) (ps : list Z) : Prop := mkinv {
  i_wf : wf (ctx (rb s));
  i_queue : queued (ctx (rb s)) = concat (ptr_bytes <$> ps);
  i_writer : writer_ok (ctx (rb s)) (wr s);
  i_reader : reader_ok (ctx (rb s)) (rd s);
  i_books : books (rptrs (rd s) ++ ps) (wptrs (wr s)) (heap s) (results s) (delivered s)
}.

(** A store into free memory changes no byte that is queued. *)
Lemma insert_elsewhere (m : bytes) n a i j x : length m = n -> (i < n)%nat -> (j < n)%nat -> i <> j ->
  <[((a + j) `mod` n)%nat := x]> m !!! ((a + i) `mod` n)%nat = m !!! ((a + i) `mod` n)%nat.
Proof. intros Hm Hi Hj Hne. apply list_lookup_total_insert_ne. apply cyclic_distinct; lia. Qed.

Lemma free_slot b i : wf b -> ((w b + i) `mod` size b = (r b + (lwrb_get_full b + i)) `mod` size b)%nat.
Proof. intros H. rewrite Nat.add_assoc, <- (Nat.Div0.add_mod_idemp_l (r b + _)). by rewrite full_end. Qed.

Definition stored (b : lwrb_t) (i : nat) (x : Z) : lwrb_t :=
  mkbuf (Some (<[((w b + i) `mod` size b)%nat := x]> (default [] (buff b)))) (size b) (r b) (w b).

Lemma stored_wf b i x : wf b -> wf (stored b i x) /\
  lwrb_get_full (stored b i x) = lwrb_get_full b /\ lwrb_get_free (stored b i x) = lwrb_get_free b.
Proof.
  intros H. pose proof H as (m & Hm & Hl & Hr & Hw).
  assert (Hs : wf (stored b i x)).
  { exists (<[((w b + i) `mod` size b)%nat := x]> m). unfold stored. rewrite Hm. simpl.
    rewrite length_insert. done. }
  split; [done|]. unfold lwrb_get_full, lwrb_get_free. by rewrite !wf_ready.
Qed.

Lemma stored_queued b i x j : wf b -> (i < lwrb_get_free b)%nat -> (j < lwrb_get_full b)%nat ->
  default [] (buff (stored b i x)) !!! ((r b + j) `mod` size b)%nat =
  default [] (buff b) !!! ((r b + j) `mod` size b)%nat.
Proof.
  intros H Hi Hj. assert (Hf := free_full b H). unfold stored. simpl. rewrite free_slot by done.
  apply insert_elsewhere; [|lia..]. destruct H as (m & -> & Hl & _). done.
Qed.

Lemma queued_stored b i x : wf b -> (i < lwrb_get_free b)%nat -> queued (stored b i x) = queued b.
Proof.
  intros H Hi. unfold queued. destruct (stored_wf b i x H) as (_ & -> & _).
  assert (Hl : length (default [] (buff b)) = size b) by (by destruct H as (m & -> & ? & _)).
  apply window_ext. intros j Hj. unfold stored at 2 3. simpl. rewrite length_insert, Hl.
  by apply stored_queued.
Qed.

(** Copies in any order store the pointer, and read it. *)
Lemma writer_stores b p av d todo i : wf b -> writer_ok b (WCopy p av d todo) -> i ∈ todo ->
  writer_ok (stored b i (d !!! i)) (WCopy p av d (todo ∖ {[i]})).
Proof.
  intros H (Hd & Hfree & Htodo & Hm) Hi. assert (Hf := free_full b H).
  destruct (stored_wf b i (d !!! i) H) as (_ & _ & Hfr). simpl. rewrite Hfr.
  split; [done|]. split; [done|]. split; [set_solver|]. intros j Hj Hnj.
  assert (Hl : length (default [] (buff b)) = size b) by (by destruct H as (m & -> & ? & _)).
  specialize (Htodo i Hi). destruct (decide (j = i)) as [->|Hne].
  - rewrite list_lookup_total_insert_eq; [done|]. rewrite Hl. apply Nat.mod_upper_bound. lia.
  - rewrite insert_elsewhere by lia. apply Hm; [done|]. set_solver.
Qed.

Lemma reader_undisturbed b x i v : wf b -> (i < lwrb_get_free b)%nat -> reader_ok b x -> reader_ok (stored b i v) x.
Proof.
  intros H Hi. destruct x as [| |k cr todo| |]; try done. destruct (stored_wf b i v H) as (_ & Hfu & _).
  simpl. rewrite Hfu. intros (? & ? & ? & ? & Hc). do 4 (split; [done|]). intros j Hj Hn.
  rewrite Hc by done. symmetry. apply stored_queued; [done..|lia].
Qed.

Lemma reader_loads b k cr todo i : reader_ok b (RCopy k cr todo) -> i ∈ todo ->
  reader_ok b (RCopy k (<[i := default [] (buff b) !!! ((r b + i) `mod` size b)%nat]> cr) (todo ∖ {[i]})).
Proof.
  intros (Hk & Hl & Hf & Htodo & Hc) Hi. simpl. rewrite length_insert. do 3 (split; [done|]).
  split; [set_solver|]. intros j Hj Hn. destruct (decide (j = i)) as [->|Hne].
  - rewrite list_lookup_total_insert_eq; [done|]. lia.
  - rewrite list_lookup_total_insert_ne by done. apply Hc; [done|]. set_solver.
Qed.

(** Publishing the position makes the pointer the last one queued. *)
Lemma writer_publishes b p av d : wf b -> writer_ok b (WCopy p av d ∅) ->
  let b' := mkbuf (Some (default [] (buff b))) (size b) (r b) ((w b + length d) `mod` size b) in
  wf b' /\ queued b' = queued b ++ ptr_bytes p /\ (lwrb_get_full b <= lwrb_get_full b')%nat.
Proof.
  intros H (-> & Hfree & _ & Hm) b'. pose proof H as (m & Hbm & Hl & _).
  assert (Hk : (length (ptr_bytes p) <= lwrb_get_free b)%nat) by done.
  rewrite Hbm in Hm. unfold b'. rewrite Hbm. cbn [default from_option id] in *. destruct (grown b m (length (ptr_bytes p)) H Hl Hk) as [Hg Hfull].
  cbn zeta in Hfull.
  split; [done|]. split; [|rewrite Hfull; lia].
  apply (queued_grown b m); [done|done| |done]. split; [done|]. split; [|done].
  intros i Hi. rewrite Hl. apply Hm; [done|]. set_solver.
Qed.

(** What the engine copied is the first pointer queued. *)
Lemma reader_publishes b k cr p ps : wf b -> reader_ok b (RCopy k cr ∅) ->
  queued b = concat (ptr_bytes <$> p :: ps) ->
  let b' := mkbuf (Some (default [] (buff b))) (size b) ((r b + k) `mod` size b) (w b) in
  cr = ptr_bytes p /\ wf b' /\ queued b' = concat (ptr_bytes <$> ps) /\
  (lwrb_get_free b <= lwrb_get_free b')%nat.
Proof.
  intros H (-> & Hlc & Hf & _ & Hc) Hq b'. pose proof H as (m & Hbm & Hl & Hr & _).
  assert (Hcr : cr = take ptr_size (queued b)).
  { unfold queued. rewrite window_take, Hbm by done. simpl.
    apply list_eq_same_length with ptr_size; [apply length_window|done|].
    intros i x y Hi <-%list_lookup_total_correct. rewrite lookup_window, Hl by done. intros [= <-].
    rewrite Hc, Hbm by (done || set_solver). done. }
  unfold b'. rewrite Hbm. simpl. destruct (shrunk b m ptr_size H Hl Hf) as [Hs Hfull].
  assert (Hff := free_full b H). assert (Hff' := free_full _ Hs). simpl in Hff'.
  split; [rewrite Hcr, Hq; apply take_app_length'; done|]. split; [done|]. split; [|lia].
  rewrite <- Hbm, queued_shrunk, Hq by done. by apply drop_app_length'.
Qed.

Lemma reader_mono b b' x : buff b' = buff b \/ buff b' = Some (default [] (buff b)) ->
  r b' = r b -> size b' = size b -> (lwrb_get_full b <= lwrb_get_full b')%nat -> reader_ok b x -> reader_ok b' x.
Proof.
  intros Hb Hr Hs Hf. assert (default [] (buff b') = default [] (buff b)) as Hd by (destruct Hb as [-> | ->]; done).
  destruct x as [| |k cr todo| |]; try done. simpl. rewrite Hd, Hr, Hs.
  intros (? & ? & ? & ? & ?). do 2 (split; [done|]). split; [lia|done].
Qed.

Lemma writer_mono b b' x : buff b' = Some (default [] (buff b)) ->
  w b' = w b -> size b' = size b -> (lwrb_get_free b <= lwrb_get_free b')%nat -> writer_ok b x -> writer_ok b' x.
Proof.
  intros Hb Hw Hs Hf. destruct x as [|?|p k av|p av d todo| |]; try done; simpl; rewrite ?Hb, ?Hw, ?Hs.
  - intros [? ?]. split; [done|lia].
  - intros (? & ? & ? & ?). split; [done|]. split; [lia|done].
Qed.

Lemma inv_full s ps : inv s ps -> lwrb_get_full (ctx (rb s)) = (ptr_size * length ps)%nat.
Proof. intros [_ Hq _ _ _]. by rewrite <- length_queued, Hq, length_ptrs. Qed.

(** The steps of the writer that do not touch the memory. *)
Lemma wmove_inv s ps x : inv s ps -> wptrs x = wptrs (wr s) -> writer_ok (ctx (rb s)) x -> inv (at_w s x) ps.
Proof. intros [Hwf Hq Hw Hr Hb] Hp Hx. split; [done..|]. simpl. by rewrite Hp. Qed.

Lemma wstep_inv s s' ps : inv s ps -> wstep s s' -> exists ps', inv s' ps'.
Proof.
  intros Hinv Hs. pose proof Hinv as [Hwf Hq Hw Hr Hb].
  destruct Hs as [c p et n t buf Hx Hc Hp Hh|p k c Hx Hk Hh|p k Hx Hk Hfr|p k Hx Hk Hfr|p k av Hx Hfr
    |p k av btw Hx -> Hne|p av d todo i Hx Hi|p av d c Hx Hh|av Hx|Hx]; rewrite Hx in Hw, Hb; simpl in Hb.
  - exists ps. split; [done|done|simpl; lia|done|]. by apply books_call.
  - exists ps. split; [done|done|done|done|]. by eapply books_give_up.
  - exists ps. apply wmove_inv; [done|by rewrite Hx|simpl; lia].
  - exists ps. apply wmove_inv; [done|by rewrite Hx|done].
  - exists ps. apply wmove_inv; [done|by rewrite Hx|]. simpl in *. lia.
  - exists ps. destruct Hw as [Hk Hfr]. rewrite Nat.min_r by done. apply wmove_inv; [done|by rewrite Hx|].
    rewrite take_ge by done. split; [done|]. split; [done|].
    split; [intros i Hi%elem_of_set_seq; lia|]. intros i Hi Hn. destruct Hn. apply elem_of_set_seq. lia.
  - exists ps. assert (Hlt : (i < lwrb_get_free (ctx (rb s)))%nat).
    { destruct Hw as (_ & ? & Ht & _). specialize (Ht i Hi). lia. }
    destruct (stored_wf (ctx (rb s)) i (d !!! i) Hwf) as [Hwf' _].
    split; [done| | | |done].
    + rewrite <- Hq. by apply (queued_stored (ctx (rb s))).
    + by apply (writer_stores (ctx (rb s))).
    + by apply (reader_undisturbed (ctx (rb s))).
  - exists (ps ++ [p]). destruct (writer_publishes _ p av d Hwf Hw) as (Hwf' & Hq' & Hf).
    split; [done| |done| |].
    + etrans; [exact Hq'|]. rewrite Hq, fmap_app, concat_app. simpl. done.
    + eapply (reader_mono (ctx (rb s))); [by right|done|done|exact Hf|done].
    + simpl. rewrite app_assoc. by apply books_publish.
  - exists ps. apply wmove_inv; [done| |]; rewrite ?Hx; by destruct (_ && _).
  - exists ps. by split.
Qed.

Lemma rmove_inv s ps x : inv s ps -> rptrs x = rptrs (rd s) -> reader_ok (ctx (rb s)) x -> inv (at_r s x) ps.
Proof. intros [Hwf Hq Hw Hr Hb] Hp Hx. split; [done..|]. simpl. by rewrite Hp. Qed.

Lemma rstep_inv s s' ps : inv s ps -> rstep s s' -> exists ps', inv s' ps'.
Proof.
  intros Hinv Hs. assert (Hfull := inv_full s ps Hinv). pose proof Hinv as [Hwf Hq Hw Hr Hb].
  destruct Hs as [Hx|Hx|Hx Hf|k Hx -> Hne|k cr todo i Hx Hi|k cr Hx|cr Hx H0|cr c Hx H0 Hh|Hx];
    rewrite Hx in Hr, Hb; simpl in Hb.
  - exists ps. apply rmove_inv; [done|by rewrite Hx|done].
  - exists ps. apply rmove_inv; [done|by rewrite Hx|done].
  - exists ps. apply rmove_inv; [done|by rewrite Hx|done].
  - exists ps. assert (Hf : (ptr_size <= lwrb_get_full (ctx (rb s)))%nat) by (destruct ps; cbn [length] in Hfull; lia).
    rewrite Nat.min_r by done. apply rmove_inv; [done|by rewrite Hx|]. do 3 (split; [done|]).
    split; [intros i Hi%elem_of_set_seq; lia|]. intros i Hi Hn. destruct Hn. apply elem_of_set_seq. lia.
  - exists ps. apply rmove_inv; [done|by rewrite Hx|]. by apply reader_loads.
  - destruct ps as [|p ps]; [destruct Hr as (_ & _ & Hf & _); cbn [length] in Hfull; unfold ptr_size in *; lia|].
    exists ps. destruct (reader_publishes _ k cr p ps Hwf Hr Hq) as (-> & Hwf' & Hq' & Hfr).
    assert (Hp : 0 < p < 2 ^ 64) by (by apply b_range, Forall_cons in Hb as [? _]).
    split; [done|done| |by exists p|].
    + eapply (writer_mono (ctx (rb s))); [done..|exact Hfr|done].
    + change (rptrs (rd (at_r _ _))) with [le_val (ptr_bytes p)]. by rewrite ptr_val.
  - exists ps. destruct Hr as (p & Hp & ->). rewrite ptr_val in H0 by done. lia.
  - exists ps. split; [done|done|done|done|]. by apply books_deliver.
  - exists ps. by split.
Qed.

(** *** What holds of every interleaving *)

Definition reachable (rb0 : flb_ring_buffer) (s : state) : Prop := rtc step (start rb0) s.

Lemma threads_start_inv rb0 : wf (ctx rb0) -> queued (ctx rb0) = [] -> inv (start rb0) [].
Proof.
  intros Hwf Hq. split; [done..|]. split; simpl; [apply NoDup_nil_2|apply Forall_nil_2| |by exists []].
  intros p. rewrite lookup_empty, elem_of_nil. split; [by intros [? ?]|done].
Qed.

Lemma threads_reachable_inv rb0 s : wf (ctx rb0) -> queued (ctx rb0) = [] -> reachable rb0 s -> exists ps, inv s ps.
Proof.
  intros Hwf Hq Hr. assert (H0 := threads_start_inv rb0 Hwf Hq). revert H0. unfold reachable in Hr.
  generalize (@nil Z). induction Hr as [s|s1 s2 s3 [Hs|Hs] _ IH]; intros ps Hi; [by exists ps| |].
  - destruct (wstep_inv _ _ _ Hi Hs) as [ps' Hi']. by eapply IH.
  - destruct (rstep_inv _ _ _ Hi Hs) as [ps' Hi']. by eapply IH.
Qed.

(** C7: however the thread of an input and the collector of the engine
    interleave, byte by byte and in any order of the copies, the chunks that
    were accepted are those delivered, in order, followed by those that are in
    the ring buffer or in the hands of the engine; the ring buffer holds whole
    pointers only; the heap holds those chunks and the one the writer works on
    and nothing else, each once, so no chunk is lost, leaked, delivered twice or
    used after it was freed; and once both are idle on an empty buffer
    everything accepted was delivered and everything allocated was freed. *)
Theorem ring_threads_fifo rb0 s : wf (ctx rb0) -> queued (ctx rb0) = [] -> reachable rb0 s ->
  exists ps cs,
    queued (ctx (rb s)) = concat (ptr_bytes <$> ps) /\
    (λ p, heap s !! p) <$> rptrs (rd s) ++ ps = Some <$> cs /\
    accepted (results s) = delivered s ++ cs /\
    NoDup (rptrs (rd s) ++ ps ++ wptrs (wr s)) /\
    (forall p, is_Some (heap s !! p) <-> p ∈ rptrs (rd s) ++ ps ++ wptrs (wr s)) /\
    (wr s = WIdle -> rd s = RIdle -> queued (ctx (rb s)) = [] ->
     delivered s = accepted (results s) /\ heap s = ∅).
Proof.
  intros Hwf Hq Hr. destruct (threads_reachable_inv _ _ Hwf Hq Hr) as [ps Hi].
  assert (Hfull := inv_full s ps Hi). destruct Hi as [Hw Hqs _ _ [Hn _ Ha (cs & Hf & He)]].
  rewrite <- app_assoc in Hn, Ha. exists ps, cs. do 5 (split; [done|]).
  intros Hwi Hri Hqe. rewrite Hwi, Hri in *. simpl in *.
  assert (Hl := length_queued (ctx (rb s))). rewrite Hqe, Hfull in Hl. destruct ps as [|p ps]; [|done].
  destruct cs as [|c cs]; [|done]. rewrite He, app_nil_r. split; [done|].
  apply map_eq. intros p. rewrite lookup_empty. apply eq_None_not_Some. rewrite Ha. apply not_elem_of_nil.
Qed.

(** *** The writer never waits for the engine *)

Definition work (x : writer) : nat :=
  match x with
  | WIdle => 0
  | WSignal => 1
  | WTest _ => 2
  | WCopy _ _ _ todo => 3 + base.size todo
  | WGo _ k _ => 13 + 20 * (retry_limit - k)
  | WTry _ k => 14 + 20 * (retry_limit - k)
  end.

Lemma wstep_work s s' ps : inv s ps -> wr s <> WIdle -> wstep s s' -> (work (wr s') < work (wr s))%nat.
Proof.
  intros [_ _ Hw _ _] Hne Hs.
  destruct Hs as [c p et n t buf Hx|p k c Hx|p k Hx Hk Hfr|p k Hx Hk Hfr|p k av Hx Hfr
    |p k av btw Hx -> Hb|p av d todo i Hx Hi|p av d c Hx Hh|av Hx|Hx]; rewrite Hx in *; simpl; try done; try lia.
  - unfold retry_limit in *. lia.
  - simpl in Hw. unfold retry_limit in *. lia.
  - rewrite size_set_seq. unfold ptr_size. lia.
  - rewrite size_difference by set_solver. rewrite size_singleton.
    assert (base.size todo <> 0)%nat by (intros H0%size_empty_inv; set_solver). lia.
  - destruct (_ && _); simpl; lia.
Qed.

(** From [s] to [s'] with [n] steps of a writer that is in a call all along. *)
Inductive busy : nat -> state -> state -> Prop :=
  | busy_0 s : busy 0 s s
  | busy_w n s1 s2 s3 : busy n s1 s2 -> wr s2 <> WIdle -> wstep s2 s3 -> busy (S n) s1 s3
  | busy_r n s1 s2 s3 : busy n s1 s2 -> rstep s2 s3 -> busy n s1 s3.

Lemma rstep_wr s s' : rstep s s' -> wr s' = wr s.
Proof. by intros []. Qed.

Lemma busy_work n s s' ps : inv s ps -> busy n s s' ->
  (exists ps', inv s' ps') /\ (n + work (wr s') <= work (wr s))%nat.
Proof.
  intros Hi Hb. induction Hb as [s|n s1 s2 s3 Hb IH Hne Hs|n s1 s2 s3 Hb IH Hs]; [split; [eauto|lia]| |].
  - destruct (IH Hi) as [[ps' Hi'] Hle]. split; [by eapply wstep_inv|].
    assert (Hw := wstep_work _ _ _ Hi' Hne Hs). lia.
  - destruct (IH Hi) as [[ps' Hi'] Hle]. split; [by eapply rstep_inv|]. by rewrite (rstep_wr _ _ Hs).
Qed.

Lemma writer_can_step s ps : inv s ps -> wr s <> WIdle -> exists s', wstep s s'.
Proof.
  intros [_ _ Hw _ [_ _ Ha _]] Hne.
  assert (Halive : forall p, p ∈ wptrs (wr s) -> exists c, heap s !! p = Some c).
  { intros p Hp. apply Ha, elem_of_app. by right. }
  destruct (wr s) as [|p k|p k av|p av d todo|av|] eqn:Hx; [done|..]; simpl in Halive.
  - destruct (decide (retry_limit <= k)%nat) as [Hk|Hk].
    { destruct (Halive p) as [c Hc]; [by apply list_elem_of_singleton|]. eexists. by eapply w_give_up. }
    destruct (decide (ptr_size <= lwrb_get_free (ctx (rb s)))%nat) as [Hf|Hf]; eexists.
    + apply w_room; [done|lia|done].
    + eapply w_full; [done|lia|lia].
  - destruct Hw as [_ Hf]. eexists. eapply w_start; [done|done|]. rewrite Nat.min_r by done. done.
  - destruct (decide (todo = ∅)) as [->|Hn].
    + destruct (Halive p) as [c Hc]; [by apply list_elem_of_singleton|]. eexists. by eapply w_publish.
    + apply set_choose_L in Hn as [i Hi]. eexists. by eapply w_copy.
  - eexists. by apply w_test.
  - eexists. by apply w_signal.
Qed.

(** [append_to_ring_buffer] needs no step of the engine: in every state
    that can be reached a writer in a call can take a step, and whatever the
    engine does in between it returns after at most 214 of its own steps, with
    at most ten failed tries. *)
Theorem append_wait_free rb0 s : wf (ctx rb0) -> queued (ctx rb0) = [] -> reachable rb0 s ->
  (wr s <> WIdle -> exists s', wstep s s') /\
  (forall n s', busy n s s' -> (n + work (wr s') <= work (wr s) <= 214)%nat).
Proof.
  intros Hwf Hq Hr. destruct (threads_reachable_inv _ _ Hwf Hq Hr) as [ps Hi].
  split; [by eapply writer_can_step|]. intros n s' Hb. destruct (busy_work n s s' ps Hi Hb) as [_ Hle].
  split; [done|]. destruct Hi as [_ _ Hw _ _]. destruct (wr s) as [|p k|p k av|p av d todo|av|]; simpl in *; try lia.
  - unfold retry_limit. lia.
  - unfold retry_limit. lia.
  - destruct Hw as (_ & _ & Ht & _). assert (Hs : todo ⊆ set_seq 0 ptr_size).
    { intros i Hi%Ht. apply elem_of_set_seq. lia. }
    apply subseteq_size in Hs. rewrite size_set_seq in Hs. unfold ptr_size in Hs. lia.
Qed.

(** *** Each function is a run of the steps that nothing interrupts *)

(** The copies, in any order, leave the memory that the functions leave. *)
Lemma copies_run n s p av d X : base.size X = n -> wr s = WCopy p av d X ->
  wf (ctx (rb s)) -> (forall i, i ∈ X -> (i < len s)%nat) ->
  exists m', rtc wstep s (at_w (with_buf s m' (rpos s) (wpos s)) (WCopy p av d ∅)) /\
    length m' = length (mem s) /\
    (forall i, i ∈ X -> m' !!! ((wpos s + i) `mod` len s)%nat = d !!! i) /\
    (forall q, (forall i, i ∈ X -> q <> ((wpos s + i) `mod` len s)%nat) -> m' !!! q = mem s !!! q).
Proof.
  revert s X. induction n as [|n IH]; intros s X Hn Hx Hwf HX.
  - apply size_empty_inv in Hn. fold_leibniz. subst X. exists (mem s). split; [|set_solver].
    destruct Hwf as (m & Hm & _). unfold mem, with_buf, with_rb, set_ctx, at_w, rpos, wpos. rewrite Hm. simpl.
    destruct s as [[[bu si ri wi] ? ? ? ? ? ?] ? ? ? ? ?]; simpl in *; subst. apply rtc_refl.
  - destruct (size_pos_elem_of X) as [i Hi]; [lia|].
    set (s1 := at_w (with_buf s (<[((wpos s + i) `mod` len s)%nat := d !!! i]> (mem s)) (rpos s) (wpos s))
                    (WCopy p av d (X ∖ {[i]}))).
    destruct (stored_wf (ctx (rb s)) i (d !!! i) Hwf) as [Hwf' _].
    destruct (IH s1 (X ∖ {[i]})) as (m' & Hrun & Hl & Hin & Hout); [|done|done| |].
    { rewrite size_difference, size_singleton by set_solver. lia. }
    { intros j Hj. apply HX. set_solver. }
    exists m'. split; [eapply rtc_l; [by eapply w_copy|exact Hrun]|]. cbn in Hl. rewrite length_insert in Hl.
    assert (Hlm : length (mem s) = len s) by (by destruct Hwf as (m & Hm & ? & _); unfold mem; rewrite Hm).
    assert (Hpos : ((wpos s + i) `mod` len s < length (mem s))%nat).
    { rewrite Hlm. apply Nat.mod_upper_bound. specialize (HX i Hi). lia. }
    split; [done|]. split.
    + intros j Hj. destruct (decide (j = i)) as [->|Hne]; [|apply Hin; set_solver].
      rewrite Hout; [by apply list_lookup_total_insert_eq|].
      intros j Hj'. apply cyclic_distinct; [by apply HX|apply HX; set_solver|set_solver].
    + intros q Hq. rewrite Hout by (intros j Hj; apply Hq; set_solver).
      apply list_lookup_total_insert_ne. intros Heq. by apply (Hq i Hi).
Qed.

Lemma write_run s p k c : wf (ctx (rb s)) -> wr s = WTry p k -> (k < retry_limit)%nat ->
  (ptr_size <= lwrb_get_free (ctx (rb s)))%nat -> heap s !! p = Some c ->
  exists rb', flb_ring_buffer_write (rb s) (ptr_bytes p) = (0, rb') /\
    rtc wstep s (at_w (with_result (with_rb s rb') c true) WIdle).
Proof.
  intros Hwf Hx Hk Hf Hc. assert (Hff := free_full _ Hwf).
  set (s1 := at_w s (WCopy p (lwrb_get_free (ctx (rb s))) (ptr_bytes p) (set_seq 0 ptr_size))).
  assert (Hs1 : rtc wstep s s1).
  { eapply rtc_l; [by apply (w_room s p k)|]. eapply rtc_l; [|apply rtc_refl].
    eapply (w_start (at_w s _) p k _ ptr_size); [done|cbn [rb at_w]; lia|done]. }
  destruct (copies_run ptr_size s1 p (lwrb_get_free (ctx (rb s))) (ptr_bytes p) (set_seq 0 ptr_size))
    as (m' & Hrun & Hl & Hin & Hout); [apply size_set_seq|done|done| |].
  { intros i Hi%elem_of_set_seq. change (i < size (ctx (rb s)))%nat. lia. }
  destruct (lwrb_write_spec (ctx (rb s)) (ptr_bytes p) Hwf) as (m & m1 & Hm & Hw & Heq).
  rewrite Nat.min_r in Hw, Heq by done. rewrite take_ge in Hw by done.
  assert (m1 = m') as ->.
  { assert (Hml : length m = size (ctx (rb s))) by (destruct Hwf as (m0 & ? & ? & _); congruence).
    unfold mem in *. cbn [s1 at_w rb] in Hl, Hin, Hout. rewrite Hm in Hl, Hout. cbn [default from_option id] in Hl, Hout.
    apply (wrote_unique m (w (ctx (rb s))) (ptr_bytes p)); [done|]. split; [done|]. rewrite Hml. split.
    - intros i Hi. apply Hin, elem_of_set_seq. rewrite length_ptr in Hi. lia.
    - intros q _ Hq. apply Hout. intros i Hi%elem_of_set_seq. apply Hq. rewrite length_ptr. lia. }
  set (b1 := mkbuf (Some m') _ _ _) in Heq. set (rb1 := set_ctx (rb s) b1).
  assert (Hs2 : rtc wstep s (at_w (with_result (with_rb s rb1) c true) (WTest (lwrb_get_free (ctx (rb s)))))).
  { etrans; [exact Hs1|]. eapply rtc_r; [exact Hrun|].
    exact (w_publish (at_w (with_buf s1 m' (rpos s1) (wpos s1)) (WCopy p _ (ptr_bytes p) ∅))
             p _ (ptr_bytes p) c eq_refl Hc). }
  unfold flb_ring_buffer_write. rewrite (proj2 (Nat.ltb_ge _ _)), Heq by done.
  change (_ =? 0)%nat with false. cbn match. fold rb1. rewrite length_ptr.
  assert (Ht := w_test (at_w (with_result (with_rb s rb1) c true) (WTest (lwrb_get_free (ctx (rb s))))) _ eq_refl).
  cbn [rb at_w with_result with_rb] in Ht.
  destruct (negb (flush_pending rb1) && past_window rb1 (lwrb_get_free (ctx (rb s))) ptr_size);
    (eexists; split; [done|]; etrans; [exact Hs2|]; eapply rtc_l; [exact Ht|]).
  - eapply rtc_l; [by apply w_signal|apply rtc_refl].
  - apply rtc_refl.
Qed.

Lemma loads_run n s k cr X : base.size X = n -> rd s = RCopy k cr X -> (forall i, i ∈ X -> (i < length cr)%nat) ->
  exists cr', rtc rstep s (at_r s (RCopy k cr' ∅)) /\ length cr' = length cr /\
    (forall i, i ∈ X -> cr' !!! i = mem s !!! ((rpos s + i) `mod` len s)%nat) /\
    (forall i, i ∉ X -> cr' !!! i = cr !!! i).
Proof.
  revert s cr X. induction n as [|n IH]; intros s cr X Hn Hx HX.
  - apply size_empty_inv in Hn. fold_leibniz. subst X. exists cr. split; [|set_solver].
    destruct s. simpl in *. subst. apply rtc_refl.
  - destruct (size_pos_elem_of X) as [i Hi]; [lia|].
    set (x := mem s !!! ((rpos s + i) `mod` len s)%nat).
    destruct (IH (at_r s (RCopy k (<[i := x]> cr) (X ∖ {[i]}))) (<[i := x]> cr) (X ∖ {[i]}))
      as (cr' & Hrun & Hl & Hin & Hout); [|done| |].
    { rewrite size_difference, size_singleton by set_solver. lia. }
    { intros j Hj. rewrite length_insert. apply HX. set_solver. }
    rewrite length_insert in Hl. exists cr'. split; [eapply rtc_l; [by eapply r_copy|exact Hrun]|].
    split; [done|]. split.
    + intros j Hj. destruct (decide (j = i)) as [->|Hne]; [|apply Hin; set_solver].
      rewrite Hout by set_solver. by apply list_lookup_total_insert_eq, HX.
    + intros j Hj. rewrite Hout by set_solver. apply list_lookup_total_insert_ne. intros ->. done.
Qed.

Lemma read_run s : wf (ctx (rb s)) -> rd s = RTop -> lwrb_get_full (ctx (rb s)) <> 0%nat ->
  exists d rb', flb_ring_buffer_read (rb s) ptr_size = (0, d, rb') /\
    rtc rstep s (at_r (with_rb s rb') (RGot (d ++ replicate (ptr_size - length d) 0))).
Proof.
  intros Hwf Hx Hne. set (k := min (lwrb_get_full (ctx (rb s))) ptr_size).
  assert (Hk : k <> 0%nat) by (unfold ptr_size in k; lia).
  destruct (loads_run k (at_r s (RCopy k (replicate ptr_size 0) (set_seq 0 k))) k (replicate ptr_size 0) (set_seq 0 k))
    as (cr & Hrun & Hl & Hin & Hout); [apply size_set_seq|done| |].
  { intros i Hi%elem_of_set_seq. rewrite length_replicate. lia. }
  unfold flb_ring_buffer_read. rewrite lwrb_read_spec by done. fold k.
  set (d := take ptr_size (queued (ctx (rb s)))).
  assert (Hd : length d = k) by (unfold d; rewrite length_take, length_queued; lia).
  eexists d, _. split; [rewrite Hd, (proj2 (Nat.eqb_neq k 0)) by done; reflexivity|].
  assert (cr = d ++ replicate (ptr_size - length d) 0) as <-.
  { pose proof Hwf as (m & Hm & Hml & _). unfold d, queued. rewrite Hm in *. simpl.
    replace (take _ _) with (window m (r (ctx (rb s))) k).
    2:{ destruct (decide (ptr_size <= lwrb_get_full (ctx (rb s)))%nat).
        - rewrite window_take by done. f_equal. lia.
        - rewrite take_ge by (rewrite length_window; lia). f_equal. lia. }
    apply list_eq_same_length with ptr_size; [rewrite length_app, length_window, length_replicate; lia|done|].
    intros i x y Hi <-%list_lookup_total_correct. destruct (decide (i < k)%nat) as [Hlt|Hge].
    - rewrite lookup_app_l, lookup_window by (rewrite ?length_window; lia). intros [= <-].
      rewrite Hin by (apply elem_of_set_seq; lia). unfold mem. cbn [rb at_r]. rewrite Hm, Hml. done.
    - rewrite lookup_app_r; rewrite length_window; [|lia]. rewrite lookup_replicate. intros [-> _].
      rewrite Hout by (rewrite elem_of_set_seq; lia). apply lookup_total_replicate_2. done. }
  eapply rtc_l; [by apply (r_start s k)|]. eapply rtc_r; [exact Hrun|].
  replace (buff (ctx (rb s))) with (Some (mem s)) by (destruct Hwf as (m & Hm & _); unfold mem; by rewrite Hm).
  exact (r_publish (at_r s (RCopy k cr ∅)) k cr eq_refl).
Qed.

(** [flb_ring_buffer_write] and [flb_ring_buffer_read], as functions, are
    what the steps of the writer and of the engine do when the other side does
    not move: a write that finds room ends with the pointer accepted in the
    buffer the function returns, one that does not is tried again on the buffer
    as it was; a read ends with the bytes the function returns, or leaves the
    loop. *)
Theorem ring_functions_are_runs s : wf (ctx (rb s)) ->
  (forall p k c, wr s = WTry p k -> (k < retry_limit)%nat -> heap s !! p = Some c ->
   let '(ret, rb') := flb_ring_buffer_write (rb s) (ptr_bytes p) in
   rtc wstep s (if ret =? 0 then at_w (with_result (with_rb s rb') c true) WIdle
                else at_w (with_rb s rb') (WTry p (S k)))) /\
  (rd s = RTop ->
   let '(ret, d, rb') := flb_ring_buffer_read (rb s) ptr_size in
   rtc rstep s (if ret =? 0 then at_r (with_rb s rb') (RGot (d ++ replicate (ptr_size - length d) 0))
                else at_r (with_rb s rb') RClear)).
Proof.
  intros Hwf. split.
  - intros p k c Hx Hk Hc. destruct (decide (ptr_size <= lwrb_get_free (ctx (rb s)))%nat) as [Hf|Hf].
    + destruct (write_run s p k c Hwf Hx Hk Hf Hc) as (rb' & -> & Hrun). exact Hrun.
    + unfold flb_ring_buffer_write. rewrite length_ptr, (proj2 (Nat.ltb_lt _ _)) by lia.
      apply rtc_once. replace (with_rb s (rb s)) with s by (by destruct s). apply w_full; [done..|lia].
  - intros Hx. destruct (decide (lwrb_get_full (ctx (rb s)) = 0)%nat) as [H0|Hne].
    + unfold flb_ring_buffer_read. rewrite lwrb_read_spec by done.
      assert (queued (ctx (rb s)) = []) as -> by (apply nil_length_inv; by rewrite length_queued).
      rewrite H0. simpl. rewrite Nat.add_0_r, Nat.mod_small by (by destruct Hwf as (m & _ & _ & ? & _)).
      replace (with_rb s _) with s by (by destruct s as [[[] ] ]). by apply rtc_once, r_empty.
    + destruct (read_run s Hwf Hx Hne) as (d & rb' & -> & Hrun). exact Hrun.
Qed.

(** A ring buffer for two pointers, registered with a window of half of it. *)
Definition two_slots : flb_ring_buffer :=
  match flb_ring_buffer_create [] 16 with
  | (Some rb, _) => (flb_ring_buffer_add_event_loop rb 50 (Some 7) true true).2
  | (None, _) => mkrb (mkbuf None 0 0 0) false false 0 [] 0 0
  end.

Lemma two_slots_ok : wf (ctx two_slots) /\ queued (ctx two_slots) = [].
Proof. split; [|done]. exists (replicate 17 0). vm_compute. repeat split; lia. Qed.

Definition chunk (x : Z) : input_chunk_raw := mkraw 0 1 None [x].

(** The writer offers a chunk and stores it at once. *)
Lemma offer_runs s x p rb' : wf (ctx (rb s)) -> wr s = WIdle -> 0 < p < 2 ^ 64 -> heap s !! p = None ->
  flb_ring_buffer_write (rb s) (ptr_bytes p) = (0, rb') ->
  rtc step s (mkst rb' (<[p := chunk x]> (heap s)) WIdle (rd s) (results s ++ [(chunk x, true)]) (delivered s)).
Proof.
  intros Hwf Hx Hp Hh Hw. eapply rtc_l; [left; by apply (w_call s (chunk x) p 0 1 None [x])|].
  set (s1 := at_w _ _). assert (Hl : (ptr_size <= lwrb_get_free (ctx (rb s)))%nat).
  { unfold flb_ring_buffer_write in Hw. rewrite length_ptr in Hw.
    destruct (Nat.ltb_spec (lwrb_get_free (ctx (rb s))) ptr_size); [done|lia]. }
  destruct (write_run s1 p 0 (chunk x)) as (rb1 & Hw1 & Hrun); [done|done|unfold retry_limit; lia|done|apply lookup_insert_eq|].
  change (rb s1) with (rb s) in Hw1. rewrite Hw in Hw1. injection Hw1 as <-.
  eapply rtc_subrel; [|exact Hrun]. intros ? ?. by left.
Qed.

Lemma ring_functions_are_runs_witness :
  let s := mkst two_slots {[ 4096 := chunk 1 ]} (WTry 4096 0) RTop [] [] in
  exists s1 s2, rtc wstep s s1 /\ queued (ctx (rb s1)) = ptr_bytes 4096 /\ signals (rb s1) = [7] /\
    rtc rstep s1 s2 /\ rd s2 = RGot (ptr_bytes 4096).
Proof.
  set (s := mkst _ _ _ _ _ _).
  destruct (ring_functions_are_runs s (proj1 two_slots_ok)) as [Hw _].
  assert (Hk : (0 < retry_limit)%nat) by (unfold retry_limit; lia).
  specialize (Hw 4096 0%nat (chunk 1) eq_refl Hk eq_refl).
  destruct (flb_ring_buffer_write (rb s) (ptr_bytes 4096)) as [ret rb1] eqn:E.
  vm_compute in E. injection E as <- <-. cbn match in Hw. 
  match type of Hw with rtc wstep _ ?t => set (s1 := t) in Hw end.
  assert (H1 : wf (ctx (rb s1))).
  { exists (default [] (buff (ctx (rb s1)))). vm_compute. repeat split; lia. }
  destruct (ring_functions_are_runs s1 H1) as [_ Hr]. specialize (Hr eq_refl).
  destruct (flb_ring_buffer_read (rb s1) ptr_size) as [[ret d] rb2] eqn:E.
  vm_compute in E. injection E as <- <- <-. 
  eexists s1, _. split; [exact Hw|]. split; [reflexivity|]. split; [reflexivity|]. split; [exact Hr|reflexivity].
Defined.

(** The engine takes the first pointer queued and appends its chunk. *)
Lemma take_runs s p c rb' : wf (ctx (rb s)) -> rd s = RTop -> 0 < p < 2 ^ 64 -> heap s !! p = Some c ->
  flb_ring_buffer_read (rb s) ptr_size = (0, ptr_bytes p, rb') ->
  rtc step s (mkst rb' (delete p (heap s)) (wr s) RTop (results s) (delivered s ++ [c])).
Proof.
  intros Hwf Hx Hp Hh Hr.
  assert (Hne : lwrb_get_full (ctx (rb s)) <> 0%nat).
  { intros H0. unfold flb_ring_buffer_read in Hr. rewrite lwrb_read_spec in Hr by done.
    assert (Hq : queued (ctx (rb s)) = []) by (apply nil_length_inv; by rewrite length_queued).
    by rewrite Hq in Hr. }
  destruct (read_run s Hwf Hx Hne) as (d & rb1 & Hr1 & Hrun). rewrite Hr in Hr1. injection Hr1 as <- <-.
  rewrite length_ptr, Nat.sub_diag, app_nil_r in Hrun. eapply rtc_r.
  - eapply rtc_subrel; [|exact Hrun]. intros ? ?. by right.
  - right. rewrite <- (ptr_val p) at 2 by done.
    apply (r_deliver (at_r (with_rb s rb') (RGot (ptr_bytes p))) (ptr_bytes p) c); [done| |]; rewrite ptr_val by done; [lia|done].
Qed.

Definition written (rb : flb_ring_buffer) (p : Z) : flb_ring_buffer := (flb_ring_buffer_write rb (ptr_bytes p)).2.
Definition emptied (rb : flb_ring_buffer) : flb_ring_buffer := (flb_ring_buffer_read rb ptr_size).2.

(** Two chunks offered, the first one delivered. *)
Definition half_way : state :=
  mkst (emptied (written (written two_slots 4096) 8192)) {[ 8192 := chunk 2 ]} WIdle RTop
       [(chunk 1, true); (chunk 2, true)] [chunk 1].

Ltac concrete_wf := eexists; vm_compute; repeat split; lia.

Lemma half_way_reachable : reachable two_slots half_way.
Proof.
  unfold reachable. etrans; [apply (offer_runs _ 1 4096 (written two_slots 4096)); [apply two_slots_ok|done..]|].
  etrans; [eapply (offer_runs _ 2 8192 (written (written two_slots 4096) 8192)); [concrete_wf|done..]|].
  eapply rtc_l; [right; by apply r_enter|].
  etrans; [eapply (take_runs _ 4096 (chunk 1) (emptied (written (written two_slots 4096) 8192))); [concrete_wf|done..]|].
  apply reflexive_eq. unfold half_way. f_equal.
Qed.

Lemma ring_threads_fifo_witness :
  reachable two_slots half_way /\
  exists ps cs, concat (ptr_bytes <$> ps) = ptr_bytes 8192 /\ delivered half_way ++ cs = [chunk 1; chunk 2] /\
    (λ p, heap half_way !! p) <$> ps = Some <$> cs.
Proof.
  split; [exact half_way_reachable|].
  destruct (ring_threads_fifo two_slots half_way (proj1 two_slots_ok) (proj2 two_slots_ok) half_way_reachable)
    as (ps & cs & Hq & Hh & Ha & _).
  exists ps, cs. split; [rewrite <- Hq; vm_compute; reflexivity|]. split; [rewrite <- Ha; reflexivity|exact Hh].
Defined.

Definition calling : state := mkst two_slots (<[4096 := chunk 1]> ∅) (WTry 4096 0) RIdle [] [].

Lemma append_wait_free_witness :
  reachable two_slots calling /\ (exists s', wstep calling s') /\
  forall n s', busy n calling s' -> (n + work (wr s') <= 214)%nat.
Proof.
  assert (H : reachable two_slots calling).
  { apply rtc_once. left. by apply (w_call (start two_slots) (chunk 1) 4096 0 1 None [1]). }
  destruct (append_wait_free two_slots calling (proj1 two_slots_ok) (proj2 two_slots_ok) H) as [Hs Hb].
  split; [exact H|]. split; [apply Hs; discriminate|]. intros n s' Hn. apply Hb in Hn. lia.
Defined.

(** The flag is cleared after the last read: a chunk that is written between
    the two finds the flag set and sends no signal, and stays in the buffer,
    beyond the window, with the flag clear and the engine idle; the timer of the
    engine collects it later. *)
Lemma signal_race : exists s,
  reachable two_slots s /\ wr s = WIdle /\ rd s = RIdle /\ queued (ctx (rb s)) = ptr_bytes 8192 /\
  flush_pending (rb s) = false /\ length (signals (rb s)) = 1%nat /\ data_window (rb s) = 8.
Proof.
  eexists. split.
  - unfold reachable. etrans; [apply (offer_runs _ 1 4096 (written two_slots 4096)); [apply two_slots_ok|done..]|].
    eapply rtc_l; [right; by apply r_enter|].
    etrans; [eapply (take_runs _ 4096 (chunk 1) (emptied (written two_slots 4096))); [concrete_wf|done..]|].
    eapply rtc_l; [right; by apply r_empty|].
    etrans; [eapply (offer_runs _ 2 8192 (written (emptied (written two_slots 4096)) 8192)); [concrete_wf|done..]|].
    eapply rtc_l; [right; by apply r_clear|]. apply rtc_refl.
  - vm_compute. done.
Qed.

End Threads.
