(* ===== verification/Chunkio.v ===== *)
(** * The storage of chunks (lib/chunkio)

    A chunk has metadata, which holds the tag, and content.  On the filesystem
    it is a file that is mapped to memory while the chunk is 'up'; in memory it
    is a buffer.  [File] models lib/chunkio/src/cio_file.c, the layout of
    lib/chunkio/include/chunkio/cio_file_st.h and what it uses of
    lib/chunkio/src/cio_file_unix.c on Linux; [Memfs] the memory backend of
    lib/chunkio/src/cio_memfs.c; [Chunk] the operations of
    lib/chunkio/src/cio_chunk.c and lib/chunkio/src/cio_meta.c over both.

    The map of a file is shared, so a store to it is a store to the file.  Every
    store is checked against the size of the map: an operation that would write
    beyond it has no result.  A word is 64 bits wide and little-endian, so
    [crc_t] takes eight bytes. *)

From S2P Require Import Prelude.
From S2P Require Import Crc32.
From Stdlib Require Import Btauto.

Module File.
Export Crc32.

Definition CIO_CORRUPTED : Z := -3.
Definition CIO_ERROR : Z := -1.
Definition CIO_OK : Z := 0.

Definition CIO_FILE_ID_00 : Z := 0xc1.
Definition CIO_FILE_ID_01 : Z := 0.
Definition CIO_FILE_HEADER_MIN : Z := 24.
Definition CIO_FILE_CONTENT_OFFSET : Z := 22.
Definition CIO_FILE_CONTENT_LENGTH_OFFSET : Z := 10.

(** The options of the context that the file code reads. *)
Record cio_ctx := mkctx {
  page_size : Z; checksum : bool; trim_files : bool; total_chunks_up : Z; max_chunks_up : Z
}.

(** [file] is the file on disk; [os] says whether the next system calls succeed
    (those past its end do). *)
Record cio_file := mkcf {
  is_open : bool;
  rw : bool;                 (** CIO_OPEN_RW, else CIO_OPEN_RD *)
  synced : bool;
  fs_size : Z;
  data_size : Z;
  alloc_size : Z;
  realloc_size : Z;
  is_mapped : bool;
  taint_flag : bool;
  crc_cur : Z;
  crc_reset : bool;
  file : bytes;
  os : tape
}.

Definition set_open (v : bool) (f : cio_file) : cio_file :=
  mkcf v (rw f) (synced f) (fs_size f) (data_size f) (alloc_size f) (realloc_size f) (is_mapped f)
       (taint_flag f) (crc_cur f) (crc_reset f) (file f) (os f).
Definition set_synced (v : bool) (f : cio_file) : cio_file :=
  mkcf (is_open f) (rw f) v (fs_size f) (data_size f) (alloc_size f) (realloc_size f) (is_mapped f)
       (taint_flag f) (crc_cur f) (crc_reset f) (file f) (os f).
Definition set_fs_size (v : Z) (f : cio_file) : cio_file :=
  mkcf (is_open f) (rw f) (synced f) v (data_size f) (alloc_size f) (realloc_size f) (is_mapped f)
       (taint_flag f) (crc_cur f) (crc_reset f) (file f) (os f).
Definition set_data_size (v : Z) (f : cio_file) : cio_file :=
  mkcf (is_open f) (rw f) (synced f) (fs_size f) v (alloc_size f) (realloc_size f) (is_mapped f)
       (taint_flag f) (crc_cur f) (crc_reset f) (file f) (os f).
Definition set_map (v : bool) (n : Z) (f : cio_file) : cio_file :=
  mkcf (is_open f) (rw f) (synced f) (fs_size f) (data_size f) n (realloc_size f) v
       (taint_flag f) (crc_cur f) (crc_reset f) (file f) (os f).
Definition set_taint (v : bool) (f : cio_file) : cio_file :=
  mkcf (is_open f) (rw f) (synced f) (fs_size f) (data_size f) (alloc_size f) (realloc_size f) (is_mapped f)
       v (crc_cur f) (crc_reset f) (file f) (os f).
Definition set_crc (v : Z) (f : cio_file) : cio_file :=
  mkcf (is_open f) (rw f) (synced f) (fs_size f) (data_size f) (alloc_size f) (realloc_size f) (is_mapped f)
       (taint_flag f) v (crc_reset f) (file f) (os f).
Definition set_crc_reset (v : bool) (f : cio_file) : cio_file :=
  mkcf (is_open f) (rw f) (synced f) (fs_size f) (data_size f) (alloc_size f) (realloc_size f) (is_mapped f)
       (taint_flag f) (crc_cur f) v (file f) (os f).
Definition set_file (v : bytes) (f : cio_file) : cio_file :=
  mkcf (is_open f) (rw f) (synced f) (fs_size f) (data_size f) (alloc_size f) (realloc_size f) (is_mapped f)
       (taint_flag f) (crc_cur f) (crc_reset f) v (os f).
Definition set_os (v : tape) (f : cio_file) : cio_file :=
  mkcf (is_open f) (rw f) (synced f) (fs_size f) (data_size f) (alloc_size f) (realloc_size f) (is_mapped f)
       (taint_flag f) (crc_cur f) (crc_reset f) (file f) v.

(** ** Memory and layout *)

Definition size (l : bytes) : Z := Z.of_nat (length l).
Definition byte_at (m : bytes) (i : Z) : Z := nth (Z.to_nat i) m 0.
Definition sub (m : bytes) (at_ n : Z) : bytes := take (Z.to_nat n) (drop (Z.to_nat at_) m).
Definition put (m : bytes) (at_ : Z) (d : bytes) : bytes :=
  take (Z.to_nat at_) m ++ d ++ drop (Z.to_nat at_ + length d) m.

(** A store through the map. *)
Definition store (at_ : Z) (d : bytes) (f : cio_file) : option cio_file :=
  if is_mapped f && (at_ + size d <=? alloc_size f) then Some (set_file (put (file f) at_ d) f) else None.

Definition be_bytes (n : nat) (z : Z) : bytes := rev (le_bytes n z).

Definition cio_file_st_get_meta_len (m : bytes) : Z := Z.lor (Z.shiftl (byte_at m 22) 8) (byte_at m 23).
Definition cio_file_st_set_meta_len (len : Z) : cio_file -> option cio_file :=
  store 22 [u8 (Z.shiftr (u16 len) 8); Z.land (u16 len) 0xff].
Definition cio_file_st_get_meta : Z := CIO_FILE_HEADER_MIN.
Definition cio_file_st_get_content (m : bytes) : Z := CIO_FILE_HEADER_MIN + cio_file_st_get_meta_len m.
Definition cio_file_st_infer_content_len (m : bytes) (size : Z) : Z :=
  u64 (size - CIO_FILE_HEADER_MIN - cio_file_st_get_meta_len m).
Definition cio_file_st_set_content_len (len : Z) : cio_file -> option cio_file :=
  store CIO_FILE_CONTENT_LENGTH_OFFSET (be_bytes 4 (u32 len)).

Definition content_len_field (m : bytes) : Z :=
  Z.lor (Z.shiftl (byte_at m 10) 24) (Z.lor (Z.shiftl (byte_at m 11) 16)
    (Z.lor (Z.shiftl (byte_at m 12) 8) (byte_at m 13))).

(** The length of the content, which is stored in the header where older files
    do not have it. *)
Definition cio_file_st_get_content_len (size : Z) (f : cio_file) : option (Z * cio_file) :=
  if size <? CIO_FILE_HEADER_MIN then Some (-1, f)
  else
    let m := file f in
    let content_offset := CIO_FILE_CONTENT_OFFSET + 2 + cio_file_st_get_meta_len m in
    let content_length := content_len_field m in
    if negb (taint_flag f) && (content_length =? 0) && (content_offset <? size)
       && negb (byte_at m content_offset =? 0) then
      let content_length := cio_file_st_infer_content_len m size in
      f ← cio_file_st_set_content_len content_length f;
      Some (content_length, f)
    else Some (content_length, f).

(** ** System calls (cio_file_unix.c) *)

Definition sys (f : cio_file) : bool * cio_file :=
  match os f with
  | [] => (true, f)
  | ok :: t => (ok, set_os t f)
  end.

Definition cio_file_native_get_size (f : cio_file) : option Z * cio_file :=
  let '(ok, f) := sys f in (if ok then Some (size (file f)) else None, f).

Definition cio_file_update_size (f : cio_file) : Z * cio_file :=
  match cio_file_native_get_size f with
  | (Some n, f) => (CIO_OK, set_fs_size n f)
  | (None, f) => (CIO_ERROR, set_fs_size 0 f)
  end.

Definition cio_file_native_open (f : cio_file) : Z * cio_file :=
  if is_open f then (CIO_OK, f)
  else let '(ok, f) := sys f in if ok then (CIO_OK, set_open true f) else (CIO_ERROR, f).

Definition cio_file_native_close (f : cio_file) : Z * cio_file :=
  if is_open f then let '(ok, f) := sys f in if ok then (CIO_OK, set_open false f) else (CIO_ERROR, f)
  else (CIO_OK, f).

Definition cio_file_native_unmap (f : cio_file) : Z * cio_file :=
  if negb (is_mapped f) then (CIO_OK, f)
  else let '(ok, f) := sys f in if ok then (CIO_OK, set_map false 0 f) else (CIO_ERROR, f).

(** When mmap fails the file stays unmapped here.  The C code leaves MAP_FAILED in
    [cf->map], which later tests take for a map; no theorem is about a file
    after such a failure. *)
Definition cio_file_native_map (map_size : Z) (f : cio_file) : Z * cio_file :=
  if negb (is_open f) then (CIO_ERROR, f)
  else if is_mapped f then (CIO_OK, f)
  else let '(ok, f) := sys f in if ok then (CIO_OK, set_map true map_size f) else (CIO_ERROR, f).

Definition cio_file_native_remap (new_size : Z) (f : cio_file) : Z * cio_file :=
  let '(ok, f) := sys f in if ok then (CIO_OK, set_map true new_size f) else (CIO_ERROR, f).

Definition cio_file_native_sync (f : cio_file) : Z * cio_file :=
  let '(ok, f) := sys f in (if ok then CIO_OK else CIO_ERROR, f).

(** [fallocate] grows a file with zeros and never shrinks it, [ftruncate] sets
    its size. *)
Definition fallocate (n : Z) (m : bytes) : bytes := m ++ replicate (Z.to_nat n - length m) 0.
Definition ftruncate (n : Z) (m : bytes) : bytes := take (Z.to_nat n) m ++ replicate (Z.to_nat n - length m) 0.

Definition cio_file_native_resize (new_size : Z) (f : cio_file) : Z * cio_file :=
  let '(ok, f) := sys f in
  if negb ok then (CIO_ERROR, f)
  else
    let m := if fs_size f <? new_size then fallocate new_size (file f) else ftruncate new_size (file f) in
    (CIO_OK, set_fs_size new_size (set_file m f)).

(** ** cio_file.c *)

Definition cio_file_resize (new_size : Z) (f : cio_file) : Z * cio_file :=
  let mapped_flag := is_mapped f in
  let '(result, f) := cio_file_native_resize new_size f in
  if negb (result =? CIO_OK) then (result, f)
  else if mapped_flag then cio_file_native_remap new_size f
  else (CIO_OK, f).

Definition ROUND_UP (n s : Z) : Z := (n + s - 1) / s * s.

Definition cio_file_calculate_checksum (f : cio_file) : option (Z * cio_file) :=
  let f := if fs_size f =? 0 then (cio_file_update_size f).2 else f in
  let len := 2 + cio_file_st_get_meta_len (file f) in
  '(content_length, f) ← cio_file_st_get_content_len (fs_size f) f;
  let len := if 0 <? content_length then len + content_length else len in
  Some (crc_update (crc_cur f) CIO_FILE_CONTENT_OFFSET (sub (file f) CIO_FILE_CONTENT_OFFSET len), f).

(** The address of the data does not matter to the checksum. *)
Definition update_checksum (data : bytes) (f : cio_file) : option cio_file :=
  f ← (if crc_reset f then
         '(tmp, f) ← cio_file_calculate_checksum (set_crc crc_init f);
         Some (set_crc_reset false (set_crc tmp f))
       else Some f);
  let crc := crc_update (crc_cur f) 0 data in
  f ← store 2 (le_bytes 8 crc) f;
  Some (set_crc crc f).

Definition htonl (z : Z) : Z := le_val (be_bytes 4 (u32 z)).

Definition finalize_checksum (f : cio_file) : option cio_file :=
  store 2 (le_bytes 8 (htonl (crc_finalize (crc_cur f)))) f.

Definition adjust_layout (ctx : cio_ctx) (meta_size : Z) (f : cio_file) : option cio_file :=
  f ← cio_file_st_set_meta_len meta_size f;
  f ← (if checksum ctx then
         '(crc, f) ← cio_file_calculate_checksum (set_crc crc_init f);
         Some (set_crc crc f)
       else Some f);
  Some (set_synced false f).

Definition cio_file_init_bytes : bytes :=
  [CIO_FILE_ID_00; CIO_FILE_ID_01; 0xff; 0x12; 0xd9; 0x41] ++ replicate 16 0 ++ [0; 0].

Definition write_init_header (ctx : cio_ctx) (f : cio_file) : option cio_file :=
  f ← store 0 cio_file_init_bytes f;
  f ← (if checksum ctx then Some f else store 2 [0; 0; 0; 0] f);
  cio_file_st_set_content_len 0 f.

Definition get_available_size (f : cio_file) : Z :=
  u64 (alloc_size f - CIO_FILE_HEADER_MIN - cio_file_st_get_meta_len (file f) - data_size f).

Definition cio_file_format_check (ctx : cio_ctx) (f : cio_file) : option (Z * cio_file) :=
  if fs_size f =? 0 then
    if negb (rw f) then Some (-1, f)
    else if alloc_size f <? CIO_FILE_HEADER_MIN then Some (-1, f)
    else
      f ← write_init_header ctx f;
      if checksum ctx then
        '(crc, f) ← cio_file_calculate_checksum f;
        Some (0, set_crc crc f)
      else Some (0, f)
  else if negb (byte_at (file f) 0 =? CIO_FILE_ID_00) || negb (byte_at (file f) 1 =? CIO_FILE_ID_01)
       then Some (-1, f)
  else
    '(content_length, f) ← cio_file_st_get_content_len (fs_size f) f;
    if content_length =? -1 then Some (-1, f)
    else
      let logical_length := CIO_FILE_HEADER_MIN + cio_file_st_get_meta_len (file f) + content_length in
      if fs_size f <? logical_length then Some (-1, f)
      else if checksum ctx then
        '(crc, f) ← cio_file_calculate_checksum (set_crc crc_init f);
        let crc_check := htonl (crc_finalize crc) in
        if bool_decide (sub (file f) 2 8 = le_bytes 8 crc_check) then Some (0, set_crc crc f) else Some (-1, f)
      else Some (0, f).

Definition cio_file_sync (ctx : cio_ctx) (f : cio_file) : option (Z * cio_file) :=
  if negb (rw f) then Some (0, f)
  else if synced f then Some (0, f)
  else
    match cio_file_native_get_size f with
    | (None, f) => Some (-1, f)
    | (Some file_size, f) =>
        let '(ret, f) :=
          if trim_files ctx then
            let av_size := get_available_size f in
            let desired_size := if 0 <? av_size then u64 (alloc_size f - av_size)
                                else if file_size <? alloc_size f then alloc_size f else file_size in
            if negb (desired_size =? file_size)
            then cio_file_resize (ROUND_UP desired_size (page_size ctx)) f
            else (CIO_OK, f)
          else (CIO_OK, f) in
        if negb (ret =? CIO_OK) then Some (ret, f)
        else
          f ← (if checksum ctx then finalize_checksum f else Some f);
          let '(ret, f) := cio_file_native_sync f in
          if negb (ret =? CIO_OK) then Some (-1, f)
          else
            let '(ret, f) := cio_file_update_size (set_synced true f) in
            Some (if ret =? CIO_OK then 0 else -1, f)
    end.

Definition munmap_file (ctx : cio_ctx) (f : cio_file) : option (Z * cio_file) :=
  if negb (is_mapped f) then Some (-1, f)
  else
    f ← (if synced f then Some f else '(_, f) ← cio_file_sync ctx f; Some f);
    let f := (cio_file_native_unmap f).2 in
    Some (0, set_map (is_mapped f) 0 (set_data_size 0 f)).

Definition mmap_file (ctx : cio_ctx) (size_ : Z) (f : cio_file) : option (Z * cio_file) :=
  if is_mapped f then Some (CIO_OK, f)
  else
    let f := set_taint false f in
    let '(fs, f) := if 0 <? size_ then (Some size_, f) else cio_file_native_get_size f in
    match fs with
    | None => Some (CIO_ERROR, f)
    | Some fs =>
        let prepare : Z * Z * cio_file :=
          if 0 <? fs then (CIO_OK, fs, set_synced true f)
          else if negb (rw f) then (CIO_CORRUPTED, 0, f)
          else
            let sz := if size_ <? CIO_FILE_HEADER_MIN then size_ + CIO_FILE_HEADER_MIN else size_ in
            let sz := ROUND_UP sz (page_size ctx) in
            let '(ret, f) := cio_file_resize sz (set_synced false f) in
            (if ret =? CIO_OK then CIO_OK else CIO_ERROR, sz, f) in
        let '(ret, sz, f) := prepare in
        if negb (ret =? CIO_OK) then Some (ret, f)
        else
          let '(ret, f) := cio_file_native_map sz (set_map (is_mapped f) sz f) in
          if negb (ret =? CIO_OK) then Some (CIO_ERROR, f)
          else
            '(content_size, f) ← (if 0 <? fs then cio_file_st_get_content_len fs f else Some (0, f));
            if content_size =? -1 then
              let f := (cio_file_native_unmap f).2 in
              Some (CIO_CORRUPTED, set_map (is_mapped f) 0 (set_data_size 0 f))
            else
              let f := set_fs_size (if 0 <? fs then fs else 0) (set_data_size content_size f) in
              '(ret, f) ← cio_file_format_check ctx f;
              if negb (ret =? 0) then Some (CIO_CORRUPTED, set_data_size 0 (cio_file_native_unmap f).2)
              else Some (CIO_OK, f)
    end.

Definition open_and_up (ctx : cio_ctx) : bool := negb (max_chunks_up ctx <=? total_chunks_up ctx).

(** A file that was made with [calloc], not open yet. *)
Definition new_file (rw_ : bool) (realloc : Z) (disk : bytes) (t : tape) : cio_file :=
  mkcf false rw_ false 0 0 0 realloc false false crc_init false disk t.

(** The file, up if there is room for it; [acl] is whether the ownership and the
    permissions could be set. *)
Definition cio_file_open (ctx : cio_ctx) (rw_ : bool) (realloc : Z) (disk : bytes) (acl : bool) (t : tape)
    : option (Z * option cio_file) :=
  let f := new_file rw_ realloc disk t in
  if negb (open_and_up ctx) then Some (CIO_OK, Some (cio_file_update_size f).2)
  else
    let '(ret, f) := cio_file_native_open f in
    if negb (ret =? CIO_OK) then Some (ret, None)
    else
      let '(ret, f) := cio_file_update_size f in
      if negb (ret =? CIO_OK) then Some (ret, None)
      else if negb acl then Some (CIO_ERROR, None)
      else
        '(ret, f) ← mmap_file ctx (fs_size f) f;
        if ret =? CIO_OK then Some (CIO_OK, Some f) else Some (ret, None).

Definition _cio_file_up (ctx : cio_ctx) (enforced : bool) (f : cio_file) : option (Z * cio_file) :=
  if is_mapped f then Some (CIO_ERROR, f)
  else if is_open f then Some (CIO_ERROR, f)
  else if enforced && negb (open_and_up ctx) then Some (CIO_ERROR, f)
  else
    let '(ret, f) := cio_file_native_open f in
    if negb (ret =? CIO_OK) then Some (CIO_ERROR, f)
    else
      let '(ret, f) := cio_file_update_size f in
      if negb (ret =? CIO_OK) then Some (CIO_ERROR, f)
      else
        '(ret, f) ← mmap_file ctx (fs_size f) f;
        let f := if ret =? CIO_CORRUPTED then (cio_file_native_close f).2 else f in
        Some (ret, f).

Definition cio_file_up (ctx : cio_ctx) : cio_file -> option (Z * cio_file) := _cio_file_up ctx true.
Definition cio_file_up_force (ctx : cio_ctx) : cio_file -> option (Z * cio_file) := _cio_file_up ctx false.

Definition cio_file_is_up (f : cio_file) : bool := is_open f && is_mapped f.

Definition cio_file_down (ctx : cio_ctx) (f : cio_file) : option (Z * cio_file) :=
  if negb (is_mapped f) then Some (-1, f)
  else
    '(_, f) ← munmap_file ctx f;
    let f := set_map (is_mapped f) 0 f in
    let f := (cio_file_update_size f).2 in
    Some (0, (cio_file_native_close f).2).

(** The file that is left on disk. *)
Definition cio_file_close (ctx : cio_ctx) (delete : bool) (f : cio_file) : option (option bytes) :=
  '(_, f) ← munmap_file ctx f;
  let f := (cio_file_native_close f).2 in
  if delete && negb (is_open f || is_mapped f) && (sys f).1 then Some None else Some (Some (file f)).

(** [while (new_size < need) new_size += realloc_size], with as many turns as it
    can take. *)
Fixpoint grow_loop (fuel : nat) (step need new_size : Z) : Z :=
  match fuel with
  | O => new_size
  | S n => if new_size <? need then grow_loop n step need (new_size + step) else new_size
  end.

Definition grow (step need new_size : Z) : Z := grow_loop (Z.to_nat (need - new_size)) step need new_size.

Definition cio_file_write (ctx : cio_ctx) (buf : bytes) (f : cio_file) : option (Z * cio_file) :=
  let count := size buf in
  if count =? 0 then Some (0, f)
  else if negb (cio_file_is_up f) then Some (-1, f)
  else
    let av_size := get_available_size f in
    let '(ret, f) :=
      if av_size <? count then
        let pre_content := CIO_FILE_HEADER_MIN + cio_file_st_get_meta_len (file f) in
        let new_size := grow (realloc_size f) (pre_content + data_size f + count) (alloc_size f + realloc_size f) in
        cio_file_resize (ROUND_UP new_size (page_size ctx)) f
      else (CIO_OK, f) in
    if negb (ret =? CIO_OK) then Some (-1, f)
    else
      f ← (if crc_reset f then cio_file_st_set_content_len (data_size f) f else Some f);
      f ← (if checksum ctx then update_checksum buf f else Some f);
      f ← store (cio_file_st_get_content (file f) + data_size f) buf f;
      let f := set_synced false (set_data_size (data_size f + count) f) in
      f ← cio_file_st_set_content_len (data_size f) f;
      Some (0, set_taint true f).

(** memmove of [n] bytes inside the map. *)
Definition memmove (dst src n : Z) (f : cio_file) : option cio_file :=
  if (src + n <=? alloc_size f) then store dst (sub (file f) src n) f else None.

Definition cio_file_write_metadata (ctx : cio_ctx) (buf : bytes) (f : cio_file) : option (Z * cio_file) :=
  let sz := size buf in
  if negb (cio_file_is_up f) then Some (-1, f)
  else
    let meta := cio_file_st_get_meta in
    let meta_av := cio_file_st_get_meta_len (file f) in
    if sz <=? meta_av then
      f ← store meta buf f;
      f ← memmove (meta + sz) (cio_file_st_get_content (file f)) (data_size f) f;
      f ← adjust_layout ctx sz f;
      Some (0, f)
    else
      let content_av := u64 (alloc_size f - data_size f) in
      let '(ret, f) :=
        if content_av <? sz
        then cio_file_resize (u64 (sz - meta_av + data_size f + CIO_FILE_HEADER_MIN)) f
        else (CIO_OK, f) in
      if negb (ret =? CIO_OK) then Some (-1, f)
      else
        f ← memmove (meta + sz) (cio_file_st_get_content (file f)) sz f;
        f ← store meta buf f;
        f ← adjust_layout ctx sz f;
        Some (0, f).

(** A copy of the content with a NUL after it; [ok] is whether the allocation
    succeeds. *)
Definition cio_file_content_copy (ctx : cio_ctx) (ok : bool) (f : cio_file)
    : option (Z * option bytes * cio_file) :=
  let was_up := cio_file_is_up f in
  '(ret, f) ← (if was_up then Some (CIO_OK, f) else cio_file_up_force ctx f);
  if negb (ret =? CIO_OK) then Some (CIO_ERROR, None, f)
  else
    let out := sub (file f) (cio_file_st_get_content (file f)) (data_size f) ++ [0] in
    f ← (if was_up then Some f else '(_, f) ← cio_file_down ctx f; Some f);
    Some (if ok then (CIO_OK, Some out, f) else (CIO_ERROR, None, f)).

(** The content and the metadata of a file that is up. *)
Definition content (f : cio_file) : bytes := sub (file f) (cio_file_st_get_content (file f)) (data_size f).
Definition metadata (f : cio_file) : bytes := sub (file f) cio_file_st_get_meta (cio_file_st_get_meta_len (file f)).

Definition ex_ctx (sum : bool) : cio_ctx := mkctx 4096 sum false 0 64.

(** Two writes, down and up again. *)
Definition ex_session (sum : bool) : option (Z * cio_file) :=
  '(_, o) ← cio_file_open (ex_ctx sum) true 32768 [] true [];
  f ← o;
  '(_, f) ← cio_file_write_metadata (ex_ctx sum) (str "tag") f;
  '(_, f) ← cio_file_write (ex_ctx sum) (str "hello ") f;
  '(_, f) ← cio_file_write (ex_ctx sum) (str "world") f;
  '(_, f) ← cio_file_down (ex_ctx sum) f;
  cio_file_up (ex_ctx sum) f.

Example session_runs :
  forallb (λ sum, match ex_session sum with
                  | Some (ret, f) => (ret =? 0) && bool_decide (content f = str "hello world")
                                     && bool_decide (metadata f = str "tag")
                  | None => false
                  end) [true; false] = true.
Proof. vm_compute. reflexivity. Qed.

(** ** The layout of a file *)

(** [h] is the checksum field, [n] the content length field, [k] the metadata
    length field; [body] starts where the metadata does. *)
Definition layout (h : bytes) (n : Z) (pad : bytes) (k : Z) (body : bytes) : bytes :=
  [CIO_FILE_ID_00; CIO_FILE_ID_01] ++ h ++ be_bytes 4 n ++ pad ++ be_bytes 2 k ++ body.

Lemma len_app (a b : bytes) : size (a ++ b) = size a + size b.
Proof. unfold size. rewrite length_app. lia. Qed.
Lemma len_nonneg (a : bytes) : 0 <= size a.
Proof. unfold size. lia. Qed.
Lemma size_nil : size [] = 0.
Proof. done. Qed.
Lemma length_le n z : length (le_bytes n z) = n.
Proof. revert z. induction n as [|n IH]; intros z; [done|]. simpl. by rewrite IH. Qed.
Lemma length_be n z : length (be_bytes n z) = n.
Proof. unfold be_bytes. by rewrite length_rev, length_le. Qed.

Lemma size_layout h n pad k body : length h = 8%nat -> length pad = 8%nat ->
  size (layout h n pad k body) = 24 + size body.
Proof. intros Hh Hp. unfold layout, size. rewrite !length_app, !length_be, Hh, Hp. simpl. lia. Qed.

Lemma put_app a b b' c : length b = length b' -> put (a ++ b ++ c) (size a) b' = a ++ b' ++ c.
Proof.
  intros Hb. unfold put, size. rewrite Nat2Z.id, take_app_length. f_equal. f_equal.
  rewrite app_assoc. apply drop_app_length'. rewrite length_app. lia.
Qed.

Lemma sub_app a b c : sub (a ++ b ++ c) (size a) (size b) = b.
Proof. unfold sub, size. rewrite !Nat2Z.id, drop_app_length. apply take_app_length. Qed.

Lemma layout_put_hash h h' n pad k body : length h = length h' ->
  put (layout h n pad k body) 2 h' = layout h' n pad k body.
Proof. intros H. unfold layout. apply (put_app [CIO_FILE_ID_00; CIO_FILE_ID_01]). done. Qed.

Lemma layout_put_len h n n' pad k body : length h = 8%nat ->
  put (layout h n pad k body) 10 (be_bytes 4 n') = layout h n' pad k body.
Proof.
  intros H. unfold layout. rewrite !(app_assoc _ h).
  replace 10 with (size ([CIO_FILE_ID_00; CIO_FILE_ID_01] ++ h)) by (rewrite len_app; unfold size; rewrite H; done).
  apply put_app. by rewrite !length_be.
Qed.

Lemma layout_put_meta_len h n pad k k' body : length h = 8%nat -> length pad = 8%nat ->
  put (layout h n pad k body) 22 (be_bytes 2 k') = layout h n pad k' body.
Proof.
  intros H Hp. unfold layout. rewrite !(app_assoc _ h), !(app_assoc _ (be_bytes 4 n)), !(app_assoc _ pad).
  replace 22 with (size ((([CIO_FILE_ID_00; CIO_FILE_ID_01] ++ h) ++ be_bytes 4 n) ++ pad)).
  2:{ rewrite !len_app. unfold size. rewrite H, Hp, length_be. done. }
  apply put_app. by rewrite !length_be.
Qed.

Lemma layout_put_body h n pad k a b b' c : length h = 8%nat -> length pad = 8%nat -> length b = length b' ->
  put (layout h n pad k (a ++ b ++ c)) (24 + size a) b' = layout h n pad k (a ++ b' ++ c).
Proof.
  intros H Hp Hb. set (hd := [CIO_FILE_ID_00; CIO_FILE_ID_01] ++ h ++ be_bytes 4 n ++ pad ++ be_bytes 2 k).
  assert (Hl : forall x, layout h n pad k (a ++ x) = (hd ++ a) ++ x).
  { intros x. unfold layout, hd. by rewrite <- !app_assoc. }
  rewrite !Hl. replace (24 + size a) with (size (hd ++ a)); [by apply put_app|].
  rewrite len_app. unfold hd, size. rewrite !length_app, !length_be, H, Hp. simpl. lia.
Qed.

Lemma layout_sub_body h n pad k a b c : length h = 8%nat -> length pad = 8%nat ->
  sub (layout h n pad k (a ++ b ++ c)) (24 + size a) (size b) = b.
Proof.
  intros H Hp. set (hd := [CIO_FILE_ID_00; CIO_FILE_ID_01] ++ h ++ be_bytes 4 n ++ pad ++ be_bytes 2 k).
  assert (Hl : forall x, layout h n pad k (a ++ x) = (hd ++ a) ++ x).
  { intros x. unfold layout, hd. by rewrite <- !app_assoc. }
  rewrite !Hl. replace (24 + size a) with (size (hd ++ a)); [by apply sub_app|].
  rewrite len_app. unfold hd, size. rewrite !length_app, !length_be, H, Hp. simpl. lia.
Qed.

(** The bytes the checksum covers. *)
Lemma layout_sub_sum h n pad k a c : length h = 8%nat -> length pad = 8%nat ->
  sub (layout h n pad k (a ++ c)) 22 (2 + size a) = be_bytes 2 k ++ a.
Proof.
  intros H Hp. unfold layout. rewrite !(app_assoc _ h), !(app_assoc _ (be_bytes 4 n)), !(app_assoc _ pad).
  rewrite (app_assoc (be_bytes 2 k)).
  replace 22 with (size ((([CIO_FILE_ID_00; CIO_FILE_ID_01] ++ h) ++ be_bytes 4 n) ++ pad)).
  2:{ rewrite !len_app. unfold size. rewrite H, Hp, length_be. done. }
  replace (2 + size a) with (size (be_bytes 2 k ++ a)) by (rewrite len_app; unfold size at 1; by rewrite length_be).
  apply sub_app.
Qed.

Lemma layout_sub_hash h n pad k body : length h = 8%nat -> sub (layout h n pad k body) 2 8 = h.
Proof.
  intros H. unfold layout. change 2 with (size [CIO_FILE_ID_00; CIO_FILE_ID_01]).
  replace 8 with (size h) by (unfold size; by rewrite H). apply sub_app.
Qed.

Lemma be4 n : be_bytes 4 n = [n / 256 / 256 / 256 mod 256; n / 256 / 256 mod 256; n / 256 mod 256; n mod 256].
Proof. done. Qed.
Lemma be2 n : be_bytes 2 n = [n / 256 mod 256; n mod 256].
Proof. done. Qed.

Lemma layout_meta_len h n pad k body : length h = 8%nat -> length pad = 8%nat -> 0 <= k < 2 ^ 16 ->
  cio_file_st_get_meta_len (layout h n pad k body) = k.
Proof.
  intros H Hp Hk. unfold cio_file_st_get_meta_len, byte_at, layout. rewrite be4, be2.
  do 8 (destruct h as [|? h]; [done|]). destruct h; [|done].
  do 8 (destruct pad as [|? pad]; [done|]). destruct pad; [|done].
  change (Z.to_nat 22) with 22%nat. change (Z.to_nat 23) with 23%nat. cbn [app nth].
  rewrite Z.shiftl_mul_pow2, lor_shift_add by (lia || apply Z.mod_pos_bound; lia).
  change (2 ^ 16) with 65536 in Hk. change (2 ^ 8) with 256. Z.to_euclidean_division_equations. lia.
Qed.

Lemma layout_content_len h n pad k body : length h = 8%nat -> 0 <= n < 2 ^ 32 ->
  content_len_field (layout h n pad k body) = n.
Proof.
  intros H Hn. unfold content_len_field, byte_at, layout. rewrite be4.
  do 8 (destruct h as [|? h]; [done|]). destruct h; [|done].
  change (Z.to_nat 10) with 10%nat. change (Z.to_nat 11) with 11%nat.
  change (Z.to_nat 12) with 12%nat. change (Z.to_nat 13) with 13%nat. cbn [app nth].
  set (b0 := n mod 256). set (b1 := n / 256 mod 256). set (b2 := n / 256 / 256 mod 256).
  set (b3 := n / 256 / 256 / 256 mod 256).
  assert (Hw : Z.lor (Z.shiftl b3 24) (Z.lor (Z.shiftl b2 16) (Z.lor (Z.shiftl b1 8) b0)) = word b0 b1 b2 b3).
  { unfold word. apply Z.bits_inj'. intros i _. rewrite !Z.lor_spec. btauto. }
  assert (Hb : forall x, is_byte (x mod 256)) by (intros x; apply Z.mod_pos_bound; lia).
  rewrite Hw, word_sum by apply Hb. subst b0 b1 b2 b3.
  change (2 ^ 32) with 4294967296 in Hn. change (2 ^ 8) with 256. change (2 ^ 16) with 65536.
  change (2 ^ 24) with 16777216. Z.to_euclidean_division_equations. lia.
Qed.

Lemma layout_id h n pad k body :
  byte_at (layout h n pad k body) 0 = CIO_FILE_ID_00 /\ byte_at (layout h n pad k body) 1 = CIO_FILE_ID_01.
Proof. done. Qed.

(** The first byte after the metadata. *)
Lemma layout_first h n pad k a c : length h = 8%nat -> length pad = 8%nat ->
  byte_at (layout h n pad k (a ++ c)) (24 + size a) = nth 0 c 0.
Proof.
  intros H Hp. unfold byte_at.
  set (hd := [CIO_FILE_ID_00; CIO_FILE_ID_01] ++ h ++ be_bytes 4 n ++ pad ++ be_bytes 2 k).
  assert (Hl : layout h n pad k (a ++ c) = (hd ++ a) ++ c) by (unfold layout, hd; by rewrite <- !app_assoc).
  assert (Hs : length (hd ++ a) = (24 + length a)%nat).
  { unfold hd. rewrite !length_app, !length_be, H, Hp. simpl. lia. }
  rewrite Hl, app_nth2 by (rewrite Hs; unfold size; lia). f_equal. rewrite Hs. unfold size. lia.
Qed.

End File.

(** ** The memory backend (cio_memfs.c) *)

Module Memfs.
Import File.

(** The buffer, of which the first [buf_len] bytes are the content, and the
    metadata. *)
Record cio_memfs := mkmf {
  mem_crc : Z; meta_data : option bytes; buf_data : bytes; buf_len : Z; mem_realloc : Z
}.

Definition buf_size (m : cio_memfs) : Z := size (buf_data m).

(** Two allocations; what the buffer holds at first is not initialised, here
    zeros. *)
Definition cio_memfs_open (t : tape) (sz realloc : Z) : option cio_memfs * tape :=
  let '(ok, t) := flb_malloc t in
  if negb ok then (None, t)
  else
    let '(ok, t) := flb_malloc t in
    if negb ok then (None, t)
    else (Some (mkmf crc_init None (replicate (Z.to_nat sz) 0) 0 realloc), t).

Definition cio_memfs_write (t : tape) (buf : bytes) (m : cio_memfs) : Z * cio_memfs * tape :=
  let count := size buf in
  if count =? 0 then (0, m, t)
  else
    let av_size := buf_size m - buf_len m in
    let '(ok, data, t) :=
      if av_size <? count then
        let new_size := grow (mem_realloc m) (buf_len m + count) (buf_size m + mem_realloc m) in
        let '(ok, t) := flb_malloc t in
        (ok, if ok then fallocate new_size (buf_data m) else buf_data m, t)
      else (true, buf_data m, t) in
    if negb ok then (-1, m, t)
    else (0, mkmf (mem_crc m) (meta_data m) (put data (buf_len m) buf) (buf_len m + count) (mem_realloc m), t).

Definition cio_memfs_content (m : cio_memfs) : bytes := take (Z.to_nat (buf_len m)) (buf_data m).

Definition cio_memfs_content_copy (t : tape) (m : cio_memfs) : Z * option bytes * tape :=
  let '(ok, t) := flb_malloc t in
  if ok then (0, Some (cio_memfs_content m ++ [0]), t) else (-1, None, t).

Definition cio_memfs_meta_write (t : tape) (buf : bytes) (m : cio_memfs) : Z * cio_memfs * tape :=
  let '(ok, t) := flb_malloc t in
  let with_ d := mkmf (mem_crc m) d (buf_data m) (buf_len m) (mem_realloc m) in
  if ok then (0, with_ (Some buf), t) else (-1, with_ None, t).

End Memfs.

(** ** Chunks over both backends (cio_chunk.c, cio_meta.c) *)

Module Chunk.
Import File Memfs.

Inductive backend := FS (f : cio_file) | MEM (m : cio_memfs).

Record cio_chunk := mkch {
  be : backend; lock : bool; tx_active : bool; tx_crc : Z; tx_content_length : Z
}.

Definition with_be (b : backend) (c : cio_chunk) : cio_chunk :=
  mkch b (lock c) (tx_active c) (tx_crc c) (tx_content_length c).
Definition with_lock (l : bool) (c : cio_chunk) : cio_chunk :=
  mkch (be c) l (tx_active c) (tx_crc c) (tx_content_length c).
Definition with_tx (a : bool) (crc len : Z) (c : cio_chunk) : cio_chunk := mkch (be c) (lock c) a crc len.

(** A file operation on a chunk. *)
Definition on_file (op : cio_file -> option (Z * cio_file)) (c : cio_chunk) : option (Z * cio_chunk) :=
  match be c with
  | FS f => '(ret, f) ← op f; Some (ret, with_be (FS f) c)
  | MEM _ => Some (CIO_OK, c)
  end.

Section Ops.
Context (ctx : cio_ctx).

Definition cio_chunk_write (t : tape) (buf : bytes) (c : cio_chunk) : option (Z * cio_chunk) :=
  match be c with
  | FS f => '(ret, f) ← cio_file_write ctx buf f; Some (ret, with_be (FS f) c)
  | MEM m => let '(ret, m, _) := cio_memfs_write t buf m in Some (ret, with_be (MEM m) c)
  end.

Definition set_len (n : Z) (b : backend) : backend :=
  match b with
  | FS f => FS (set_crc_reset true (set_data_size n f))
  | MEM m => MEM (mkmf (mem_crc m) (meta_data m) (buf_data m) n (mem_realloc m))
  end.

Definition cio_chunk_write_at (t : tape) (offset : Z) (buf : bytes) (c : cio_chunk) : option (Z * cio_chunk) :=
  cio_chunk_write t buf (with_be (set_len offset (be c)) c).

Definition cio_chunk_is_up (c : cio_chunk) : bool :=
  match be c with FS f => cio_file_is_up f | MEM _ => true end.

Definition cio_chunk_sync : cio_chunk -> option (Z * cio_chunk) := on_file (cio_file_sync ctx).
Definition cio_chunk_down : cio_chunk -> option (Z * cio_chunk) := on_file (cio_file_down ctx).
Definition cio_chunk_up : cio_chunk -> option (Z * cio_chunk) := on_file (cio_file_up ctx).
Definition cio_chunk_up_force : cio_chunk -> option (Z * cio_chunk) := on_file (cio_file_up_force ctx).

Definition cio_chunk_lock (c : cio_chunk) : option (Z * cio_chunk) :=
  if lock c then Some (CIO_ERROR, c)
  else
    let c := with_lock true c in
    if cio_chunk_is_up c then cio_chunk_sync c else Some (CIO_OK, c).

Definition cio_chunk_unlock (c : cio_chunk) : Z * cio_chunk :=
  if lock c then (CIO_OK, with_lock false c) else (CIO_ERROR, c).

Definition CIO_RETRY : Z := -2.

Definition cio_chunk_tx_begin (c : cio_chunk) : Z * cio_chunk :=
  if lock c then (CIO_RETRY, c)
  else if tx_active c then (CIO_OK, c)
  else match be c with
       | FS f => (CIO_OK, with_tx true (crc_cur f) (data_size f) c)
       | MEM m => (CIO_OK, with_tx true (mem_crc m) (buf_len m) c)
       end.

Definition cio_chunk_tx_commit (c : cio_chunk) : option (Z * cio_chunk) :=
  '(ret, c) ← cio_chunk_sync c;
  if ret =? -1 then Some (CIO_ERROR, c)
  else Some (CIO_OK, with_tx false (tx_crc c) (tx_content_length c) c).

Definition cio_chunk_tx_rollback (c : cio_chunk) : Z * cio_chunk :=
  if negb (tx_active c) then (-1, c)
  else
    let b := match be c with
             | FS f => FS (set_data_size (tx_content_length c) (set_crc (tx_crc c) f))
             | MEM m => MEM (mkmf (tx_crc c) (meta_data m) (buf_data m) (tx_content_length c) (mem_realloc m))
             end in
    (CIO_OK, with_tx false (tx_crc c) (tx_content_length c) (with_be b c)).

(** The result and the content; a file is mapped if it is not. *)
Definition cio_chunk_get_content (c : cio_chunk) : option (Z * bytes * cio_chunk) :=
  match be c with
  | MEM m => Some (0, cio_memfs_content m, c)
  | FS f =>
      '(ret, f) ← mmap_file ctx 0 f;
      let c := with_be (FS f) c in
      Some (if ret =? CIO_OK then (ret, content f, c) else (ret, [], c))
  end.

Definition cio_chunk_get_content_size (c : cio_chunk) : Z :=
  match be c with MEM m => buf_len m | FS f => data_size f end.

Definition cio_chunk_get_real_size (c : cio_chunk) : Z :=
  match be c with
  | MEM m => buf_len m
  | FS f => if fs_size f =? 0 then default 0 (cio_file_native_get_size f).1 else fs_size f
  end.

Definition cio_meta_write (t : tape) (buf : bytes) (c : cio_chunk) : option (Z * cio_chunk) :=
  if 65535 <? size buf then Some (-1, c)
  else
    match be c with
    | MEM m => let '(ret, m, _) := cio_memfs_meta_write t buf m in Some (ret, with_be (MEM m) c)
    | FS f => '(ret, f) ← cio_file_write_metadata ctx buf f; Some (ret, with_be (FS f) c)
    end.

Definition cio_meta_read (c : cio_chunk) : option (option bytes * cio_chunk) :=
  match be c with
  | MEM m => Some (meta_data m, c)
  | FS f =>
      '(ret, f) ← mmap_file ctx 0 f;
      let c := with_be (FS f) c in
      Some (if negb (ret =? CIO_OK) then (None, c)
            else if cio_file_st_get_meta_len (file f) <=? 0 then (None, c)
            else (Some (metadata f), c))
  end.

Definition cio_meta_size (c : cio_chunk) : option (Z * cio_chunk) :=
  match be c with
  | MEM m => Some (size (default [] (meta_data m)), c)
  | FS f =>
      '(ret, f) ← mmap_file ctx 0 f;
      Some (if ret =? CIO_OK then cio_file_st_get_meta_len (file f) else -1, with_be (FS f) c)
  end.

Definition cio_meta_cmp (meta : bytes) (c : cio_chunk) : option (Z * cio_chunk) :=
  '(r, c) ← cio_meta_read c;
  Some (match r with
        | Some m => if bool_decide (m = meta) then 0 else -1
        | None => if (length meta =? 0)%nat && match be c with FS f => is_mapped f | MEM _ => false end then 0 else -1
        end, c).

End Ops.
End Chunk.
