(* ===== verification/ChunkFile.v ===== *)
(** * What a chunk file keeps (lib/chunkio/src/cio_file.c)

    The invariant of a file that is up, the operations that keep it, and the
    theorems on the file as a whole: what was written is what is read after the
    file went down and up, however it grew, with or without checksums; a damaged
    file is refused. *)

From S2P Require Import Prelude.
From S2P Require Import Crc32.
From S2P Require Import Chunkio.

Module ChunkFile.
Export File.

(** Reduces the fields of a file that was just updated. *)
Ltac cf_simpl := cbn [is_open rw synced fs_size data_size alloc_size realloc_size is_mapped taint_flag crc_cur
  crc_reset file os set_open set_synced set_fs_size set_data_size set_map set_taint set_crc set_crc_reset
  set_file set_os fst snd mbind option_bind negb andb Z.eqb CIO_OK CIO_CORRUPTED].

Section Laid.
Context (ctx : cio_ctx).
Hypothesis page_ok : 0 < page_size ctx <= 2 ^ 32.

(** The checksum of a chunk, before it is finalized, and as it is stored. *)
Definition sum_of (meta content : bytes) : Z := crc_ref crc_init (be_bytes 2 (size meta) ++ meta ++ content).
Definition hash_of (crc : Z) : bytes := le_bytes 8 (htonl (crc_finalize crc)).

Definition zeros (l : bytes) : Prop := Forall (λ c, c = 0) l.

(** A file that is up with this metadata and content. *)
Record laid (f : cio_file) (meta content : bytes) : Prop := mklaid {
  l_up : cio_file_is_up f = true;
  l_rw : rw f = true;
  l_os : os f = [];
  l_file : exists h pad rest, length h = 8%nat /\ length pad = 8%nat /\
    file f = layout h (size content) pad (size meta) (meta ++ content ++ rest) /\
    (content = [] -> zeros rest) /\
    (synced f = true -> checksum ctx = true -> h = hash_of (sum_of meta content));
  l_alloc : 24 + size meta + size content <= alloc_size f <= size (file f);
  l_small : size (file f) < 2 ^ 36;
  l_data : data_size f = size content;
  l_meta : size meta < 2 ^ 16;
  l_content : size content < 2 ^ 32;
  l_bytes : is_bytes (meta ++ content);
  l_crc : checksum ctx = true -> crc_cur f = sum_of meta content;
  l_reset : crc_reset f = false;
  l_step : 0 < realloc_size f <= 2 ^ 32;
  l_fs : checksum ctx = true -> 24 <= fs_size f
}.

(** *** Sizes *)

Lemma round_up n : n <= ROUND_UP n (page_size ctx) < n + page_size ctx.
Proof.
  unfold ROUND_UP. pose proof (Z.div_mod (n + page_size ctx - 1) (page_size ctx) ltac:(lia)).
  pose proof (Z.mod_pos_bound (n + page_size ctx - 1) (page_size ctx) ltac:(lia)). lia.
Qed.

(** The loop that looks for a size stops at the first one that is enough. *)
Lemma grow_reaches step need start : 0 < step ->
  need <= grow step need start <= Z.max start (need + step) /\ start <= grow step need start.
Proof.
  intros Hs. unfold grow. remember (Z.to_nat (need - start)) as n eqn:Hn.
  assert (Hle : need - start <= Z.of_nat n) by lia. clear Hn. revert start Hle.
  induction n as [|n IH]; intros start Hle; simpl; [lia|].
  destruct (Z.ltb_spec start need); [|lia].
  specialize (IH (start + step) ltac:(lia)). lia.
Qed.

(** *** Growing and shrinking the file *)

Lemma zeros_app a b : zeros a -> zeros b -> zeros (a ++ b).
Proof. apply Forall_app_2. Qed.
Lemma zeros_take n a : zeros a -> zeros (take n a).
Proof. apply Forall_take. Qed.
Lemma zeros_drop n a : zeros a -> zeros (drop n a).
Proof. apply Forall_drop. Qed.
Lemma zeros_replicate n : zeros (replicate n 0).
Proof. by apply Forall_replicate. Qed.

(** What is below the new size stays, and what is added is zero. *)
Lemma resized_layout h n pad k p rest fs new :
  length h = 8%nat -> length pad = 8%nat -> 24 + size p <= new ->
  let m := layout h n pad k (p ++ rest) in
  exists rest', (if fs <? new then fallocate new m else ftruncate new m) = layout h n pad k (p ++ rest') /\
    (zeros rest -> zeros rest') /\ new <= 24 + size p + size rest' <= Z.max new (24 + size p + size rest).
Proof.
  intros Hh Hp Hn m. assert (Hs : size m = 24 + size p + size rest) by (unfold m; rewrite size_layout, len_app by done; lia).
  assert (Hl : length m = (24 + length p + length rest)%nat) by (unfold size in *; lia).
  set (hd := layout h n pad k p). assert (Hm : m = hd ++ rest).
  { unfold m, hd, layout. by rewrite <- !app_assoc. }
  assert (Hhd : length hd = (24 + length p)%nat) by (unfold hd; pose proof (size_layout h n pad k p Hh Hp); unfold size in *; lia).
  assert (Hfold : forall x, hd ++ x = layout h n pad k (p ++ x)) by (intros x; unfold hd, layout; by rewrite <- !app_assoc).
  unfold fallocate, ftruncate. set (z := (Z.to_nat new - length m)%nat).
  destruct (fs <? new).
  - exists (rest ++ replicate z 0). rewrite Hm at 1. rewrite <- app_assoc, Hfold. split; [done|].
    split; [intros Hz; apply zeros_app; [done|apply zeros_replicate]|].
    rewrite len_app. unfold size. rewrite length_replicate. subst z. unfold size in *. lia.
  - exists (take (Z.to_nat new - length hd) rest ++ replicate z 0).
    rewrite Hm at 1. rewrite take_app_ge by (unfold size in *; lia).
    rewrite <- app_assoc, Hfold. split; [done|].
    split; [intros Hz; apply zeros_app; [by apply zeros_take|apply zeros_replicate]|].
    rewrite len_app. unfold size. rewrite length_replicate, length_take. subst z. unfold size in *. lia.
Qed.

Lemma laid_resize f meta content n : laid f meta content ->
  24 + size meta + size content <= n < 2 ^ 36 ->
  exists f', cio_file_resize n f = (CIO_OK, f') /\ laid f' meta content /\
    alloc_size f' = n /\ synced f' = synced f.
Proof.
  intros [Hup Hrw Hos (h & pad & rest & Hh & Hp & Hf & Hz & Hs) Ha Hsm Hd Hm Hc Hb Hcrc Hr Hst Hfs] Hn.
  assert (Hmap : is_mapped f = true) by (unfold cio_file_is_up in Hup; by apply andb_true_iff in Hup as [_ ?]).
  destruct (resized_layout h (size content) pad (size meta) (meta ++ content) rest (fs_size f) n)
    as (rest' & Heq & Hz' & Hlen); [done..|rewrite len_app; lia|].
  rewrite <- app_assoc in Heq. rewrite <- Hf in Heq.
  unfold cio_file_resize, cio_file_native_resize, cio_file_native_remap, sys. rewrite Hos, Hmap. simpl.
  rewrite Hos. simpl. rewrite Heq. eexists. split; [done|].
  split; [|done]. split; try done; simpl.
  - unfold cio_file_is_up in *. simpl. by apply andb_true_iff in Hup as [-> _].
  - exists h, pad, rest'. rewrite <- app_assoc. split; [done|]. split; [done|]. split; [done|]. split; [auto|done].
  - rewrite len_app in Hlen. rewrite size_layout, !len_app by done. lia.
  - rewrite Hf, size_layout, !len_app in Hsm by done. rewrite len_app in Hlen.
    rewrite size_layout, !len_app by done. lia.
  - intros _. pose proof (len_nonneg meta). pose proof (len_nonneg content). lia.
Qed.

(** *** Writing *)

Lemma store_some at_ d f : is_mapped f = true -> at_ + size d <= alloc_size f ->
  store at_ d f = Some (set_file (put (file f) at_ d) f).
Proof. intros Hm Hle. unfold store. rewrite Hm. simpl. by rewrite (proj2 (Z.leb_le _ _)). Qed.

Lemma laid_mapped f meta content : laid f meta content -> is_mapped f = true.
Proof. intros [Hup _ _ _ _ _ _ _ _ _ _ _ _ _]. unfold cio_file_is_up in Hup. by apply andb_true_iff in Hup as [_ ?]. Qed.

Lemma laid_meta_len f meta content : laid f meta content -> cio_file_st_get_meta_len (file f) = size meta.
Proof.
  intros [_ _ _ (h & pad & rest & Hh & Hp & -> & _) _ _ _ Hm _ _ _ _ _ _].
  apply layout_meta_len; [done..|]. split; [apply len_nonneg|done].
Qed.

(** The file is grown when the data does not fit. *)
Lemma write_room f meta content buf : laid f meta content -> size content + size buf < 2 ^ 32 ->
  let need := 24 + size meta + size content + size buf in
  exists f1, (if get_available_size f <? size buf
              then cio_file_resize (ROUND_UP (grow (realloc_size f)
                     (CIO_FILE_HEADER_MIN + cio_file_st_get_meta_len (file f) + data_size f + size buf)
                     (alloc_size f + realloc_size f)) (page_size ctx)) f
              else (CIO_OK, f)) = (CIO_OK, f1) /\
    laid f1 meta content /\ need <= alloc_size f1.
Proof.
  intros Hl Hb need. pose proof Hl as [_ _ _ _ Ha Hsm Hd Hm _ _ _ _ Hst _].
  pose proof (len_nonneg buf). pose proof (len_nonneg content). pose proof (len_nonneg meta).
  unfold get_available_size. rewrite (laid_meta_len f meta content Hl), Hd.
  unfold CIO_FILE_HEADER_MIN. rewrite u64_small by lia.
  destruct (Z.ltb_spec (alloc_size f - 24 - size meta - size content) (size buf)).
  - pose proof (grow_reaches (realloc_size f) (24 + size meta + size content + size buf)
      (alloc_size f + realloc_size f) ltac:(lia)).
    set (g := grow _ _ _) in *. pose proof (round_up g).
    destruct (laid_resize f meta content (ROUND_UP g (page_size ctx)) Hl ltac:(lia)) as (f1 & He & Hl1 & Ha1 & _).
    exists f1. split; [exact He|]. split; [done|]. lia.
  - exists f. split; [done|]. split; [done|]. lia.
Qed.

Lemma bytes_be n z : is_bytes (be_bytes n z).
Proof.
  unfold be_bytes. apply Forall_rev. revert z. induction n as [|n IH]; intros z; [apply Forall_nil_2|].
  simpl. apply Forall_cons_2; [|apply IH]. apply Z.mod_pos_bound. lia.
Qed.

Lemma crc_init_range : 0 <= crc_init < 2 ^ 32.
Proof. unfold crc_init. lia. Qed.

Lemma sum_of_range meta content : is_bytes (meta ++ content) -> 0 <= sum_of meta content < 2 ^ 32.
Proof.
  intros H. apply crc_ref_range; [|exact crc_init_range]. apply Forall_app_2; [apply bytes_be|done].
Qed.

(** The checksum so far is extended by the data. *)
Lemma sum_of_app meta content buf : is_bytes (meta ++ content) -> is_bytes buf ->
  crc_update (sum_of meta content) 0 buf = sum_of meta (content ++ buf).
Proof.
  intros Hb Hbuf. rewrite crc_update_ref by (done || by apply sum_of_range).
  unfold sum_of, crc_ref. rewrite <- foldl_app, <- !app_assoc. done.
Qed.

Lemma checksum_write f meta content buf h pad rest : laid f meta content -> is_bytes buf ->
  length h = 8%nat -> file f = layout h (size content) pad (size meta) (meta ++ content ++ rest) ->
  exists h2 c2, (if checksum ctx then update_checksum buf f else Some f) =
      Some (set_crc c2 (set_file (layout h2 (size content) pad (size meta) (meta ++ content ++ rest)) f)) /\
    length h2 = 8%nat /\ (checksum ctx = true -> c2 = sum_of meta (content ++ buf)).
Proof.
  intros Hl Hbuf Hh Hf. pose proof (laid_mapped f meta content Hl) as Hmap.
  destruct Hl as [_ _ _ _ Ha _ _ _ _ Hb Hcrc Hr _ _]. pose proof (len_nonneg meta). pose proof (len_nonneg content).
  destruct (checksum ctx).
  - unfold update_checksum. rewrite Hr. cbn [mbind option_bind]. rewrite Hcrc, sum_of_app by done.
    rewrite store_some by (done || unfold size; rewrite ?length_le; simpl; lia). cbn [mbind option_bind].
    exists (le_bytes 8 (sum_of meta (content ++ buf))), (sum_of meta (content ++ buf)).
    rewrite Hf, layout_put_hash by (by rewrite length_le). split; [done|]. by rewrite length_le.
  - exists h, (crc_cur f). split; [|done]. rewrite <- Hf. by destruct f.
Qed.

Lemma be_small n : 0 <= n < 2 ^ 32 -> be_bytes 4 (u32 n) = be_bytes 4 n.
Proof. intros Hn. by rewrite u32_small. Qed.

(** The data is stored after the content, and the length field follows. *)
Lemma laid_write f meta content buf : laid f meta content -> buf <> [] -> is_bytes buf ->
  size content + size buf < 2 ^ 32 ->
  exists f', cio_file_write ctx buf f = Some (0, f') /\ laid f' meta (content ++ buf) /\ synced f' = false.
Proof.
  intros Hl Hne Hbuf Hsz. unfold cio_file_write.
  assert (Hpos : size buf <> 0) by (unfold size; destruct buf; simpl; [done|lia]).
  rewrite (proj2 (Z.eqb_neq _ _)), (l_up f meta content Hl) by done. cbn [negb].
  destruct (write_room f meta content buf Hl Hsz) as (f1 & -> & Hl1 & Hneed). cbn [Z.eqb negb].
  clear f Hl. rename f1 into f, Hl1 into Hl.
  pose proof (laid_mapped f meta content Hl) as Hmap. pose proof (len_nonneg buf).
  pose proof Hl as [Hup Hrw Hos (h & pad & rest & Hh & Hp & Hf & Hz & Hs) Ha Hsm Hd Hm Hc Hb Hcrc Hr Hst Hfs].
  rewrite Hr. cbn [mbind option_bind].
  destruct (checksum_write f meta content buf h pad rest Hl Hbuf Hh Hf) as (h2 & c2 & -> & Hh2 & Hc2).
  cbn [mbind option_bind set_crc set_file file].
  unfold cio_file_st_get_content. rewrite layout_meta_len by (first [done | split; [apply len_nonneg|done]]).
  unfold CIO_FILE_HEADER_MIN. cbn [data_size set_crc set_file]. rewrite Hd.
  pose proof (len_nonneg meta). pose proof (len_nonneg content).
  rewrite store_some by (done || cbn [alloc_size set_crc set_file]; lia). cbn [mbind option_bind file set_crc set_file].
  assert (Hlen : (length buf <= length rest)%nat).
  { rewrite Hf, size_layout, !len_app in Ha by done. unfold size in *. lia. }
  rewrite <- (take_drop (length buf) rest), (app_assoc meta), <- Z.add_assoc, <- len_app.
  rewrite layout_put_body by (done || rewrite length_take; lia).
  rewrite <- app_assoc. unfold cio_file_st_set_content_len.
  rewrite store_some; [|exact Hmap|].
  2:{ unfold CIO_FILE_CONTENT_LENGTH_OFFSET, size at 1. rewrite length_be.
      cbn [alloc_size set_file set_synced set_data_size set_crc]. lia. }
  cbn [mbind option_bind]. eexists. split; [done|]. split; [|done].
  cbn [data_size set_file set_synced set_data_size set_crc file]. rewrite Hd, <- len_app.
  rewrite be_small by (rewrite len_app; lia). unfold CIO_FILE_CONTENT_LENGTH_OFFSET.
  rewrite layout_put_len by done.
  split; try done; cbn [file set_taint set_file set_synced set_data_size set_crc alloc_size data_size crc_cur synced].
  - exists h2, pad, (drop (length buf) rest). rewrite <- (app_assoc content). split; [done|]. split; [done|]. split; [done|].
    split; [|done]. intros Hnil. apply app_eq_nil in Hnil as [_ ?]. done.
  - rewrite size_layout, !len_app in * by done. rewrite Hf, size_layout, !len_app in Ha by done.
    unfold size. rewrite length_drop. unfold size in *. lia.
  - rewrite size_layout, !len_app in * by done. rewrite Hf, size_layout, !len_app in Hsm by done.
    unfold size. rewrite length_drop. unfold size in *. lia.
  - rewrite len_app. lia.
  - rewrite app_assoc. by apply Forall_app_2.
Qed.

(** *** Sync, down and up *)

Lemma laid_trim f meta content : laid f meta content ->
  exists f', (if trim_files ctx then
       let av_size := get_available_size f in
       let desired_size := if 0 <? av_size then u64 (alloc_size f - av_size)
                           else if size (file f) <? alloc_size f then alloc_size f else size (file f) in
       if negb (desired_size =? size (file f))
       then cio_file_resize (ROUND_UP desired_size (page_size ctx)) f else (CIO_OK, f)
     else (CIO_OK, f)) = (CIO_OK, f') /\ laid f' meta content /\ synced f' = synced f.
Proof.
  intros Hl. destruct (trim_files ctx); [|by exists f].
  pose proof Hl as [_ _ _ _ Ha Hsm Hd Hm Hc _ _ _ _ _]. pose proof (len_nonneg content). pose proof (len_nonneg meta).
  unfold get_available_size. rewrite (laid_meta_len f meta content Hl), Hd. unfold CIO_FILE_HEADER_MIN.
  cbn zeta. rewrite (u64_small (alloc_size f - 24 - _ - _)) by lia. destruct (Z.ltb_spec 0 (alloc_size f - 24 - size meta - size content)).
  - rewrite u64_small by lia. destruct (negb _); [|by exists f].
    replace (alloc_size f - (alloc_size f - 24 - size meta - size content)) with (24 + size meta + size content) by lia.
    pose proof (round_up (24 + size meta + size content)).
    destruct (laid_resize f meta content (ROUND_UP (24 + size meta + size content) (page_size ctx)) Hl ltac:(lia))
      as (f' & He & Hl' & _ & Hs'). by exists f'.
  - rewrite (proj2 (Z.ltb_ge _ _)), Z.eqb_refl by lia. by exists f.
Qed.

Lemma laid_sync f meta content : laid f meta content ->
  exists f', cio_file_sync ctx f = Some (0, f') /\ laid f' meta content /\ synced f' = true.
Proof.
  intros Hl. unfold cio_file_sync. rewrite (l_rw f meta content Hl). cbn [negb].
  destruct (synced f) eqn:Es; [by exists f|].
  unfold cio_file_native_get_size, sys. rewrite (l_os f meta content Hl). cbv beta iota.
  destruct (laid_trim f meta content Hl) as (f1 & Ht & Hl1 & Hs1). cbv zeta in Ht. rewrite Ht. cbn [Z.eqb negb].
  pose proof (laid_mapped f1 meta content Hl1) as Hmap.
  pose proof Hl1 as [Hup Hrw Hos (h & pad & rest & Hh & Hp & Hf & Hz & Hs) Ha Hsm Hd Hm Hc Hb Hcrc Hr Hst Hfs].
  pose proof (len_nonneg content). pose proof (len_nonneg meta).
  assert (Hfin : exists h2, (if checksum ctx then finalize_checksum f1 else Some f1) =
      Some (set_file (layout h2 (size content) pad (size meta) (meta ++ content ++ rest)) f1) /\
      length h2 = 8%nat /\ (checksum ctx = true -> h2 = hash_of (sum_of meta content))).
  { destruct (checksum ctx).
    - unfold finalize_checksum. rewrite Hcrc by done. fold (hash_of (sum_of meta content)).
      assert (length (hash_of (sum_of meta content)) = 8%nat) by apply length_le.
      rewrite store_some by (done || unfold size in *; lia). exists (hash_of (sum_of meta content)).
      rewrite Hf, layout_put_hash by lia. done.
    - exists h. rewrite <- Hf. split; [by destruct f1|done]. }
  destruct Hfin as (h2 & -> & Hh2 & Heq). cbn [mbind option_bind].
  unfold cio_file_native_sync, cio_file_update_size, cio_file_native_get_size, sys.
  cbn [os set_file set_synced]. rewrite Hos. cbn [os set_file set_synced Z.eqb negb]. rewrite Hos.
  cbn [Z.eqb]. eexists. split; [done|]. split; [|done].
  split; try done; cbn [file set_fs_size set_synced set_file alloc_size].
  - exists h2, pad, rest. done.
  - rewrite Hf in Ha. rewrite size_layout in * by done. done.
  - rewrite Hf in Hsm. rewrite size_layout in * by done. done.
  - intros _. rewrite size_layout by done. pose proof (len_nonneg (meta ++ content ++ rest)). cf_simpl. lia.
Qed.

(** A file that is down with this metadata and content. *)
Record downed (f : cio_file) (meta content : bytes) : Prop := mkdowned {
  d_closed : is_open f = false /\ is_mapped f = false;
  d_rw : rw f = true;
  d_os : os f = [];
  d_file : exists h pad rest, length h = 8%nat /\ length pad = 8%nat /\
    file f = layout h (size content) pad (size meta) (meta ++ content ++ rest) /\
    (content = [] -> zeros rest) /\ (checksum ctx = true -> h = hash_of (sum_of meta content));
  d_small : size (file f) < 2 ^ 36;
  d_meta : size meta < 2 ^ 16;
  d_content : size content < 2 ^ 32;
  d_bytes : is_bytes (meta ++ content);
  d_reset : crc_reset f = false;
  d_step : 0 < realloc_size f <= 2 ^ 32
}.

Lemma laid_down f meta content : laid f meta content ->
  exists f', cio_file_down ctx f = Some (0, f') /\ downed f' meta content.
Proof.
  intros Hl. unfold cio_file_down, munmap_file. rewrite (laid_mapped f meta content Hl). cbn [negb].
  assert (Hsy : exists f1, (if synced f then Some f else '(_, f) ← cio_file_sync ctx f; Some f) = Some f1 /\
                 laid f1 meta content /\ synced f1 = true).
  { destruct (synced f) eqn:Es; [by exists f|].
    destruct (laid_sync f meta content Hl) as (f1 & -> & ? & ?). by exists f1. }
  destruct Hsy as (f1 & -> & Hl1 & Hs1). cbn [mbind option_bind].
  pose proof (laid_mapped f1 meta content Hl1) as Hmap.
  destruct Hl1 as [Hup Hrw Hos Hfile Ha Hsm Hd Hm Hc Hb Hcrc Hr Hst Hfs].
  unfold cio_file_native_unmap, cio_file_update_size, cio_file_native_get_size, cio_file_native_close, sys.
  unfold cio_file_is_up in Hup. apply andb_true_iff in Hup as [Ho _].
  rewrite Hmap. cf_simpl. rewrite Hos. cf_simpl. rewrite Hos. cf_simpl. rewrite Ho, Hos. cf_simpl.
  eexists. split; [done|]. split; cf_simpl; try done.
  destruct Hfile as (h & pad & rest & ? & ? & ? & ? & Hh). exists h, pad, rest.
  do 4 (split; [done|]). by apply Hh.
Qed.

(** The length in the header is the length of the content: the rule for older
    files, which guesses a length, does not apply. *)
Lemma laid_content_len f h pad rest meta content fs : length h = 8%nat -> length pad = 8%nat ->
  file f = layout h (size content) pad (size meta) (meta ++ content ++ rest) ->
  size meta < 2 ^ 16 -> size content < 2 ^ 32 -> (content = [] -> zeros rest) -> 24 <= fs ->
  cio_file_st_get_content_len fs f = Some (size content, f).
Proof.
  intros Hh Hp Hf Hm Hc Hz Hfs. unfold cio_file_st_get_content_len, CIO_FILE_HEADER_MIN, CIO_FILE_CONTENT_OFFSET.
  rewrite (proj2 (Z.ltb_ge _ _)) by done. cbv zeta. rewrite Hf.
  pose proof (len_nonneg meta). pose proof (len_nonneg content).
  rewrite layout_content_len, layout_meta_len by done.
  destruct content as [|c content'].
  - change (22 + 2 + size meta) with (24 + size meta). rewrite layout_first by done.
    assert (nth 0 ([] ++ rest) 0 = 0) as ->.
    { destruct rest as [|x rest]; [done|]. specialize (Hz eq_refl). apply Forall_cons in Hz as [-> _]. done. }
    rewrite Z.eqb_refl. cbn [negb]. by rewrite !andb_false_r.
  - assert ((size (c :: content') =? 0) = false) as -> by (apply Z.eqb_neq; unfold size; simpl; lia).
    by rewrite !andb_false_r.
Qed.

(** The checksum of the file as it is laid out. *)
Lemma laid_sum f h pad rest meta content : length h = 8%nat -> length pad = 8%nat ->
  file f = layout h (size content) pad (size meta) (meta ++ content ++ rest) ->
  size meta < 2 ^ 16 -> size content < 2 ^ 32 -> (content = [] -> zeros rest) ->
  is_bytes (meta ++ content) -> crc_cur f = crc_init -> 24 <= fs_size f ->
  cio_file_calculate_checksum f = Some (sum_of meta content, f).
Proof.
  intros Hh Hp Hf Hm Hc Hz Hb Hcrc Hfs. unfold cio_file_calculate_checksum.
  rewrite (proj2 (Z.eqb_neq (fs_size f) 0)) by lia. rewrite (laid_content_len f h pad rest meta content) by done.
  cbn [mbind option_bind]. pose proof (len_nonneg meta). pose proof (len_nonneg content).
  rewrite Hf, layout_meta_len, Hcrc by done. unfold CIO_FILE_CONTENT_OFFSET.
  assert ((if 0 <? size content then 2 + size meta + size content else 2 + size meta) = 2 + size (meta ++ content)) as ->.
  { rewrite len_app. zcase; lia. }
  rewrite (app_assoc meta), layout_sub_sum by done. do 2 f_equal.
  apply crc_update_ref; [|exact crc_init_range]. apply Forall_app_2; [apply bytes_be|done].
Qed.

(** The format check accepts the file if the checksum it stores is right. *)
Lemma format_result f h pad rest meta content : length h = 8%nat -> length pad = 8%nat ->
  file f = layout h (size content) pad (size meta) (meta ++ content ++ rest) ->
  size meta < 2 ^ 16 -> size content < 2 ^ 32 -> (content = [] -> zeros rest) ->
  is_bytes (meta ++ content) -> fs_size f = size (file f) ->
  cio_file_format_check ctx f =
    if checksum ctx then
      if bool_decide (h = hash_of (sum_of meta content)) then Some (0, set_crc (sum_of meta content) f)
      else Some (-1, set_crc crc_init f)
    else Some (0, f).
Proof.
  intros Hh Hp Hf Hm Hc Hz Hb Hfs. pose proof (len_nonneg meta). pose proof (len_nonneg content).
  pose proof (len_nonneg rest).
  assert (Hsz : fs_size f = 24 + size meta + size content + size rest).
  { rewrite Hfs, Hf, size_layout, !len_app by done. lia. }
  unfold cio_file_format_check. rewrite (proj2 (Z.eqb_neq (fs_size f) 0)) by lia.
  rewrite Hf at 1 2. destruct (layout_id h (size content) pad (size meta) (meta ++ content ++ rest)) as [-> ->].
  rewrite !Z.eqb_refl. cbn [negb orb].
  rewrite (laid_content_len f h pad rest meta content) by (done || lia). cbn [mbind option_bind].
  rewrite (proj2 (Z.eqb_neq (size content) (-1))) by lia.
  rewrite Hf at 1. rewrite layout_meta_len by done. unfold CIO_FILE_HEADER_MIN.
  rewrite (proj2 (Z.ltb_ge _ _)) by lia. destruct (checksum ctx); [|done].
  rewrite (laid_sum (set_crc crc_init f) h pad rest meta content) by (done || cf_simpl; lia).
  cbn [mbind option_bind]. assert (Hsub : sub (file f) 2 8 = h) by (rewrite Hf; by apply layout_sub_hash).
  cf_simpl. fold (hash_of (sum_of meta content)). do 2 case_bool_decide; try done; congruence.
Qed.

Lemma downed_up f meta content enforced : downed f meta content ->
  (enforced = true -> open_and_up ctx = true) ->
  exists f', _cio_file_up ctx enforced f = Some (CIO_OK, f') /\ laid f' meta content.
Proof.
  intros [[Ho Hmp] Hrw Hos (h & pad & rest & Hh & Hp & Hf & Hz & Hhash) Hsm Hm Hc Hb Hr Hst] Henf.
  pose proof (len_nonneg meta). pose proof (len_nonneg content). pose proof (len_nonneg rest).
  assert (Hsz : size (file f) = 24 + size meta + size content + size rest) by (rewrite Hf, size_layout, !len_app by done; lia).
  unfold _cio_file_up, cio_file_native_open, cio_file_update_size, cio_file_native_get_size, sys.
  rewrite Hmp, Ho. assert (enforced && negb (open_and_up ctx) = false) as ->.
  { destruct enforced; [|done]. by rewrite Henf. }
  rewrite Hos. cf_simpl. rewrite Hos. cf_simpl. unfold mmap_file. cf_simpl. rewrite Hmp.
  rewrite (proj2 (Z.ltb_lt 0 (size (file f)))) by lia. unfold cio_file_native_map, sys. cf_simpl.
  rewrite (proj2 (Z.ltb_lt 0 (size (file f)))) by lia. cf_simpl. rewrite Hmp, Hos. cf_simpl.
  erewrite laid_content_len; [|exact Hh|exact Hp|cf_simpl; exact Hf|done|done|done|lia]. cf_simpl.
  rewrite (proj2 (Z.eqb_neq (size content) (-1))) by lia.
  erewrite format_result; [|exact Hh|exact Hp|cf_simpl; exact Hf|done|done|done|done|done].
  assert (Hfc : forall g, (if checksum ctx then if bool_decide (h = hash_of (sum_of meta content))
            then Some (0, set_crc (sum_of meta content) g) else Some (-1, set_crc crc_init g) else Some (0, g))
            = Some (0, if checksum ctx then set_crc (sum_of meta content) g else g)).
  { intros g. destruct (checksum ctx); [|done]. by rewrite bool_decide_eq_true_2 by auto. }
  rewrite Hfc. cf_simpl.
  match goal with |- context [set_crc _ ?x] => set (g := x) end.
  assert (Hg : forall c, (checksum ctx = true -> c = sum_of meta content) -> laid (set_crc c g) meta content).
  { intros c Hcc. split; subst g; cf_simpl; try done; try lia.
    exists h, pad, rest. do 4 (split; [done|]). intros _. exact Hhash. }
  eexists. split; [done|]. destruct (checksum ctx) eqn:Ec; [by apply Hg|].
  replace g with (set_crc (crc_cur g) g) by done. by apply Hg.
Qed.

(** *** A new file and its metadata *)

(** One page, rounded up to hold the header. *)
Definition first_size : Z := ROUND_UP 24 (page_size ctx).

Lemma new_header f body : is_mapped f = true -> 24 <= alloc_size f -> file f = replicate 24 0 ++ body ->
  exists h, length h = 8%nat /\
    write_init_header ctx f = Some (set_file (layout h 0 (replicate 8 0) 0 body) f).
Proof.
  intros Hm Ha Hf. unfold write_init_header, CIO_FILE_CONTENT_LENGTH_OFFSET, cio_file_st_set_content_len.
  rewrite store_some by (done || change (size cio_file_init_bytes) with 24; lia). cf_simpl. rewrite Hf.
  change (replicate 24 0 ++ body) with ([] ++ replicate 24 0 ++ body).
  change 0 with (size []) at 3. rewrite put_app by done. cbn [app].
  destruct (checksum ctx).
  - exists [0xff; 0x12; 0xd9; 0x41; 0; 0; 0; 0]. split; [done|]. cf_simpl.
    rewrite store_some by (done || cf_simpl; change (size (be_bytes 4 (u32 0))) with 4; unfold CIO_FILE_CONTENT_LENGTH_OFFSET; lia).
    by destruct f.
  - exists (replicate 8 0). split; [done|].
    rewrite store_some by (done || cf_simpl; change (size [0; 0; 0; 0]) with 4; lia). cf_simpl.
    rewrite store_some by (done || cf_simpl; change (size (be_bytes 4 (u32 0))) with 4; unfold CIO_FILE_CONTENT_LENGTH_OFFSET; lia).
    by destruct f.
Qed.

Lemma new_format g n : is_open g = true -> is_mapped g = true -> rw g = true -> os g = [] -> fs_size g = 0 ->
  crc_cur g = crc_init -> crc_reset g = false -> data_size g = 0 -> 0 < realloc_size g <= 2 ^ 32 ->
  alloc_size g = 24 + Z.of_nat n -> alloc_size g < 2 ^ 36 -> synced g = false ->
  file g = replicate (24 + n) 0 ->
  exists f, cio_file_format_check ctx g = Some (0, f) /\ laid f [] [] /\
    alloc_size f = alloc_size g /\ synced f = false.
Proof.
  intros Ho Hm Hrw Hos Hfs Hcrc Hr Hd Hst Ha Hsm Hsy Hf. rewrite replicate_add in Hf.
  destruct (new_header g (replicate n 0)) as (h & Hh & Hw); [done|lia|done|].
  unfold cio_file_format_check. rewrite Hfs, Hrw. cbn [Z.eqb negb].
  rewrite (proj2 (Z.ltb_ge (alloc_size g) CIO_FILE_HEADER_MIN)) by (unfold CIO_FILE_HEADER_MIN; lia).
  rewrite Hw. cf_simpl. set (g1 := set_file _ g).
  assert (Hs1 : size (file g1) = 24 + Z.of_nat n).
  { subst g1. cf_simpl. rewrite size_layout by done. unfold size. rewrite length_replicate. lia. }
  assert (Hlaid : forall v c, (checksum ctx = true -> c = sum_of [] []) -> (checksum ctx = true -> 24 <= v) ->
            laid (set_crc c (set_fs_size v g1)) [] []).
  { intros v c Hc Hv. apply mklaid; cf_simpl; rewrite ?size_nil.
    - unfold cio_file_is_up. subst g1. cf_simpl. by rewrite Ho, Hm.
    - done.
    - done.
    - exists h, (replicate 8 0), (replicate n 0). do 2 (split; [done|]). split; [done|].
      split; [intros _; apply zeros_replicate|]. subst g1. cf_simpl. by rewrite Hsy.
    - rewrite Hs1. subst g1. cf_simpl. lia.
    - rewrite Hs1. lia.
    - done.
    - lia.
    - lia.
    - apply Forall_nil_2.
    - done.
    - done.
    - done.
    - done. }
  destruct (checksum ctx) eqn:Ec.
  - assert (Hsum : cio_file_calculate_checksum g1 = Some (sum_of [] [], set_fs_size (24 + Z.of_nat n) g1)).
    { transitivity (cio_file_calculate_checksum (set_fs_size (24 + Z.of_nat n) g1)).
      - unfold cio_file_calculate_checksum. cf_simpl. rewrite (proj2 (Z.eqb_neq (24 + Z.of_nat n) 0)) by lia.
        replace (fs_size g1 =? 0) with true by (subst g1; cf_simpl; by rewrite Hfs).
        unfold cio_file_update_size, cio_file_native_get_size, sys.
        replace (os g1) with (@nil bool) by done. cf_simpl. by rewrite Hs1.
      - apply (laid_sum _ h (replicate 8 0) (replicate n 0)); try done.
        + intros _. apply zeros_replicate.
        + apply Forall_nil_2.
        + cf_simpl. lia. }
    rewrite Hsum. cf_simpl. eexists. split; [done|]. split; [|done]. apply Hlaid; [done|]. lia.
  - eexists. split; [done|]. split; [|done].
    replace g1 with (set_crc (crc_cur g1) (set_fs_size (fs_size g1) g1)) by done. by apply Hlaid.
Qed.

(** A file without content is mapped: it gets a first page and its header. *)
Lemma mmap_new g : is_open g = true -> is_mapped g = false -> rw g = true -> os g = [] -> file g = [] ->
  crc_cur g = crc_init -> crc_reset g = false -> 0 < realloc_size g <= 2 ^ 32 -> fs_size g = 0 ->
  exists f, mmap_file ctx 0 g = Some (CIO_OK, f) /\ laid f [] [] /\ alloc_size f = first_size /\ synced f = false.
Proof.
  destruct g as [op rw_ sy fs da al re mp ta cr rs fi os_]. cbn [is_open is_mapped rw os file crc_cur crc_reset realloc_size fs_size].
  intros -> -> -> -> -> -> -> Hre ->. unfold mmap_file, cio_file_native_get_size, sys. cf_simpl.
  change (size []) with 0. cbn [Z.ltb Z.compare]. change (0 <? CIO_FILE_HEADER_MIN) with true. cbn match.
  change (0 + CIO_FILE_HEADER_MIN) with 24. fold first_size.
  assert (Hfirst : 24 <= first_size < 2 ^ 33) by (pose proof (round_up 24); unfold first_size; lia).
  unfold cio_file_resize, cio_file_native_resize, sys. cf_simpl.
  rewrite (proj2 (Z.ltb_lt 0 first_size)) by lia. unfold fallocate, cio_file_native_map, sys. cf_simpl.
  cbn [app length]. rewrite Nat.sub_0_r.
  match goal with |- context [cio_file_format_check ctx ?x] => set (g := x) end.
  destruct (new_format g (Z.to_nat (first_size - 24))) as (f & -> & Hl & Ha & Hs); try (subst g; cf_simpl; done).
  - subst g. cf_simpl. lia.
  - subst g. cf_simpl. lia.
  - subst g. cf_simpl. f_equal. lia.
  - cf_simpl. exists f. done.
Qed.

Lemma open_new realloc : open_and_up ctx = true -> 0 < realloc <= 2 ^ 32 ->
  exists f, cio_file_open ctx true realloc [] true [] = Some (CIO_OK, Some f) /\
    laid f [] [] /\ alloc_size f = first_size /\ synced f = false.
Proof.
  intros Hup Hre. unfold cio_file_open. rewrite Hup.
  unfold cio_file_native_open, cio_file_update_size, cio_file_native_get_size, sys, new_file. cf_simpl.
  change (size []) with 0. match goal with |- context [mmap_file ctx 0 ?x] => set (g := x) end.
  destruct (mmap_new g) as (f & -> & Hf); [done..|]. cf_simpl. exists f. done.
Qed.

(** A new file when there are too many up already: it is brought up on demand. *)
Lemma open_new_down realloc : open_and_up ctx = false -> 0 < realloc <= 2 ^ 32 ->
  exists f g, cio_file_open ctx true realloc [] true [] = Some (CIO_OK, Some f) /\
    cio_file_is_up f = false /\ cio_file_up_force ctx f = Some (CIO_OK, g) /\
    laid g [] [] /\ alloc_size g = first_size.
Proof.
  intros Hup Hre. unfold cio_file_open. rewrite Hup. cbn [negb].
  unfold cio_file_update_size, cio_file_native_get_size, sys, new_file. cf_simpl. change (size []) with 0.
  match goal with |- context [Some (CIO_OK, Some ?x)] => set (f := x) end.
  assert (Hm : exists g, cio_file_up_force ctx f = Some (CIO_OK, g) /\ laid g [] [] /\ alloc_size g = first_size).
  { unfold cio_file_up_force, _cio_file_up. subst f. cf_simpl.
    unfold cio_file_native_open, cio_file_update_size, cio_file_native_get_size, sys. cf_simpl. change (size []) with 0.
    match goal with |- context [mmap_file ctx 0 ?x] => set (g := x) end.
    destruct (mmap_new g) as (f & -> & Hl & Ha & _); [done..|]. cf_simpl. exists f. done. }
  destruct Hm as (g & Hg & Hl & Ha). exists f, g. done.
Qed.

Lemma zeros_eq l : zeros l -> l = replicate (length l) 0.
Proof. induction 1 as [|x l -> _ IH]; [done|]. simpl. by rewrite <- IH. Qed.

(** Moving zeros onto zeros changes nothing. *)
Lemma move_zeros h n pad k rest sz : length h = 8%nat -> length pad = 8%nat -> zeros rest ->
  0 <= sz -> 2 * sz <= size rest ->
  put (layout h n pad k rest) (24 + sz) (sub (layout h n pad k rest) 24 sz) = layout h n pad k rest.
Proof.
  intros Hh Hp Hz H0 Hle. set (a := replicate (Z.to_nat sz) 0).
  assert (Hr : rest = a ++ a ++ drop (2 * Z.to_nat sz) rest).
  { rewrite (zeros_eq rest Hz), drop_replicate. unfold a. rewrite <- !replicate_add. f_equal. unfold size in Hle. lia. }
  assert (Hsz : size a = sz) by (unfold a, size; rewrite length_replicate; lia).
  assert (Hsub : sub (layout h n pad k rest) 24 sz = a).
  { rewrite Hr, <- Hsz. apply (layout_sub_body h n pad k [] a); done. }
  rewrite Hsub, Hr, <- Hsz. by rewrite layout_put_body.
Qed.

Lemma meta_len_bytes n : 0 <= n < 2 ^ 16 -> [u8 (Z.shiftr (u16 n) 8); Z.land (u16 n) 0xff] = be_bytes 2 n.
Proof.
  intros Hn. rewrite be2. assert (u16 n = n) as -> by (by apply Z.mod_small).
  change 0xff with (Z.ones 8). rewrite Z.land_ones, Z.shiftr_div_pow2 by lia. done.
Qed.

(** The metadata length is set and the checksum starts again. *)
Lemma adjust_new f h pad meta rest k : is_mapped f = true -> 24 <= alloc_size f ->
  length h = 8%nat -> length pad = 8%nat -> file f = layout h 0 pad k (meta ++ rest) ->
  size meta < 2 ^ 16 -> is_bytes meta -> zeros rest -> (checksum ctx = true -> 24 <= fs_size f) ->
  exists c, adjust_layout ctx (size meta) f =
      Some (set_synced false (set_crc c (set_file (layout h 0 pad (size meta) (meta ++ rest)) f))) /\
    (checksum ctx = true -> c = sum_of meta []).
Proof.
  intros Hm Ha Hh Hp Hf Hsz Hb Hz Hfs. pose proof (len_nonneg meta).
  unfold adjust_layout, cio_file_st_set_meta_len. rewrite meta_len_bytes by lia.
  rewrite store_some; [|done|unfold size at 1; rewrite length_be; lia]. cf_simpl.
  rewrite Hf, layout_put_meta_len by done. destruct (checksum ctx) eqn:Ec.
  - rewrite (laid_sum _ h pad rest meta []).
    + cf_simpl. exists (sum_of meta []). split; [by destruct f|done].
    + done.
    + done.
    + done.
    + done.
    + rewrite size_nil. lia.
    + done.
    + by rewrite app_nil_r.
    + done.
    + cf_simpl. by apply Hfs.
  - cf_simpl. exists (crc_cur f). split; [by destruct f|done].
Qed.

Lemma laid_new_meta f buf : laid f [] [] -> buf <> [] -> is_bytes buf -> size buf < 2 ^ 16 ->
  24 + 2 * size buf <= alloc_size f ->
  exists f', cio_file_write_metadata ctx buf f = Some (0, f') /\ laid f' buf [] /\ synced f' = false.
Proof.
  intros Hl Hne Hb Hsz Ha. unfold cio_file_write_metadata. rewrite (l_up _ _ _ Hl), (laid_meta_len _ _ _ Hl). cbn [negb].
  assert (Hpos : 0 < size buf) by (unfold size; destruct buf; simpl; [done|lia]).
  rewrite size_nil, (proj2 (Z.leb_gt (size buf) 0)) by done.
  pose proof (laid_mapped _ _ _ Hl) as Hmap.
  destruct Hl as [Hup Hrw Hos (h & pad & rest & Hh & Hp & Hf & Hz & _) Hal Hsm Hd _ _ _ Hcrc Hr Hst Hfs].
  cbn [app] in Hf. rewrite size_nil in *. rewrite Hd. rewrite u64_small by lia.
  rewrite (proj2 (Z.ltb_ge _ _)) by lia. cf_simpl.
  assert (Hrest : 2 * size buf <= size rest) by (rewrite Hf, size_layout in Hal by done; lia).
  unfold memmove, cio_file_st_get_content, cio_file_st_get_meta, CIO_FILE_HEADER_MIN.
  assert (Hml : cio_file_st_get_meta_len (file f) = 0) by (rewrite Hf; apply layout_meta_len; [done|done|lia]).
  rewrite Hml, (proj2 (Z.leb_le _ _)) by lia. change (24 + 0) with 24.
  rewrite store_some; [|done|].
  2:{ unfold sub, size. rewrite length_take. unfold size in *. lia. }
  rewrite Hf, (move_zeros h 0 pad 0 rest (size buf) Hh Hp (Hz eq_refl) ltac:(lia) Hrest). cf_simpl.
  rewrite store_some; [|exact Hmap|cf_simpl; lia]. cf_simpl. set (rest' := drop (length buf) rest).
  assert (Hput : put (layout h 0 pad 0 rest) 24 buf = layout h 0 pad 0 (buf ++ rest')).
  { rewrite <- (take_drop (length buf) rest) at 1.
    apply (layout_put_body h 0 pad 0 [] (take (length buf) rest) buf); [done|done|].
    rewrite length_take. unfold size in *. lia. }
  rewrite Hput.
  assert (Hz' : zeros rest') by (by apply zeros_drop, Hz).
  destruct (adjust_new (set_file (layout h 0 pad 0 (buf ++ rest')) (set_file (layout h 0 pad 0 rest) f))
    h pad buf rest' 0) as (c & -> & Hc);
    [exact Hmap|cf_simpl; lia|exact Hh|exact Hp|reflexivity|exact Hsz|exact Hb|exact Hz'|exact Hfs|].
  cf_simpl. eexists. split; [done|]. split; [|done].
  assert (Hs' : size (layout h 0 pad (size buf) (buf ++ rest')) = size (file f)).
  { rewrite Hf, !size_layout, len_app by done. subst rest'. unfold size in *. rewrite length_drop. lia. }
  apply mklaid; cf_simpl.
  - exact Hup.
  - exact Hrw.
  - exact Hos.
  - exists h, pad, rest'. split; [exact Hh|]. split; [exact Hp|]. split; [reflexivity|].
    split; [intros _; exact Hz'|discriminate].
  - rewrite Hs', size_nil. lia.
  - rewrite Hs'. exact Hsm.
  - exact Hd.
  - exact Hsz.
  - rewrite size_nil. lia.
  - rewrite app_nil_r. exact Hb.
  - exact Hc.
  - exact Hr.
  - exact Hst.
  - exact Hfs.
Qed.

(** *** Sequences of operations *)

Inductive fop := FWrite (d : bytes) | FSync | FCycle.

Definition run_fop (o : fop) (f : cio_file) : option (Z * cio_file) :=
  match o with
  | FWrite d => cio_file_write ctx d f
  | FSync => cio_file_sync ctx f
  | FCycle => '(ret, f) ← cio_file_down ctx f; if ret =? 0 then cio_file_up_force ctx f else Some (ret, f)
  end.

Fixpoint run_fops (os : list fop) (f : cio_file) : option (Z * cio_file) :=
  match os with
  | [] => Some (0, f)
  | o :: os => '(ret, f) ← run_fop o f; if ret =? 0 then run_fops os f else Some (ret, f)
  end.

Definition written (o : fop) : bytes := match o with FWrite d => d | _ => [] end.

Lemma laid_fop f meta content o : laid f meta content -> is_bytes (written o) ->
  size (content ++ written o) < 2 ^ 32 ->
  exists f', run_fop o f = Some (0, f') /\ laid f' meta (content ++ written o).
Proof.
  intros Hl Hb Hsz. destruct o as [d| |]; simpl.
  - destruct (decide (d = [])) as [->|Hne].
    + exists f. rewrite app_nil_r. unfold cio_file_write. by rewrite size_nil.
    + simpl in *. rewrite len_app in Hsz. destruct (laid_write f meta content d Hl Hne Hb Hsz) as (f' & Hw & Hl' & _).
      by exists f'.
  - rewrite app_nil_r. destruct (laid_sync f meta content Hl) as (f' & Hw & Hl' & _). by exists f'.
  - rewrite app_nil_r. destruct (laid_down f meta content Hl) as (f1 & -> & Hd). cf_simpl.
    destruct (downed_up f1 meta content false Hd) as (f2 & Hu & Hl2); [done|]. by exists f2.
Qed.

Lemma laid_fops os : forall f meta content, laid f meta content -> is_bytes (concat (written <$> os)) ->
  size (content ++ concat (written <$> os)) < 2 ^ 32 ->
  exists f', run_fops os f = Some (0, f') /\ laid f' meta (content ++ concat (written <$> os)).
Proof.
  induction os as [|o os IH]; intros f meta content Hl Hb Hsz.
  - exists f. simpl. by rewrite app_nil_r.
  - cbn [fmap list_fmap concat] in *. apply Forall_app in Hb as [Hb1 Hb2]. rewrite app_assoc in Hsz |- *.
    destruct (laid_fop f meta content o Hl Hb1) as (f1 & Hr & Hl1).
    { rewrite len_app in Hsz. pose proof (len_nonneg (concat (written <$> os))). lia. }
    destruct (IH f1 meta _ Hl1 Hb2 Hsz) as (f2 & Hr2 & Hl2). exists f2. split; [|exact Hl2].
    cbn [run_fops]. rewrite Hr. exact Hr2.
Qed.

Lemma laid_read f meta cont : laid f meta cont -> content f = cont /\ metadata f = meta.
Proof.
  intros Hl. pose proof (laid_meta_len _ _ _ Hl) as Hml.
  destruct Hl as [_ _ _ (h & pad & rest & Hh & Hp & Hf & _) _ _ Hd _ _ _ _ _ _ _].
  unfold content, metadata, cio_file_st_get_content, cio_file_st_get_meta, CIO_FILE_HEADER_MIN.
  rewrite Hml, Hd, Hf. split; [by apply layout_sub_body|].
  apply (layout_sub_body h (size cont) pad (size meta) [] meta); done.
Qed.

(** Another process opens what was left on disk. *)
Lemma downed_open f meta content realloc : downed f meta content -> open_and_up ctx = true ->
  0 < realloc <= 2 ^ 32 ->
  exists f', cio_file_open ctx true realloc (file f) true [] = Some (CIO_OK, Some f') /\ laid f' meta content.
Proof.
  intros [_ _ _ Hf Hsm Hm Hc Hb _ _] Hup Hre.
  assert (Hd : downed (new_file true realloc (file f) []) meta content) by (by split).
  destruct (downed_up _ meta content true Hd) as (f' & Hu & Hl); [done|]. exists f'. split; [|exact Hl].
  unfold _cio_file_up in Hu. unfold cio_file_open. rewrite Hup in *. cbn [negb andb] in *.
  change (is_mapped (new_file true realloc (file f) [])) with false in Hu.
  change (is_open (new_file true realloc (file f) [])) with false in Hu. cbn match in Hu.
  destruct (cio_file_native_open (new_file true realloc (file f) [])) as [ret f1].
  destruct (negb (ret =? CIO_OK)) eqn:E1; [by apply negb_true_iff, Z.eqb_neq in E1; simplify_eq|].
  destruct (cio_file_update_size f1) as [ret2 f2].
  destruct (negb (ret2 =? CIO_OK)) eqn:E2; [by simplify_eq|].
  destruct (mmap_file ctx (fs_size f2) f2) as [[ret3 f3]|]; [|done]. cbn [mbind option_bind] in *.
  injection Hu as -> <-. done.
Qed.

(** *** Damage *)

(** What opening a file that is not empty comes to. *)
Lemma open_steps realloc disk : open_and_up ctx = true -> 0 < size disk ->
  let g := set_map true (size disk) (set_map false (size disk) (set_synced true (set_taint false
             (set_fs_size (size disk) (set_open true (new_file true realloc disk [])))))) in
  cio_file_open ctx true realloc disk true [] =
    '(cs, g) ← cio_file_st_get_content_len (size disk) g;
    if cs =? -1 then Some (CIO_CORRUPTED, None)
    else
      '(ret, f) ← cio_file_format_check ctx (set_fs_size (size disk) (set_data_size cs g));
      Some (if ret =? 0 then (CIO_OK, Some f) else (CIO_CORRUPTED, None)).
Proof.
  intros Hup Hs. unfold cio_file_open. rewrite Hup.
  unfold cio_file_native_open, cio_file_update_size, cio_file_native_get_size, mmap_file, sys, new_file. cf_simpl.
  rewrite (proj2 (Z.ltb_lt 0 (size disk))) by lia. unfold cio_file_native_map, sys. cf_simpl.
  rewrite (proj2 (Z.ltb_lt 0 (size disk))) by lia. cf_simpl.
  destruct (cio_file_st_get_content_len _ _) as [[cs g]|]; [|done]. cf_simpl.
  destruct (cs =? -1); [done|].
  destruct (cio_file_format_check _ _) as [[ret f]|]; [|done]. cf_simpl. by destruct (ret =? 0).
Qed.

Lemma le_bytes_val d : is_bytes d -> le_bytes (length d) (le_val d) = d.
Proof.
  induction d as [|x d IH]; intros Hd; [done|]. apply Forall_cons in Hd as [Hx Hd]. unfold is_byte in Hx. simpl.
  assert ((x + 256 * le_val d) mod 256 = x /\ (x + 256 * le_val d) / 256 = le_val d) as [-> ->].
  { Z.to_euclidean_division_equations. lia. }
  by rewrite IH.
Qed.

Lemma le_val_range d : is_bytes d -> 0 <= le_val d < 256 ^ Z.of_nat (length d).
Proof.
  induction d as [|x d IH]; intros Hd; [done|]. apply Forall_cons in Hd as [Hx Hd]. specialize (IH Hd).
  unfold is_byte in Hx. cbn [le_val length]. rewrite Nat2Z.inj_succ, Z.pow_succ_r by lia. lia.
Qed.

(** The stored checksum tells checksums apart. *)
Lemma hash_of_inj a b : 0 <= a < 2 ^ 32 -> 0 <= b < 2 ^ 32 -> hash_of a = hash_of b -> a = b.
Proof.
  assert (Hfin : forall c, 0 <= c < 2 ^ 32 -> 0 <= crc_finalize c < 2 ^ 32).
  { intros c Hc. apply lxor_range; lia. }
  assert (Hn : forall c, 0 <= c < 2 ^ 32 -> 0 <= htonl c < 2 ^ 32).
  { intros c Hc. unfold htonl. pose proof (le_val_range (be_bytes 4 (u32 c)) (bytes_be 4 _)) as Hr.
    rewrite length_be in Hr. exact Hr. }
  intros Ha Hb Heq. unfold hash_of in Heq. apply (f_equal le_val) in Heq.
  rewrite !le_val_bytes in Heq by (match goal with |- context [htonl ?c] => specialize (Hn c) end; change (256 ^ Z.of_nat 8) with (2 ^ 64);
    destruct Hn; [by apply Hfin|lia]).
  unfold htonl in Heq. rewrite !u32_small in Heq by (by apply Hfin).
  apply (f_equal (le_bytes 4)) in Heq. rewrite <- (length_be 4 (crc_finalize a)) in Heq at 1.
  rewrite <- (length_be 4 (crc_finalize b)) in Heq at 3. rewrite !le_bytes_val in Heq by apply bytes_be.
  unfold be_bytes in Heq. apply (f_equal (@rev Z)) in Heq. rewrite !rev_involutive in Heq.
  apply (f_equal le_val) in Heq. rewrite !le_val_bytes in Heq by (by apply Hfin).
  unfold crc_finalize in Heq. apply (f_equal (λ z, Z.lxor z 0xffffffff)) in Heq.
  rewrite !Z.lxor_assoc, Z.lxor_nilpotent, !Z.lxor_0_r in Heq. done.
Qed.

Lemma layout_take h n pad k body m : length h = 8%nat -> length pad = 8%nat -> (24 <= m)%nat ->
  take m (layout h n pad k body) = layout h n pad k (take (m - 24) body).
Proof.
  intros Hh Hp Hm. unfold layout. rewrite !app_assoc. rewrite take_app_ge.
  - rewrite !length_app, !length_be, Hh, Hp. done.
  - rewrite !length_app, !length_be, Hh, Hp. simpl. lia.
Qed.

Lemma layout_insert h n pad k body i y : length h = 8%nat -> length pad = 8%nat ->
  <[(24 + i)%nat := y]> (layout h n pad k body) = layout h n pad k (<[i := y]> body).
Proof.
  intros Hh Hp. unfold layout. rewrite !app_assoc.
  replace (24 + i)%nat with (length (((([CIO_FILE_ID_00; CIO_FILE_ID_01] ++ h) ++ be_bytes 4 n) ++ pad) ++ be_bytes 2 k) + i)%nat.
  - by rewrite insert_app_r.
  - rewrite !length_app, !length_be, Hh, Hp. done.
Qed.

(** A file with other bytes under the checksum of the right ones. *)
Lemma refuse_sum realloc h pad rest meta content : open_and_up ctx = true -> checksum ctx = true ->
  length h = 8%nat -> length pad = 8%nat -> size meta < 2 ^ 16 -> size content < 2 ^ 32 ->
  (content = [] -> zeros rest) -> is_bytes (meta ++ content) -> h <> hash_of (sum_of meta content) ->
  cio_file_open ctx true realloc (layout h (size content) pad (size meta) (meta ++ content ++ rest)) true []
    = Some (CIO_CORRUPTED, None).
Proof.
  intros Hup Hck Hh Hp Hm Hc Hz Hb Hne. pose proof (len_nonneg (meta ++ content ++ rest)).
  pose proof (len_nonneg content). pose proof (size_layout h (size content) pad (size meta) (meta ++ content ++ rest) Hh Hp).
  rewrite open_steps by (done || lia). cbv zeta.
  erewrite laid_content_len; [|exact Hh|exact Hp|reflexivity|exact Hm|exact Hc|exact Hz|lia]. cf_simpl.
  rewrite (proj2 (Z.eqb_neq (size content) (-1))) by lia.
  erewrite format_result; [|exact Hh|exact Hp|reflexivity|exact Hm|exact Hc|exact Hz|exact Hb|reflexivity].
  rewrite Hck, bool_decide_eq_false_2 by done. done.
Qed.

(** A file that is shorter than its header says. *)
Lemma refuse_short realloc h pad meta content body n : open_and_up ctx = true ->
  length h = 8%nat -> length pad = 8%nat -> size meta < 2 ^ 16 -> size content < 2 ^ 32 ->
  (0 < n)%nat -> Z.of_nat n < 24 + size meta + size content -> Z.of_nat n <= 24 + size body ->
  cio_file_open ctx true realloc (take n (layout h (size content) pad (size meta) body)) true []
    = Some (CIO_CORRUPTED, None).
Proof.
  intros Hup Hh Hp Hm Hc H0 Hn Hle. pose proof (len_nonneg content). pose proof (len_nonneg meta).
  set (disk := take n _). assert (Hs : size disk = Z.of_nat n).
  { subst disk. pose proof (size_layout h (size content) pad (size meta) body Hh Hp). unfold size in *.
    rewrite length_take. lia. }
  rewrite open_steps by (done || lia). cbv zeta. rewrite Hs. set (g := set_map _ _ _).
  destruct (decide (n < 24)%nat) as [Hlt|Hge].
  { unfold cio_file_st_get_content_len, CIO_FILE_HEADER_MIN. by rewrite (proj2 (Z.ltb_lt _ _)) by lia. }
  assert (Hd : disk = layout h (size content) pad (size meta) (take (n - 24) body)) by (apply layout_take; [done|done|lia]).
  assert (Hlen : forall x, file x = disk -> cio_file_st_get_content_len (Z.of_nat n) x = Some (size content, x)).
  { intros x Hx. unfold cio_file_st_get_content_len, CIO_FILE_HEADER_MIN, CIO_FILE_CONTENT_OFFSET.
    rewrite (proj2 (Z.ltb_ge _ _)) by lia. cbv zeta. rewrite Hx, Hd, layout_content_len, layout_meta_len by (done || lia).
    destruct (Z.eqb_spec (size content) 0) as [E0|_]; [|by rewrite !andb_false_r].
    rewrite (proj2 (Z.ltb_ge (22 + 2 + size meta) _)) by lia. by rewrite !andb_false_r. }
  rewrite Hlen by done. cf_simpl. rewrite (proj2 (Z.eqb_neq (size content) (-1))) by lia.
  unfold cio_file_format_check. cf_simpl. rewrite (proj2 (Z.eqb_neq (Z.of_nat n) 0)) by lia.
  change (file g) with disk. rewrite Hd at 1 2.
  destruct (layout_id h (size content) pad (size meta) (take (n - 24) body)) as [-> ->]. rewrite !Z.eqb_refl. cbn [negb orb].
  rewrite Hlen by done. cf_simpl. rewrite (proj2 (Z.eqb_neq (size content) (-1))) by lia.
  change (file g) with disk. rewrite Hd, layout_meta_len by (done || lia). unfold CIO_FILE_HEADER_MIN.
  by rewrite (proj2 (Z.ltb_lt _ _)) by lia.
Qed.

End Laid.

(** Opening a file and bringing it up: at once when there is room for one more
    chunk, otherwise on demand. *)
Definition load (ctx : cio_ctx) (realloc : Z) (disk : bytes) : option (Z * option cio_file) :=
  if open_and_up ctx then cio_file_open ctx true realloc disk true []
  else
    '(ret, o) ← cio_file_open ctx true realloc disk true [];
    match o with
    | None => Some (ret, None)
    | Some f => '(ret, f) ← cio_file_up_force ctx f;
                Some (ret, if ret =? CIO_OK then Some f else None)
    end.

(** The file is read the same way in both cases. *)
Lemma load_open ctx realloc disk : open_and_up ctx = false ->
  load ctx realloc disk =
  cio_file_open (mkctx (page_size ctx) (checksum ctx) (trim_files ctx) 0 1) true realloc disk true [].
Proof.
  intros Hup. unfold load. rewrite Hup. unfold cio_file_open. rewrite Hup.
  change (open_and_up (mkctx _ _ _ 0 1)) with true. cbn [negb].
  unfold cio_file_up_force, _cio_file_up, cio_file_native_open, cio_file_update_size,
    cio_file_native_get_size, sys, new_file. cf_simpl.
  match goal with |- context [mmap_file ctx ?n ?x] => set (g := x); set (k := n) end.
  match goal with |- context [mmap_file (mkctx ?a ?b ?c 0 1) k ?y] =>
    change (mmap_file (mkctx a b c 0 1) k y) with (mmap_file ctx k g) end.
  destruct (mmap_file ctx k g) as [[ret f]|]; [|done]. cf_simpl.
  destruct (Z.eqb_spec ret 0) as [->|Hne]; [done|]. by destruct ret.
Qed.

(** A file that is loaded, whether there is room at once or not. *)
Lemma load_new ctx realloc : 0 < page_size ctx <= 2 ^ 32 -> 0 < realloc <= 2 ^ 32 ->
  exists f, load ctx realloc [] = Some (CIO_OK, Some f) /\ laid ctx f [] [] /\
    alloc_size f = first_size ctx.
Proof.
  intros Hp Hre. destruct (open_and_up ctx) eqn:Hup.
  - unfold load. rewrite Hup. destruct (open_new ctx Hp realloc Hup Hre) as (f & Hf & Hl & Ha & _). eauto.
  - rewrite load_open by done.
    destruct (open_new (mkctx (page_size ctx) (checksum ctx) (trim_files ctx) 0 1) Hp realloc eq_refl Hre)
      as (f & Hf & Hl & Ha & _). exists f. split; [exact Hf|]. split; [|exact Ha].
    destruct Hl; split; assumption.
Qed.

Lemma load_downed ctx f meta content realloc : downed ctx f meta content -> 0 < realloc <= 2 ^ 32 ->
  exists f', load ctx realloc (file f) = Some (CIO_OK, Some f') /\ laid ctx f' meta content.
Proof.
  intros Hd Hre. destruct (open_and_up ctx) eqn:Hup.
  - unfold load. rewrite Hup. by apply downed_open.
  - rewrite load_open by done. set (x := mkctx _ _ _ 0 1).
    assert (Hdx : downed x f meta content) by (destruct Hd; split; assumption).
    destruct (downed_open x f meta content realloc Hdx eq_refl Hre) as (f' & Hf & Hl).
    exists f'. split; [exact Hf|]. destruct Hl; split; assumption.
Qed.

(** C8: a chunk file keeps what was written to it, at any number of chunks that
    are up.  A new file takes its metadata, which is not empty, shorter than
    65536 bytes and of a size twice which fits behind the 24 bytes of the header
    in the first page (C30 has what happens to a longer one), and any sequence
    of writes, syncs and changes to down and up again, below 4 GB of data, with
    the checksum and the trimming of files on or off, pages and steps of growth
    of 1 to 2^32 bytes, and system calls that succeed; no operation fails or stores outside its map; the content is the
    data written, in order, and the metadata is the one given; and another
    process that loads the file once it is down finds both. *)
Theorem chunk_file_keeps ctx realloc meta os :
  0 < page_size ctx <= 2 ^ 32 -> 0 < realloc <= 2 ^ 32 ->
  meta <> [] -> is_bytes meta -> size meta < 2 ^ 16 -> 24 + 2 * size meta <= first_size ctx ->
  is_bytes (concat (written <$> os)) -> size (concat (written <$> os)) < 2 ^ 32 ->
  exists f f1 f2 f3 f4,
    load ctx realloc [] = Some (CIO_OK, Some f) /\
    cio_file_write_metadata ctx meta f = Some (0, f1) /\
    run_fops ctx os f1 = Some (0, f2) /\
    content f2 = concat (written <$> os) /\ metadata f2 = meta /\
    cio_file_down ctx f2 = Some (0, f3) /\
    load ctx realloc (file f3) = Some (CIO_OK, Some f4) /\
    content f4 = concat (written <$> os) /\ metadata f4 = meta.
Proof.
  intros Hp Hre Hne Hb Hm Hfit Hbs Hsz.
  destruct (load_new ctx realloc Hp Hre) as (f & Hof & Hl & Ha). rewrite <- Ha in Hfit.
  destruct (laid_new_meta ctx f meta Hl Hne Hb Hm Hfit) as (f1 & Hwm & Hl1 & _).
  destruct (laid_fops ctx Hp os f1 meta [] Hl1 Hbs Hsz) as (f2 & Hrun & Hl2). cbn [app] in Hl2.
  destruct (laid_down ctx Hp f2 meta _ Hl2) as (f3 & Hdn & Hd).
  destruct (load_downed ctx f3 meta _ realloc Hd Hre) as (f4 & Hop & Hl4).
  destruct (laid_read ctx f2 meta _ Hl2) as [Hc2 Hm2]. destruct (laid_read ctx f4 meta _ Hl4) as [Hc4 Hm4].
  exists f, f1, f2, f3, f4. done.
Qed.

Lemma chunk_file_keeps_witness :
  let os := [FWrite (str "hello "); FCycle; FSync; FWrite (str "world")] in
  exists f f1 f2 f3 f4,
    load (ex_ctx true) 32768 [] = Some (CIO_OK, Some f) /\
    cio_file_write_metadata (ex_ctx true) (str "a.tag") f = Some (0, f1) /\
    run_fops (ex_ctx true) os f1 = Some (0, f2) /\
    content f2 = str "hello world" /\ metadata f2 = str "a.tag" /\
    cio_file_down (ex_ctx true) f2 = Some (0, f3) /\
    load (ex_ctx true) 32768 (file f3) = Some (CIO_OK, Some f4) /\
    content f4 = str "hello world" /\ metadata f4 = str "a.tag".
Proof.
  apply (chunk_file_keeps (ex_ctx true) 32768 (str "a.tag") [FWrite (str "hello "); FCycle; FSync; FWrite (str "world")]).
  - vm_compute. split; [reflexivity|discriminate].
  - vm_compute. split; [reflexivity|discriminate].
  - discriminate.
  - repeat (apply Forall_cons_2; [vm_compute; split; [discriminate|reflexivity]|]). apply Forall_nil_2.
  - reflexivity.
  - vm_compute. discriminate.
  - repeat (apply Forall_cons_2; [vm_compute; split; [discriminate|reflexivity]|]). apply Forall_nil_2.
  - reflexivity.
Defined.

(** C30: the first metadata of a new file is stored inside its map exactly when
    twice its size fits behind the header: [cio_file_write_metadata] moves as
    many bytes as the new metadata has, not as many as the content has.  A
    longer one, such as a tag of 2037 bytes with a page of 4096, writes beyond
    the end of the map. *)
Theorem new_metadata_in_bounds ctx realloc f meta :
  0 < page_size ctx <= 2 ^ 32 -> 0 < realloc <= 2 ^ 32 ->
  cio_file_open ctx true realloc [] true [] = Some (CIO_OK, Some f) -> open_and_up ctx = true ->
  meta <> [] -> is_bytes meta -> size meta < 2 ^ 16 ->
  is_Some (cio_file_write_metadata ctx meta f) <-> 24 + 2 * size meta <= first_size ctx.
Proof.
  intros Hp Hre Hof Hup Hne Hb Hm. destruct (open_new ctx Hp realloc Hup Hre) as (f0 & Hof0 & Hl & Ha & _).
  rewrite Hof in Hof0. injection Hof0 as <-. rewrite <- Ha. split.
  2:{ intros Hfit. destruct (laid_new_meta ctx f meta Hl Hne Hb Hm Hfit) as (f1 & -> & _). by eexists. }
  intros [x Hx]. apply Z.nlt_ge. intros Hlt. unfold cio_file_write_metadata in Hx.
  rewrite (l_up ctx _ _ _ Hl), (laid_meta_len ctx _ _ _ Hl), size_nil in Hx. cbn [negb] in Hx.
  assert (Hpos : 0 < size meta) by (unfold size; destruct meta; simpl; [done|lia]).
  rewrite (proj2 (Z.leb_gt (size meta) 0)) in Hx by done.
  pose proof (l_alloc ctx _ _ _ Hl) as Hal. pose proof (l_small ctx _ _ _ Hl) as Hsm. rewrite !size_nil in Hal.
  rewrite (l_data ctx _ _ _ Hl), size_nil in Hx. rewrite u64_small in Hx by lia.
  assert (Hmove : forall g, laid ctx g [] [] -> alloc_size g < 24 + 2 * size meta ->
            memmove (cio_file_st_get_meta + size meta) (cio_file_st_get_content (file g)) (size meta) g = None).
  { intros g Hg Hs. unfold memmove, cio_file_st_get_content, cio_file_st_get_meta, CIO_FILE_HEADER_MIN.
    rewrite (laid_meta_len ctx _ _ _ Hg), size_nil. pose proof (l_alloc ctx _ _ _ Hg) as Hgal.
    destruct (Z.leb_spec (24 + 0 + size meta) (alloc_size g)); [|done].
    unfold store. destruct (is_mapped g); [|done]. cbn [andb].
    assert (size (sub (file g) (24 + 0) (size meta)) = size meta) as ->.
    { unfold sub, size. rewrite length_take, length_drop. unfold size in *. lia. }
    by rewrite (proj2 (Z.leb_gt _ _)) by lia. }
  destruct (Z.ltb_spec (alloc_size f - 0) (size meta)) as [Hres|Hno].
  - unfold CIO_FILE_HEADER_MIN in Hx. rewrite u64_small in Hx by lia.
    destruct (laid_resize ctx f [] [] (size meta - 0 + 0 + 24) Hl) as (g & Hg & Hlg & Hag & _); [rewrite size_nil; lia|].
    rewrite Hg in Hx. cbn [negb Z.eqb CIO_OK] in Hx. rewrite Hmove in Hx; [done|done|lia].
  - cbn [negb Z.eqb CIO_OK] in Hx. rewrite Hmove in Hx by done. done.
Qed.

Lemma new_metadata_in_bounds_witness :
  exists f, cio_file_open (ex_ctx false) true 32768 [] true [] = Some (CIO_OK, Some f) /\
    is_Some (cio_file_write_metadata (ex_ctx false) (replicate 2036 (ch "a")) f) /\
    ~ is_Some (cio_file_write_metadata (ex_ctx false) (replicate 2037 (ch "a")) f).
Proof.
  destruct (cio_file_open (ex_ctx false) true 32768 [] true []) as [[ret [f|]]|] eqn:E; [|vm_compute in E; discriminate..].
  assert (Hret : ret = CIO_OK) by (vm_compute in E; injection E as <- _; reflexivity). subst ret. exists f.
  assert (Hb : forall n, is_bytes (replicate n (ch "a"))).
  { intros n. apply Forall_replicate. vm_compute. split; [discriminate|reflexivity]. }
  assert (Hp : 0 < page_size (ex_ctx false) <= 2 ^ 32) by (vm_compute; split; [reflexivity|discriminate]).
  assert (Hre : 0 < 32768 <= 2 ^ 32) by (vm_compute; split; [reflexivity|discriminate]).
  split; [reflexivity|]. split.
  - apply (new_metadata_in_bounds (ex_ctx false) 32768 f _ Hp Hre E);
      [reflexivity|discriminate|apply Hb|reflexivity|vm_compute; discriminate].
  - intros H. apply (new_metadata_in_bounds (ex_ctx false) 32768 f _ Hp Hre E) in H;
      [vm_compute in H; by apply H|reflexivity|discriminate|apply Hb|reflexivity].
Defined.

Lemma refused_at_open ctx realloc f meta content :
  downed ctx f meta content -> open_and_up ctx = true ->
  (forall i y, checksum ctx = true -> (i < length meta + length content)%nat -> is_byte y ->
     file f !! (24 + i)%nat <> Some y ->
     cio_file_open ctx true realloc (<[(24 + i)%nat := y]> (file f)) true [] = Some (CIO_CORRUPTED, None)) /\
  (forall n, (0 < n < 24 + length meta + length content)%nat ->
     cio_file_open ctx true realloc (take n (file f)) true [] = Some (CIO_CORRUPTED, None)).
Proof.
  intros [_ _ _ (h & pad & rest & Hh & Hp & -> & Hz & Hhash) _ Hm Hc Hb _ _] Hup. split.
  - intros i y Hck Hi Hy Hne. rewrite layout_insert, (app_assoc meta), insert_app_l in * by (done || rewrite length_app; lia).
    set (body := meta ++ content) in *. assert (Hlb : length body = (length meta + length content)%nat) by apply length_app.
    destruct (lookup_lt_is_Some_2 body i) as [x Hx]; [lia|].
    set (meta' := take (length meta) (<[i := y]> body)). set (content' := drop (length meta) (<[i := y]> body)).
    assert (Hsm : size meta' = size meta) by (unfold meta', size; rewrite length_take, length_insert; lia).
    assert (Hsc : size content' = size content) by (unfold content', size; rewrite length_drop, length_insert; lia).
    assert (Hbody : <[i := y]> body = meta' ++ content') by (symmetry; apply take_drop).
    rewrite Hbody, <- app_assoc, <- Hsm, <- Hsc. apply refuse_sum; try done; try lia.
    + intros Hnil. apply Hz, nil_length_inv. unfold size in Hsc. rewrite Hnil in Hsc. simpl in Hsc. lia.
    + rewrite <- Hbody. apply Forall_insert; done.
    + rewrite (Hhash Hck). intros Heq. apply hash_of_inj in Heq; [|by apply sum_of_range|].
      2:{ apply sum_of_range. rewrite <- Hbody. apply Forall_insert; done. }
      unfold sum_of in Heq. rewrite Hsm, <- Hbody in Heq. fold body in Heq.
      rewrite insert_take_drop in Heq by lia. rewrite <- (take_drop_middle body i x Hx), !app_assoc in Heq at 1.
      revert Heq. apply crc_ref_detects; [exact crc_init_range| |done|].
      * rewrite <- app_assoc, take_drop_middle by done. apply Forall_app_2; [apply bytes_be|done].
      * intros ->. apply Hne. unfold layout.
        replace (24 + i)%nat with (length (((([CIO_FILE_ID_00; CIO_FILE_ID_01] ++ h) ++ be_bytes 4 (size content)) ++ pad) ++ be_bytes 2 (size meta)) + i)%nat
          by (rewrite !length_app, !length_be, Hh, Hp; done).
        rewrite !app_assoc, <- (app_assoc _ body rest), lookup_app_r, Nat.add_comm, Nat.add_sub by lia.
        rewrite lookup_app_l by lia. done.
  - intros n Hn. apply refuse_short; try done; try lia; rewrite ?len_app; unfold size; lia.
Qed.

(** C31: a chunk file that was put down is refused, and reported as corrupted,
    when it is opened and brought up after damage, at once or, when too many
    chunks are up, on demand: with checksums, after any change of a byte of its
    metadata or its content; with or without them, when it was cut anywhere
    before the end of its content, but not to nothing: a file of 0 bytes is
    taken for a new chunk, without metadata and content.  Pages and steps of
    growth have 1 to 2^32 bytes, and system calls succeed. *)
Theorem damaged_chunk_refused ctx realloc f meta content :
  0 < page_size ctx <= 2 ^ 32 -> 0 < realloc <= 2 ^ 32 -> downed ctx f meta content ->
  (forall i y, checksum ctx = true -> (i < length meta + length content)%nat -> is_byte y ->
     file f !! (24 + i)%nat <> Some y ->
     load ctx realloc (<[(24 + i)%nat := y]> (file f)) = Some (CIO_CORRUPTED, None)) /\
  (forall n, (0 < n < 24 + length meta + length content)%nat ->
     load ctx realloc (take n (file f)) = Some (CIO_CORRUPTED, None)) /\
  (exists g, load ctx realloc (take 0 (file f)) = Some (CIO_OK, Some g) /\
     File.content g = [] /\ metadata g = []).
Proof.
  intros Hp Hre Hd. destruct (open_and_up ctx) eqn:Hup.
  - assert (Hl : forall disk, load ctx realloc disk = cio_file_open ctx true realloc disk true [])
      by (intros; unfold load; by rewrite Hup).
    destruct (refused_at_open ctx realloc f meta content Hd Hup) as [H1 H2].
    split; [|split]; [intros i y **; rewrite Hl; by apply H1|intros n Hn; rewrite Hl; by apply H2|].
    rewrite Hl. destruct (open_new ctx Hp realloc Hup Hre) as (g & Hg & Hlg & _). exists g.
    split; [done|]. by apply (laid_read ctx).
  - set (x := mkctx (page_size ctx) (checksum ctx) (trim_files ctx) 0 1).
    assert (Hl : forall disk, load ctx realloc disk = cio_file_open x true realloc disk true [])
      by (intros; by apply load_open).
    assert (Hdx : downed x f meta content) by (destruct Hd; by split).
    destruct (refused_at_open x realloc f meta content Hdx eq_refl) as [H1 H2].
    split; [|split]; [intros i y **; rewrite Hl; by apply H1|intros n Hn; rewrite Hl; by apply H2|].
    rewrite Hl. destruct (open_new x Hp realloc eq_refl Hre) as (g & Hg & Hlg & _). exists g.
    split; [done|]. by apply (laid_read x).
Qed.

Lemma damaged_chunk_refused_witness :
  exists f, downed (ex_ctx true) f (str "a.tag") (str "hello") /\
    load (ex_ctx true) 32768 (<[31%nat := ch "j"]> (file f)) = Some (CIO_CORRUPTED, None) /\
    load (ex_ctx true) 32768 (take 30 (file f)) = Some (CIO_CORRUPTED, None).
Proof.
  assert (Hp : 0 < page_size (ex_ctx true) <= 2 ^ 32) by (vm_compute; split; [reflexivity|discriminate]).
  destruct (open_new (ex_ctx true) Hp 32768) as (f & _ & Hl & Ha & _);
    [reflexivity|vm_compute; split; [reflexivity|discriminate]|].
  destruct (laid_new_meta (ex_ctx true) f (str "a.tag") Hl) as (f1 & _ & Hl1 & _); [discriminate| |reflexivity| |].
  { repeat (apply Forall_cons_2; [vm_compute; split; [discriminate|reflexivity]|]). apply Forall_nil_2. }
  { rewrite Ha. vm_compute. discriminate. }
  destruct (laid_write (ex_ctx true) Hp f1 (str "a.tag") [] (str "hello") Hl1) as (f2 & _ & Hl2 & _);
    [discriminate| |reflexivity|].
  { repeat (apply Forall_cons_2; [vm_compute; split; [discriminate|reflexivity]|]). apply Forall_nil_2. }
  destruct (laid_down (ex_ctx true) Hp f2 _ _ Hl2) as (f3 & _ & Hd). exists f3. split; [exact Hd|].
  destruct (damaged_chunk_refused (ex_ctx true) 32768 f3 _ _ Hp ltac:(vm_compute; split; [reflexivity|discriminate]) Hd) as (H1 & H2 & _). split.
  - apply (H1 7%nat); [reflexivity|vm_compute; lia|vm_compute; split; [discriminate|reflexivity]|].
    destruct Hd as [_ _ _ (h & pad & rest & Hh & Hpd & -> & _) _ _ _ _ _ _].
    do 8 (destruct h as [|? h]; [discriminate|]). destruct h; [|discriminate].
    do 8 (destruct pad as [|? pad]; [discriminate|]). destruct pad; [|discriminate]. discriminate.
  - apply H2. vm_compute. lia.
Defined.

(** Metadata that grows while there is content: as many bytes as the new
    metadata has are moved, the rest of the content is left where it was. *)
Example longer_metadata_loses_content :
  match '(_, o) ← cio_file_open (ex_ctx false) true 32768 [] true [];
        f ← o;
        '(_, f) ← cio_file_write_metadata (ex_ctx false) (str "t") f;
        '(_, f) ← cio_file_write (ex_ctx false) (str "0123456789") f;
        cio_file_write_metadata (ex_ctx false) (str "tag") f with
  | Some (ret, f) => ret = 0 /\ content f = str "01256789" ++ [0; 0]
  | None => False
  end.
Proof. vm_compute. done. Qed.

(** Shorter metadata in a file without content leaves the end of the old one
    behind it, which the rule for older files takes for content: all of the
    file counts as content once it went down and up. *)
Example shorter_metadata_invents_content :
  match '(_, o) ← cio_file_open (ex_ctx false) true 32768 [] true [];
        f ← o;
        '(_, f) ← cio_file_write_metadata (ex_ctx false) (str "tag") f;
        '(_, f) ← cio_file_write_metadata (ex_ctx false) (str "t") f;
        '(_, f) ← cio_file_down (ex_ctx false) f;
        cio_file_up (ex_ctx false) f with
  | Some (ret, f) => ret = CIO_OK /\ data_size f = 4096 - 24 - 1 /\ take 2 (content f) = str "ag"
  | None => False
  end.
Proof. vm_compute. done. Qed.

(** The bytes a new file starts with are not the checksum that the format check
    expects, which has the other byte order: a file that was never synced is
    refused. *)
Example initial_checksum_refused :
  hash_of (sum_of [] []) = [0x41; 0xd9; 0x12; 0xff; 0; 0; 0; 0] /\
  match '(_, o) ← cio_file_open (ex_ctx true) true 32768 [] true [];
        f ← o;
        cio_file_open (ex_ctx true) true 32768 (file f) true [] with
  | Some (ret, None) => ret = CIO_CORRUPTED
  | _ => False
  end.
Proof. vm_compute. done. Qed.

End ChunkFile.
