(* ===== verification/ChunkStore.v ===== *)
(** * Chunks as a store of content (lib/chunkio/src/cio_chunk.c)

    The two backends behind one interface: [ChunkStore] states what a chunk
    promises to the code that uses it, the memory and the file backend are its
    instances, and a chunk of either gives the same results. *)

From S2P Require Import Prelude.
From S2P Require Import Crc32.
From S2P Require Import Chunkio.
From S2P Require Import ChunkFile.

Module ChunkStore.
Import File Memfs Chunk ChunkFile.

(** *** The memory backend *)

Record mem_ok (m : cio_memfs) (meta content : bytes) : Prop := mkmem {
  m_meta : meta_data m = Some meta;
  m_len : buf_len m = size content;
  m_content : cio_memfs_content m = content;
  m_fits : buf_len m <= buf_size m;
  m_step : 0 < mem_realloc m
}.

Lemma mem_write m meta content buf : mem_ok m meta content ->
  exists m', cio_memfs_write [] buf m = (0, m', []) /\ mem_ok m' meta (content ++ buf).
Proof.
  intros [Hm Hl Hc Hf Hs]. unfold cio_memfs_write.
  destruct (Z.eqb_spec (size buf) 0) as [H0|H0].
  { exists m. split; [done|]. destruct buf; [rewrite app_nil_r; done|done]. }
  pose proof (len_nonneg buf). pose proof (len_nonneg content).
  match goal with |- context [if buf_size m - buf_len m <? size buf then ?x else ?y] =>
    set (data := if buf_size m - buf_len m <? size buf then x else y) end.
  assert (Hd : exists d, data = (true, d, []) /\ take (Z.to_nat (buf_len m)) d = content /\
            buf_len m + size buf <= size d).
  { subst data. destruct (Z.ltb_spec (buf_size m - buf_len m) (size buf)).
    - cbn [flb_malloc]. eexists. split; [done|]. unfold fallocate. split.
      + rewrite take_app_le; [done|]. unfold buf_size, size in *. lia.
      + pose proof (grow_reaches (mem_realloc m) (buf_len m + size buf) (buf_size m + mem_realloc m) Hs).
        rewrite len_app. unfold size at 2 3. rewrite length_replicate. unfold buf_size, size in *. lia.
    - eexists. split; [done|]. split; [done|]. unfold buf_size in *. lia. }
  destruct Hd as (d & -> & Hd & Hle). cbn [negb]. eexists. split; [done|].
  assert (Hput : put d (buf_len m) buf = content ++ buf ++ drop (Z.to_nat (buf_len m) + length buf) d).
  { unfold put. by rewrite Hd. }
  split; cbn; [done| | | |done].
  - rewrite len_app. lia.
  - unfold cio_memfs_content. cbn. rewrite Hput, app_assoc, Hl. apply take_app_length'.
    rewrite length_app. unfold size. lia.
  - unfold buf_size. cbn. rewrite Hput, !len_app.
    pose proof (len_nonneg (drop (Z.to_nat (buf_len m) + length buf) d)). lia.
Qed.

(** *** Either backend *)

Section Store.
Context (ctx : cio_ctx).
Hypothesis page_ok : 0 < page_size ctx <= 2 ^ 32.

Inductive chunk_ok (c : cio_chunk) (meta content : bytes) : Prop :=
  | ok_fs f : be c = FS f -> laid ctx f meta content -> chunk_ok c meta content
  | ok_mem m : be c = MEM m -> mem_ok m meta content -> chunk_ok c meta content.

Lemma chunk_write_ok c meta content buf : chunk_ok c meta content -> is_bytes buf ->
  size (content ++ buf) < 2 ^ 32 ->
  exists c', cio_chunk_write ctx [] buf c = Some (0, c') /\ chunk_ok c' meta (content ++ buf) /\ lock c' = lock c.
Proof.
  intros [f Hb Hl|m Hb Hm] Hbuf Hsz; unfold cio_chunk_write; rewrite Hb.
  - destruct (laid_fop ctx page_ok f meta content (FWrite buf) Hl Hbuf Hsz) as (f' & Hw & Hl').
    cbn [run_fop written] in *. rewrite Hw. cbn [mbind option_bind]. eexists. split; [done|].
    split; [by eapply ok_fs|done].
  - destruct (mem_write m meta content buf Hm) as (m' & -> & Hm'). eexists. split; [done|].
    split; [by eapply ok_mem|done].
Qed.

Lemma chunk_sync_ok c meta content : chunk_ok c meta content ->
  exists c', cio_chunk_sync ctx c = Some (0, c') /\ chunk_ok c' meta content /\ lock c' = lock c.
Proof.
  intros [f Hb Hl|m Hb Hm]; unfold cio_chunk_sync, on_file; rewrite Hb.
  - destruct (laid_sync ctx page_ok f meta content Hl) as (f' & -> & Hl' & _). cbn [mbind option_bind].
    eexists. split; [done|]. split; [by eapply ok_fs|done].
  - eexists. split; [done|]. split; [by eapply ok_mem|done].
Qed.

Lemma chunk_cycle_ok c meta content : chunk_ok c meta content ->
  exists c1 c2, cio_chunk_down ctx c = Some (0, c1) /\ cio_chunk_up_force ctx c1 = Some (0, c2) /\
    chunk_ok c2 meta content /\ lock c2 = lock c.
Proof.
  intros [f Hb Hl|m Hb Hm]; unfold cio_chunk_down, cio_chunk_up_force, on_file; rewrite Hb.
  - destruct (laid_down ctx page_ok f meta content Hl) as (f1 & -> & Hd). cbn [mbind option_bind with_be be].
    destruct (downed_up ctx f1 meta content false Hd) as (f2 & Hu & Hl2); [done|].
    exists (with_be (FS f1) c), (with_be (FS f2) c). split; [done|]. cbn [with_be be]. unfold cio_file_up_force.
    rewrite Hu. cbn [mbind option_bind].
    split; [done|]. split; [by eapply ok_fs; [reflexivity|]|done].
  - exists c, c. rewrite Hb. split; [done|]. split; [done|]. split; [by eapply ok_mem|done].
Qed.

Lemma mapped_stays f : is_mapped f = true -> mmap_file ctx 0 f = Some (CIO_OK, f).
Proof. intros H. unfold mmap_file. by rewrite H. Qed.

Lemma chunk_content_ok c meta content : chunk_ok c meta content ->
  exists c', cio_chunk_get_content ctx c = Some (0, content, c') /\ chunk_ok c' meta content /\ lock c' = lock c.
Proof.
  intros [f Hb Hl|m Hb Hm]; unfold cio_chunk_get_content; rewrite Hb.
  - rewrite mapped_stays by (by eapply laid_mapped). cbn [mbind option_bind Z.eqb CIO_OK].
    destruct (laid_read ctx f meta content Hl) as [-> _]. eexists. split; [done|]. split; [by eapply ok_fs|done].
  - rewrite (m_content _ _ _ Hm). exists c. split; [done|]. split; [by eapply ok_mem|done].
Qed.

Lemma chunk_meta_ok c meta content : chunk_ok c meta content -> meta <> [] ->
  exists c', cio_meta_read ctx c = Some (Some meta, c') /\ chunk_ok c' meta content /\ lock c' = lock c.
Proof.
  intros [f Hb Hl|m Hb Hm] Hne; unfold cio_meta_read; rewrite Hb.
  - rewrite mapped_stays by (by eapply laid_mapped). cbn [mbind option_bind Z.eqb CIO_OK negb].
    rewrite (laid_meta_len ctx _ _ _ Hl). destruct (laid_read ctx f meta content Hl) as [_ ->].
    rewrite (proj2 (Z.leb_gt _ _)) by (unfold size; destruct meta; simpl; [done|lia]).
    eexists. split; [done|]. split; [by eapply ok_fs|done].
  - rewrite (m_meta _ _ _ Hm). exists c. split; [done|]. split; [by eapply ok_mem|done].
Qed.

Lemma chunk_up c meta content : chunk_ok c meta content -> cio_chunk_is_up c = true.
Proof. intros [f Hb Hl|m Hb Hm]; unfold cio_chunk_is_up; rewrite Hb; [by eapply l_up|done]. Qed.

(** *** What a chunk promises

    A chunk is its metadata, its content and its lock. *)

Inductive cop := CWrite (d : bytes) | CCycle | CLock | CUnlock | CContent | CMeta | CSize.
Inductive answer := ACode (n : Z) | ABytes (d : bytes).

Definition run_cop (o : cop) (c : cio_chunk) : option (answer * cio_chunk) :=
  match o with
  | CWrite d => '(n, c) ← cio_chunk_write ctx [] d c; Some (ACode n, c)
  | CCycle => '(_, c) ← cio_chunk_down ctx c; '(n, c) ← cio_chunk_up_force ctx c; Some (ACode n, c)
  | CLock => '(n, c) ← cio_chunk_lock ctx c; Some (ACode n, c)
  | CUnlock => let '(n, c) := cio_chunk_unlock c in Some (ACode n, c)
  | CContent => '(n, d, c) ← cio_chunk_get_content ctx c; Some (ABytes d, c)
  | CMeta => '(m, c) ← cio_meta_read ctx c; Some (ABytes (default [] m), c)
  | CSize => Some (ACode (cio_chunk_get_content_size c), c)
  end.

Record abstract := mkabs { a_meta : bytes; a_content : bytes; a_lock : bool }.

Definition spec_cop (o : cop) (a : abstract) : answer * abstract :=
  match o with
  | CWrite d => (ACode 0, mkabs (a_meta a) (a_content a ++ d) (a_lock a))
  | CCycle => (ACode 0, a)
  | CLock => (ACode (if a_lock a then -1 else 0), mkabs (a_meta a) (a_content a) true)
  | CUnlock => (ACode (if a_lock a then 0 else -1), mkabs (a_meta a) (a_content a) false)
  | CContent => (ABytes (a_content a), a)
  | CMeta => (ABytes (a_meta a), a)
  | CSize => (ACode (size (a_content a)), a)
  end.

Fixpoint run_cops (os : list cop) (c : cio_chunk) : option (list answer * cio_chunk) :=
  match os with
  | [] => Some ([], c)
  | o :: os => '(x, c) ← run_cop o c; '(xs, c) ← run_cops os c; Some (x :: xs, c)
  end.

Fixpoint spec_cops (os : list cop) (a : abstract) : list answer * abstract :=
  match os with
  | [] => ([], a)
  | o :: os => let '(x, a) := spec_cop o a in let '(xs, a) := spec_cops os a in (x :: xs, a)
  end.

Definition added (o : cop) : bytes := match o with CWrite d => d | _ => [] end.

(** The chunk is the abstract one. *)
Definition models (c : cio_chunk) (a : abstract) : Prop :=
  chunk_ok c (a_meta a) (a_content a) /\ lock c = a_lock a /\ a_meta a <> [].

Lemma chunk_size c meta content : chunk_ok c meta content -> cio_chunk_get_content_size c = size content.
Proof. intros [f Hb Hl|m Hb Hm]; unfold cio_chunk_get_content_size; rewrite Hb; [by eapply l_data|by eapply m_len]. Qed.

Lemma cop_models o c a : models c a -> is_bytes (added o) -> size (a_content a ++ added o) < 2 ^ 32 ->
  exists c', run_cop o c = Some ((spec_cop o a).1, c') /\ models c' (spec_cop o a).2 /\
    a_content (spec_cop o a).2 = a_content a ++ added o.
Proof.
  intros (Hc & Hl & Hm) Hb Hs. destruct a as [meta content lk]. unfold models in *. destruct o as [d| | | | | |]; simpl in *.
  all: rewrite ?app_nil_r in *.
  - destruct (chunk_write_ok c meta content d Hc Hb Hs) as (c' & -> & Hc' & Hl'). exists c'.
    split; [done|]. split; [|done]. split; [done|]. by rewrite Hl'.
  - destruct (chunk_cycle_ok c meta content Hc) as (c1 & c2 & -> & Hu & Hc2 & Hl2). simpl. rewrite Hu.
    exists c2. split; [done|]. split; [|done]. split; [done|]. by rewrite Hl2.
  - unfold cio_chunk_lock. destruct (lock c) eqn:El; subst lk; simpl; [by exists c|].
    assert (Hc1 : chunk_ok (with_lock true c) meta content) by (destruct Hc; [by eapply ok_fs|by eapply ok_mem]).
    rewrite (chunk_up _ _ _ Hc1). destruct (chunk_sync_ok _ meta content Hc1) as (c2 & -> & Hc2 & Hl2).
    exists c2. split; [done|]. split; [|done]. split; [done|]. by rewrite Hl2.
  - unfold cio_chunk_unlock. destruct (lock c) eqn:El; subst lk; simpl; [|by exists c].
    exists (with_lock false c). split; [done|]. split; [|done].
    split; [destruct Hc; [by eapply ok_fs|by eapply ok_mem]|done].
  - destruct (chunk_content_ok c meta content Hc) as (c' & -> & Hc' & Hl'). exists c'.
    split; [done|]. split; [|done]. split; [done|]. by rewrite Hl'.
  - destruct (chunk_meta_ok c meta content Hc Hm) as (c' & -> & Hc' & Hl'). exists c'.
    split; [done|]. split; [|done]. split; [done|]. by rewrite Hl'.
  - rewrite (chunk_size c meta content Hc). by exists c.
Qed.

Lemma cops_model os : forall c a, models c a -> is_bytes (concat (added <$> os)) ->
  size (a_content a ++ concat (added <$> os)) < 2 ^ 32 ->
  exists c', run_cops os c = Some ((spec_cops os a).1, c') /\ models c' (spec_cops os a).2.
Proof.
  induction os as [|o os IH]; intros c a Hc Hb Hs; [by exists c|].
  cbn [fmap list_fmap concat] in *. apply Forall_app in Hb as [Hb1 Hb2]. rewrite app_assoc in Hs.
  destruct (cop_models o c a Hc Hb1) as (c1 & Hr & Hc1 & Ha1).
  { rewrite len_app in Hs. pose proof (len_nonneg (concat (added <$> os))). lia. }
  rewrite <- Ha1 in Hs. cbn [run_cops spec_cops]. rewrite Hr. destruct (spec_cop o a) as [x a1]. cbn [fst snd] in *.
  destruct (IH c1 a1 Hc1 Hb2 Hs) as (c2 & Hr2 & Hc2). cbn [mbind option_bind]. rewrite Hr2.
  destruct (spec_cops os a1) as [xs a2]. exists c2. done.
Qed.

End Store.

(** C15: the two backends of a chunk cannot be told apart: the same sequence of
    writes, changes to down and up, locks, unlocks and queries on a chunk in
    memory and on one in a file, with the same metadata, content and lock at the
    start, gives the same answers, which are those of a chunk that is just its
    metadata, its content and its lock. *)
Theorem chunk_backends_agree ctx f m meta content lk os :
  0 < page_size ctx <= 2 ^ 32 -> meta <> [] -> laid ctx f meta content -> mem_ok m meta content ->
  is_bytes (concat (added <$> os)) -> size (content ++ concat (added <$> os)) < 2 ^ 32 ->
  exists c1 c2,
    run_cops ctx os (mkch (FS f) lk false 0 0) = Some ((spec_cops os (mkabs meta content lk)).1, c1) /\
    run_cops ctx os (mkch (MEM m) lk false 0 0) = Some ((spec_cops os (mkabs meta content lk)).1, c2).
Proof.
  intros Hp Hne Hf Hm Hb Hs.
  destruct (cops_model ctx Hp os (mkch (FS f) lk false 0 0) (mkabs meta content lk)) as (c1 & H1 & _); [|done|done|].
  { split; [by eapply ok_fs|done]. }
  destruct (cops_model ctx Hp os (mkch (MEM m) lk false 0 0) (mkabs meta content lk)) as (c2 & H2 & _); [|done|done|].
  { split; [by eapply ok_mem|done]. }
  exists c1, c2. done.
Qed.

Lemma chunk_backends_agree_witness :
  exists f m c1 c2,
    run_cops (ex_ctx true) [CWrite (str "ab"); CCycle; CLock; CLock; CWrite (str "c"); CContent; CMeta; CSize]
      (mkch (FS f) false false 0 0) =
      Some ([ACode 0; ACode 0; ACode 0; ACode (-1); ACode 0; ABytes (str "abc"); ABytes (str "tag"); ACode 3], c1) /\
    run_cops (ex_ctx true) [CWrite (str "ab"); CCycle; CLock; CLock; CWrite (str "c"); CContent; CMeta; CSize]
      (mkch (MEM m) false false 0 0) =
      Some ([ACode 0; ACode 0; ACode 0; ACode (-1); ACode 0; ABytes (str "abc"); ABytes (str "tag"); ACode 3], c2).
Proof.
  assert (Hp : 0 < page_size (ex_ctx true) <= 2 ^ 32) by (vm_compute; split; [reflexivity|discriminate]).
  assert (Hb : forall s, forallb (λ c, (0 <=? c) && (c <? 256)) s = true -> is_bytes s).
  { intros s Hs. apply Forall_forall. intros x Hx. rewrite forallb_forall in Hs.
    apply list_elem_of_In, Hs, andb_true_iff in Hx as [H1 H2]. unfold is_byte. lia. }
  destruct (open_new (ex_ctx true) Hp 32768) as (f0 & _ & Hl0 & Ha & _);
    [reflexivity|vm_compute; split; [reflexivity|discriminate]|].
  destruct (laid_new_meta (ex_ctx true) f0 (str "tag") Hl0) as (f & _ & Hl & _);
    [discriminate|apply Hb; reflexivity|reflexivity|rewrite Ha; vm_compute; discriminate|].
  set (m := mkmf crc_init (Some (str "tag")) [] 0 32). exists f, m.
  apply (chunk_backends_agree (ex_ctx true) f m (str "tag") [] false
           [CWrite (str "ab"); CCycle; CLock; CLock; CWrite (str "c"); CContent; CMeta; CSize] Hp);
    [discriminate|exact Hl| |apply Hb; reflexivity|reflexivity].
  split; reflexivity || (vm_compute; discriminate).
Defined.

(** *** Where the backends fall short of what they promise *)

Definition ex_file : option cio_chunk :=
  '(_, o) ← cio_file_open (ex_ctx false) true 32768 [] true [];
  f ← o;
  '(_, c) ← cio_meta_write (ex_ctx false) [] (str "tag") (mkch (FS f) false false 0 0);
  '(_, c) ← cio_chunk_write (ex_ctx false) [] (str "good") c;
  Some c.

(** A rollback forgets the bytes in memory and leaves the length in the file:
    they are back once the chunk went down and up. *)
Example rollback_not_stored :
  match c ← ex_file;
        let c := (cio_chunk_tx_begin c).2 in
        '(_, c) ← cio_chunk_write (ex_ctx false) [] (str "bad") c;
        let c := (cio_chunk_tx_rollback c).2 in
        '(_, before, c) ← cio_chunk_get_content (ex_ctx false) c;
        '(_, c) ← cio_chunk_down (ex_ctx false) c;
        '(_, c) ← cio_chunk_up (ex_ctx false) c;
        '(_, after, _) ← cio_chunk_get_content (ex_ctx false) c;
        Some (before, after) with
  | Some (before, after) => before = str "good" /\ after = str "goodbad"
  | None => False
  end.
Proof. vm_compute. done. Qed.

(** Cutting a chunk with [cio_chunk_write_at] and no data, as
    [flb_input_chunk_map] does to drop a damaged end, does not reach the file
    either. *)
Example cut_not_stored :
  match c ← ex_file;
        '(_, c) ← cio_chunk_write_at (ex_ctx false) [] 2 [] c;
        '(_, before, c) ← cio_chunk_get_content (ex_ctx false) c;
        '(_, c) ← cio_chunk_down (ex_ctx false) c;
        '(_, c) ← cio_chunk_up (ex_ctx false) c;
        '(_, after, _) ← cio_chunk_get_content (ex_ctx false) c;
        Some (before, after) with
  | Some (before, after) => before = str "go" /\ after = str "good"
  | None => False
  end.
Proof. vm_compute. done. Qed.

End ChunkStore.
