(* ===== verification/Filters.v ===== *)
(** * Filters (src/flb_filter.c) and the count of records (src/flb_mp.c)

    [Mpack] skips over serialised values the way lib/mpack does, and counts
    them.  [Filters] is [flb_filter_do]: the filters of the configuration, in
    order, on a buffer of records.  The callback of a filter is a parameter: it
    takes the context of the filter, the records and the tag, and gives the
    context, a status and a new buffer. *)

From S2P Require Import Prelude.
From S2P Require Import Router.
From S2P Require Import Msgpack.

(** ** Counting serialised values *)

Module Mpack.
Import Msgpack.

(** What the first bytes say: a value of its own, bytes that follow, or so many
    values that follow. *)
Inductive mtag := MScalar | MBytes (n : Z) | MItems (n : Z).

(** [mpack_parse_tag] with extensions: the tag and its size; nothing when the
    data ends or the byte is reserved. *)
Definition sized (data : bytes) (n : nat) (f : bytes -> mtag) : option (mtag * nat) :=
  if (length data <? n)%nat then None else Some (f (take (n - 1) (drop 1 data)), n).

Definition mpack_parse_tag (data : bytes) : option (mtag * nat) :=
  match data with
  | [] => None
  | type :: _ =>
      if type <? 0x80 then Some (MScalar, 1%nat)
      else if type <? 0x90 then Some (MItems (2 * Z.land type 0x0f), 1%nat)
      else if type <? 0xa0 then Some (MItems (Z.land type 0x0f), 1%nat)
      else if type <? 0xc0 then Some (MBytes (Z.land type 0x1f), 1%nat)
      else if 0xe0 <=? type then Some (MScalar, 1%nat)
      else if type =? 0xc0 then Some (MScalar, 1%nat)
      else if type =? 0xc1 then None
      else if type <? 0xc4 then Some (MScalar, 1%nat)
      else if type =? 0xc4 then sized data 2 (λ d, MBytes (load d))
      else if type =? 0xc5 then sized data 3 (λ d, MBytes (load d))
      else if type =? 0xc6 then sized data 5 (λ d, MBytes (load d))
      else if type =? 0xc7 then sized data 3 (λ d, MBytes (load (take 1 d)))
      else if type =? 0xc8 then sized data 4 (λ d, MBytes (load (take 2 d)))
      else if type =? 0xc9 then sized data 6 (λ d, MBytes (load (take 4 d)))
      else if type =? 0xca then sized data 5 (λ _, MScalar)
      else if type =? 0xcb then sized data 9 (λ _, MScalar)
      else if type =? 0xcc then sized data 2 (λ _, MScalar)
      else if type =? 0xcd then sized data 3 (λ _, MScalar)
      else if type =? 0xce then sized data 5 (λ _, MScalar)
      else if type =? 0xcf then sized data 9 (λ _, MScalar)
      else if type =? 0xd0 then sized data 2 (λ _, MScalar)
      else if type =? 0xd1 then sized data 3 (λ _, MScalar)
      else if type =? 0xd2 then sized data 5 (λ _, MScalar)
      else if type =? 0xd3 then sized data 9 (λ _, MScalar)
      else if type =? 0xd4 then sized data 2 (λ _, MBytes 1)
      else if type =? 0xd5 then sized data 2 (λ _, MBytes 2)
      else if type =? 0xd6 then sized data 2 (λ _, MBytes 4)
      else if type =? 0xd7 then sized data 2 (λ _, MBytes 8)
      else if type =? 0xd8 then sized data 2 (λ _, MBytes 16)
      else if type =? 0xd9 then sized data 2 (λ d, MBytes (load d))
      else if type =? 0xda then sized data 3 (λ d, MBytes (load d))
      else if type =? 0xdb then sized data 5 (λ d, MBytes (load d))
      else if type =? 0xdc then sized data 3 (λ d, MItems (load d))
      else if type =? 0xdd then sized data 5 (λ d, MItems (load d))
      else if type =? 0xde then sized data 3 (λ d, MItems (2 * load d))
      else sized data 5 (λ d, MItems (2 * load d))
  end.

(** [mpack_discard]: [pending] counts the calls that are still to be made, for
    the items of the containers that were entered.  A value takes at least a
    byte, so there are as many steps as bytes. *)
Fixpoint discard (fuel : nat) (pending : Z) (data : bytes) : option bytes :=
  if pending <=? 0 then Some data
  else
    match fuel with
    | O => None
    | S n =>
        match mpack_parse_tag data with
        | None => None
        | Some (tag, h) =>
            let data := drop h data in
            match tag with
            | MScalar => discard n (pending - 1) data
            | MBytes l => if Z.of_nat (length data) <? l then None
                          else discard n (pending - 1) (drop (Z.to_nat l) data)
            | MItems k => discard n (pending - 1 + k) data
            end
        end
    end.

Definition mpack_discard (data : bytes) : option bytes := discard (length data) 1 data.

(** The count, and the bytes that were left before the value that failed. *)
Fixpoint count_loop (fuel : nat) (count : Z) (data : bytes) : Z * Z :=
  match fuel with
  | O => (count, Z.of_nat (length data))
  | S n =>
      if (length data =? 0)%nat then (count, 0)
      else
        match mpack_discard data with
        | None => (count, Z.of_nat (length data))
        | Some rest => count_loop n (count + 1) rest
        end
  end.

Definition flb_mp_count_remaining (data : bytes) : Z * Z := count_loop (S (length data)) 0 data.
Definition flb_mp_count (data : bytes) : Z := (flb_mp_count_remaining data).1.

Example counts :
  flb_mp_count (pack sample ++ pack sample ++ [0x93; 0xc0]) = 2 /\
  flb_mp_count_remaining (pack sample ++ [0xc1; 0xc0]) = (1, 2).
Proof. vm_compute. done. Qed.

(** *** Every value that was packed is skipped *)

(** [h] is the header of a value with this tag. *)
Definition tagged (h : bytes) (tag : mtag) : Prop :=
  forall rest, mpack_parse_tag (h ++ rest) = Some (tag, length h).

(** [enc] is skipped as [k] values, whatever follows. *)
Definition skips (k : Z) (enc : bytes) : Prop :=
  exists steps : nat, (steps <= length enc)%nat /\
    forall n rest pending, 0 <= pending ->
      discard (steps + n) (pending + k) (enc ++ rest) = discard n pending rest.

Lemma tagged_sized b n f s tag :
  (forall d, mpack_parse_tag (b :: d) = sized (b :: d) (S n) f) -> length s = n -> f s = tag ->
  tagged (b :: s) tag.
Proof.
  intros Hb <- <- rest. rewrite <- app_comm_cons, Hb. unfold sized.
  rewrite (proj2 (Nat.ltb_ge _ _)) by (simpl; rewrite length_app; lia).
  simpl. by rewrite Nat.sub_0_r, drop_0, take_app_length.
Qed.

Lemma tagged_byte b tag : (forall d, mpack_parse_tag (b :: d) = Some (tag, 1%nat)) -> tagged [b] tag.
Proof. intros H rest. apply H. Qed.

Lemma skips_nil : skips 0 [].
Proof. exists 0%nat. split; [done|]. intros n rest pending ?. by rewrite Z.add_0_r. Qed.

Lemma skips_app k1 k2 e1 e2 : 0 <= k1 -> 0 <= k2 -> skips k1 e1 -> skips k2 e2 -> skips (k1 + k2) (e1 ++ e2).
Proof.
  intros ?? (s1 & ? & Hs1) (s2 & ? & Hs2). exists (s1 + s2)%nat. split; [rewrite length_app; lia|].
  intros n rest pending ?. rewrite <- Nat.add_assoc, <- app_assoc.
  replace (pending + (k1 + k2)) with ((pending + k2) + k1) by lia.
  rewrite Hs1 by lia. apply Hs2. lia.
Qed.

(** The first step on [h], whose tag is known. *)
Lemma discard_step h tag n pending rest : tagged h tag -> 0 < pending ->
  discard (S n) pending (h ++ rest) =
  match tag with
  | MScalar => discard n (pending - 1) rest
  | MBytes l => if Z.of_nat (length rest) <? l then None else discard n (pending - 1) (drop (Z.to_nat l) rest)
  | MItems k => discard n (pending - 1 + k) rest
  end.
Proof.
  intros Ht ?. cbn [discard]. rewrite (proj2 (Z.leb_gt _ _)) by lia. rewrite Ht.
  cbv zeta. by rewrite drop_app_length.
Qed.

Lemma skips_scalar h : h <> [] -> tagged h MScalar -> skips 1 h.
Proof.
  intros Hh Ht. exists 1%nat. split; [by destruct h; [|simpl; lia]|].
  intros n rest pending ?. simpl Nat.add. rewrite (discard_step _ _ _ _ _ Ht) by lia. f_equal. lia.
Qed.

Lemma skips_bytes h s : h <> [] -> tagged h (MBytes (size s)) -> skips 1 (h ++ s).
Proof.
  intros Hh Ht. exists 1%nat. split; [destruct h; [done|simpl; lia]|].
  intros n rest pending ?. rewrite <- app_assoc. simpl Nat.add.
  rewrite (discard_step _ _ _ _ _ Ht) by lia. unfold size.
  rewrite (proj2 (Z.ltb_ge _ _)) by (rewrite length_app; lia).
  rewrite Nat2Z.id, drop_app_length. f_equal. lia.
Qed.

Lemma skips_items h k s : 0 <= k -> h <> [] -> tagged h (MItems k) -> skips k s -> skips 1 (h ++ s).
Proof.
  intros ? Hh Ht (steps & ? & Hs). exists (S steps).
  split; [destruct h; [done|simpl; rewrite length_app; lia]|].
  intros n rest pending ?. rewrite <- app_assoc. simpl Nat.add.
  rewrite (discard_step _ _ _ _ _ Ht) by lia.
  replace (pending + 1 - 1 + k) with (pending + k) by lia. by apply Hs.
Qed.

(** The headers that the packer writes. *)
Ltac tag_sized :=
  eapply tagged_sized;
    [intros; reflexivity|simpl; rewrite ?length_app, ?length_store; reflexivity|cbv beta].

Ltac one_by_one n k := pattern n; apply (below_ind _ k); [repeat constructor|lia].

Lemma tagged_array n : 0 <= n < 2 ^ 32 -> tagged (msgpack_pack_array n) (MItems n).
Proof.
  intros H. unfold msgpack_pack_array. zcase.
  - rewrite u8_small by lia. apply tagged_byte. one_by_one n 16%nat.
  - tag_sized. by rewrite load_store_small by lia.
  - tag_sized. by rewrite load_store_small by lia.
Qed.

Lemma tagged_map n : 0 <= n < 2 ^ 32 -> tagged (msgpack_pack_map n) (MItems (2 * n)).
Proof.
  intros H. unfold msgpack_pack_map. zcase.
  - rewrite u8_small by lia. apply tagged_byte. one_by_one n 16%nat.
  - tag_sized. by rewrite load_store_small by lia.
  - tag_sized. by rewrite load_store_small by lia.
Qed.

Lemma tagged_str n : 0 <= n < 2 ^ 32 -> tagged (msgpack_pack_str n) (MBytes n).
Proof.
  intros H. unfold msgpack_pack_str. zcase.
  - rewrite u8_small by lia. apply tagged_byte. one_by_one n 32%nat.
  - tag_sized. by rewrite load_u8, u8_small by lia.
  - tag_sized. by rewrite load_store_small by lia.
  - tag_sized. by rewrite load_store_small by lia.
Qed.

Lemma tagged_bin n : 0 <= n < 2 ^ 32 -> tagged (msgpack_pack_bin n) (MBytes n).
Proof.
  intros H. unfold msgpack_pack_bin. zcase; tag_sized; by rewrite ?load_u8, ?u8_small, ?load_store_small by lia.
Qed.

Lemma tagged_ext n type : 0 <= n < 2 ^ 32 -> tagged (msgpack_pack_ext n type) (MBytes n).
Proof.
  intros H. unfold msgpack_pack_ext.
  assert (Hg : tagged (if n <? 256 then [0xc7; u8 n; u8 type]
      else if n <? 65536 then 0xc8 :: store 2 n ++ [u8 type]
      else 0xc9 :: store 4 n ++ [u8 type]) (MBytes n)).
  { zcase; tag_sized; rewrite ?take_app_le, ?firstn_all2 by (rewrite ?length_store; simpl; lia);
      cbn [take]; by rewrite ?load_u8, ?u8_small, ?load_store_small by lia. }
  repeat (case_match; try exact Hg); tag_sized; reflexivity.
Qed.

Lemma tagged_uint64 d : 0 <= d < 2 ^ 64 -> tagged (msgpack_pack_real_uint64 d) MScalar.
Proof.
  intros H. unfold msgpack_pack_real_uint64. zcase; [|by tag_sized..].
  rewrite u8_small by lia. apply tagged_byte. intros r. unfold mpack_parse_tag.
  by rewrite (proj2 (Z.ltb_lt _ _)) by lia.
Qed.

Lemma tagged_int64 d : - 2 ^ 63 <= d < 0 -> tagged (msgpack_pack_real_int64 d) MScalar.
Proof.
  intros H. unfold msgpack_pack_real_int64. zcase; try lia; try (by tag_sized).
  apply tagged_byte. intros r. replace d with (d + 32 - 32) by lia.
  one_by_one (d + 32) 32%nat.
Qed.

Lemma pack_header_nonempty n :
  msgpack_pack_array n <> [] /\ msgpack_pack_map n <> [] /\ msgpack_pack_str n <> [] /\ msgpack_pack_bin n <> [].
Proof.
  unfold msgpack_pack_array, msgpack_pack_map, msgpack_pack_str, msgpack_pack_bin.
  repeat split; repeat case_match; done.
Qed.

Lemma skips_concat {A} (f : A -> bytes) k l : 0 <= k -> Forall (λ x, skips k (f x)) l ->
  skips (k * Z.of_nat (length l)) (concat (map f l)).
Proof.
  intros Hk. induction 1 as [|x l Hx Hl IH]; simpl length; simpl concat.
  - rewrite Z.mul_0_r. apply skips_nil.
  - replace (k * Z.of_nat (S (length l))) with (k + k * Z.of_nat (length l)) by lia.
    apply skips_app; [lia..|done|done].
Qed.

Lemma skips_leaf o : match o with MSGPACK_OBJECT_ARRAY _ | MSGPACK_OBJECT_MAP _ => False | _ => True end ->
  wf o -> skips 1 (pack o).
Proof.
  destruct o; intros Ho; try done; unfold pack; cbn [msgpack_pack_object concat wf]; rewrite ?app_nil_r; intros H;
    try (by apply skips_scalar; [|apply tagged_byte]).
  - destruct boolean; by apply skips_scalar; [|apply tagged_byte].
  - apply skips_scalar; [|by apply tagged_uint64]. unfold msgpack_pack_real_uint64. by repeat case_match.
  - apply skips_scalar; [|by apply tagged_int64]. unfold msgpack_pack_real_int64. by repeat case_match.
  - apply skips_scalar; [done|]. by tag_sized.
  - apply skips_scalar; [done|]. by tag_sized.
  - apply skips_bytes; [apply pack_header_nonempty|apply tagged_str; unfold size in *; lia].
  - apply skips_bytes; [apply pack_header_nonempty|apply tagged_bin; unfold size in *; lia].
  - apply skips_bytes; [|apply tagged_ext; unfold size in *; lia].
    unfold msgpack_pack_ext. by repeat case_match.
Qed.

(** A value that was packed is skipped as one value. *)
Lemma skips_pack o : wf o -> skips 1 (pack o).
Proof.
  revert o. apply (obj_ind' (λ o, wf o -> skips 1 (pack o))); [intros o|intros l IH..].
  - by destruct o; try done; apply skips_leaf.
  - cbn [wf]. rewrite foldr_and_Forall. intros [Hl Hw]. unfold pack. cbn [msgpack_pack_object concat].
    rewrite concat_map_concat. eapply (skips_items _ (1 * Z.of_nat (length l)));
      [lia|apply pack_header_nonempty|rewrite Z.mul_1_l; apply tagged_array; lia|].
    apply skips_concat; [lia|]. rewrite Forall_forall in IH, Hw |- *.
    intros o Ho. apply (IH o Ho (Hw o Ho)).
  - cbn [wf]. rewrite foldr_and_Forall. intros [Hl Hw]. unfold pack. cbn [msgpack_pack_object concat].
    rewrite concat_map_concat.
    eapply (skips_items _ (2 * Z.of_nat (length l))); [lia|apply pack_header_nonempty|apply tagged_map; lia|].
    apply skips_concat; [lia|]. rewrite Forall_forall in IH, Hw |- *.
    intros kv Hkv. destruct (IH kv Hkv) as [IHk IHv], (Hw kv Hkv) as [Hk Hv]. rewrite concat_app.
    apply (skips_app 1 1); [lia..|apply (IHk Hk)|apply (IHv Hv)].
Qed.

Lemma discard_packed o rest : wf o -> mpack_discard (pack o ++ rest) = Some rest.
Proof.
  intros (steps & Hs & H)%skips_pack. unfold mpack_discard. rewrite length_app.
  replace (length (pack o) + length rest)%nat with (steps + (length (pack o) - steps + length rest))%nat by lia.
  rewrite (H _ _ 0) by lia. by destruct (length (pack o) - steps + length rest)%nat.
Qed.

Lemma count_loop_packed objs tail fuel count : Forall wf objs ->
  tail = [] \/ mpack_discard tail = None ->
  (length (concat (map pack objs) ++ tail) < fuel)%nat ->
  count_loop fuel count (concat (map pack objs) ++ tail) =
  (count + Z.of_nat (length objs), Z.of_nat (length tail)).
Proof.
  intros Hw Ht. revert fuel count. induction Hw as [|o objs Ho Hw IH]; intros [|fuel] count Hf; try lia;
    cbn [count_loop map concat app length] in *.
  - destruct Ht as [->|Ht]; simpl; [by rewrite Z.add_0_r|].
    destruct tail as [|b tail]; simpl; rewrite ?Ht; by rewrite Z.add_0_r.
  - pose proof (pack_nonempty o) as Hne. rewrite <- app_assoc.
    rewrite (proj2 (Nat.eqb_neq _ _)).
    2:{ destruct (pack o); [done|]. simpl. lia. }
    rewrite discard_packed by done. rewrite IH; [f_equal; lia|].
    rewrite <- app_assoc, length_app in Hf. destruct (pack o); [done|]. simpl in Hf. lia.
Qed.

(** On serialised records, followed by nothing or by bytes that are no
    value, [flb_mp_count_remaining] counts each record once and tells how many
    bytes are left. *)
Theorem mp_count_exact objs tail : Forall wf objs -> tail = [] \/ mpack_discard tail = None ->
  flb_mp_count_remaining (concat (map pack objs) ++ tail) =
  (Z.of_nat (length objs), Z.of_nat (length tail)).
Proof. intros. apply count_loop_packed; [done..|lia]. Qed.

Lemma mp_count_exact_witness :
  flb_mp_count_remaining
    (concat (map pack [MSGPACK_OBJECT_MAP [(MSGPACK_OBJECT_STR [97], MSGPACK_OBJECT_POSITIVE_INTEGER 300)];
                       MSGPACK_OBJECT_ARRAY [MSGPACK_OBJECT_NIL]]) ++ [0x93; 0xc0]) = (2, 2).
Proof.
  apply (mp_count_exact [MSGPACK_OBJECT_MAP [(MSGPACK_OBJECT_STR [97], MSGPACK_OBJECT_POSITIVE_INTEGER 300)];
                         MSGPACK_OBJECT_ARRAY [MSGPACK_OBJECT_NIL]] [0x93; 0xc0]).
  - repeat constructor; vm_compute; done.
  - right. reflexivity.
Defined.

End Mpack.

(** ** The filters on a buffer of records *)

Module Filters.
Import Match Mpack.

Definition FLB_FILTER_MODIFIED : Z := 1.
Definition FLB_FILTER_NOTOUCH : Z := 2.

(** [is_active], on the properties of the instance. *)
Fixpoint is_active (in_properties : list (bytes * bytes)) : bool :=
  match in_properties with
  | [] => true
  | (k, v) :: l =>
      if strcasecmp_is k (str "active") && (strcasecmp_is v (str "FALSE") || strcmp_eq v (str "0"))
      then false
      else is_active l
  end.

(** The counters of an instance; the code keeps each of them twice, as a
    cmetrics counter and as an old metric, and adds the same to both. *)
Record counters := {
  n_records : Z; n_bytes : Z; n_added : Z; n_dropped : Z; n_dropped_bytes : Z }.

Definition count_call (in_records out_size : Z) (c : counters) : counters :=
  {| n_records := n_records c + in_records; n_bytes := n_bytes c + out_size;
     n_added := n_added c; n_dropped := n_dropped c; n_dropped_bytes := n_dropped_bytes c |}.
Definition count_dropped (diff bytes : Z) (c : counters) : counters :=
  {| n_records := n_records c; n_bytes := n_bytes c; n_added := n_added c;
     n_dropped := n_dropped c + diff; n_dropped_bytes := n_dropped_bytes c + bytes |}.
Definition count_added (diff bytes : Z) (c : counters) : counters :=
  {| n_records := n_records c; n_bytes := n_bytes c; n_added := n_added c + diff;
     n_dropped := n_dropped c; n_dropped_bytes := n_dropped_bytes c + bytes |}.

(** Where the records being worked on are: the caller's buffer, the buffer
    that the [n]th filter made, or nowhere. *)
Inductive ptr := NULL | Given | Made (n : nat).
#[global] Instance ptr_eq : EqDecision ptr.
Proof. solve_decision. Defined.

Section Do.
Context {regex context : Type}.
Variable onig_match : regex -> bytes -> Z.

(** [cb_filter] takes the records, the tag and the private context. It gives
    the status, the new buffer ([None] for NULL) and the context. *)
Record flb_filter_instance := {
  f_match : option bytes;
  f_match_regex : option regex;
  f_properties : list (bytes * bytes);
  f_cb : bytes -> bytes -> context -> Z * option bytes * context;
  f_context : context;
  f_counters : counters }.

Definition called (f : flb_filter_instance) (c : context) (n : counters) : flb_filter_instance :=
  {| f_match := f_match f; f_match_regex := f_match_regex f; f_properties := f_properties f;
     f_cb := f_cb f; f_context := c; f_counters := n |}.

(** The variables of [flb_filter_do]: the buffer, what it holds, the number of
    its records, [ic->total_records], and the buffers that were freed. *)
Record work := {
  work_data : ptr; work_bytes : bytes; in_records : Z; total_records : Z; freed : list ptr }.

Definition flb_free (p : ptr) (l : list ptr) : list ptr :=
  match p with NULL => l | p => l ++ [p] end.

Definition selected (ntag : bytes) (tag_len : Z) (f : flb_filter_instance) : bool :=
  is_active (f_properties f) &&
  flb_router_match onig_match (Some ntag) tag_len (f_match f) (f_match_regex f).

(** What follows a callback that answered FLB_FILTER_MODIFIED: the variables,
    the counters, and whether the loop ends. *)
Definition modified (ingested_size pre_records : Z) (i : nat) (out_buf : option bytes) (w : work) (n : counters) :
    work * counters * bool :=
  let out := default [] out_buf in
  let out_size := Z.of_nat (length out) in
  let freed := if bool_decide (work_data w = Given) then freed w else flb_free (work_data w) (freed w) in
  let p := match out_buf with None => NULL | Some _ => Made i end in
  let dropped_size := if out_size <? ingested_size then ingested_size - out_size else 0 in
  if out_size =? 0 then
    ({| work_data := p; work_bytes := out; in_records := in_records w; total_records := pre_records;
        freed := freed |}, count_dropped (in_records w) dropped_size n, true)
  else
    let out_records := flb_mp_count out in
    let n :=
      if in_records w <? out_records then count_added (out_records - in_records w) dropped_size n
      else if out_records <? in_records w then count_dropped (in_records w - out_records) dropped_size n
      else n in
    ({| work_data := p; work_bytes := out; in_records := out_records;
        total_records := pre_records + out_records; freed := freed |}, n, false).

(** The loop over the filters, the first of which is the [i]th. *)
Fixpoint filters_loop (ingested_size pre_records : Z) (ntag : bytes) (tag_len : Z)
    (i : nat) (fs : list flb_filter_instance) (w : work) : work * list flb_filter_instance :=
  match fs with
  | [] => (w, [])
  | f :: fs =>
      if selected ntag tag_len f then
        let '(ret, out_buf, c) := f_cb f (work_bytes w) ntag (f_context f) in
        let n := count_call (in_records w) (Z.of_nat (length (default [] out_buf))) (f_counters f) in
        if ret =? FLB_FILTER_MODIFIED then
          let '(w, n, stop) := modified ingested_size pre_records i out_buf w n in
          if stop then (w, called f c n :: fs)
          else
            let '(w, fs) := filters_loop ingested_size pre_records ntag tag_len (S i) fs w in
            (w, called f c n :: fs)
        else
          let '(w, fs) := filters_loop ingested_size pre_records ntag tag_len (S i) fs w in
          (w, called f c n :: fs)
      else
        let '(w, fs) := filters_loop ingested_size pre_records ntag tag_len (S i) fs w in (w, f :: fs)
  end.

(** [flb_filter_do]: the filters after the call, the final variables, and the
    allocations left.  The tag is copied first; when that fails the output is
    NULL and nothing else happens. *)
Definition flb_filter_do (t : tape) (added_records total : Z) (data tag : bytes) (tag_len : nat)
    (fs : list flb_filter_instance) : work * list flb_filter_instance * tape :=
  let '(ok, t) := flb_malloc t in
  if negb ok then
    ({| work_data := NULL; work_bytes := []; in_records := 0; total_records := total; freed := [] |}, fs, t)
  else
    let ntag := take tag_len tag in
    let '(w, fs) :=
      filters_loop (Z.of_nat (length data)) (total - added_records) ntag (Z.of_nat tag_len) 0 fs
        {| work_data := Given; work_bytes := data; in_records := added_records;
           total_records := total; freed := [] |} in
    (w, fs, t).

(** *** What the filters did *)

(** The modifications, in order: which filter made one, and its buffer.  A
    filter sees the records of the last modification, and an empty buffer ends
    the loop. *)
Fixpoint changes (ntag : bytes) (tag_len : Z) (i : nat) (fs : list flb_filter_instance) (data : bytes) :
    list (nat * option bytes) :=
  match fs with
  | [] => []
  | f :: fs =>
      if selected ntag tag_len f then
        let '(ret, out, _) := f_cb f data ntag (f_context f) in
        if ret =? FLB_FILTER_MODIFIED then
          (i, out) :: match default [] out with
                      | [] => []
                      | new => changes ntag tag_len (S i) fs new
                      end
        else changes ntag tag_len (S i) fs data
      else changes ntag tag_len (S i) fs data
  end.

Definition change_ptr (c : nat * option bytes) : ptr :=
  match c.2 with None => NULL | Some _ => Made c.1 end.

(** The buffer to release at the end, beside the caller's. *)
Definition owned (p : ptr) : list ptr :=
  match p with Made n => [Made n] | _ => [] end.

Definition net (fs : list flb_filter_instance) : Z :=
  foldr (λ f z, n_added (f_counters f) - n_dropped (f_counters f) + z) 0 fs.

Lemma flb_free_owned p l : (if bool_decide (p = Given) then l else flb_free p l) = l ++ owned p.
Proof. destruct p; simpl; rewrite ?app_nil_r; done. Qed.

(** The step of [modified], in terms of the modification. *)
Lemma modified_spec ingested pre i out w n w' n' stop :
  modified ingested pre i out w n = (w', n', stop) ->
  work_bytes w' = default [] out /\ work_data w' = change_ptr (i, out) /\
  freed w' = freed w ++ owned (work_data w) /\
  stop = bool_decide (default [] out = []) /\
  total_records w' = pre + flb_mp_count (default [] out) /\
  (stop = false -> in_records w' = flb_mp_count (default [] out)) /\
  n_added n' - n_dropped n' = n_added n - n_dropped n + flb_mp_count (default [] out) - in_records w.
Proof.
  unfold modified. rewrite flb_free_owned. destruct (Z.eqb_spec (Z.of_nat (length (default [] out))) 0) as [E|E].
  - intros [= <- <- <-]. destruct (default [] out) as [|b l] eqn:Eo; [|simpl in E; lia].
    simpl. split_and!; try done; unfold flb_mp_count; simpl; try done; lia.
  - intros [= <- <- <-]. destruct (default [] out) as [|b l] eqn:Eo; [done|].
    split_and!; try done. zcase; simpl; lia.
Qed.

(** The end of the loop, from its start and the modifications. *)
Record ended (w w' : work) (cs : list (nat * option bytes)) : Prop := {
  end_bytes : work_bytes w' = default (work_bytes w) (last ((λ c, default [] c.2) <$> cs));
  end_ptr : work_data w' = default (work_data w) (last (change_ptr <$> cs));
  end_freed : freed w' ++ owned (work_data w') =
    freed w ++ owned (work_data w) ++ concat ((owned ∘ change_ptr) <$> cs) }.

Lemma ended_nil w : ended w w [].
Proof. split; simpl; [done..|]. by rewrite app_nil_r. Qed.

Lemma ended_cons w w1 w2 c cs :
  work_bytes w1 = default [] c.2 -> work_data w1 = change_ptr c -> freed w1 = freed w ++ owned (work_data w) ->
  ended w1 w2 cs -> ended w w2 (c :: cs).
Proof.
  intros Hb Hp Hf [Eb Ep Ef]. split.
  - rewrite Eb, Hb, fmap_cons, last_cons. by destruct (last (_ <$> cs)).
  - rewrite Ep, Hp, fmap_cons, last_cons. by destruct (last (change_ptr <$> cs)).
  - rewrite Ef, Hp, Hf, fmap_cons. simpl. by rewrite <- !app_assoc.
Qed.

Lemma filters_loop_ended ingested pre ntag tag_len fs : forall i w w' fs',
  filters_loop ingested pre ntag tag_len i fs w = (w', fs') ->
  ended w w' (changes ntag tag_len i fs (work_bytes w)).
Proof.
  induction fs as [|f fs IH]; intros i w w' fs'; cbn [filters_loop changes];
    [intros [= <- <-]; apply ended_nil|].
  destruct (selected ntag tag_len f).
  2:{ destruct (filters_loop _ _ _ _ _ _ _) as [w2 fs2] eqn:E. intros [= <- <-]. by apply IH in E. }
  destruct (f_cb f (work_bytes w) ntag (f_context f)) as [[ret out] c].
  destruct (ret =? FLB_FILTER_MODIFIED).
  2:{ destruct (filters_loop _ _ _ _ _ _ _) as [w2 fs2] eqn:E. intros [= <- <-]. by apply IH in E. }
  destruct (modified _ _ _ _ _ _) as [[w1 n1] stop] eqn:Em.
  apply modified_spec in Em as (Hb & Hp & Hf & -> & _).
  destruct (default [] out) as [|b l] eqn:Eo; simpl.
  - intros [= <- <-]. eapply ended_cons; [|exact Hp|exact Hf|apply ended_nil]. by rewrite Hb.
  - destruct (filters_loop _ _ _ _ _ _ _) as [w2 fs2] eqn:E. intros [= <- <-]. apply IH in E.
    rewrite Hb in E. eapply ended_cons; [|exact Hp|exact Hf|exact E]. simpl. by rewrite Eo, Hb.
Qed.

(** The records that the counters account for. *)
Lemma filters_loop_counts ingested pre ntag tag_len fs : forall i w w' fs',
  filters_loop ingested pre ntag tag_len i fs w = (w', fs') ->
  total_records w = pre + in_records w ->
  let cs := changes ntag tag_len i fs (work_bytes w) in
  let out := match cs with [] => in_records w | _ => flb_mp_count (work_bytes w') end in
  total_records w' = pre + out /\ in_records w + net fs' - net fs = out.
Proof.
  induction fs as [|f fs IH]; intros i w w' fs'; cbn [filters_loop changes];
    [intros [= <- <-]; simpl; lia|].
  intros Hl Ht. destruct (selected ntag tag_len f).
  2:{ destruct (filters_loop _ _ _ _ _ _ _) as [w2 fs2] eqn:E. injection Hl as <- <-.
      apply IH in E; [|done]. simpl in E |- *. lia. }
  destruct (f_cb f (work_bytes w) ntag (f_context f)) as [[ret out] c].
  destruct (ret =? FLB_FILTER_MODIFIED).
  2:{ destruct (filters_loop _ _ _ _ _ _ _) as [w2 fs2] eqn:E. injection Hl as <- <-.
      apply IH in E; [|done]. simpl in E |- *. lia. }
  destruct (modified _ _ _ _ _ _) as [[w1 n1] stop] eqn:Em.
  apply modified_spec in Em as (Hb & _ & _ & -> & Htot & Hin & Hn). simpl in Hn.
  destruct (default [] out) as [|b l] eqn:Eo; simpl in Hl.
  - injection Hl as <- <-. rewrite Hb. simpl. lia.
  - destruct (filters_loop _ _ _ _ _ _ _) as [w2 fs2] eqn:E. injection Hl as <- <-.
    specialize (Hin ltac:(done)). pose proof (end_bytes _ _ _ (filters_loop_ended _ _ _ _ _ _ _ _ _ E)) as Hend.
    apply IH in E; [|lia]. rewrite Hb in Hend. rewrite Hb in E. cbv zeta in E.
    assert (Eout : match changes ntag tag_len (S i) fs (b :: l) with [] => in_records w1
      | _ => flb_mp_count (work_bytes w2) end = flb_mp_count (work_bytes w2)).
    { destruct (changes _ _ _ _ _) eqn:Ec; [|done]. simpl in Hend. by rewrite Hin, Hend. }
    rewrite Eout in E. simpl. lia.
Qed.

(** Each buffer comes from a filter of its own. *)
Lemma changes_owned ntag tag_len fs : forall i data,
  let bufs := concat ((owned ∘ change_ptr) <$> changes ntag tag_len i fs data) in
  NoDup bufs /\ Forall (λ p, exists j, p = Made j /\ (i <= j)%nat) bufs.
Proof.
  induction fs as [|f fs IH]; intros i data; cbn [changes]; [by split; constructor|].
  assert (Hlater : forall data,
    let bufs := concat ((owned ∘ change_ptr) <$> changes ntag tag_len (S i) fs data) in
    NoDup bufs /\ Forall (λ p, exists j, p = Made j /\ (i < j)%nat) bufs).
  { intros data'. destruct (IH (S i) data') as [Hn Hf]. split; [done|].
    eapply Forall_impl; [exact Hf|]. intros p (j & -> & ?). exists j. split; [done|lia]. }
  assert (Hweak : forall l, Forall (λ p, exists j, p = Made j /\ (i < j)%nat) l ->
    Forall (λ p, exists j, p = Made j /\ (i <= j)%nat) l).
  { intros l Hl. eapply Forall_impl; [exact Hl|]. intros p (j & -> & ?). exists j. split; [done|lia]. }
  destruct (selected ntag tag_len f); [|by destruct (Hlater data); auto].
  destruct (f_cb f data ntag (f_context f)) as [[ret out] c].
  destruct (ret =? FLB_FILTER_MODIFIED); [|by destruct (Hlater data); auto].
  rewrite fmap_cons. cbn [concat compose]. unfold change_ptr at 1 3. cbn [fst snd].
  destruct out as [[|b l]|]; simpl.
  - split; [by apply NoDup_singleton|]. constructor; [by exists i|constructor].
  - destruct (Hlater (b :: l)) as [Hn Hf]. split; [|constructor; [by exists i|by apply Hweak]].
    constructor; [|done]. intros Hin. rewrite Forall_forall in Hf.
    destruct (Hf _ Hin) as (j & [= <-] & ?). lia.
  - by split; constructor.
Qed.

(** C17: [flb_filter_do] gives the records of the last filter that changed them,
    each filter having seen those of the one before, and nothing runs after an
    empty result.  Every buffer that a filter made is either the output or was
    freed, exactly once; the output and the caller's buffer were not freed. *)
Theorem filter_do_buffers t t' added total data tag tag_len fs w fs' :
  flb_malloc t = (true, t') ->
  flb_filter_do t added total data tag tag_len fs = (w, fs', t') ->
  let cs := changes (take tag_len tag) (Z.of_nat tag_len) 0 fs data in
  work_bytes w = default data (last ((λ c, default [] c.2) <$> cs)) /\
  work_data w = default Given (last (change_ptr <$> cs)) /\
  freed w ++ owned (work_data w) = concat ((owned ∘ change_ptr) <$> cs) /\
  NoDup (freed w) /\ (Given ∉ freed w) /\ (work_data w ∉ freed w).
Proof.
  intros Hm. unfold flb_filter_do. rewrite Hm. cbn [negb].
  destruct (filters_loop _ _ _ _ _ _ _) as [w1 fs1] eqn:E. intros [= -> ->].
  apply filters_loop_ended in E as [Eb Ep Ef]. cbn [work_bytes work_data freed owned app] in *.
  destruct (changes_owned (take tag_len tag) (Z.of_nat tag_len) fs 0 data) as [Hn Hf].
  rewrite <- Ef in Hn, Hf. apply NoDup_app in Hn as (Hn & Hd & _). apply Forall_app in Hf as [Hf _].
  assert (Hmade : forall p, p ∈ freed w -> exists j, p = Made j).
  { intros p Hp. rewrite Forall_forall in Hf. destruct (Hf p Hp) as (j & -> & _). by exists j. }
  split_and!; try done.
  - intros [j ?]%Hmade. done.
  - intros Hin. destruct (Hmade _ Hin) as [j Hj]. apply (Hd _ Hin). rewrite Hj. by left.
Qed.

(** C16: when the tag could be copied, [flb_filter_do] leaves in [total_records]
    the earlier records and those of the output, and what the filters report as
    added and dropped is the difference between the input and the output.  The
    records of the output are counted when some filter changed the buffer;
    otherwise the number is the one the caller gave, which is that of the
    records if the caller counted them, and stays wrong if not (in_tail gives the
    number of lines). *)
Theorem filter_do_counts t t' added total data tag tag_len fs w fs' :
  flb_malloc t = (true, t') ->
  flb_filter_do t added total data tag tag_len fs = (w, fs', t') ->
  let cs := changes (take tag_len tag) (Z.of_nat tag_len) 0 fs data in
  let out := match cs with [] => added | _ => flb_mp_count (work_bytes w) end in
  total_records w = total - added + out /\
  net fs' - net fs = out - added /\
  (added = flb_mp_count data -> out = flb_mp_count (work_bytes w)).
Proof.
  intros Hm. unfold flb_filter_do. rewrite Hm. cbn [negb].
  destruct (filters_loop _ _ _ _ _ _ _) as [w1 fs1] eqn:E. intros [= -> ->].
  pose proof (end_bytes _ _ _ (filters_loop_ended _ _ _ _ _ _ _ _ _ E)) as Hb.
  apply filters_loop_counts in E; [|cbn [total_records in_records]; lia]. cbn [work_bytes in_records] in *.
  cbv zeta. split_and!; [lia|lia|]. intros Ha. destruct (changes _ _ _ _ _); [|done]. simpl in Hb. by rewrite Hb.
Qed.

(** Without memory for the tag the output is empty, and the records stay in the
    number of the chunk. *)
Lemma filter_do_no_memory t t' added total data tag tag_len fs :
  flb_malloc t = (false, t') ->
  flb_filter_do t added total data tag tag_len fs =
  ({| work_data := NULL; work_bytes := []; in_records := 0; total_records := total; freed := [] |}, fs, t').
Proof. intros Hm. unfold flb_filter_do. by rewrite Hm. Qed.

End Do.

(** *** A run *)

Definition no_counts : counters :=
  {| n_records := 0; n_bytes := 0; n_added := 0; n_dropped := 0; n_dropped_bytes := 0 |}.

(** A filter that drops the first record of a buffer of nil records. *)
Definition drop_first : @flb_filter_instance unit unit :=
  {| f_match := Some (str "app.*"); f_match_regex := None; f_properties := [];
     f_cb := λ data _ c, (FLB_FILTER_MODIFIED, match tail data with [] => None | l => Some l end, c);
     f_context := tt; f_counters := no_counts |}.

(** A filter that answers that it changed nothing. *)
Definition looks_on : @flb_filter_instance unit unit :=
  {| f_match := Some (str "*"); f_match_regex := None; f_properties := [(str "Active", str "true")];
     f_cb := λ data _ c, (FLB_FILTER_NOTOUCH, None, c);
     f_context := tt; f_counters := no_counts |}.

Definition run_filters := flb_filter_do (λ _ _, -1) [] 5 7 (replicate 5 0xc0) (str "app.log") 7
  [drop_first; looks_on; drop_first; drop_first].

(** The bytes that each filter reports as dropped are counted from the input of
    the first one: three bytes were dropped, and six are reported. *)
Example dropped_bytes_repeat :
  (work_bytes run_filters.1.1, freed run_filters.1.1, work_data run_filters.1.1) =
    ([0xc0; 0xc0], [Made 0; Made 2], Made 3) /\
  map (λ f, (n_dropped (f_counters f), n_dropped_bytes (f_counters f))) run_filters.1.2 =
    [(1, 1); (0, 0); (1, 2); (1, 3)].
Proof. vm_compute. done. Qed.

Lemma filter_do_buffers_witness :
  let w := run_filters.1.1 in
  let cs := changes (λ _ _, -1) (str "app.log") 7 0 [drop_first; looks_on; drop_first; drop_first] (replicate 5 0xc0) in
  work_bytes w = default (replicate 5 0xc0) (last ((λ c, default [] c.2) <$> cs)) /\
  work_data w = default Given (last (change_ptr <$> cs)) /\
  freed w ++ owned (work_data w) = concat ((owned ∘ change_ptr) <$> cs) /\
  NoDup (freed w) /\ (Given ∉ freed w) /\ (work_data w ∉ freed w).
Proof.
  apply (filter_do_buffers (λ _ _, -1) [] [] 5 7 (replicate 5 0xc0) (str "app.log") 7
    [drop_first; looks_on; drop_first; drop_first] run_filters.1.1 run_filters.1.2); reflexivity.
Defined.

Lemma filter_do_counts_witness :
  total_records run_filters.1.1 = 7 - 5 + flb_mp_count (work_bytes run_filters.1.1) /\
  net run_filters.1.2 - net [drop_first; looks_on; drop_first; drop_first] =
    flb_mp_count (work_bytes run_filters.1.1) - 5.
Proof.
  destruct (filter_do_counts (λ _ _, -1) [] [] 5 7 (replicate 5 0xc0) (str "app.log") 7
    [drop_first; looks_on; drop_first; drop_first] run_filters.1.1 run_filters.1.2) as (H1 & H2 & _);
    [reflexivity|reflexivity|]. split; [exact H1|exact H2].
Defined.

End Filters.
