(* ===== verification/Ingest.v ===== *)
(** * Appending records to chunks (src/flb_input_chunk.c)

    The path of the records from an input to its chunks.  [Header] is the
    metadata of a chunk: the type of its events and its tag.  [Ingest] has the
    chunks of all inputs: [flb_input_chunk_create], [input_chunk_get] (a chunk
    with the tag that takes more data, or a new one), [input_chunk_append_raw],
    [flb_input_chunk_map] (a chunk found in the storage at start),
    [flb_input_chunk_flush] and the ends of chunks.

    The state puts together what other files model: the chunks as storage
    ([cio_chunk] of Chunkio.v), the space, masks and limits ([store] of
    InputChunk.v, whose fields on storage are those of the chunk when it last
    changed, by [view]), and the filters (Filters.v).  The hash tables of the chunks by
    tag are finite maps, as HashTable.v shows tables without a limit to be for
    keys that are not empty and have no NUL byte: the table refuses the empty
    tag, whose chunks are never found again, and a key that could not be copied
    ends the run ([ht_add]).  The stream processor is not configured. *)

From S2P Require Import Prelude.
From S2P Require Import Router.
From S2P Require Import RoutesMask.
From S2P Require Import Task.
From S2P Require Import InputChunk.
From S2P Require Import Msgpack.
From S2P Require Import LogEvent.
From S2P Require Import Chunkio.
From S2P Require Import Filters.

(** ** The metadata of a chunk *)

Module Header.
Import Routes.

Definition FLB_INPUT_CHUNK_META_HEADER : nat := 4.
Definition FLB_INPUT_CHUNK_TAG_MAX : Z := 65535 - Z.of_nat FLB_INPUT_CHUNK_META_HEADER.
Definition FLB_INPUT_CHUNK_MAGIC_BYTE_0 : Z := 0xF1.
Definition FLB_INPUT_CHUNK_MAGIC_BYTE_1 : Z := 0x77.
Definition FLB_INPUT_CHUNK_TYPE_LOGS : Z := 0.
Definition FLB_INPUT_CHUNK_TYPE_METRICS : Z := 1.
Definition FLB_INPUT_CHUNK_TYPE_TRACES : Z := 2.
Definition FLB_INPUT_CHUNK_TYPE_BLOBS : Z := 3.
Definition FLB_INPUT_CHUNK_TYPE_PROFILES : Z := 4.

(** The byte for the type; it stays 0, from [flb_calloc], for other types. *)
Definition type_byte (event_type : Z) : Z :=
  if event_type =? FLB_INPUT_LOGS then FLB_INPUT_CHUNK_TYPE_LOGS
  else if event_type =? FLB_INPUT_METRICS then FLB_INPUT_CHUNK_TYPE_METRICS
  else if event_type =? FLB_INPUT_TRACES then FLB_INPUT_CHUNK_TYPE_TRACES
  else if event_type =? FLB_INPUT_PROFILES then FLB_INPUT_CHUNK_TYPE_PROFILES
  else 0.

Definition header_bytes (event_type : Z) (tag : bytes) : bytes :=
  [FLB_INPUT_CHUNK_MAGIC_BYTE_0; FLB_INPUT_CHUNK_MAGIC_BYTE_1; type_byte event_type; 0] ++
  take (Z.to_nat (65535 - Z.of_nat FLB_INPUT_CHUNK_META_HEADER)) tag.

(** [input_chunk_write_header]; [None] is a store outside of the memory of the
    chunk. *)
Definition input_chunk_write_header (ctx : File.cio_ctx) (t : tape) (c : Chunk.cio_chunk)
    (event_type : Z) (tag : bytes) : option (Z * Chunk.cio_chunk * tape) :=
  let '(ok, t) := flb_malloc t in
  if negb ok then Some (-1, c, t)
  else
    '(ret, c) ← Chunk.cio_meta_write ctx t (header_bytes event_type tag) c;
    Some (if ret =? -1 then -1 else 0, c, t).

Definition input_chunk_has_magic_bytes (buf : bytes) : bool :=
  if (length buf <? FLB_INPUT_CHUNK_META_HEADER)%nat then false
  else (cget buf 0 =? FLB_INPUT_CHUNK_MAGIC_BYTE_0) && (cget buf 1 =? FLB_INPUT_CHUNK_MAGIC_BYTE_1)
       && (cget buf 3 =? 0).

Definition type_of_byte (b : Z) : Z :=
  if b =? FLB_INPUT_CHUNK_TYPE_LOGS then FLB_INPUT_LOGS
  else if b =? FLB_INPUT_CHUNK_TYPE_METRICS then FLB_INPUT_METRICS
  else if b =? FLB_INPUT_CHUNK_TYPE_TRACES then FLB_INPUT_TRACES
  else if b =? FLB_INPUT_CHUNK_TYPE_PROFILES then FLB_INPUT_PROFILES
  else if b =? FLB_INPUT_CHUNK_TYPE_BLOBS then FLB_INPUT_BLOBS
  else -1.

Definition flb_input_chunk_get_event_type (ctx : File.cio_ctx) (c : Chunk.cio_chunk) :
    option (Z * Chunk.cio_chunk) :=
  '(r, c) ← Chunk.cio_meta_read ctx c;
  Some (match r with
        | None => -1
        | Some buf => if input_chunk_has_magic_bytes buf then type_of_byte (cget buf 2) else FLB_INPUT_LOGS
        end, c).

(** The tag, if the metadata can be read; chunks of old versions have no
    header. *)
Definition tag_of (buf : bytes) : bytes :=
  if input_chunk_has_magic_bytes buf then drop FLB_INPUT_CHUNK_META_HEADER buf else buf.

Definition flb_input_chunk_get_tag (ctx : File.cio_ctx) (c : Chunk.cio_chunk) :
    option (option bytes * Chunk.cio_chunk) :=
  '(r, c) ← Chunk.cio_meta_read ctx c; Some (option_map tag_of r, c).

End Header.

(** ** The chunks of the inputs *)

Module Ingest.
Import Header.

(** The fields of [struct flb_input_chunk] that InputChunk.v does not have. *)
Record chunk_ext := mkext { busy : bool; total_records : Z; added_records : Z; fs_backlog : bool }.

(** The settings of the storage, of the inputs and of the outputs. *)
Record settings {regex : Type} := mkset {
  s_page_size : Z; s_checksum : bool; s_trim : bool; s_realloc : Z;
  storage_del_bad_chunks : bool;
  s_tag : nat -> option bytes;        (** [in->tag] *)
  s_name : nat -> bytes;              (** [in->name] *)
  routable : nat -> bool;
  s_outputs : list (@RoutesMask.mask_output regex)
}.
Arguments settings : clear implicits.

Section Path.
Context {regex context : Type}.
Variable onig_match : regex -> bytes -> Z.
(** The storage backlog plugin of InputChunk.v. *)
Variable sb_release_output_queue_space : nat -> Z -> Z -> Z * Z.
Variable backlog : nat.
Variable cfg : settings regex.

Record world := mkworld {
  st : InputChunk.store;
  cio : gmap nat Chunk.cio_chunk;
  ext : gmap nat chunk_ext;
  table : gmap (nat * Z * bytes) nat;      (** chunks by input, type and tag *)
  filters : list (@Filters.flb_filter_instance regex context);
  in_counts : gmap nat (Z * Z);            (** records and bytes of each input *)
  next : nat                               (** the address of the next chunk *)
}.

Definition with_st (x : InputChunk.store) (w : world) : world :=
  mkworld x (cio w) (ext w) (table w) (filters w) (in_counts w) (next w).
Definition with_cio (x : gmap nat Chunk.cio_chunk) (w : world) : world :=
  mkworld (st w) x (ext w) (table w) (filters w) (in_counts w) (next w).
Definition with_ext (x : gmap nat chunk_ext) (w : world) : world :=
  mkworld (st w) (cio w) x (table w) (filters w) (in_counts w) (next w).
Definition with_table (x : gmap (nat * Z * bytes) nat) (w : world) : world :=
  mkworld (st w) (cio w) (ext w) x (filters w) (in_counts w) (next w).
Definition with_filters (x : list (@Filters.flb_filter_instance regex context)) (w : world) : world :=
  mkworld (st w) (cio w) (ext w) (table w) x (in_counts w) (next w).
Definition with_counts (x : gmap nat (Z * Z)) (w : world) : world :=
  mkworld (st w) (cio w) (ext w) (table w) (filters w) x (next w).

(** The context of the storage, with the number of files that are up. *)
Definition ctx (w : world) : File.cio_ctx :=
  File.mkctx (s_page_size cfg) (s_checksum cfg) (s_trim cfg)
    (InputChunk.total_chunks_up (st w)) (InputChunk.max_chunks_up (st w)).

(** *** The fields on storage of InputChunk.v, from the chunk *)

Definition is_fs (c : Chunk.cio_chunk) : bool :=
  match Chunk.be c with Chunk.FS _ => true | Chunk.MEM _ => false end.

Definition succeeds (r : option (Z * Chunk.cio_chunk)) : bool :=
  match r with Some (ret, _) => ret =? 0 | None => false end.

(** [cio_meta_size] and the tag, of a chunk that is brought up if it is not. *)
Definition up_again (x : File.cio_ctx) (c : Chunk.cio_chunk) : Chunk.cio_chunk :=
  if Chunk.cio_chunk_is_up c then c
  else match Chunk.cio_chunk_up_force x c with Some (_, c) => c | None => c end.

Definition meta_of (x : File.cio_ctx) (c : Chunk.cio_chunk) : option bytes :=
  match Chunk.cio_meta_read x (up_again x c) with Some (r, _) => r | None => None end.

Definition content_of (x : File.cio_ctx) (c : Chunk.cio_chunk) : option bytes :=
  match Chunk.cio_chunk_get_content x (up_again x c) with
  | Some (ret, d, _) => if ret =? 0 then Some d else None
  | None => None
  end.

Definition view (x : File.cio_ctx) (c : Chunk.cio_chunk) (k : InputChunk.flb_input_chunk) :
    InputChunk.flb_input_chunk :=
  {| InputChunk.event_type := InputChunk.event_type k; InputChunk.fs_counted := InputChunk.fs_counted k;
     InputChunk.ck_in := InputChunk.ck_in k; InputChunk.task := InputChunk.task k;
     InputChunk.routes_mask := InputChunk.routes_mask k;
     InputChunk.cio_fs := is_fs c;
     InputChunk.cio_up := Chunk.cio_chunk_is_up c;
     InputChunk.cio_real := Chunk.cio_chunk_get_real_size c;
     InputChunk.cio_data := Chunk.cio_chunk_get_content_size c;
     InputChunk.cio_meta := Z.of_nat (length (default [] (meta_of x c)));
     InputChunk.cio_up_ok := succeeds (Chunk.cio_chunk_up x c);
     InputChunk.cio_force_ok := succeeds (Chunk.cio_chunk_up_force x c);
     InputChunk.cio_tag := option_map tag_of (meta_of x c);
     InputChunk.cio_records := match content_of x c with Some d => Mpack.flb_mp_count d | None => -1 end |}.

Definition set_chunk (a : nat) (c : Chunk.cio_chunk) (w : world) : world :=
  with_st (InputChunk.update_chunk a (view (ctx w) c) (st w)) (with_cio (<[a := c]> (cio w)) w).

(** *** The functions of InputChunk.v on this state

    A chunk that the store no longer has was closed; the deletions from the
    hash tables are those of the log. *)

Definition key_eq_ptr (w : world) (k : nat * Z * bytes) (a : nat) : bool :=
  match table w !! k with Some b => Nat.eqb b a | None => false end.

(** [flb_hash_table_del_ptr] *)
Definition ht_del_ptr (i : nat) (ty : Z) (tag : bytes) (a : nat) (w : world) : world :=
  if key_eq_ptr w (i, ty, tag) a then with_table (delete (i, ty, tag) (table w)) w else w.

Fixpoint replay (l : list InputChunk.chunk_event) (w : world) : world :=
  match l with
  | [] => w
  | InputChunk.C_ht_del i ty tag a :: l => replay l (ht_del_ptr i ty tag a w)
  | _ :: l => replay l w
  end.

Definition settle (s : InputChunk.store) (w : world) : world :=
  let w' := replay (drop (length (InputChunk.log (st w))) (InputChunk.log s)) w in
  let alive {A} (m : gmap nat A) := filter (λ p, is_Some (InputChunk.chunks s !! p.1)) m in
  with_st s (with_cio (alive (cio w')) (with_ext (alive (ext w')) w')).

Definition flb_input_chunk_destroy (a : nat) (del : bool) (w : world) : world :=
  settle (InputChunk.flb_input_chunk_destroy a del (st w)) w.

Definition flb_input_chunk_place_new_chunk (a : nat) (chunk_size : Z) (w : world) : bool * world :=
  let '(r, s) := InputChunk.flb_input_chunk_place_new_chunk sb_release_output_queue_space backlog
                   a chunk_size (st w) in
  (r, settle s w).

Definition flb_input_chunk_set_limits (i : nat) (w : world) : world :=
  with_st (snd (InputChunk.flb_input_chunk_set_limits i (st w))) w.
Definition flb_input_chunk_protect (i : nat) (w : world) : world :=
  with_st (snd (InputChunk.flb_input_chunk_protect i (st w))) w.
Definition flb_input_chunk_update_output_instances (a : nat) (n : Z) (w : world) : world :=
  with_st (InputChunk.flb_input_chunk_update_output_instances a n (st w)) w.

Definition mask_empty (w : world) (k : InputChunk.flb_input_chunk) : bool :=
  bool_decide (RoutesMask.flb_routes_mask_is_empty (InputChunk.routes_mask k) (InputChunk.mcfg (st w)) = Some true).

(** A chunk that cannot be loaded: its bytes are given back, and it is deleted
    from its table only when it is deleted from the storage. *)
Definition flb_input_chunk_destroy_corrupted (a : nat) (tag : bytes) (del : bool) (w : world) : world :=
  match InputChunk.chunks (st w) !! a with
  | None => w
  | Some k =>
      let s := InputChunk.set_outs (map (InputChunk.uncount (st w) k) (InputChunk.outs (st w))) (st w) in
      let s := if del && InputChunk.has_chunk_table (InputChunk.event_type k)
               then InputChunk.emit (InputChunk.C_ht_del (InputChunk.ck_in k) (InputChunk.event_type k) tag a) s
               else s in
      let s := InputChunk.emit (InputChunk.C_close a del) s in
      let s := InputChunk.update_input (InputChunk.ck_in k)
                 (λ i, InputChunk.set_in_chunks (filter (λ x : nat, x <> a) (InputChunk.in_chunks i)) i) s in
      settle (InputChunk.set_chunks (delete a (InputChunk.chunks s)) s) w
  end.

(** *** New chunks *)

Definition FLB_INPUT_CHUNK_SIZE : Z := 262144.
Definition FLB_INPUT_CHUNK_FS_MAX_SIZE : Z := 2048000.

(** [cio_chunk_open] with the name of a new chunk; ownership and permissions can
    be set. *)
Definition cio_chunk_open (t : tape) (fs : bool) (w : world) : option (option Chunk.cio_chunk * tape) :=
  let '(ok, t) := flb_malloc t in
  if negb ok then Some (None, t)
  else if fs then
    '(_, f) ← File.cio_file_open (ctx w) true (s_realloc cfg) [] true [];
    Some (option_map (λ f, Chunk.mkch (Chunk.FS f) false false 0 0) f, t)
  else
    let '(m, t) := Memfs.cio_memfs_open t FLB_INPUT_CHUNK_SIZE (s_realloc cfg) in
    Some (option_map (λ m, Chunk.mkch (Chunk.MEM m) false false 0 0) m, t).

Definition new_chunk (i : nat) (ty : Z) (mask : list Z) : InputChunk.flb_input_chunk :=
  {| InputChunk.event_type := ty; InputChunk.fs_counted := false; InputChunk.ck_in := i; InputChunk.task := None;
     InputChunk.routes_mask := mask; InputChunk.cio_fs := false; InputChunk.cio_up := false;
     InputChunk.cio_real := 0; InputChunk.cio_data := 0; InputChunk.cio_meta := 0; InputChunk.cio_up_ok := false;
     InputChunk.cio_force_ok := false; InputChunk.cio_tag := None; InputChunk.cio_records := 0 |}.

(** The chunk at the next address, at the end of the list of the input. *)
Definition link (c : Chunk.cio_chunk) (k : InputChunk.flb_input_chunk) (x : chunk_ext) (w : world) : nat * world :=
  let a := next w in
  let s := InputChunk.set_chunks (<[a := view (ctx w) c k]> (InputChunk.chunks (st w))) (st w) in
  let s := InputChunk.update_input (InputChunk.ck_in k)
             (λ i, InputChunk.set_in_chunks (InputChunk.in_chunks i ++ [a]) i) s in
  (a, mkworld s (<[a := c]> (cio w)) (<[a := x]> (ext w)) (table w) (filters w) (in_counts w) (S a)).

Definition routes_of (w : world) (tag : bytes) : list Z :=
  let mcfg := InputChunk.mcfg (st w) in
  fst (RoutesMask.flb_routes_mask_set_by_tag onig_match
         (replicate (Z.to_nat (RoutesMask.route_mask_size mcfg)) 0) tag (Z.of_nat (length tag))
         (Some (mcfg, s_outputs cfg))).

(** The tags that are in the table of a type: the table takes no empty key. *)
Definition in_table (ty : Z) (tag : bytes) : bool :=
  InputChunk.has_chunk_table ty && (0 <? length tag)%nat.

(** [flb_hash_table_add] of a pointer: the value of a key that is there is
    replaced without an allocation; a new entry that cannot be allocated is
    not added.  [None]: the copy of the key failed and an entry without a key
    is in the table, with which a later lookup compares. *)
Definition ht_add (t : tape) (i : nat) (ty : Z) (tag : bytes) (a : nat) (w : world) :
    option (world * tape) :=
  if in_table ty tag then
    if bool_decide (is_Some (table w !! (i, ty, tag)))
    then Some (with_table (<[(i, ty, tag) := a]> (table w)) w, t)
    else
      let '(ok, t) := flb_malloc t in
      if negb ok then Some (w, t)
      else
        let '(dup, t) := flb_malloc t in
        if dup then Some (with_table (<[(i, ty, tag) := a]> (table w)) w, t) else None
  else Some (w, t).

Definition flb_input_chunk_create (t : tape) (i : nat) (ty : Z) (tag : bytes) (w : world) :
    option (option nat * world * tape) :=
  match InputChunk.inputs (st w) !! i with
  | None => Some (None, w, t)
  | Some ii =>
      '(chunk, t) ← cio_chunk_open t (InputChunk.cio_type ii =? InputChunk.FLB_STORAGE_FS) w;
      match chunk with
      | None => Some (None, w, t)
      | Some c =>
          let set_down := negb (Chunk.cio_chunk_is_up c) in
          '(ret, c) ← (if set_down then Chunk.cio_chunk_up_force (ctx w) c else Some (0, c));
          if ret =? -1 then Some (None, w, t)
          else
            '(ret, c, t) ← input_chunk_write_header (ctx w) t c ty tag;
            if ret =? -1 then Some (None, w, t)
            else
              let '(ok, t) := flb_malloc t in
              if negb ok then Some (None, w, t)
              else
                let '(ok, t) := flb_malloc t in
                if negb ok then Some (None, w, t)
                else
                  let '(a, w) := link c (new_chunk i ty (routes_of w tag)) (mkext false 0 0 false) w in
                  '(_, c) ← (if set_down then Chunk.cio_chunk_down (ctx w) c else Some (0, c));
                  let w := set_chunk a c w in
                  '(w, t) ← ht_add t i ty tag a w;
                  Some (Some a, w, t)
      end
  end.

(** [input_chunk_get]: the chunk and whether it is to be set down again.  [None]
    is the use of a chunk that is no more, or a store outside of its memory. *)
Definition find_tag_chunk (i : nat) (ty : Z) (tag : bytes) (w : world) : option (option nat * bool * world) :=
  match (if in_table ty tag then table w !! (i, ty, tag) else None) with
  | None => Some (None, false, w)
  | Some a =>
      match cio w !! a, ext w !! a with
      | Some c, Some x =>
          if busy x || Chunk.lock c then Some (None, false, w)
          else if Chunk.cio_chunk_is_up c then Some (Some a, false, w)
          else
            '(ret, c) ← Chunk.cio_chunk_up_force (ctx w) c;
            let w := set_chunk a c w in
            Some (if ret =? File.CIO_CORRUPTED
                  then (None, true, flb_input_chunk_destroy_corrupted a tag (storage_del_bad_chunks cfg) w)
                  else if negb (ret =? File.CIO_OK) then (None, true, w)
                  else (Some a, true, w))
      | _, _ => None
      end
  end.

Definition input_chunk_get (t : tape) (i : nat) (ty : Z) (tag : bytes) (chunk_size : Z) (w : world) :
    option (option nat * bool * world * tape) :=
  let tag := take (Z.to_nat FLB_INPUT_CHUNK_TAG_MAX) tag in
  '(found, set_down, w) ← find_tag_chunk i ty tag w;
  '(r, w, t) ← match found with
               | Some a => Some (Some a, w, t)
               | None => flb_input_chunk_create t i ty tag w
               end;
  match r with
  | None => Some (None, set_down, w, t)
  | Some a =>
      k ← InputChunk.chunks (st w) !! a;
      if mask_empty w k then Some (Some a, set_down, w, t)
      else
        let '(room, w) := flb_input_chunk_place_new_chunk a chunk_size w in
        if room then Some (Some a, set_down, w, t)
        else
          k ← InputChunk.chunks (st w) !! a;
          let w := if bool_decide (found = None) || mask_empty w k
                   then flb_input_chunk_destroy a true w else w in
          Some (None, set_down, w, t)
  end.

(** *** Appending *)

(** The counters of the input, and those of the chunk before the filters. *)
Definition count_input (i : nat) (records bytes : Z) (w : world) : world :=
  let '(r, b) := default (0, 0) (in_counts w !! i) in
  with_counts (<[i := (r + records, b + bytes)]> (in_counts w)) w.

(** The memory ring buffer: whether there is room. *)
Definition memrb_check (i : nat) (ii : InputChunk.flb_input_instance) (buf_size : Z) (w : world) : bool * world :=
  if (InputChunk.storage_type ii =? InputChunk.FLB_STORAGE_MEMRB)
     && InputChunk.flb_input_chunk_is_mem_overlimit ii then
    let '(ret, _, _, s) := InputChunk.memrb_input_chunk_release_space i buf_size (st w) in
    (ret =? 0, settle s w)
  else (true, w).

Definition append_tag (i : nat) (tag : option bytes) : bytes :=
  match tag with
  | Some tag => tag
  | None => match s_tag cfg i with
            | Some tag => if (0 <? length tag)%nat then tag else s_name cfg i
            | None => s_name cfg i
            end
  end.

(** Filters apply to logs; the records to write, and the numbers of the chunk. *)
Definition apply_filters (t : tape) (ty n start : Z) (buf tag : bytes) (w : world) : bytes * Z * world * tape :=
  if ty =? Routes.FLB_INPUT_LOGS then
    let '(r, fs, t) := Filters.flb_filter_do onig_match t n (start + n) buf tag (length tag) (filters w) in
    (Filters.work_bytes r, Filters.total_records r, with_filters fs w, t)
  else (buf, start + n, w, t).

(** A chunk of an input that is over its limit goes down when less than a
    hundredth of it is free; the difference is unsigned. *)
Definition down_when_full (i a : nat) (c : Chunk.cio_chunk) (w : world) : option world :=
  match InputChunk.inputs (st w) !! i with
  | None => Some w
  | Some ii =>
      if InputChunk.flb_input_chunk_is_mem_overlimit ii && (InputChunk.cio_type ii =? InputChunk.FLB_STORAGE_FS)
         && Chunk.cio_chunk_is_up c
         && (u64 (FLB_INPUT_CHUNK_FS_MAX_SIZE - Chunk.cio_chunk_get_content_size c) <? FLB_INPUT_CHUNK_FS_MAX_SIZE / 100)
      then '(_, c) ← Chunk.cio_chunk_down (ctx w) c; Some (set_chunk a c w)
      else Some w
  end.

Definition real_size (a : nat) (w : world) : Z :=
  match InputChunk.chunks (st w) !! a with
  | Some k => InputChunk.flb_input_chunk_get_real_size k
  | None => -1
  end.

(** After the write: the lock, the end of a chunk without content, the limits,
    the accounts of the outputs. *)
Definition finish_append (i a : nat) (set_down : bool) (pre_real_size : Z) (w : world) : option (Z * world) :=
  c ← cio w !! a;
  let content_size := Chunk.cio_chunk_get_content_size c in
  '(_, c) ← (if FLB_INPUT_CHUNK_FS_MAX_SIZE <? content_size then Chunk.cio_chunk_lock (ctx w) c else Some (0, c));
  let w := set_chunk a c w in
  if content_size =? 0 then
    Some (0, flb_input_chunk_set_limits i (flb_input_chunk_destroy a true w))
  else
    '(_, c) ← (if set_down then Chunk.cio_chunk_down (ctx w) c else Some (0, c));
    let w := set_chunk a c w in
    if negb (routable cfg i) then Some (0, flb_input_chunk_destroy a true w)
    else
      let w := flb_input_chunk_set_limits i w in
      w ← down_when_full i a c w;
      let real_diff := u64 (real_size a w - pre_real_size) in
      let w := if real_diff =? 0 then w else flb_input_chunk_update_output_instances a real_diff w in
      Some (0, flb_input_chunk_protect i w).

(** The records go to the chunk that [input_chunk_get] gave. *)
Definition append_to (t : tape) (i : nat) (ty n_records : Z) (tag buf : bytes) (a : nat) (set_down : bool)
    (w : world) : option (Z * world) :=
  c ← cio w !! a;
  x ← ext w !! a;
  let new := Chunk.cio_chunk_get_content_size c =? 0 in
  let down := negb (Chunk.cio_chunk_is_up c) in
  '(ret, c) ← (if down then Chunk.cio_chunk_up_force (ctx w) c else Some (0, c));
  let w := set_chunk a c w in
  if ret =? -1 then Some (-1, w)
  else
    let pre_real_size := if new then 0 else real_size a w in
    let start := total_records x in
    let w := if 0 <? start + n_records
             then count_input i n_records (Z.of_nat (length buf)) w else w in
    let '(data, total, w, t) := apply_filters t ty n_records start buf tag w in
    '(ret, c) ← (if (0 <? length data)%nat then Chunk.cio_chunk_write (ctx w) t data c else Some (0, c));
    let x := if ret =? File.CIO_OK then mkext (busy x) total n_records (fs_backlog x)
             else mkext (busy x) start 0 (fs_backlog x) in
    let w := with_ext (<[a := x]> (ext w)) w in
    if ret =? -1 then Some (-1, set_chunk a (snd (Chunk.cio_chunk_tx_rollback c)) w)
    else finish_append i a (set_down || down) pre_real_size (set_chunk a c w).

Definition input_chunk_append_raw (t : tape) (i : nat) (ty n_records : Z) (tag : option bytes) (buf : bytes)
    (w : world) : option (Z * world) :=
  match InputChunk.inputs (st w) !! i with
  | None => Some (-1, w)
  | Some ii =>
      let '(room, w) := memrb_check i ii (Z.of_nat (length buf)) w in
      if negb room then Some (-1, w)
      else
        ii ← InputChunk.inputs (st w) !! i;
        if InputChunk.flb_input_buf_paused ii then Some (-1, w)
        else if (length buf =? 0)%nat then Some (-1, w)
        else
          let tag := append_tag i tag in
          '(r, set_down, w, t) ← input_chunk_get t i ty tag (Z.of_nat (length buf)) w;
          match r with
          | None => Some (-1, w)
          | Some a => append_to t i ty n_records tag buf a set_down w
          end
  end.

(** *** Chunks on their way out *)

(** The content, locked and busy, for a task. *)
Definition flb_input_chunk_flush (a : nat) (w : world) : option (option bytes * world) :=
  c ← cio w !! a;
  x ← ext w !! a;
  let pre_size := real_size a w in
  '(ret, c) ← (if Chunk.cio_chunk_is_up c then Some (0, c) else Chunk.cio_chunk_up (ctx w) c);
  if ret =? -1 then Some (None, set_chunk a c w)
  else
    '(_, c) ← Chunk.cio_chunk_lock (ctx w) c;
    '(ret, d, c) ← Chunk.cio_chunk_get_content (ctx w) c;
    let w := set_chunk a c w in
    if negb (ret =? 0) then Some (None, w)
    else
      let w := with_ext (<[a := mkext true (total_records x) (added_records x) (fs_backlog x)]> (ext w)) w in
      let post_size := real_size a w in
      Some (Some d, if post_size =? pre_size then w
                    else flb_input_chunk_update_output_instances a (u64 (post_size - pre_size)) w).

Definition flb_input_chunk_release_lock (a : nat) (w : world) : Z * world :=
  match ext w !! a with
  | Some x =>
      if busy x
      then (0, with_ext (<[a := mkext false (total_records x) (added_records x) (fs_backlog x)]> (ext w)) w)
      else (-1, w)
  | None => (-1, w)
  end.

(** *** Chunks found in the storage *)

(** [flb_mp_validate_metric_chunk], which decodes with lib/cmetrics: the result,
    the records and the bytes they take. *)
Variable validate_metrics : bytes -> Z * Z * nat.

(** The records of the content and the bytes they take: for a chunk that is
    damaged behind its first 32 bytes those before the damage.  [None] when the
    chunk is refused; other types have no records here. *)
Definition valid_part (t : tape) (ty : Z) (buf : bytes) : option (option (bool * Z * nat)) :=
  let judge (x : Z * Z * nat) :=
    let '(ret, records, offset) := x in
    if ret =? -1 then
      if records <=? 0 then None else if (32 <? offset)%nat then Some (true, records, offset) else None
    else Some (false, records, offset) in
  if ty =? Routes.FLB_INPUT_LOGS then x ← LogEvent.Validate.flb_mp_validate_log_chunk t buf; Some (judge x)
  else if ty =? Routes.FLB_INPUT_METRICS then Some (judge (validate_metrics buf))
  else Some (Some (false, 0, 0%nat)).

Definition cut (offset : nat) (c : Chunk.cio_chunk) (w : world) : option Chunk.cio_chunk :=
  '(_, c) ← Chunk.cio_chunk_write_at (ctx w) [] (Z.of_nat offset) [] c; Some c.

(** [flb_input_chunk_map] *)
Definition flb_input_chunk_map (t : tape) (i : nat) (ty : Z) (c : Chunk.cio_chunk) (w : world) :
    option (option nat * world) :=
  let '(ok, t) := flb_malloc t in
  if negb ok then Some (None, w)
  else
    '(ret, buf, c) ← Chunk.cio_chunk_get_content (ctx w) c;
    if negb (ret =? File.CIO_OK) then Some (None, w)
    else
      let '(ok, t) := flb_malloc t in
      if negb ok then Some (None, w)
      else
        r ← valid_part t ty buf;
        match r with
        | None => Some (None, w)
        | Some (damaged, records, offset) =>
            c ← (if damaged : bool then cut offset c w else Some c);
            if records =? 0 then Some (None, w)
            else
              let bytes := Chunk.cio_chunk_get_content_size c in
              if bytes =? -1 then Some (None, w)
              else
                c ← (if Z.of_nat offset <? bytes then cut offset c w else Some c);
                let w := if 0 <? records then count_input i records (Z.of_nat (length buf)) w else w in
                '(tag, c) ← flb_input_chunk_get_tag (ctx w) c;
                match tag with
                | None => Some (None, w)
                | Some tag =>
                    let k := new_chunk i ty (routes_of w tag) in
                    let bytes := InputChunk.flb_input_chunk_get_real_size (view (ctx w) c k) in
                    if bytes <? 0 then Some (None, w)
                    else
                      let '(a, w) := link c k (mkext false records 0 true) w in
                      Some (Some a, flb_input_chunk_update_output_instances a bytes w)
                end
        end.

End Path.

(** *** A run *)

Definition ex_mcfg : RoutesMask.mask_config :=
  {| RoutesMask.route_mask_size := 1; RoutesMask.route_mask_slots := 64; RoutesMask.route_empty_mask := Some [0] |}.

Definition ex_input (type : Z) : InputChunk.flb_input_instance :=
  {| InputChunk.in_chunks := []; InputChunk.storage_type := type; InputChunk.cio_type := type;
     InputChunk.pause_on_chunks := false; InputChunk.mem_buf_limit := 0; InputChunk.mem_chunks_size := 0;
     InputChunk.mem_buf_status := InputChunk.FLB_INPUT_RUNNING;
     InputChunk.storage_buf_status := InputChunk.FLB_INPUT_RUNNING; InputChunk.cb_resume := false |}.

(** An input in memory and one in files, and an output that takes everything. *)
Definition ex_cfg : settings unit :=
  {| s_page_size := 4096; s_checksum := true; s_trim := false; s_realloc := 32768;
     storage_del_bad_chunks := true; s_tag := λ _, None; s_name := λ _, str "dummy.0"; routable := λ _, true;
     s_outputs := [{| RoutesMask.mo_id := 1; RoutesMask.mo_match := Some (str "*"); RoutesMask.mo_match_regex := None |}] |}.

Definition ex_world (fs : list (@Filters.flb_filter_instance unit unit)) : @world unit unit :=
  mkworld
    {| InputChunk.chunks := ∅; InputChunk.tasks := ∅;
       InputChunk.inputs := [ex_input InputChunk.FLB_STORAGE_MEM; ex_input InputChunk.FLB_STORAGE_FS];
       InputChunk.outs := [{| InputChunk.out_id := 1; InputChunk.total_limit_size := 100000;
                              InputChunk.fs_chunks_size := 0; InputChunk.fs_backlog_chunks_size := 0 |}];
       InputChunk.mcfg := ex_mcfg; InputChunk.max_chunks_up := 128; InputChunk.is_running := true;
       InputChunk.is_ingestion_active := true; InputChunk.log := [] |} ∅ ∅ ∅ fs ∅ 0.

(** Records to each input, with two tags, and then what is in the chunks. *)
Definition ex_sb (_ : nat) (required size : Z) : Z * Z := (required, size).

Definition ex_append (i : nat) (tag : bytes) (n : nat) (w : @world unit unit) : option (@world unit unit) :=
  '(ret, w) ← input_chunk_append_raw (λ _ _, -1) ex_sb 0 ex_cfg [] i Routes.FLB_INPUT_LOGS (Z.of_nat n)
                (Some tag) (replicate n 0xc0) w;
  if ret =? 0 then Some w else None.

Definition contents (w : @world unit unit) (a : nat) : option bytes * option bytes * option Z :=
  (c ← cio w !! a; content_of (ctx ex_cfg w) c, c ← cio w !! a; meta_of (ctx ex_cfg w) c,
   total_records <$> ext w !! a).

Definition ex_run : option (@world unit unit) :=
  w ← ex_append 0 (str "app.a") 3 (ex_world [Filters.drop_first]);
  w ← ex_append 1 (str "app.a") 2 w;
  w ← ex_append 0 (str "app.a") 4 w;
  w ← ex_append 1 (str "b") 2 w;
  ex_append 1 (str "app.a") 1 w.

Example appended :
  match ex_run with
  | Some w =>
      map (contents w) [0; 1; 2; 3]%nat =
      [(Some (replicate 5 0xc0), Some (header_bytes 0 (str "app.a")), Some 5);
       (Some [0xc0], Some (header_bytes 0 (str "app.a")), Some 1);
       (Some [0xc0; 0xc0], Some (header_bytes 0 (str "b")), Some 2); (None, None, None)]
  | None => False
  end.
Proof. vm_compute. reflexivity. Qed.

End Ingest.
