(* ===== verification/IngestFacts.v ===== *)
(** * What appending keeps (src/flb_input_chunk.c)

    The theorems on Ingest.v.  [Stored] has what a chunk holds, up or down, on
    either backend; [Evolve] what the management of space of InputChunk.v can do
    to the chunks and to the log of deletions; [Facts] the invariant of the
    state, that every operation keeps it, what appending does to the contents and
    to the numbers of records, and what chunks hold after any run. *)

From S2P Require Import Prelude.
From S2P Require Import Router.
From S2P Require Import RoutesMask.
From S2P Require Import Task.
From S2P Require Import InputChunk.
From S2P Require Import Msgpack.
From S2P Require Import LogEvent.
From S2P Require Import Chunkio.
From S2P Require Import ChunkFile.
From S2P Require Import ChunkStore.
From S2P Require Import Filters.
From S2P Require Import Ingest.

(** ** What a chunk holds *)

Module Stored.
Import File Memfs Chunk ChunkFile ChunkStore Header.

(** Up, or a file that is down. *)
Inductive held (x : cio_ctx) (c : cio_chunk) (meta content : bytes) : Prop :=
  | held_up : chunk_ok x c meta content -> held x c meta content
  | held_down f : be c = FS f -> downed x f meta content -> held x c meta content.

(** The context matters by the option for checksums only. *)
Lemma laid_ext x y f meta content : checksum x = checksum y -> laid x f meta content -> laid y f meta content.
Proof. intros E [? ? ? Hf ? ? ? ? ? ? Hc ? ? Hs]. rewrite E in Hf, Hc, Hs. by split. Qed.

Lemma downed_ext x y f meta content : checksum x = checksum y -> downed x f meta content -> downed y f meta content.
Proof. intros E [? ? ? Hf ? ? ? ? ? ?]. rewrite E in Hf. by split. Qed.

Lemma chunk_ok_ext x y c meta content : checksum x = checksum y -> chunk_ok x c meta content -> chunk_ok y c meta content.
Proof. intros E [f Hb Hl|m Hb Hm]; [eapply ok_fs; [exact Hb|by eapply laid_ext]|by eapply ok_mem]. Qed.

Lemma held_ext x y c meta content : checksum x = checksum y -> held x c meta content -> held y c meta content.
Proof.
  intros E [H|f Hb H]; [left; by eapply chunk_ok_ext|eapply held_down; [exact Hb|by eapply downed_ext]].
Qed.

Section Ops.
Context (x : cio_ctx).
Hypothesis page_ok : 0 < page_size x <= 2 ^ 32.

Lemma down_not_up f c meta content : be c = FS f -> downed x f meta content -> cio_chunk_is_up c = false.
Proof. intros Hb [[Ho _] _ _ _ _ _ _ _ _ _]. unfold cio_chunk_is_up, cio_file_is_up. by rewrite Hb, Ho. Qed.

Lemma held_is_up c meta content : held x c meta content -> cio_chunk_is_up c = true -> chunk_ok x c meta content.
Proof. intros [H|f Hb Hd] Hup; [done|]. by rewrite (down_not_up f c meta content Hb Hd) in Hup. Qed.

(** Bringing a chunk up by force works. *)
Lemma held_force c meta content : held x c meta content -> cio_chunk_is_up c = false ->
  exists c', cio_chunk_up_force x c = Some (0, c') /\ chunk_ok x c' meta content /\ lock c' = lock c /\
    (exists f, be c = FS f).
Proof.
  intros [H|f Hb Hd] Hup; [by rewrite (chunk_up x _ _ _ H) in Hup|].
  destruct (downed_up x f meta content false Hd) as (g & Hg & Hl); [done|].
  unfold cio_chunk_up_force, on_file, cio_file_up_force. rewrite Hb, Hg. cbn [mbind option_bind].
  eexists. split; [done|]. split; [by eapply ok_fs|]. split; [done|by exists f].
Qed.

(** Without force it works while few enough are up. *)
Lemma held_up_now c meta content : held x c meta content -> cio_chunk_is_up c = false ->
  exists r c', cio_chunk_up x c = Some (r, c') /\
    (open_and_up x = true /\ r = 0 /\ chunk_ok x c' meta content \/ open_and_up x = false /\ r = -1 /\ c' = c).
Proof.
  intros [H|f Hb Hd] Hup; [by rewrite (chunk_up x _ _ _ H) in Hup|].
  unfold cio_chunk_up, on_file, cio_file_up. rewrite Hb. destruct (open_and_up x) eqn:Eo.
  - destruct (downed_up x f meta content true Hd) as (g & -> & Hl); [done|]. cbn [mbind option_bind].
    eexists _, _. split; [done|]. left. split; [done|]. split; [done|by eapply ok_fs].
  - destruct Hd as [[Ho Hm] _ _ _ _ _ _ _ _ _]. unfold _cio_file_up. rewrite Hm, Ho, Eo. cbn.
    eexists _, _. split; [done|]. right. split; [done|]. split; [done|]. destruct c. cbn in Hb. by subst.
Qed.

Lemma held_set_down c meta content : chunk_ok x c meta content ->
  exists c', cio_chunk_down x c = Some (0, c') /\ held x c' meta content /\ lock c' = lock c.
Proof.
  intros [f Hb Hl|m Hb Hm]; unfold cio_chunk_down, on_file; rewrite Hb.
  - destruct (laid_down x page_ok f meta content Hl) as (g & -> & Hd). cbn [mbind option_bind].
    eexists. split; [done|]. split; [by eapply held_down|done].
  - eexists. split; [done|]. split; [left; by eapply ok_mem|done].
Qed.

Lemma held_lock c meta content : chunk_ok x c meta content ->
  exists r c', cio_chunk_lock x c = Some (r, c') /\ chunk_ok x c' meta content /\ lock c' = true.
Proof.
  intros Hc. unfold cio_chunk_lock. destruct (lock c) eqn:El; [by eexists _, _|].
  assert (Hc1 : chunk_ok x (with_lock true c) meta content) by (destruct Hc; [by eapply ok_fs|by eapply ok_mem]).
  rewrite (chunk_up x _ _ _ Hc1). destruct (chunk_sync_ok x page_ok _ _ _ Hc1) as (c' & -> & Hc' & Hl).
  by eexists _, _.
Qed.

(** What the fields of InputChunk.v are taken from. *)
Lemma held_up_again c meta content : held x c meta content -> chunk_ok x (Ingest.up_again x c) meta content.
Proof.
  intros H. unfold Ingest.up_again. destruct (cio_chunk_is_up c) eqn:E; [by apply held_is_up|].
  by destruct (held_force c meta content H E) as (c' & -> & Hc & _).
Qed.

Lemma held_meta c meta content : held x c meta content -> meta <> [] -> Ingest.meta_of x c = Some meta.
Proof.
  intros H Hm. unfold Ingest.meta_of.
  by destruct (chunk_meta_ok x _ meta content (held_up_again c meta content H) Hm) as (c' & -> & _).
Qed.

Lemma held_content c meta content : held x c meta content -> Ingest.content_of x c = Some content.
Proof.
  intros H. unfold Ingest.content_of.
  by destruct (chunk_content_ok x _ meta content (held_up_again c meta content H)) as (c' & -> & _).
Qed.

(** Reading does not change a chunk that is up. *)
Lemma read_same c meta content : chunk_ok x c meta content -> meta <> [] ->
  cio_chunk_get_content x c = Some (0, content, c) /\ cio_meta_read x c = Some (Some meta, c).
Proof.
  intros Hc Hm. destruct (chunk_content_ok x c _ _ Hc) as (c1 & H1 & _).
  destruct (chunk_meta_ok x c _ _ Hc Hm) as (c2 & H2 & _).
  assert (Hs : c1 = c /\ c2 = c); [|destruct Hs as [-> ->]; done].
  unfold cio_chunk_get_content in H1. unfold cio_meta_read in H2.
  destruct Hc as [f Hb Hl|m Hb Hm']; rewrite Hb in H1, H2.
  - rewrite mapped_stays in H1, H2 by (by eapply laid_mapped). cbn [mbind option_bind Z.eqb CIO_OK negb] in H1, H2.
    destruct c as [b lk tx tc tl]. cbn in Hb. subst b. split; [by injection H1 as _ <-|].
    cbn in H2. case_match; [done|by injection H2 as _ <-].
  - split; [by injection H1 as _ <-|]. repeat case_match; by simplify_eq.
Qed.

(** *** The header of a new chunk *)

Lemma header_cons ty tag : header_bytes ty tag <> [].
Proof. done. Qed.

Lemma type_byte_range ty : 0 <= type_byte ty <= 4.
Proof. unfold type_byte. repeat case_match; vm_compute; split; discriminate. Qed.

Lemma header_is_bytes ty tag : is_bytes tag -> is_bytes (header_bytes ty tag).
Proof.
  intros H. unfold header_bytes. apply Forall_app_2; [|by apply Forall_take].
  pose proof (type_byte_range ty). repeat constructor; unfold is_byte, FLB_INPUT_CHUNK_MAGIC_BYTE_0,
    FLB_INPUT_CHUNK_MAGIC_BYTE_1; lia.
Qed.

Lemma header_size ty tag : size (header_bytes ty tag) = 4 + Z.min (65535 - 4) (size tag).
Proof.
  unfold header_bytes, size. rewrite length_app, length_take. unfold FLB_INPUT_CHUNK_META_HEADER. simpl length. lia.
Qed.

Lemma tag_of_header ty tag : size tag <= FLB_INPUT_CHUNK_TAG_MAX -> tag_of (header_bytes ty tag) = tag.
Proof.
  intros H. unfold tag_of, header_bytes, FLB_INPUT_CHUNK_TAG_MAX, size in *.
  rewrite take_ge by (unfold FLB_INPUT_CHUNK_META_HEADER in *; lia). done.
Qed.

(** In a file the tag leaves room for the move of [cio_file_write_metadata]. *)
Definition tag_fits (fs : bool) (tag : bytes) : Prop :=
  is_bytes tag /\ size tag <= FLB_INPUT_CHUNK_TAG_MAX /\
  (fs = true -> 24 + 2 * (4 + size tag) <= first_size x).

(** A chunk that was just opened, or brought up for the first time. *)
Inductive fresh (c : cio_chunk) : Prop :=
  | fresh_fs f : be c = FS f -> laid x f [] [] -> alloc_size f = first_size x -> fresh c
  | fresh_mem m : be c = MEM m -> buf_len m = 0 -> 0 < mem_realloc m -> fresh c.

Lemma fresh_header c ty tag : fresh c -> tag_fits (Ingest.is_fs c) tag ->
  exists c', input_chunk_write_header x [] c ty tag = Some (0, c', []) /\
    chunk_ok x c' (header_bytes ty tag) [] /\ lock c' = lock c.
Proof.
  intros Hc (Hb & Hs & Hf). unfold input_chunk_write_header. cbn [flb_malloc negb]. unfold cio_meta_write.
  pose proof (header_size ty tag) as Hsz. unfold FLB_INPUT_CHUNK_TAG_MAX, FLB_INPUT_CHUNK_META_HEADER in Hs.
  rewrite (proj2 (Z.ltb_ge 65535 (size (header_bytes ty tag)))) by lia.
  unfold Ingest.is_fs in Hf. destruct Hc as [f Hbe Hl Ha|m Hbe Hn Hr]; rewrite Hbe in *.
  - specialize (Hf eq_refl). destruct (laid_new_meta x f (header_bytes ty tag) Hl) as (g & -> & Hg & _);
      [done|by apply header_is_bytes|lia|lia|]. cbn [mbind option_bind]. eexists. split; [done|].
    split; [by eapply ok_fs|done].
  - cbn [cio_memfs_meta_write flb_malloc mbind option_bind]. eexists. split; [done|]. split; [|done].
    eapply ok_mem; [done|]. split; cbn; rewrite ?Hn; try done.
    unfold buf_size, size. simpl. lia.
Qed.

Lemma read_header c ty tag content : chunk_ok x c (header_bytes ty tag) content ->
  size tag <= FLB_INPUT_CHUNK_TAG_MAX ->
  (exists c', flb_input_chunk_get_tag x c = Some (Some tag, c')) /\
  (exists c', flb_input_chunk_get_event_type x c = Some (type_of_byte (type_byte ty), c')).
Proof.
  intros Hc Ht. destruct (chunk_meta_ok x c _ _ Hc (header_cons ty tag)) as (c' & Hr & _).
  unfold flb_input_chunk_get_tag, flb_input_chunk_get_event_type. rewrite Hr. cbn [mbind option_bind option_map].
  rewrite tag_of_header by done. split; by eexists.
Qed.

End Ops.
Definition typed (ty : Z) : Prop :=
  ty = Routes.FLB_INPUT_LOGS \/ ty = Routes.FLB_INPUT_METRICS \/ ty = Routes.FLB_INPUT_TRACES \/
  ty = Routes.FLB_INPUT_PROFILES.

(** C18: the header that a new chunk gets, in memory or in a file, is read back as
    the type of its events and its tag, also after the chunk went down and up;
    blobs are the exception, their chunks read back as logs.  The tag has at most
    65531 bytes; for a chunk in a file it is shorter, 24 + 2 * (4 + its length)
    bytes are within the first mapping (a tag of about 2 KB with pages of 4 KB):
    longer ones are stored outside of the map (C30).
    Pages have 1 to 2^32 bytes; no allocation and no call of the system fails. *)
Theorem chunk_header_roundtrip x c ty tag : 0 < page_size x <= 2 ^ 32 -> fresh x c -> tag_fits x (Ingest.is_fs c) tag ->
  exists c0 c1 c2, input_chunk_write_header x [] c ty tag = Some (0, c0, []) /\
    cio_chunk_down x c0 = Some (0, c1) /\
    (if cio_chunk_is_up c1 then Some (0, c1) else cio_chunk_up_force x c1) = Some (0, c2) /\
    (exists c', flb_input_chunk_get_tag x c2 = Some (Some tag, c')) /\
    (typed ty -> exists c', flb_input_chunk_get_event_type x c2 = Some (ty, c')) /\
    (ty = Routes.FLB_INPUT_BLOBS ->
     exists c', flb_input_chunk_get_event_type x c2 = Some (Routes.FLB_INPUT_LOGS, c')).
Proof.
  intros Hp Hc Hf. destruct (fresh_header x c ty tag Hc Hf) as (c0 & H0 & Hc0 & _).
  destruct (held_set_down x Hp c0 _ _ Hc0) as (c1 & H1 & Hc1 & _).
  assert (H2 : exists c2, (if cio_chunk_is_up c1 then Some (0, c1) else cio_chunk_up_force x c1) = Some (0, c2) /\
    chunk_ok x c2 (header_bytes ty tag) []).
  { destruct (cio_chunk_is_up c1) eqn:E; [exists c1; split; [done|by apply held_is_up]|].
    destruct (held_force x c1 _ _ Hc1 E) as (c2 & -> & Hc2 & _). by exists c2. }
  destruct H2 as (c2 & H2 & Hc2). destruct Hf as (_ & Ht & _).
  destruct (read_header x c2 ty tag [] Hc2 Ht) as [Hg [c' He]].
  exists c0, c1, c2. split_and!; try done.
  - intros Hty. exists c'. rewrite He. by destruct Hty as [->|[->|[->| ->]]].
  - intros ->. by exists c'.
Qed.

Lemma chunk_header_roundtrip_witness :
  exists m t, cio_memfs_open [] 262144 32768 = (Some m, t) /\
  exists c0 c1 c2, input_chunk_write_header (ex_ctx true) [] (mkch (MEM m) false false 0 0)
      Routes.FLB_INPUT_METRICS (str "cpu.local") = Some (0, c0, []) /\
    cio_chunk_down (ex_ctx true) c0 = Some (0, c1) /\
    (if cio_chunk_is_up c1 then Some (0, c1) else cio_chunk_up_force (ex_ctx true) c1) = Some (0, c2) /\
    exists c', flb_input_chunk_get_event_type (ex_ctx true) c2 = Some (Routes.FLB_INPUT_METRICS, c').
Proof.
  eexists _, _. split; [reflexivity|].
  match goal with |- context [mkch ?b false false 0 0] => set (c := mkch b false false 0 0) end.
  destruct (chunk_header_roundtrip (ex_ctx true) c Routes.FLB_INPUT_METRICS (str "cpu.local"))
    as (c0 & c1 & c2 & H0 & H1 & H2 & _ & Ht & _).
  - vm_compute. split; [reflexivity|discriminate].
  - eapply fresh_mem; [reflexivity|reflexivity|reflexivity].
  - split; [|split; vm_compute; discriminate].
    repeat (apply Forall_cons_2; [vm_compute; split; [discriminate|reflexivity]|]). constructor.
  - exists c0, c1, c2. split; [exact H0|]. split; [exact H1|]. split; [exact H2|].
    apply Ht. right. left. reflexivity.
Defined.

End Stored.

(** ** What the management of space does to the chunks *)

Module Evolve.
Import InputChunk.

(** The content of the chunk can be brought to memory. *)
Definition readable (k : flb_input_chunk) : bool := cio_up k || cio_fs k && cio_force_ok k.

(** The chunk but for its routes and whether its bytes are counted. *)
Record same_chunk (k k' : flb_input_chunk) : Prop := {
  sc_type : event_type k' = event_type k;
  sc_in : ck_in k' = ck_in k;
  sc_task : task k' = task k;
  sc_fs : cio_fs k' = cio_fs k;
  sc_up : cio_up k' = cio_up k;
  sc_real : cio_real k' = cio_real k;
  sc_force : cio_force_ok k' = cio_force_ok k;
  sc_tag : cio_tag k' = cio_tag k }.

Lemma same_chunk_refl k : same_chunk k k.
Proof. by split. Qed.

Lemma same_chunk_trans k1 k2 k3 : same_chunk k1 k2 -> same_chunk k2 k3 -> same_chunk k1 k3.
Proof. intros [] []. split; congruence. Qed.

Lemma same_chunk_readable k k' : same_chunk k k' -> readable k' = readable k.
Proof. intros []. unfold readable. congruence. Qed.

(** The chunk [a] was closed, and deleted from the table of its input. *)
Record closed (l : list chunk_event) (a : nat) (k : flb_input_chunk) : Prop := {
  cl_close : C_close a true ∈ l;
  cl_table : forall tag, readable k = true -> cio_tag k = Some tag -> has_chunk_table (event_type k) = true ->
    C_ht_del (ck_in k) (event_type k) tag a ∈ l }.

Lemma closed_same l a k k' : same_chunk k k' -> closed l a k' -> closed l a k.
Proof.
  intros Hk [H1 H2]. split; [done|]. pose proof (same_chunk_readable k k' Hk) as Hr.
  destruct Hk as [E1 E2 E3 E4 E5 E6 E7 E8]. intros tag. rewrite <- Hr, <- E1, <- E2, <- E8. apply H2.
Qed.

Lemma closed_mono l l' a k : (forall e, e ∈ l -> e ∈ l') -> closed l a k -> closed l' a k.
Proof. intros Hl [H1 H2]. split; eauto. Qed.

(** The chunks of [s'] were in [s]; what was dropped is in the log. *)
Record evolve (s s' : store) : Prop := {
  ev_mcfg : mcfg s' = mcfg s;
  ev_max : max_chunks_up s' = max_chunks_up s;
  ev_inputs : map cio_type (inputs s') = map cio_type (inputs s);
  ev_chunks : forall a k', chunks s' !! a = Some k' -> exists k, chunks s !! a = Some k /\ same_chunk k k';
  ev_tasks : forall t k', tasks s' !! t = Some k' -> exists k, tasks s !! t = Some k /\ Task.ic k' = Task.ic k;
  ev_log : exists l, log s' = log s ++ l /\
    forall a k, chunks s !! a = Some k -> chunks s' !! a = None -> closed l a k }.

Lemma evolve_refl s : evolve s s.
Proof.
  split; try done; [intros a k' H; by exists k'|intros t k' H; by exists k'|].
  exists []. split; [by rewrite app_nil_r|]. intros a k H H'. congruence.
Qed.

Lemma evolve_trans s1 s2 s3 : evolve s1 s2 -> evolve s2 s3 -> evolve s1 s3.
Proof.
  intros [A1 A2 A3 A4 A5 (l1 & A6 & A7)] [B1 B2 B3 B4 B5 (l2 & B6 & B7)]. split; try congruence.
  - intros a k3 H. destruct (B4 a k3 H) as (k2 & H2 & S2). destruct (A4 a k2 H2) as (k1 & H1 & S1).
    exists k1. split; [done|by eapply same_chunk_trans].
  - intros t k3 H. destruct (B5 t k3 H) as (k2 & H2 & S2). destruct (A5 t k2 H2) as (k1 & H1 & S1).
    exists k1. split; [done|congruence].
  - exists (l1 ++ l2). split; [rewrite B6, A6; by rewrite app_assoc|]. intros a k H1 H3.
    destruct (chunks s2 !! a) as [k2|] eqn:H2.
    + destruct (A4 a k2 H2) as (k' & Hk' & Hs). assert (k' = k) as -> by congruence.
      apply (closed_same _ a k k2 Hs). apply (closed_mono l2); [set_solver|eauto].
    + apply (closed_mono l1); [set_solver|eauto].
Qed.

(** Steps that leave chunks, tasks and log. *)
Lemma evolve_same s s' :
  mcfg s' = mcfg s -> max_chunks_up s' = max_chunks_up s -> map cio_type (inputs s') = map cio_type (inputs s) ->
  chunks s' = chunks s -> tasks s' = tasks s -> (exists l, log s' = log s ++ l) -> evolve s s'.
Proof.
  intros H1 H2 H3 H4 H5 (l & Hl). split; try done; rewrite ?H4, ?H5.
  - intros a k' H. exists k'. split; [done|apply same_chunk_refl].
  - intros t k' H. by exists k'.
  - exists l. split; [done|]. intros a k Ha Ha'. congruence.
Qed.

(** A chunk with a task is the chunk of that task. *)
Definition owned_tasks (s : store) : Prop := forall a k t, chunks s !! a = Some k -> task k = Some t ->
  exists kt, tasks s !! t = Some kt /\ Task.ic kt = a.

(** Steps that leave the chunks of [keep]. *)
Definition evolves (keep : nat -> Prop) (s s' : store) : Prop := owned_tasks s ->
  evolve s s' /\ owned_tasks s' /\
  (forall a, keep a -> is_Some (chunks s !! a) -> is_Some (chunks s' !! a)).

Lemma evolves_refl keep s : evolves keep s s.
Proof. intros H. split; [apply evolve_refl|done]. Qed.

Lemma evolves_trans keep s1 s2 s3 : evolves keep s1 s2 -> evolves keep s2 s3 -> evolves keep s1 s3.
Proof.
  intros H1 H2 Ho. destruct (H1 Ho) as (E1 & O1 & K1). destruct (H2 O1) as (E2 & O2 & K2).
  split; [by eapply evolve_trans|]. split; [done|]. intros a Ha Hs. eauto.
Qed.

Lemma evolves_same keep s s' :
  mcfg s' = mcfg s -> max_chunks_up s' = max_chunks_up s -> map cio_type (inputs s') = map cio_type (inputs s) ->
  chunks s' = chunks s -> tasks s' = tasks s -> (exists l, log s' = log s ++ l) -> evolves keep s s'.
Proof.
  intros H1 H2 H3 H4 H5 H6 Ho. split; [by apply evolve_same|]. unfold owned_tasks. by rewrite H4, H5.
Qed.

Lemma evolves_emit keep e s : evolves keep s (emit e s).
Proof. by apply evolves_same; try done; exists [e]. Qed.

Lemma evolves_out keep out f s : evolves keep s (update_out out f s).
Proof. by apply evolves_same; try done; exists []; rewrite app_nil_r. Qed.

Lemma evolves_update_input keep i f s : (forall x, cio_type (f x) = cio_type x) -> evolves keep s (update_input i f s).
Proof.
  intros Hf. apply evolves_same; try done; [by apply map_alter|exists []; by rewrite app_nil_r].
Qed.

Lemma evolves_chunk keep a f s : (forall k, same_chunk k (f k)) -> evolves keep s (update_chunk a f s).
Proof.
  intros Hf Ho.
  assert (Hc : forall b k', alter f a (chunks s) !! b = Some k' -> exists k, chunks s !! b = Some k /\ same_chunk k k').
  { intros b k' [(<- & k & Hk & ->)|[_ Hk]]%lookup_alter_Some; [by exists k|].
    exists k'. split; [done|apply same_chunk_refl]. }
  split; [split; try done|split].
  - intros t k' H. by exists k'.
  - exists []. rewrite app_nil_r. split; [done|]. intros b k Hb Hn. simpl in Hn.
    apply lookup_alter_None in Hn. congruence.
  - intros b k' t Hb Ht. destruct (Hc b k' Hb) as (k & Hk & Hs). apply (Ho b k t Hk).
    by rewrite <- (sc_task _ _ Hs).
  - intros b _ Hb. simpl. destruct (decide (a = b)) as [->|Hne].
    + rewrite lookup_alter_eq. destruct Hb as [k ->]. by eexists.
    + by rewrite lookup_alter_ne.
Qed.

Lemma evolves_set_limits keep i s : evolves keep s (snd (flb_input_chunk_set_limits i s)).
Proof.
  unfold flb_input_chunk_set_limits. cbn [snd].
  assert (Hr : forall (b : bool) s, evolves keep s (if b then flb_input_resume i s else s)).
  { intros [] s0; [apply evolves_emit|apply evolves_refl]. }
  eapply evolves_trans; [apply (evolves_update_input keep i (set_mem_size (flb_input_chunk_total_size i s))); done|].
  eapply evolves_trans; [|unfold set_limits_storage; case_match; [|apply evolves_refl]; case_match; [|apply evolves_refl];
    eapply evolves_trans; [apply evolves_update_input|apply Hr]; done].
  unfold set_limits_mem. case_match; [|apply evolves_refl]. case_match; [|apply evolves_refl].
  eapply evolves_trans; [apply evolves_update_input|apply Hr]; done.
Qed.

Lemma destroy_log a s k : chunks s !! a = Some k ->
  exists l, log (flb_input_chunk_destroy a true s) = log s ++ l /\ closed l a k /\
    max_chunks_up (flb_input_chunk_destroy a true s) = max_chunks_up s /\
    map cio_type (inputs (flb_input_chunk_destroy a true s)) = map cio_type (inputs s).
Proof.
  intros Hk. unfold flb_input_chunk_destroy. rewrite Hk. cbv zeta.
  set (c1 := if cio_up k then k else cio_chunk_up k).
  set (c2 := if cio_up c1 then c1 else if cio_fs c1 && cio_force_ok c1 then set_up true c1 else c1).
  assert (H2 : cio_tag c2 = cio_tag k /\ event_type c2 = event_type k /\ ck_in c2 = ck_in k /\
    (readable k = true -> cio_up c2 = true)).
  { unfold c2, c1, readable, cio_chunk_up. destruct k as [? ? ? ? ? fs up ? ? ? uo fo ? ?]. simpl.
    by destruct up, fs, uo, fo. }
  destruct H2 as (Ht & He & Hi & Hr). clearbody c2. rewrite Ht, He, Hi.
  destruct (if cio_up c2 then cio_tag k else None) as [tag|] eqn:Etag;
    [destruct (true && has_chunk_table (event_type k)) eqn:Eh|].
  - exists [C_ht_del (ck_in k) (event_type k) tag a; C_close a true]. simpl. rewrite <- app_assoc.
    split; [done|]. split; [|split; [done|by apply map_alter]]. split; [set_solver|].
    intros tag' Hr' Ht' _. rewrite (Hr Hr'), Ht' in Etag. simplify_eq. set_solver.
  - exists [C_close a true]. split; [done|]. split; [|split; [done|by apply map_alter]]. split; [set_solver|].
    intros tag' _ _ H. simpl in Eh. congruence.
  - exists [C_close a true]. split; [done|]. split; [|split; [done|by apply map_alter]]. split; [set_solver|].
    intros tag' Hr' Ht'. rewrite (Hr Hr'), Ht' in Etag. done.
Qed.

Lemma evolves_destroy (keep : nat -> Prop) a s : ~ keep a -> evolves keep s (flb_input_chunk_destroy a true s).
Proof.
  intros Ha Ho. destruct (chunks s !! a) as [k|] eqn:Hk.
  2:{ unfold flb_input_chunk_destroy. rewrite Hk. by apply evolves_refl. }
  destruct (destroy_log a s k Hk) as (l & H1 & H2 & H3 & H4).
  destruct (destroy_effect a true s k Hk) as (E1 & E2 & E3 & _).
  set (s' := flb_input_chunk_destroy a true s) in *. clearbody s'. split; [split; try done|split].
  - intros b k' Hb. rewrite E1, lookup_delete_Some in Hb. exists k'. split; [apply Hb|apply same_chunk_refl].
  - intros t k' Ht. rewrite E2 in Ht. by exists k'.
  - exists l. split; [done|]. intros b k' Hb Hn. rewrite E1, lookup_delete_None in Hn.
    destruct Hn as [<-|Hn]; [|congruence]. by assert (k' = k) as -> by congruence.
  - intros b k' t Hb Ht. rewrite E1, lookup_delete_Some in Hb. rewrite E2. destruct Hb as [_ Hb]. by apply (Ho b k').
  - intros b Hb Hs. rewrite E1, lookup_delete_ne; [done|]. by intros ->.
Qed.

Lemma evolves_delete_task keep t kt s : tasks s !! t = Some kt -> chunks s !! Task.ic kt = None ->
  evolves keep s (set_tasks (delete t (tasks s)) s).
Proof.
  intros Ht Hn Ho. split; [split; try done|split; [|done]].
  - intros a k' H. exists k'. split; [done|apply same_chunk_refl].
  - intros t' k'. simpl. intros [_ H]%lookup_delete_Some. by exists k'.
  - exists []. rewrite app_nil_r. split; [done|]. intros a k H H'. simpl in H'. congruence.
  - intros a k t' Ha Hk. simpl in Ha |- *. destruct (Ho a k t' Ha Hk) as (kt' & H1 & H2). exists kt'.
    split; [|done]. rewrite lookup_delete_ne; [done|]. intros <-. congruence.
Qed.

Lemma evolves_task_destroy (keep : nat -> Prop) t kt s : tasks s !! t = Some kt -> ~ keep (Task.ic kt) ->
  evolves keep s (flb_task_destroy t true s).
Proof.
  intros Ht Hk. unfold flb_task_destroy. rewrite Ht. cbv zeta.
  eapply evolves_trans; [apply (evolves_emit keep (C_task_destroy t) s)|].
  eapply evolves_trans; [apply (evolves_destroy keep (Task.ic kt)); done|].
  eapply evolves_trans; [apply (evolves_set_limits keep (Task.i_ins kt))|].
  set (s1 := flb_input_chunk_destroy _ _ _).
  destruct (set_limits_same (Task.i_ins kt) s1) as (E1 & E2 & _).
  assert (H1 : tasks s1 = tasks s /\ chunks s1 !! Task.ic kt = None).
  { unfold s1. destruct (chunks (emit (C_task_destroy t) s) !! Task.ic kt) as [k|] eqn:Hc.
    - destruct (destroy_effect _ true _ k Hc) as (-> & -> & _). split; [done|apply lookup_delete_eq].
    - unfold flb_input_chunk_destroy. by rewrite Hc. }
  destruct H1 as [H1 H2]. apply (evolves_delete_task keep t kt); [by rewrite E2, H1|by rewrite E1].
Qed.

(** The end of a chunk, with its task if it has one that nobody uses. *)
Lemma evolves_release_destroy (keep : nat -> Prop) a k s : chunks s !! a = Some k -> ~ keep a ->
  evolves keep s (release_destroy a k s).1.
Proof.
  intros Hk Ha Ho. unfold release_destroy. destruct (task k) as [t|] eqn:Et; [|by apply evolves_destroy].
  destruct (Ho a k t Hk Et) as (kt & Ht & Hic). rewrite Ht.
  destruct (Task.users kt =? 0); cbn [fst]; [|by apply evolves_refl].
  apply (evolves_task_destroy keep t kt); [done|by rewrite Hic|done].
Qed.

Lemma same_chunk_mask m k : same_chunk k (set_mask m k).
Proof. by split. Qed.

Lemma evolves_drop_route keep t out s : evolves keep s (flb_input_chunk_drop_task_route t out s).2.
Proof.
  unfold flb_input_chunk_drop_task_route. destruct t as [t|]; [|apply evolves_refl].
  destruct (tasks s !! t) as [kt|]; [|apply evolves_refl].
  destruct (Task.users kt =? 0); [apply evolves_refl|]. case_match; [|apply evolves_refl].
  cbn [snd]. intros Ho. split; [split; try done|split; [|done]].
  - intros a k' Ha. exists k'. split; [done|apply same_chunk_refl].
  - intros t' k'. simpl. intros [(<- & k & Hk & ->)|[_ Hk]]%lookup_alter_Some; [by exists k|by exists k'].
  - exists []. rewrite app_nil_r. split; [done|]. intros a k Ha Ha'. simpl in Ha'. congruence.
  - intros a k t' Ha Hk. destruct (Ho a k t' Ha Hk) as (kt' & H3 & H4). simpl.
    destruct (decide (t = t')) as [->|Hne].
    + rewrite lookup_alter_eq, H3. by eexists.
    + rewrite lookup_alter_ne by done. by exists kt'.
Qed.

Lemma drop_route_chunks t out s : chunks (flb_input_chunk_drop_task_route t out s).2 = chunks s.
Proof. unfold flb_input_chunk_drop_task_route. by repeat case_match. Qed.

Lemma evolves_release_chunk (keep : nat -> Prop) a k out o scope dropped s : chunks s !! a = Some k -> ~ keep a ->
  evolves keep s (release_chunk a k out o scope dropped s).2.
Proof.
  intros Hk Ha. unfold release_chunk.
  set (r := match scope with SCOPE_LOCAL => _ | SCOPE_GLOBAL => _ end).
  assert (Hr : evolves keep s r.1.1 /\ exists k', chunks r.1.1 !! a = Some k' /\ task k' = task k).
  { unfold r. destruct scope; cbn [fst]; [|split; [apply evolves_refl|by exists k]]. split.
    - eapply evolves_trans; [|apply evolves_out]. apply evolves_chunk. intros k0. apply same_chunk_mask.
    - simpl. rewrite lookup_alter_eq, Hk. by eexists. }
  destruct r as [[s1 destroy] released]. cbn [fst] in Hr. destruct Hr as (H1 & k' & Hk' & Ht).
  set (s2 := if dropped =? 0 then _ else s1).
  assert (H2 : evolves keep s1 s2 /\ chunks s2 = chunks s1).
  { unfold s2. repeat case_match; (split; [first [apply evolves_refl|apply evolves_emit]|done]). }
  destruct H2 as (H2 & H3). clearbody s2.
  destruct destroy; [|by eapply evolves_trans]. destruct (release_destroy a k s2) as [s3 b] eqn:E. cbn [snd].
  eapply evolves_trans; [exact H1|]. eapply evolves_trans; [exact H2|].
  assert (E' : (release_destroy a k' s2).1 = s3) by (unfold release_destroy in *; rewrite Ht; by rewrite E).
  rewrite <- E'. apply evolves_release_destroy; [by rewrite H3|done].
Qed.

Lemma evolves_release_loop new out scope required l : forall released s,
  evolves (λ a, a = new) s (release_loop new out scope required l released s).2.
Proof.
  induction l as [|a l IH]; intros released s; simpl; [apply evolves_refl|].
  destruct (chunks s !! a) as [k|] eqn:Hk; [|apply IH]. destruct (outs s !! out) as [o|]; [|apply IH].
  destruct (negb (routed s k o)); [apply IH|].
  destruct (flb_input_chunk_safe_delete new a k (out_id o) (mcfg s)) eqn:Es; [|apply IH]. cbn [negb].
  assert (Hne : a <> new) by (intros ->; unfold flb_input_chunk_safe_delete in Es; by rewrite Nat.eqb_refl in Es).
  pose proof (evolves_drop_route (λ b, b = new) (task k) out s) as H1.
  pose proof (drop_route_chunks (task k) out s) as H2.
  destruct (flb_input_chunk_drop_task_route (task k) out s) as [[ok dropped] s1]. cbn [snd] in H1, H2.
  destruct ok; cbn [negb]; [|eapply evolves_trans; [exact H1|apply IH]].
  pose proof (evolves_release_chunk (λ b, b = new) a k out o scope dropped s1) as H3.
  destruct (release_chunk a k out o scope dropped s1) as [n s2]. cbn [snd] in H3.
  assert (H4 : evolves (λ b, b = new) s s2) by (eapply evolves_trans; [exact H1|apply H3; [by rewrite H2|done]]).
  case_match; [done|]. eapply evolves_trans; [exact H4|apply IH].
Qed.

Lemma evolves_release_space new inp out required scope s :
  evolves (λ a, a = new) s (flb_input_chunk_release_space new inp out required scope s).2.
Proof.
  unfold flb_input_chunk_release_space. destruct (inputs s !! inp) as [ii|]; [|apply evolves_refl].
  pose proof (evolves_release_loop new out scope required (in_chunks ii) 0 s) as H.
  by destruct (release_loop _ _ _ _ _ _ _).
Qed.

Lemma evolves_release_inputs new own out l : forall required s,
  evolves (λ a, a = new) s (release_inputs new own out l required s).2.
Proof.
  induction l as [|i l IH]; intros required s; simpl; [apply evolves_refl|].
  pose proof (evolves_release_space new i out required SCOPE_LOCAL s) as H.
  destruct (flb_input_chunk_release_space new i out required SCOPE_LOCAL s) as [r s1]. cbn [snd] in H.
  destruct (Nat.eqb i own); case_match; try done; try apply evolves_refl; try apply IH.
  eapply evolves_trans; [exact H|apply IH].
Qed.

Lemma evolves_compound sb backlog new out rl s :
  evolves (λ a, a = new) s (flb_input_chunk_release_space_compound sb backlog new out rl s).2.
Proof.
  unfold flb_input_chunk_release_space_compound. destruct (chunks s !! new) as [k|]; [|apply evolves_refl].
  set (r1 := if 0 <? flb_input_chunk_get_real_size k then _ else _).
  assert (H1 : evolves (λ a, a = new) s r1.2).
  { unfold r1. case_match; [apply evolves_release_space|apply evolves_refl]. }
  destruct r1 as [q1 s1]. cbn [snd] in H1. cbv zeta.
  set (r2 := if 0 <? q1 then _ else _).
  assert (H2 : evolves (λ a, a = new) s1 r2.2).
  { unfold r2. repeat case_match; try apply evolves_refl. apply evolves_out. }
  destruct r2 as [q2 s2]. cbn [snd] in H2.
  set (r3 := if rl && (0 <? q2) then _ else _).
  assert (H3 : evolves (λ a, a = new) s2 r3.2).
  { unfold r3. case_match; [apply evolves_release_space|apply evolves_refl]. }
  destruct r3 as [q3 s3]. cbn [snd] in H3.
  set (r4 := if 0 <? q3 then _ else _).
  assert (H4 : evolves (λ a, a = new) s3 r4.2).
  { unfold r4. case_match; [apply evolves_release_inputs|apply evolves_refl]. }
  destruct r4 as [q4 s4]. cbn [snd] in *.
  eapply evolves_trans; [exact H1|]. eapply evolves_trans; [exact H2|]. by eapply evolves_trans.
Qed.

Lemma evolves_find_space sb backlog new overlimit l : forall count s,
  evolves (λ a, a = new) s (find_space_loop sb backlog new overlimit l count s).2.
Proof.
  induction l as [|i l IH]; intros count s; simpl; [apply evolves_refl|].
  destruct (chunks s !! new) as [k|]; [|apply IH]. destruct (outs s !! i) as [o|]; [|apply IH].
  case_match; [apply IH|]. pose proof (evolves_compound sb backlog new i true s) as H1.
  destruct (flb_input_chunk_release_space_compound _ _ _ _ _ _) as [rest s1].
  eapply evolves_trans; [exact H1|apply IH].
Qed.

Lemma evolves_place sb backlog new size s :
  evolves (λ a, a = new) s (flb_input_chunk_place_new_chunk sb backlog new size s).2.
Proof.
  unfold flb_input_chunk_place_new_chunk. destruct (chunks s !! new) as [k|]; [|apply evolves_refl].
  destruct (inputs s !! ck_in k) as [ii|]; [|apply evolves_refl]. cbv zeta.
  match goal with |- context [let '(result, w) := ?x in _] => set (r := x) end.
  assert (Hr : evolves (λ a, a = new) s r.2) by (unfold r; case_match; [apply evolves_find_space|apply evolves_refl]).
  destruct r as [result s1]. by case_match.
Qed.

Lemma evolves_memrb_loop required l : forall n s, evolves (λ _, False) s (memrb_loop required l n s).2.
Proof.
  induction l as [|a l IH]; intros n s; simpl; [apply evolves_refl|].
  destruct (chunks s !! a) as [k|] eqn:Hk; [|apply IH]. case_match; [apply IH|].
  pose proof (evolves_release_destroy (λ _, False) a k s Hk) as H1.
  destruct (release_destroy a k s) as [s1 b]. cbn [fst] in H1.
  case_match; [by apply H1; intros []|]. eapply evolves_trans; [apply H1; by intros []|apply IH].
Qed.

Lemma evolves_memrb inp required s : evolves (λ _, False) s (memrb_input_chunk_release_space inp required s).2.
Proof.
  unfold memrb_input_chunk_release_space. destruct (inputs s !! inp) as [ii|]; [|apply evolves_refl].
  pose proof (evolves_memrb_loop required (in_chunks ii) {| released_space := 0; removed_chunks := 0 |} s) as H.
  by destruct (memrb_loop _ _ _ _).
Qed.

Lemma evolves_protect keep i s : evolves keep s (flb_input_chunk_protect i s).2.
Proof.
  unfold flb_input_chunk_protect. destruct (inputs s !! i) as [ii|] eqn:Hi; [|apply evolves_refl].
  assert (Hp : evolves keep s (flb_input_pause i s)).
  { unfold flb_input_pause. rewrite Hi. case_match; [apply evolves_refl|apply evolves_emit]. }
  repeat case_match; try apply evolves_refl; (eapply evolves_trans; [exact Hp|by apply evolves_update_input]).
Qed.

Lemma evolves_count keep a n s : evolves keep s (flb_input_chunk_update_output_instances a n s).
Proof.
  unfold flb_input_chunk_update_output_instances. destruct (chunks s !! a) as [k|]; [|apply evolves_refl]. cbv zeta.
  assert (H : forall l, evolves keep s (set_outs l s)).
  { intros l. apply evolves_same; try done. exists []. by rewrite app_nil_r. }
  case_match; [|apply H]. eapply evolves_trans; [apply H|]. apply evolves_chunk. intros k0. by split.
Qed.

End Evolve.

(** ** Appending *)

Module Facts.
Import File Header Ingest Stored Evolve.

Section Path.
Context {regex context : Type}.
Variable onig_match : regex -> bytes -> Z.
Variable sb_release_output_queue_space : nat -> Z -> Z -> Z * Z.
Variable backlog : nat.
Variable cfg : settings regex.
Hypothesis page_ok : 0 < s_page_size cfg <= 2 ^ 32.
Hypothesis realloc_ok : 0 < s_realloc cfg <= 2 ^ 32.

Abbreviation world := (@world regex context).
Abbreviation ctx := (ctx cfg).

(** What a chunk is for its users: input, type, tag and content. *)
Record desc := mkdesc { d_in : nat; d_type : Z; d_tag : bytes; d_content : bytes }.

Definition alive (w : world) (a : nat) : Prop := is_Some (InputChunk.chunks (st w) !! a).

Record stored (w : world) (a : nat) (d : desc) : Prop := {
  so_chunk : exists k, InputChunk.chunks (st w) !! a = Some k /\ InputChunk.ck_in k = d_in d /\
    InputChunk.event_type k = d_type d /\ InputChunk.cio_tag k = Some (d_tag d) /\ readable k = true;
  so_held : exists c, cio w !! a = Some c /\ held (ctx w) c (header_bytes (d_type d) (d_tag d)) (d_content d) /\
    (Chunk.lock c = false -> size (d_content d) <= FLB_INPUT_CHUNK_FS_MAX_SIZE);
  so_ext : is_Some (ext w !! a);
  so_tag : size (d_tag d) <= FLB_INPUT_CHUNK_TAG_MAX }.

(** Every chunk holds a header and a content and can be read; the hash tables
    point to chunks of that input, type and tag. *)
Record world_ok (w : world) : Prop := {
  wk_chunks : forall a, alive w a -> (a < next w)%nat /\ exists d, stored w a d;
  wk_cio : forall a, is_Some (cio w !! a) -> alive w a;
  wk_table : forall i ty tag a, table w !! (i, ty, tag) = Some a ->
    InputChunk.has_chunk_table ty = true /\ exists content, stored w a (mkdesc i ty tag content);
  wk_tasks : owned_tasks (st w) }.

(** Chunks other than [t] are as they were, or closed and deleted. *)
Record after (t : option nat) (w w' : world) : Prop := {
  af_ok : world_ok w';
  af_from : forall a d, t <> Some a -> stored w' a d -> stored w a d /\ ext w' !! a = ext w !! a;
  af_log : exists l, InputChunk.log (st w') = InputChunk.log (st w) ++ l /\
    forall a, t <> Some a -> alive w a -> ~ alive w' a -> InputChunk.C_close a true ∈ l;
  af_next : (next w <= next w')%nat;
  af_types : map InputChunk.cio_type (InputChunk.inputs (st w')) = map InputChunk.cio_type (InputChunk.inputs (st w)) }.

Lemma after_refl t w : world_ok w -> after t w w.
Proof.
  intros H. split; try done. exists []. split; [by rewrite app_nil_r|]. intros a _ H1 H2. done.
Qed.

Lemma after_trans t w1 w2 w3 : after t w1 w2 -> after t w2 w3 -> after t w1 w3.
Proof.
  intros [A1 A2 (l1 & A3 & A4) A5 A6] [B1 B2 (l2 & B3 & B4) B5 B6]. split; [done| | |lia|congruence].
  { intros a d Ht H3. destruct (B2 a d Ht H3) as [H2 E3]. destruct (A2 a d Ht H2) as [H1 E2]. split; [done|congruence]. }
  exists (l1 ++ l2). split; [rewrite B3, A3; by rewrite app_assoc|]. intros a Ht H1 H3.
  destruct (InputChunk.chunks (st w2) !! a) as [k|] eqn:E.
  - apply elem_of_app. right. apply B4; [done|by exists k|done].
  - apply elem_of_app. left. apply A4; [done|done|]. intros [k Hk]. congruence.
Qed.

Lemma after_weaken t w w' : after None w w' -> after t w w'.
Proof. intros [A1 A2 (l & A3 & A4) A5 A6]. split; try done; [eauto|]. exists l. split; [done|eauto]. Qed.

(** The chunk [a] ends as it began, or ended. *)
Lemma after_strengthen a w w' : after (Some a) w w' ->
  (forall d, stored w' a d -> stored w a d /\ ext w' !! a = ext w !! a) ->
  (alive w a -> alive w' a) -> after None w w'.
Proof.
  intros [A1 A2 (l & A3 & A4) A5 A6] Hd Ha. split; try done.
  - intros b d _ Hb. destruct (decide (a = b)) as [->|Hne]; [auto|]. apply A2; [congruence|done].
  - exists l. split; [done|]. intros b _ H1 H2. destruct (decide (a = b)) as [->|Hne]; [by destruct H2; auto|].
    apply A4; [congruence|done..].
Qed.

Lemma stored_alive w a d : stored w a d -> alive w a.
Proof. intros [(k & Hk & _) _ _ _]. by exists k. Qed.

Lemma ctx_checksum (w w' : world) : File.checksum (ctx w) = File.checksum (ctx w').
Proof. done. Qed.

Lemma after_inputs t w w' i : after t w w' -> is_Some (InputChunk.inputs (st w) !! i) ->
  is_Some (InputChunk.inputs (st w') !! i).
Proof.
  intros Ha [ii Hi]. pose proof (f_equal (λ l, l !! i) (af_types _ _ _ Ha)) as E.
  change (map ?f ?l) with (f <$> l) in E. rewrite !list_lookup_fmap, Hi in E.
  by destruct (InputChunk.inputs (st w') !! i).
Qed.

(** Whether the chunks of an input are files. *)
Definition fs_input (w : world) (i : nat) : bool :=
  match InputChunk.inputs (st w) !! i with
  | Some ii => InputChunk.cio_type ii =? InputChunk.FLB_STORAGE_FS
  | None => false
  end.

Lemma after_fs_input t w w' i : after t w w' -> fs_input w' i = fs_input w i.
Proof.
  intros Ha. pose proof (f_equal (λ l, l !! i) (af_types _ _ _ Ha)) as E.
  change (map ?f ?l) with (f <$> l) in E. rewrite !list_lookup_fmap in E. unfold fs_input.
  destruct (InputChunk.inputs (st w') !! i), (InputChunk.inputs (st w) !! i); simplify_eq/=; congruence.
Qed.

(** The tags that the theorems on appends cover: no NUL byte, as the keys of a
    hash table are compared as strings, and, in a file, of a size that the
    header of a new chunk can take. *)
Definition tag_ok (w : world) (i : nat) (tag : bytes) : Prop :=
  no_nul tag /\ tag_fits (ctx w) (fs_input w i) tag.

(** *** The deletions from the tables *)

Lemma replay_only l : forall w : world, st (replay l w) = st w /\ cio (replay l w) = cio w /\
  ext (replay l w) = ext w /\ filters (replay l w) = filters w /\ next (replay l w) = next w /\
  in_counts (replay l w) = in_counts w.
Proof.
  induction l as [|e l IH]; intros w; [done|]. destruct e; simpl; try apply IH.
  destruct (IH (ht_del_ptr in_ ty tag chunk w)) as (-> & -> & -> & -> & -> & ->).
  unfold ht_del_ptr. by case_match.
Qed.

Lemma ht_del_table i ty tag a (w : world) k b : table (ht_del_ptr i ty tag a w) !! k = Some b ->
  table w !! k = Some b /\ ~ (k = (i, ty, tag) /\ b = a).
Proof.
  unfold ht_del_ptr, key_eq_ptr. destruct (table w !! (i, ty, tag)) as [b'|] eqn:E.
  - destruct (Nat.eqb_spec b' a) as [->|Hne]; simpl.
    + intros [Hk Hb]%lookup_delete_Some. split; [done|]. by intros [-> _].
    + intros Hb. split; [done|]. intros [-> ->]. congruence.
  - intros Hb. split; [done|]. intros [-> ->]. congruence.
Qed.

Lemma replay_table l : forall (w : world) i ty tag a, table (replay l w) !! (i, ty, tag) = Some a ->
  table w !! (i, ty, tag) = Some a /\ ~ (InputChunk.C_ht_del i ty tag a ∈ l).
Proof.
  induction l as [|e l IH]; intros w i ty tag a H; [split; [done|set_solver]|].
  destruct e; simpl in H;
    try (destruct (IH _ _ _ _ _ H) as [H1 H2]; split; [exact H1|set_solver]).
  destruct (IH _ _ _ _ _ H) as [H1 H2]. apply ht_del_table in H1 as [H1 H3]. split; [done|].
  intros Hin. apply elem_of_cons in Hin as [He|Hin]; [|done]. apply H3. by simplify_eq.
Qed.

(** *** Steps of the management of space *)

Lemma stored_same (w w' : world) a d k k' :
  InputChunk.chunks (st w) !! a = Some k -> InputChunk.chunks (st w') !! a = Some k' -> same_chunk k k' ->
  cio w' !! a = cio w !! a -> ext w' !! a = ext w !! a -> stored w a d <-> stored w' a d.
Proof.
  intros Hk Hk' Hs Hc Hx. pose proof (same_chunk_readable k k' Hs) as Hr.
  destruct Hs as [E1 E2 _ _ _ _ _ E8].
  split; intros [(k0 & H0 & H1 & H2 & H3 & H4) (c & H5 & H6 & H7) H8 H9].
  - assert (k0 = k) as -> by congruence. split; [exists k'; rewrite E1, E2, E8, Hr; done| |by rewrite Hx|done].
    exists c. rewrite Hc. split; [done|]. split; [by apply (held_ext (ctx w))|done].
  - assert (k0 = k') as -> by congruence.
    split; [exists k; rewrite <- E1, <- E2, <- E8, <- Hr; done| |by rewrite <- Hx|done].
    exists c. rewrite <- Hc. split; [done|]. split; [by apply (held_ext (ctx w'))|done].
Qed.

Lemma settle_lookup (s : InputChunk.store) (w : world) a : is_Some (InputChunk.chunks s !! a) ->
  cio (settle s w) !! a = cio w !! a /\ ext (settle s w) !! a = ext w !! a.
Proof.
  intros Ha. unfold settle. cbn [cio ext with_st with_cio with_ext].
  destruct (replay_only (drop (length (InputChunk.log (st w))) (InputChunk.log s)) w) as (_ & -> & -> & _).
  rewrite !map_lookup_filter. destruct (cio w !! a), (ext w !! a); simpl; rewrite ?option_guard_True by done; done.
Qed.

Record settled (keep : nat -> Prop) (w w' : world) : Prop := {
  se_after : after None w w';
  se_keep : forall a, keep a -> alive w a -> alive w' a;
  se_lookup : forall a, alive w' a -> cio w' !! a = cio w !! a /\ ext w' !! a = ext w !! a;
  se_stored : forall a d, alive w' a -> stored w a d -> stored w' a d;
  se_rest : next w' = next w /\ filters w' = filters w }.

Lemma settled_refl keep w : world_ok w -> settled keep w w.
Proof. intros H. split; try done. by apply after_refl. Qed.

Lemma settle_ok keep s w : world_ok w -> evolves keep (st w) s -> settled keep w (settle s w).
Proof.
  intros Hw He. destruct (He (wk_tasks _ Hw)) as ([E1 E2 E3 E4 E5 (l & E6 & E7)] & Ho & Hk).
  assert (Hl : drop (length (InputChunk.log (st w))) (InputChunk.log s) = l) by (rewrite E6; apply drop_app_length).
  assert (Hst : forall a d, alive (settle s w) a -> stored w a d <-> stored (settle s w) a d).
  { intros a d [k' Hk']. destruct (E4 a k' Hk') as (k & Hk0 & Hs).
    destruct (settle_lookup s w a) as [Hc Hx]; [by exists k'|]. by apply (stored_same w _ a d k k'). }
  assert (Hal : forall a, alive (settle s w) a -> alive w a).
  { intros a [k' Hk']. destruct (E4 a k' Hk') as (k & Hk0 & _). by exists k. }
  destruct (replay_only l w) as (_ & R2 & _ & R4 & R5 & _).
  assert (Hn : next (settle s w) = next w) by (unfold settle; cbn; by rewrite Hl).
  assert (Hok : world_ok (settle s w)).
  { split; [| | |done].
    - intros a Ha. rewrite Hn. destruct (wk_chunks _ Hw a (Hal a Ha)) as (H1 & d & Hd).
      split; [done|]. exists d. by apply Hst.
    - intros a [c Hc]. unfold settle in Hc. cbn [cio with_st with_cio with_ext] in Hc.
      apply map_lookup_filter_Some in Hc as [_ Hc]. exact Hc.
    - intros i ty tag a Ht. unfold settle in Ht. cbn [table with_st with_cio with_ext] in Ht.
      rewrite Hl in Ht. apply replay_table in Ht as [Ht Hnot]. destruct (wk_table _ Hw i ty tag a Ht) as (Hty & content & Hd).
      split; [done|]. exists content. apply Hst; [|done]. unfold alive. cbn [settle st with_st].
      destruct (InputChunk.chunks s !! a) as [k'|] eqn:Ea; [by exists k'|]. exfalso. apply Hnot.
      destruct Hd as [(k & Hk0 & H1 & H2 & H3 & H4) _ _ _]. cbn in H1, H2, H3. destruct (E7 a k Hk0 Ea) as [_ Hcl].
      rewrite <- H1, <- H2. apply Hcl; [done|done|by rewrite H2]. }
  split; [split; try done| | | |split; [done|unfold settle; cbn; by rewrite Hl]].
  - intros a d _ Hd. assert (Ha := stored_alive _ _ _ Hd). split; [by apply Hst|by apply settle_lookup].
  - exists l. split; [done|]. intros a _ [k Hk0] Hd. eapply cl_close, E7; [exact Hk0|].
    destruct (InputChunk.chunks s !! a) eqn:Ea; [|done]. destruct Hd. by eexists.
  - lia.
  - intros a Ha [k Hk0]. apply Hk; [done|by exists k].
  - intros a Ha. by apply settle_lookup.
  - intros a d Ha Hd. by apply Hst.
Qed.

(** Steps that leave the chunks in place are settled already. *)
Lemma with_st_ok keep s w : world_ok w -> evolves keep (st w) s ->
  (forall a, alive w a -> is_Some (InputChunk.chunks s !! a)) -> settled keep w (with_st s w).
Proof.
  intros Hw He Ha. destruct (He (wk_tasks _ Hw)) as ([E1 E2 E3 E4 E5 (l & E6 & E7)] & Ho & Hk).
  assert (Hst : forall a d, alive (with_st s w) a -> stored w a d <-> stored (with_st s w) a d).
  { intros a d [k' Hk']. destruct (E4 a k' Hk') as (k & Hk0 & Hs). by apply (stored_same w _ a d k k'). }
  assert (Hal : forall a, alive (with_st s w) a -> alive w a).
  { intros a [k' Hk']. destruct (E4 a k' Hk') as (k & Hk0 & _). by exists k. }
  assert (Hok : world_ok (with_st s w)).
  { split; [| | |done].
    - intros a Ha'. destruct (wk_chunks _ Hw a (Hal a Ha')) as (H1 & d & Hd).
      split; [done|]. exists d. by apply Hst.
    - intros a Hc. apply Ha. by apply (wk_cio _ Hw).
    - intros i ty tag a Ht. destruct (wk_table _ Hw i ty tag a Ht) as (Hty & content & Hd).
      split; [done|]. exists content. apply Hst; [|done]. apply Ha. by eapply stored_alive. }
  split; [split; try done| | | |done].
  - intros a d _ Hd. split; [|done]. apply Hst; [by eapply stored_alive|done].
  - exists l. split; [done|]. intros a _ H1 H2. by destruct H2; apply Ha.
  - intros a _ H1. by apply Ha.
  - done.
  - intros a d Ha' Hd. by apply Hst.
Qed.

(** *** A chunk that changes *)

Lemma held_view x c ty tag content k : held x c (header_bytes ty tag) content -> size tag <= FLB_INPUT_CHUNK_TAG_MAX ->
  InputChunk.cio_tag (view x c k) = Some tag /\ readable (view x c k) = true.
Proof.
  intros H Ht. unfold view, readable. cbn. rewrite (held_meta x c _ _ H (header_cons ty tag)). cbn [option_map].
  rewrite tag_of_header by done. split; [done|]. destruct (Chunk.cio_chunk_is_up c) eqn:Eu; [done|].
  destruct (held_force x c _ _ H Eu) as (c' & -> & _ & _ & f & Hf). unfold is_fs. by rewrite Hf.
Qed.

(** What is stored is determined. *)
Lemma stored_inj w a d e : stored w a d -> stored w a e -> d = e.
Proof.
  intros [(k & H1 & H2 & H3 & H4 & _) (c & H5 & H6 & _) _ _] [(k' & G1 & G2 & G3 & G4 & _) (c' & G5 & G6 & _) _ _].
  assert (k' = k) as -> by congruence. assert (c' = c) as -> by congruence.
  apply held_content in H6. apply held_content in G6. destruct d, e. cbn in *. f_equal; congruence.
Qed.

Definition with_content (v : bytes) (d : desc) : desc := mkdesc (d_in d) (d_type d) (d_tag d) v.

Record changed (a : nat) (w w' : world) : Prop := {
  ch_after : after (Some a) w w';
  ch_alive : forall b, alive w b <-> alive w' b;
  ch_stored : forall b e, b <> a -> stored w b e -> stored w' b e;
  ch_rest : next w' = next w /\ filters w' = filters w /\ ext w' = ext w /\ table w' = table w }.

(** [set_chunk], with the fields taken in the context [x]. *)
Definition set_view (x : File.cio_ctx) (a : nat) (c : Chunk.cio_chunk) (w : world) : world :=
  with_st (InputChunk.update_chunk a (view x c) (st w)) (with_cio (<[a := c]> (cio w)) w).

Lemma set_view_alive x a c (w : world) b : alive w b <-> alive (set_view x a c w) b.
Proof.
  unfold alive, set_view. cbn. destruct (decide (a = b)) as [->|Hne].
  - rewrite lookup_alter_eq. by destruct (InputChunk.chunks (st w) !! b).
  - by rewrite lookup_alter_ne.
Qed.

Lemma set_view_other x a c w b e : b <> a -> stored w b e <-> stored (set_view x a c w) b e.
Proof.
  intros Hne. split; intros Hs.
  - destruct (stored_alive _ _ _ Hs) as [k Hk]. apply (stored_same w _ b e k k); try done.
    + cbn. by rewrite lookup_alter_ne.
    + cbn. by rewrite lookup_insert_ne.
  - destruct (stored_alive _ _ _ Hs) as [k Hk]. assert (Hk0 := Hk). cbn in Hk0. rewrite lookup_alter_ne in Hk0 by done.
    apply (stored_same w _ b e k k) in Hs; try done. cbn. by rewrite lookup_insert_ne.
Qed.

Lemma set_view_ok x a c content d w : world_ok w -> stored w a d -> File.checksum x = File.checksum (ctx w) ->
  held x c (header_bytes (d_type d) (d_tag d)) content ->
  (Chunk.lock c = false -> size content <= FLB_INPUT_CHUNK_FS_MAX_SIZE) ->
  changed a w (set_view x a c w) /\ stored (set_view x a c w) a (with_content content d).
Proof.
  intros Hw Hd Hx Hc Hl.
  assert (Ha : stored (set_view x a c w) a (with_content content d)).
  { destruct Hd as [(k & H1 & H2 & H3 & H4 & H5) _ He Ht].
    destruct (held_view x c _ _ content k Hc Ht) as [V1 V2]. split; [|exists c| |]; try done.
    - exists (view x c k). cbn. rewrite lookup_alter_eq, H1. by split.
    - cbn. rewrite lookup_insert_eq. split; [done|]. split; [by apply (held_ext x)|done]. }
  assert (Hst : forall b e, stored w b e -> exists e', stored (set_view x a c w) b e' /\
    d_in e' = d_in e /\ d_type e' = d_type e /\ d_tag e' = d_tag e).
  { intros b e Hb. destruct (decide (b = a)) as [->|Hne].
    - rewrite (stored_inj w a e d Hb Hd). by eexists.
    - exists e. split; [by apply set_view_other|done]. }
  split; [|done]. split; [split|apply set_view_alive| |done]; try done.
  - split.
    + intros b Hb. apply set_view_alive in Hb. destruct (wk_chunks _ Hw b Hb) as (H1 & e & He).
      split; [done|]. destruct (Hst b e He) as (e' & He' & _). by exists e'.
    + intros b Hb. apply set_view_alive. cbn in Hb. destruct (decide (a = b)) as [->|Hne]; [by eapply stored_alive|].
      rewrite lookup_insert_ne in Hb by done. by apply (wk_cio _ Hw).
    + intros i ty tag b Ht. destruct (wk_table _ Hw i ty tag b Ht) as (Hty & v & Hv). split; [done|].
      destruct (Hst b _ Hv) as ([i' ty' tag' v'] & He' & E1 & E2 & E3). cbn in E1, E2, E3. subst. by exists v'.
    + intros b k t Hb Hk. cbn in Hb |- *. apply lookup_alter_Some in Hb as [(<- & k0 & H1 & ->)|[_ Hb]];
        [by apply (wk_tasks _ Hw a k0)|by apply (wk_tasks _ Hw b k)].
  - intros b e Hne Hb. split; [|done]. apply set_view_other in Hb; [done|congruence].
  - exists []. split; [by rewrite app_nil_r|]. intros b _ H1 H2. by destruct H2; apply set_view_alive.
  - intros b e Hne Hb. by apply set_view_other.
Qed.

Lemma set_chunk_ok a c content d w : world_ok w -> stored w a d ->
  held (ctx w) c (header_bytes (d_type d) (d_tag d)) content ->
  (Chunk.lock c = false -> size content <= FLB_INPUT_CHUNK_FS_MAX_SIZE) ->
  changed a w (set_chunk cfg a c w) /\ stored (set_chunk cfg a c w) a (with_content content d).
Proof. intros Hw Hd Hc. by apply (set_view_ok (ctx w)). Qed.

(** The last change counts. *)
Lemma set_chunk_twice a c c' (w : world) :
  set_chunk cfg a c' (set_chunk cfg a c w) = set_view (ctx (set_chunk cfg a c w)) a c' w.
Proof.
  unfold set_chunk at 1, set_view. set (x := ctx _). unfold set_chunk, with_st, with_cio, InputChunk.update_chunk,
    InputChunk.set_chunks. cbn. rewrite insert_insert_eq, alter_alter_eq. reflexivity.
Qed.

(** With the content it had. *)
Lemma set_chunk_same a c d w : world_ok w -> stored w a d ->
  held (ctx w) c (header_bytes (d_type d) (d_tag d)) (d_content d) ->
  (Chunk.lock c = false -> size (d_content d) <= FLB_INPUT_CHUNK_FS_MAX_SIZE) ->
  after None w (set_chunk cfg a c w) /\ stored (set_chunk cfg a c w) a d /\ changed a w (set_chunk cfg a c w).
Proof.
  intros Hw Hd Hc Hl. destruct (set_chunk_ok a c (d_content d) d w Hw Hd Hc Hl) as [Hch Hs].
  assert (Hs' : stored (set_chunk cfg a c w) a d) by (by destruct d).
  split; [|done]. apply (after_strengthen a); [by apply ch_after| |by apply (ch_alive _ _ _ Hch)].
  intros e He. by rewrite (stored_inj _ _ _ _ He Hs').
Qed.

(** *** New chunks *)

Lemma open_fresh fs (w : world) : exists c c', cio_chunk_open cfg [] fs w = Some (Some c, []) /\
  (if negb (Chunk.cio_chunk_is_up c) then Chunk.cio_chunk_up_force (ctx w) c else Some (0, c)) = Some (0, c') /\
  fresh (ctx w) c' /\ is_fs c' = fs /\ Chunk.lock c' = false.
Proof.
  unfold cio_chunk_open. cbn [flb_malloc negb]. destruct fs.
  - destruct (File.open_and_up (ctx w)) eqn:Eu.
    + destruct (ChunkFile.open_new (ctx w) page_ok (s_realloc cfg) Eu realloc_ok) as (f & -> & Hl & Ha & _).
      cbn [mbind option_bind option_map]. eexists _, _. split; [done|].
      assert (Hup : Chunk.cio_chunk_is_up (Chunk.mkch (Chunk.FS f) false false 0 0) = true).
      { apply (ChunkStore.chunk_up (ctx w) _ [] []). by eapply ChunkStore.ok_fs. }
      rewrite Hup. split; [done|]. split; [by eapply fresh_fs|done].
    + destruct (ChunkFile.open_new_down (ctx w) page_ok (s_realloc cfg) Eu realloc_ok) as (f & g & -> & Hd & Hg & Hl & Ha).
      cbn [mbind option_bind option_map]. eexists _, _. split; [done|].
      assert (Hup : Chunk.cio_chunk_is_up (Chunk.mkch (Chunk.FS f) false false 0 0) = false) by (exact Hd).
      rewrite Hup. cbn [negb]. unfold Chunk.cio_chunk_up_force, Chunk.on_file. cbn [Chunk.be]. rewrite Hg.
      cbn [mbind option_bind]. split; [done|]. split; [by eapply fresh_fs|done].
  - unfold Memfs.cio_memfs_open. cbn [flb_malloc negb option_map]. eexists _, _. split; [done|]. cbn.
    split; [done|]. split; [|done]. eapply fresh_mem; [done|done|]. cbn. lia.
Qed.

Lemma link_alive c k x (w : world) b : alive (link cfg c k x w).2 b <-> b = next w \/ alive w b.
Proof.
  unfold alive, link. cbn. destruct (decide (next w = b)) as [->|Hne].
  - rewrite lookup_insert_eq. split; [by left|by eexists].
  - rewrite lookup_insert_ne by done. split; [by right|]. by intros [->|H].
Qed.

Lemma link_other c k x w b e : b <> next w -> stored w b e <-> stored (link cfg c k x w).2 b e.
Proof.
  intros Hne. split; intros Hs.
  - destruct (stored_alive _ _ _ Hs) as [k' Hk]. apply (stored_same w _ b e k' k'); try done; cbn;
      by rewrite lookup_insert_ne.
  - destruct (stored_alive _ _ _ Hs) as [k' Hk]. assert (Hk0 := Hk). cbn in Hk0. rewrite lookup_insert_ne in Hk0 by done.
    apply (stored_same w _ b e k' k') in Hs; try done; cbn; by rewrite lookup_insert_ne.
Qed.

Lemma link_ok c k x tag content w : world_ok w -> InputChunk.task k = None ->
  held (ctx w) c (header_bytes (InputChunk.event_type k) tag) content -> size tag <= FLB_INPUT_CHUNK_TAG_MAX ->
  size content <= FLB_INPUT_CHUNK_FS_MAX_SIZE ->
  after (Some (next w)) w (link cfg c k x w).2 /\ ~ alive w (next w) /\
  stored (link cfg c k x w).2 (next w) (mkdesc (InputChunk.ck_in k) (InputChunk.event_type k) tag content).
Proof.
  intros Hw Hk Hc Ht Hsz. set (w' := (link cfg c k x w).2).
  assert (Hn : ~ alive w (next w)) by (intros Ha; apply (wk_chunks _ Hw) in Ha as [? _]; lia).
  assert (Hs : stored w' (next w) (mkdesc (InputChunk.ck_in k) (InputChunk.event_type k) tag content)).
  { destruct (held_view (ctx w) c _ _ content k Hc Ht) as [V1 V2]. split; [|exists c| |done].
    - exists (view (ctx w) c k). unfold w', link. cbn. by rewrite lookup_insert_eq.
    - unfold w', link. cbn. rewrite lookup_insert_eq. split; [done|]. split; [by apply (held_ext (ctx w))|done].
    - exists x. unfold w', link. cbn. apply lookup_insert_eq. }
  assert (Hst : forall b e, stored w b e -> stored w' b e).
  { intros b e Hb. apply link_other; [|done]. intros ->. by apply Hn, (stored_alive w _ e). }
  split; [|done]. split; try done.
  - split.
    + intros b [->|Hb]%link_alive; [split; [unfold w', link; cbn; lia|by eexists]|].
      destruct (wk_chunks _ Hw b Hb) as (H1 & e & He). split; [unfold w', link; cbn; lia|]. exists e. auto.
    + intros b Hb. apply link_alive. unfold w', link in Hb. cbn in Hb.
      destruct (decide (next w = b)) as [->|Hne]; [by left|right].
      rewrite lookup_insert_ne in Hb by done. by apply (wk_cio _ Hw).
    + intros i ty tag' b Hb. destruct (wk_table _ Hw i ty tag' b Hb) as (Hty & v & Hv). eauto.
    + intros b k' t Hb Hk'. unfold w', link in Hb |- *. cbn in Hb |- *.
      apply lookup_insert_Some in Hb as [[<- <-]|[_ Hb]]; [cbn in Hk'; congruence|by apply (wk_tasks _ Hw b k')].
  - intros b e Hne Hb. assert (b <> next w) by congruence. split; [by apply link_other in Hb|].
    unfold w', link. cbn. by rewrite lookup_insert_ne.
  - exists []. unfold w', link. cbn. split; [by rewrite app_nil_r|]. intros b _ H1 H2. destruct H2. apply link_alive. by right.
  - unfold w', link. cbn. lia.
  - unfold w', link. cbn. apply InputChunk.map_alter. done.
Qed.

Lemma ht_add_ok i ty tag a v w : world_ok w -> stored w a (mkdesc i ty tag v) ->
  exists w', ht_add [] i ty tag a w = Some (w', []) /\ after None w w' /\ (forall b e, stored w b e -> stored w' b e) /\
    cio w' = cio w /\ ext w' = ext w /\ filters w' = filters w /\ st w' = st w.
Proof.
  intros Hw Hs. unfold ht_add. destruct (in_table ty tag) eqn:Ein.
  2:{ exists w. split; [done|]. split; [by apply after_refl|done]. }
  assert (Et : InputChunk.has_chunk_table ty = true) by (by apply andb_true_iff in Ein as [? _]).
  set (w' := with_table _ w).
  assert (Hst : forall b e, stored w b e <-> stored w' b e).
  { intros b e. split; intros [H1 (c & H2 & H3 & H4) H5 H6]; (split; [done| |done|done]; exists c; split; [done|];
      split; [|done]; by (apply (held_ext (ctx w)) || apply (held_ext (ctx w'))) ). }
  exists w'. split; [by destruct (bool_decide _)|]. split; [|split; [|done]; by apply Hst]. split; try done.
  - destruct Hw as [A1 A2 A3 A4]. split; try done.
    + intros b Hb. destruct (A1 b Hb) as (H1 & e & He). split; [done|]. exists e. by apply Hst.
    + intros i' ty' tag' b Hb. cbn in Hb. apply lookup_insert_Some in Hb as [[E <-]|[_ Hb]].
      * injection E as <- <- <-. split; [done|]. exists v. by apply Hst.
      * destruct (A3 i' ty' tag' b Hb) as (Hty & v' & Hv'). split; [done|]. exists v'. by apply Hst.
  - intros b e _ Hb. split; [by apply Hst|done].
  - exists []. split; [by rewrite app_nil_r|]. intros b _ H1 H2. done.
Qed.

(** The chunk holds [d], with the numbers [x], and takes more data. *)
Definition open_for (w : world) (a : nat) (d : desc) (x : chunk_ext) : Prop :=
  stored w a d /\ ext w !! a = Some x /\ busy x = false /\ exists c, cio w !! a = Some c /\ Chunk.lock c = false.

(** A new chunk is empty, has its tag, and is in the table; nothing else
    changes. *)
Lemma create_ok i ty tag w : world_ok w -> is_Some (InputChunk.inputs (st w) !! i) ->
  tag_fits (ctx w) (fs_input w i) tag ->
  exists w', flb_input_chunk_create onig_match cfg [] i ty tag w = Some (Some (next w), w', []) /\
    after (Some (next w)) w w' /\ ~ alive w (next w) /\
    open_for w' (next w) (mkdesc i ty tag []) (mkext false 0 0 false) /\ filters w' = filters w.
Proof.
  intros Hw [ii Hi] Ht. unfold flb_input_chunk_create. unfold fs_input in Ht. rewrite Hi in Ht |- *.
  destruct (open_fresh (InputChunk.cio_type ii =? InputChunk.FLB_STORAGE_FS) w) as (c & c' & -> & H2 & Hf & Hfs & Hl).
  rewrite <- Hfs in Ht. cbn [mbind option_bind]. rewrite H2. cbn [mbind option_bind]. cbn match.
  destruct (fresh_header (ctx w) c' ty tag Hf Ht) as (c0 & -> & Hc0 & Hl0). cbn [mbind option_bind flb_malloc negb Z.eqb].
  set (k := new_chunk i ty (routes_of onig_match cfg w tag)). set (x := mkext false 0 0 false).
  destruct (link_ok c0 k x tag [] w Hw eq_refl (held_up _ _ _ _ Hc0)) as (L1 & L2 & L3); [apply Ht|done|].
  destruct (link cfg c0 k x w) as [a w1] eqn:El. assert (a = next w) as -> by (unfold link in El; congruence).
  assert (Hf1 : filters w1 = filters w) by (unfold link in El; simplify_eq; done).
  assert (Hx1 : ext w1 !! next w = Some x) by (unfold link in El; simplify_eq; apply lookup_insert_eq). cbn [snd] in L1, L3.
  assert (Hd : exists r c1, (if negb (Chunk.cio_chunk_is_up c) then Chunk.cio_chunk_down (ctx w1) c0 else Some (0, c0)) =
    Some (r, c1) /\ held (ctx w1) c1 (header_bytes ty tag) [] /\ Chunk.lock c1 = false).
  { assert (Hc1 : ChunkStore.chunk_ok (ctx w1) c0 (header_bytes ty tag) []) by (by apply (chunk_ok_ext (ctx w))).
    destruct (negb _); [|exists 0, c0; split; [done|]; split; [by left|congruence]].
    destruct (held_set_down (ctx w1) page_ok c0 _ _ Hc1) as (c1 & -> & H & E). exists 0, c1.
    split; [done|]. split; [done|congruence]. }
  destruct Hd as (r & c1 & -> & Hh & Hl1). cbn [mbind option_bind].
  destruct (set_chunk_same (next w) c1 _ w1 (af_ok _ _ _ L1) L3 Hh) as (S1 & S2 & S3); [done|].
  destruct (ht_add_ok i ty tag (next w) [] _ (af_ok _ _ _ S1) S2) as (w3 & -> & T1 & T2 & T3 & T4 & T5 & _).
  cbn [mbind option_bind].
  eexists. split; [reflexivity|]. split.
  - eapply after_trans; [exact L1|]. apply after_weaken. by eapply after_trans.
  - split; [done|]. split; [split; [by apply T2|split]|].
    + by rewrite T4.
    + split; [done|]. exists c1. rewrite T3. cbn. by rewrite lookup_insert_eq.
    + rewrite T5. by destruct (ch_rest _ _ _ S3) as (_ & -> & _).
Qed.

(** *** The chunk for a tag *)

Lemma find_ok i ty tag w : world_ok w ->
  exists r sd w', find_tag_chunk cfg i ty tag w = Some (r, sd, w') /\ after None w w' /\ filters w' = filters w /\
    (forall a, r = Some a -> exists v x, stored w a (mkdesc i ty tag v) /\ ext w !! a = Some x /\
       open_for w' a (mkdesc i ty tag v) x).
Proof.
  intros Hw. unfold find_tag_chunk.
  destruct (if in_table ty tag then table w !! (i, ty, tag) else None) as [a|] eqn:Et.
  2:{ eexists _, _, w. split; [done|]. split; [by apply after_refl|done]. }
  assert (Ht : table w !! (i, ty, tag) = Some a) by (by destruct (in_table ty tag)).
  destruct (wk_table _ Hw i ty tag a Ht) as (_ & v & Hv).
  assert (Hv0 := Hv). destruct Hv0 as [_ (c & Hc & Hh & Hl) [x Hx] Htag]. cbn in Hh, Hl, Htag. rewrite Hc, Hx.
  destruct (busy x || Chunk.lock c) eqn:Eb.
  { eexists _, _, w. split; [done|]. split; [by apply after_refl|done]. }
  apply orb_false_iff in Eb as [Ebu Elk]. destruct (Chunk.cio_chunk_is_up c) eqn:Eu.
  { eexists _, _, w. split; [done|]. split; [by apply after_refl|]. split; [done|]. intros b [= <-].
    exists v, x. split; [done|]. split; [done|]. split; [done|]. split; [done|]. split; [done|by exists c]. }
  destruct (held_force (ctx w) c _ _ Hh Eu) as (c' & -> & Hc' & Hl' & _). cbn [mbind option_bind].
  destruct (set_chunk_same a c' _ w Hw Hv) as (S1 & S2 & S3); [by left|rewrite Hl'; done|].
  cbn. eexists _, _, _. split; [reflexivity|]. split; [done|]. split; [done|]. intros b [= <-].
  exists v, x. split; [done|]. split; [done|]. split; [done|]. split; [done|]. split; [done|]. exists c'. cbn. rewrite lookup_insert_eq. split; [done|congruence].
Qed.

(** Making room keeps the chunk it is made for. *)
Lemma place_ok a size w d x : world_ok w -> open_for w a d x ->
  exists room w', flb_input_chunk_place_new_chunk sb_release_output_queue_space backlog a size w = (room, w') /\
    after None w w' /\ open_for w' a d x /\ filters w' = filters w.
Proof.
  intros Hw (Hs & Hx & Hbu & c & Hc & Hl). unfold flb_input_chunk_place_new_chunk.
  pose proof (evolves_place sb_release_output_queue_space backlog a size (st w)) as He.
  destruct (InputChunk.flb_input_chunk_place_new_chunk _ _ _ _ _) as [room s]. cbn [snd] in He.
  destruct (settle_ok _ s w Hw He) as [A1 A2 A3 A4 [_ A5]]. assert (Ha := stored_alive _ _ _ Hs).
  eexists _, _. split; [done|]. split; [done|]. split; [|done]. split; [by apply A4; [apply A2|]|].
  destruct (A3 a) as [-> ->]; [by apply A2|]. split; [done|]. split; [done|by exists c].
Qed.

Lemma destroy_after a w : world_ok w ->
  after None w (flb_input_chunk_destroy a true w) /\ ~ alive (flb_input_chunk_destroy a true w) a /\
  filters (flb_input_chunk_destroy a true w) = filters w.
Proof.
  intros Hw. unfold flb_input_chunk_destroy.
  destruct (settle_ok (λ _, False) _ w Hw (evolves_destroy (λ _, False) a (st w) (λ H, H))) as [A1 A2 A3 A4 [_ A5]].
  split; [done|]. split; [|done]. unfold alive. cbn [settle st with_st].
  destruct (InputChunk.chunks (st w) !! a) as [k|] eqn:Hk.
  - destruct (InputChunk.destroy_effect a true _ k Hk) as (-> & _). rewrite lookup_delete_eq. by intros [? ?].
  - unfold InputChunk.flb_input_chunk_destroy. rewrite Hk, Hk. by intros [? ?].
Qed.

(** The chunk that takes the data of a tag: the one of the table, or a new
    one. *)
Definition target (w w' : world) (a : nat) (d : desc) (x : chunk_ext) : Prop :=
  after (Some a) w w' /\ open_for w' a d x /\ filters w' = filters w /\
  (after None w w' /\ stored w a d /\ ext w !! a = Some x \/
   (next w <= a)%nat /\ d_content d = [] /\ x = mkext false 0 0 false).

Lemma target_step w w1 w2 a d x : target w w1 a d x -> after None w1 w2 -> open_for w2 a d x ->
  filters w2 = filters w1 -> target w w2 a d x.
Proof.
  intros (T1 & T2 & T3 & T4) H1 H2 H3. split; [|split; [done|split; [congruence|]]].
  - eapply after_trans; [exact T1|by apply after_weaken].
  - destruct T4 as [[T4 T5]|T4]; [left; split; [by eapply after_trans|done]|by right].
Qed.

(** When there is no room a new chunk ends, and nothing has happened. *)
Lemma target_lost w w1 w2 a d x : world_ok w -> target w w1 a d x -> after None w1 w2 -> ~ alive w2 a -> after None w w2.
Proof.
  intros Hw (T1 & T2 & T3 & [[T4 T5]|[T4 T5]]) H1 Hn; [by eapply after_trans|].
  apply (after_strengthen a).
  - eapply after_trans; [exact T1|by apply after_weaken].
  - intros e He. by destruct Hn; apply (stored_alive w2 a e).
  - intros Ha. apply (wk_chunks _ Hw) in Ha as [Ha _]. lia.
Qed.

Lemma get_ok i ty tag size w : world_ok w -> is_Some (InputChunk.inputs (st w) !! i) ->
  let tag' := take (Z.to_nat FLB_INPUT_CHUNK_TAG_MAX) tag in tag_fits (ctx w) (fs_input w i) tag' ->
  exists r sd w', input_chunk_get onig_match sb_release_output_queue_space backlog cfg [] i ty tag size w =
      Some (r, sd, w', []) /\
    match r with
    | None => after None w w'
    | Some a => exists v x, target w w' a (mkdesc i ty tag' v) x
    end.
Proof.
  intros Hw [ii Hi] tag' Ht. unfold input_chunk_get. fold tag'.
  destruct (find_ok i ty tag' w Hw) as (r & sd & w1 & -> & F1 & F2 & F3). cbn [mbind option_bind].
  assert (Hi1 : is_Some (InputChunk.inputs (st w1) !! i)) by (eapply after_inputs; [exact F1|by exists ii]).
  assert (Hn : exists a w2, match r with Some a => Some (Some a, w1, ([] : tape)) | None =>
      flb_input_chunk_create onig_match cfg [] i ty tag' w1 end = Some (Some a, w2, []) /\
    exists v x, target w w2 a (mkdesc i ty tag' v) x /\ (r <> None -> after None w w2)).
  { destruct r as [a|].
    - destruct (F3 a eq_refl) as (v & x & G1 & G2 & G3). exists a, w1. split; [done|]. exists v, x.
      split; [|done]. split; [by apply after_weaken|]. split; [done|]. split; [done|by left].
    - rewrite <- (after_fs_input _ _ _ i F1) in Ht.
      destruct (create_ok i ty tag' w1 (af_ok _ _ _ F1) Hi1 Ht) as (w2 & -> & C1 & C2 & C3 & C4).
      exists (next w1), w2. split; [done|]. eexists [], _. split; [|done].
      split; [eapply after_trans; [by apply after_weaken|exact C1]|]. split; [exact C3|]. split; [congruence|].
      right. split; [|done]. by apply (af_next _ _ _ F1). }
  destruct Hn as (a & w2 & -> & v & x & T & Tr). cbn [mbind option_bind].
  assert (T' := T). destruct T' as (T1 & T2 & _). destruct (stored_alive _ _ _ (proj1 T2)) as [k Hk].
  rewrite Hk. cbn [mbind option_bind]. destruct (mask_empty w2 k).
  { eexists _, _, _. split; [reflexivity|]. by exists v, x. }
  destruct (place_ok a size w2 _ x (af_ok _ _ _ T1) T2) as (room & w3 & -> & P1 & P2 & P3).
  pose proof (target_step w w2 w3 a _ x T P1 P2 P3) as T3. destruct room.
  { eexists _, _, _. split; [reflexivity|]. by exists v, x. }
  destruct (stored_alive _ _ _ (proj1 P2)) as [k3 Hk3]. rewrite Hk3. cbn [mbind option_bind].
  eexists _, _, _. split; [reflexivity|].
  destruct (destroy_after a w3 (af_ok _ _ _ P1)) as (D1 & D2 & _).
  case_match eqn:Eb.
  - by apply (target_lost w w3 _ a _ x Hw T3 D1).
  - apply orb_false_iff in Eb as [Eb _]. apply bool_decide_eq_false in Eb. eapply after_trans; [by apply Tr|done].
Qed.

(** *** After the write *)

(** Steps that leave chunk [a] as it is. *)
Definition leaves (a : nat) (d : desc) (w w' : world) : Prop :=
  after None w w' /\ stored w' a d /\ ext w' !! a = ext w !! a.

Lemma leaves_trans a d w1 w2 w3 : leaves a d w1 w2 -> leaves a d w2 w3 -> leaves a d w1 w3.
Proof. intros (A1 & A2 & A3) (B1 & B2 & B3). split; [by eapply after_trans|]. split; [done|congruence]. Qed.

Lemma with_st_leaves a d s w : world_ok w -> stored w a d -> evolves (λ _, True) (st w) s -> leaves a d w (with_st s w).
Proof.
  intros Hw Hs He. destruct (He (wk_tasks _ Hw)) as (_ & _ & Hk).
  destruct (with_st_ok _ s w Hw He) as [A1 A2 A3 A4 _]; [intros b Hb; by apply Hk|].
  split; [done|]. split; [|done]. apply A4; [apply A2; [done|]|done]. by eapply stored_alive.
Qed.

Lemma down_when_full_ok i a c d w : world_ok w -> stored w a d -> cio w !! a = Some c ->
  exists w', down_when_full cfg i a c w = Some w' /\ leaves a d w w'.
Proof.
  intros Hw Hs Hc. unfold down_when_full.
  assert (Hr : leaves a d w w) by (split; [by apply after_refl|done]).
  destruct (InputChunk.inputs (st w) !! i) as [ii|]; [|by exists w]. case_match eqn:E; [|by exists w].
  apply andb_true_iff in E as [E _]. apply andb_true_iff in E as [_ Eu].
  assert (Hs' := Hs). destruct Hs' as [_ (c0 & Hc0 & Hh & Hl) _ _]. assert (c0 = c) as -> by congruence.
  destruct (held_set_down (ctx w) page_ok c _ _ (held_is_up _ _ _ _ Hh Eu)) as (c' & -> & Hh' & El).
  cbn [mbind option_bind]. eexists. split; [done|].
  destruct (set_chunk_same a c' d w Hw Hs Hh') as (S1 & S2 & _); [by rewrite El|]. by split.
Qed.

Lemma set_limits_after i w : world_ok w -> after None w (flb_input_chunk_set_limits i w) /\
  forall a, alive (flb_input_chunk_set_limits i w) a <-> alive w a.
Proof.
  intros Hw. unfold flb_input_chunk_set_limits. destruct (InputChunk.set_limits_same i (st w)) as (E & _).
  pose proof (evolves_set_limits (λ _, True) i (st w)) as He. unfold alive. cbn [st with_st]. rewrite E. split; [|done].
  destruct (with_st_ok _ _ w Hw He); [|done]. intros a. by rewrite E.
Qed.

Lemma destroy_limits i a w : world_ok w ->
  after None w (flb_input_chunk_set_limits i (flb_input_chunk_destroy a true w)) /\
  ~ alive (flb_input_chunk_set_limits i (flb_input_chunk_destroy a true w)) a.
Proof.
  intros Hw. destruct (destroy_after a w Hw) as (D1 & D2 & _).
  destruct (set_limits_after i _ (af_ok _ _ _ D1)) as [L1 L2].
  split; [by eapply after_trans|]. by rewrite L2.
Qed.

(** The rest of [finish_append], for a chunk with content. *)
Lemma finish_rest i a c d w : world_ok w -> stored w a d -> cio w !! a = Some c ->
  exists w1, down_when_full cfg i a c (flb_input_chunk_set_limits i w) = Some w1 /\
    forall n, leaves a d w (flb_input_chunk_protect i
                         (if n =? 0 then w1 else flb_input_chunk_update_output_instances a n w1)).
Proof.
  intros Hw Hs Hc.
  assert (H1 : leaves a d w (flb_input_chunk_set_limits i w)) by (apply with_st_leaves; [done..|apply evolves_set_limits]).
  destruct (down_when_full_ok i a c d _ (af_ok _ _ _ (proj1 H1)) (proj1 (proj2 H1)) Hc) as (w2 & -> & H2).
  eexists. split; [reflexivity|]. intros n.
  eapply leaves_trans; [exact H1|]. eapply leaves_trans; [exact H2|].
  set (w3 := if _ =? 0 then w2 else _).
  assert (H3 : leaves a d w2 w3).
  { unfold w3. case_match; [split; [apply after_refl, H2|split; [apply H2|done]]|].
    apply with_st_leaves; [apply H2..|apply evolves_count]. }
  eapply leaves_trans; [exact H3|]. apply with_st_leaves; [apply H3..|apply evolves_protect].
Qed.

(** The chunk is locked when it has become too large. *)
Lemma lock_step (w : world) c meta content : ChunkStore.chunk_ok (ctx w) c meta content ->
  exists r c', (if FLB_INPUT_CHUNK_FS_MAX_SIZE <? Chunk.cio_chunk_get_content_size c
             then Chunk.cio_chunk_lock (ctx w) c else Some (0, c)) = Some (r, c') /\
    ChunkStore.chunk_ok (ctx w) c' meta content /\
    (Chunk.lock c' = false -> size content <= FLB_INPUT_CHUNK_FS_MAX_SIZE).
Proof.
  intros Hc. rewrite (ChunkStore.chunk_size (ctx w) c _ _ Hc). zcase.
  - destruct (held_lock (ctx w) page_ok c _ _ Hc) as (r & c' & -> & Hc' & El). eexists _, _. split; [done|].
    split; [done|]. congruence.
  - eexists _, _. split; [done|]. split; [done|lia].
Qed.

Definition finished (i a : nat) (d : desc) (w w' : world) : Prop :=
  after (Some a) w w' /\ (d_content d <> [] /\ routable cfg i = true -> stored w' a d /\ ext w' !! a = ext w !! a) /\
  (d_content d = [] \/ routable cfg i = false -> ~ alive w' a).

Lemma finish_ok i a sd pre c content d w : world_ok w -> stored w a d ->
  ChunkStore.chunk_ok (ctx w) c (header_bytes (d_type d) (d_tag d)) content ->
  exists w', finish_append cfg i a sd pre (set_chunk cfg a c w) = Some (0, w') /\
    finished i a (with_content content d) w w'.
Proof.
  intros Hw Hs Hc. unfold finish_append. set (w1 := set_chunk cfg a c w).
  assert (E1 : cio w1 !! a = Some c) by (cbn; apply lookup_insert_eq). rewrite E1. cbn [mbind option_bind].
  assert (Hc1 : ChunkStore.chunk_ok (ctx w1) c (header_bytes (d_type d) (d_tag d)) content) by (by apply (chunk_ok_ext (ctx w))).
  destruct (lock_step w1 c _ content Hc1) as (r & c2 & -> & Hc2 & Hl2). cbn [mbind option_bind].
  unfold w1. rewrite set_chunk_twice. fold w1. set (w2 := set_view (ctx w1) a c2 w).
  destruct (set_view_ok (ctx w1) a c2 content d w Hw Hs eq_refl (held_up _ _ _ _ Hc2) Hl2) as [Hch H2].
  fold w2 in Hch, H2. assert (W2 : world_ok w2) by (by apply (af_ok _ _ _ (ch_after _ _ _ Hch))).
  rewrite (ChunkStore.chunk_size (ctx w1) c _ _ Hc1). destruct (Z.eqb_spec (size content) 0) as [Hz|Hz].
  { assert (content = []) as -> by (destruct content; [done|unfold size in Hz; simpl in Hz; lia]).
    destruct (destroy_limits i a w2 W2) as [D1 D2].
    eexists. split; [reflexivity|]. split; [|split; [by intros [? _]|done]].
    eapply after_trans; [by apply ch_after|by apply after_weaken]. }
  assert (Hd : exists r c3, (if sd : bool then Chunk.cio_chunk_down (ctx w2) c2 else Some (0, c2)) = Some (r, c3) /\
    held (ctx w2) c3 (header_bytes (d_type d) (d_tag d)) content /\ Chunk.lock c3 = Chunk.lock c2).
  { assert (Hc3 := chunk_ok_ext (ctx w1) (ctx w2) _ _ _ eq_refl Hc2).
    destruct sd; [|eexists _, c2; split; [done|]; split; [by left|done]].
    destruct (held_set_down (ctx w2) page_ok c2 _ _ Hc3) as (c3 & -> & ? & ?). by eexists _, c3. }
  destruct Hd as (r3 & c3 & -> & Hc3 & El3). cbn [mbind option_bind].
  destruct (set_chunk_same a c3 _ w2 W2 H2 Hc3) as (S1 & S2 & _); [by rewrite El3|].
  destruct (routable cfg i) eqn:Er; cbn [negb].
  - destruct (finish_rest i a c3 _ _ (af_ok _ _ _ S1) S2) as (w4 & -> & R); [cbn; apply lookup_insert_eq|].
    cbn [mbind option_bind]. eexists. split; [reflexivity|]. split; [|split; [intros _; apply R|]].
    + eapply after_trans; [by apply ch_after|]. apply after_weaken. eapply after_trans; [exact S1|apply R].
    + intros [E|E]; [|congruence]. cbn in E. subst content. by destruct Hz.
  - destruct (destroy_after a _ (af_ok _ _ _ S1)) as (D1 & D2 & _). eexists. split; [reflexivity|].
    split; [|split; [intros [_ ?]; congruence|done]].
    eapply after_trans; [by apply ch_after|]. apply after_weaken. by eapply after_trans.
Qed.

(** *** Appending *)

(** The numbers and the filters are not part of what is stored. *)
Lemma same_ok a (w w' : world) : world_ok w -> st w' = st w -> cio w' = cio w -> table w' = table w -> next w' = next w ->
  (forall b, is_Some (ext w !! b) <-> is_Some (ext w' !! b)) -> (forall b, b <> a -> ext w' !! b = ext w !! b) ->
  after (Some a) w w' /\ (forall b e, stored w b e <-> stored w' b e).
Proof.
  intros Hw E1 E2 E3 E4 E5 E6.
  assert (Hst : forall b e, stored w b e <-> stored w' b e).
  { intros b e. split; intros [H1 (c & H2 & H3 & H4) H5 H6].
    - split; [by rewrite E1| |by apply E5|done]. exists c. rewrite E2. split; [done|]. by split; [apply (held_ext (ctx w))|].
    - split; [by rewrite <- E1| |by apply E5|done]. exists c. rewrite <- E2. split; [done|].
      by split; [apply (held_ext (ctx w'))|]. }
  assert (Hal : forall b, alive w b <-> alive w' b) by (intros b; unfold alive; by rewrite E1).
  split; [|done]. split; try done; [| | |lia|by rewrite E1].
  - destruct Hw as [A1 A2 A3 A4]. split.
    + intros b Hb. apply Hal in Hb. destruct (A1 b Hb) as (H1 & e & He). split; [lia|]. exists e. by apply Hst.
    + intros b Hb. rewrite E2 in Hb. by apply Hal, A2.
    + intros j ty tag b Hb. rewrite E3 in Hb. destruct (A3 j ty tag b Hb) as (Hty & v & Hv).
      split; [done|]. exists v. by apply Hst.
    + by rewrite E1.
  - intros b d Hne Hb. split; [by apply Hst|]. apply E6. congruence.
  - exists []. rewrite E1. split; [by rewrite app_nil_r|]. intros b _ H1 H2. by apply Hal in H1.
Qed.

(** The records that the filters leave. *)
Definition filtered (fs : list (@Filters.flb_filter_instance regex context)) (ty : Z) (buf tag : bytes) : bytes :=
  if ty =? Routes.FLB_INPUT_LOGS
  then default buf (last ((λ c, default [] c.2) <$> Filters.changes onig_match tag (Z.of_nat (length tag)) 0 fs buf))
  else buf.

(** The records that are new in the chunk. *)
Definition new_records (ty n : Z) (data : bytes) : Z :=
  if ty =? Routes.FLB_INPUT_LOGS then Mpack.flb_mp_count data else n.

Lemma apply_filters_spec ty n start buf tag (w : world) :
  exists total fs, apply_filters onig_match [] ty n start buf tag w =
      (filtered (filters w) ty buf tag, total, with_filters fs w, []) /\
    (n = Mpack.flb_mp_count buf -> total = start + new_records ty n (filtered (filters w) ty buf tag)).
Proof.
  unfold apply_filters, filtered, new_records. destruct (ty =? Routes.FLB_INPUT_LOGS).
  2:{ eexists _, (filters w). split; [by destruct w|done]. }
  unfold Filters.flb_filter_do. cbn [flb_malloc negb]. rewrite take_ge by done.
  destruct (Filters.filters_loop _ _ _ _ _ _ _ _) as [w1 fs1] eqn:E.
  pose proof (Filters.end_bytes _ _ _ (Filters.filters_loop_ended _ _ _ _ _ _ _ _ _ _ E)) as Hb.
  apply Filters.filters_loop_counts in E; [|cbn; lia]. cbn [Filters.work_bytes Filters.in_records] in *.
  rewrite <- Hb. eexists _, fs1. split; [done|]. intros Hn.
  destruct (Filters.changes _ _ _ _ _ _); [simpl in Hb; rewrite Hb, <- Hn|]; lia.
Qed.

Lemma memrb_check_ok i ii size w : world_ok w -> exists room w', memrb_check i ii size w = (room, w') /\
  after None w w' /\ filters w' = filters w.
Proof.
  intros Hw. unfold memrb_check. case_match.
  2:{ eexists _, w. split; [done|]. split; [by apply after_refl|done]. }
  pose proof (evolves_memrb i size (st w)) as He.
  destruct (InputChunk.memrb_input_chunk_release_space i size (st w)) as [[[ret n1] n2] s]. cbn [snd] in He.
  destruct (settle_ok _ s w Hw He) as [A1 A2 A3 A4 [_ A5]]. eexists _, _. split; [done|].
  by split.
Qed.

Lemma count_input_same i n m (w : world) : let w' := count_input i n m w in
  st w' = st w /\ cio w' = cio w /\ ext w' = ext w /\ table w' = table w /\ filters w' = filters w /\ next w' = next w.
Proof. unfold count_input. cbv zeta. by destruct (default (0, 0) (in_counts w !! i)). Qed.

(** The chunk is up for the write. *)
Lemma up_step w a d : stored w a d -> forall c, cio w !! a = Some c -> Chunk.lock c = false ->
  exists c1, (if negb (Chunk.cio_chunk_is_up c) then Chunk.cio_chunk_up_force (ctx w) c else Some (0, c)) = Some (0, c1) /\
    ChunkStore.chunk_ok (ctx w) c1 (header_bytes (d_type d) (d_tag d)) (d_content d) /\
    size (d_content d) <= FLB_INPUT_CHUNK_FS_MAX_SIZE.
Proof.
  intros [_ (c & Hc & Hh & Hmax) _ _] c' Hc' Hl. assert (c' = c) as -> by congruence. specialize (Hmax Hl).
  destruct (Chunk.cio_chunk_is_up c) eqn:Eu; [exists c; split; [done|]; split; [by apply held_is_up|done]|].
  destruct (held_force (ctx w) c _ _ Hh Eu) as (c1 & -> & H1 & H2 & _). by exists c1.
Qed.

Lemma write_step (w w' : world) c meta content data : ChunkStore.chunk_ok (ctx w) c meta content ->
  is_bytes data -> size content <= FLB_INPUT_CHUNK_FS_MAX_SIZE -> size data < 2 ^ 31 ->
  exists c', (if (0 <? length data)%nat then Chunk.cio_chunk_write (ctx w') [] data c else Some (0, c)) = Some (0, c') /\
    ChunkStore.chunk_ok (ctx w') c' meta (content ++ data).
Proof.
  intros Hc Hb Hmax Hsz. assert (Hc3 := chunk_ok_ext (ctx w) (ctx w') _ _ _ eq_refl Hc).
  destruct data as [|b l]; [exists c; by rewrite app_nil_r|].
  destruct (ChunkStore.chunk_write_ok (ctx w') page_ok c _ _ (b :: l) Hc3 Hb) as (c2 & H1 & H2 & _); [|by exists c2].
  unfold size in *. rewrite length_app. unfold FLB_INPUT_CHUNK_FS_MAX_SIZE in Hmax. lia.
Qed.

Lemma append_to_ok i ty n tag buf a sd w d x :
  let data := filtered (filters w) ty buf tag in
  world_ok w -> open_for w a d x -> is_bytes data -> size data < 2 ^ 31 ->
  exists w', append_to onig_match cfg [] i ty n tag buf a sd w = Some (0, w') /\
    after (Some a) w w' /\
    (d_content d ++ data <> [] /\ routable cfg i = true ->
       stored w' a (with_content (d_content d ++ data) d) /\
       exists x', ext w' !! a = Some x' /\ busy x' = busy x /\ added_records x' = n /\
         (n = Mpack.flb_mp_count buf -> total_records x' = total_records x + new_records ty n data)) /\
    (d_content d ++ data = [] \/ routable cfg i = false -> ~ alive w' a).
Proof.
  intros data Hw (Hs & Hx & _ & c & Hc & Hl) Hb Hsz. unfold append_to. rewrite Hc, Hx. cbn [mbind option_bind].
  destruct (up_step w a d Hs c Hc Hl) as (c1 & -> & Hc1 & Hmax). cbn [mbind option_bind]. cbn match. cbv zeta.
  destruct (set_chunk_same a c1 d w Hw Hs (held_up _ _ _ _ Hc1)) as (S1 & S2 & S3); [done|].
  set (w1 := set_chunk cfg a c1 w) in *. set (pre := if _ =? 0 then 0 else real_size a w1). clearbody pre.
  set (w2 := if 0 <? total_records x + n then count_input i n (Z.of_nat (length buf)) w1 else w1).
  assert (Hw2 : st w2 = st w1 /\ cio w2 = cio w1 /\ ext w2 = ext w1 /\ table w2 = table w1 /\
    filters w2 = filters w1 /\ next w2 = next w1) by (unfold w2; case_match; [apply count_input_same|done]).
  clearbody w2. destruct Hw2 as (E1 & E2 & E3 & E4 & E5 & E6).
  destruct (apply_filters_spec ty n (total_records x) buf tag w2) as (total & fs & -> & Htot).
  assert (Ef : filtered (filters w2) ty buf tag = data) by (unfold data; by rewrite E5).
  rewrite Ef in *. set (w3 := with_filters fs w2).
  destruct (write_step w w3 c1 _ _ data Hc1 Hb Hmax Hsz) as (c2 & -> & Hc2). cbn [mbind option_bind].
  change (0 =? -1) with false. change (0 =? CIO_OK) with true. cbn match.
  set (x' := mkext (busy x) total n (fs_backlog x)). set (w4 := with_ext (<[a := x']> (ext w3)) w3).
  destruct (same_ok a w1 w4) as [M1 M2]; [by apply (af_ok _ _ _ S1)|done..| | |].
  { intros b. unfold w4, w3. cbn [ext with_ext with_filters]. rewrite E3. destruct (decide (a = b)) as [<-|Hne].
    - rewrite lookup_insert_eq. cbn. rewrite Hx. split; by eexists.
    - by rewrite lookup_insert_ne. }
  { intros b Hne. unfold w4, w3. cbn [ext with_ext with_filters]. by rewrite lookup_insert_ne, E3. }
  destruct (finish_ok i a (sd || negb (Chunk.cio_chunk_is_up c)) pre c2 (d_content d ++ data) d w4 (af_ok _ _ _ M1)) as (w5 & -> & F1 & F2 & F3);
    [by apply M2|by apply (chunk_ok_ext (ctx w3))|].
  exists w5. split; [done|]. split.
  - eapply after_trans; [by apply after_weaken|]. by eapply after_trans.
  - split; [|exact F3]. intros Hr. destruct (F2 Hr) as [F4 F5]. split; [done|]. exists x'. rewrite F5.
    split; [unfold w4; cbn; apply lookup_insert_eq|]. done.
Qed.

(** What appending does: nothing, but for chunks that were dropped to make room;
    or the records that the filters leave are behind those of a chunk of that
    input, type and tag, an old one or a new one. *)
Definition appended_to (w w' : world) (a : nat) (i : nat) (ty n : Z) (tag buf data : bytes) : Prop :=
  exists v x, after (Some a) w w' /\ busy x = false /\
    (stored w a (mkdesc i ty tag v) /\ ext w !! a = Some x \/ (next w <= a)%nat /\ v = [] /\ x = mkext false 0 0 false) /\
    (v ++ data <> [] /\ routable cfg i = true ->
       stored w' a (mkdesc i ty tag (v ++ data)) /\
       exists x', ext w' !! a = Some x' /\ busy x' = busy x /\ added_records x' = n /\
         (n = Mpack.flb_mp_count buf -> total_records x' = total_records x + new_records ty n data)) /\
    (v ++ data = [] \/ routable cfg i = false -> ~ alive w' a).

Lemma append_ok w i ty n tag buf : world_ok w -> is_Some (InputChunk.inputs (st w) !! i) ->
  let tag' := take (Z.to_nat FLB_INPUT_CHUNK_TAG_MAX) (append_tag cfg i tag) in
  let data := filtered (filters w) ty buf (append_tag cfg i tag) in
  tag_ok w i tag' -> is_bytes data -> size data < 2 ^ 31 ->
  exists ret w', input_chunk_append_raw onig_match sb_release_output_queue_space backlog cfg [] i ty n tag buf w =
      Some (ret, w') /\
    world_ok w' /\
    (ret = -1 /\ after None w w' \/ ret = 0 /\ exists a, appended_to w w' a i ty n tag' buf data).
Proof.
  intros Hw Hi tag' data Ht Hb Hsz. unfold input_chunk_append_raw. destruct Hi as [ii Hi]. rewrite Hi.
  destruct (memrb_check_ok i ii (Z.of_nat (length buf)) w Hw) as (room & w1 & -> & M1 & M2).
  assert (Hno : forall w', after None w w' -> exists ret w'', Some (-1, w') = Some (ret, w'') /\ world_ok w'' /\
    (ret = -1 /\ after None w w'' \/ ret = 0 /\ exists a, appended_to w w'' a i ty n tag' buf data)).
  { intros w' H. eexists _, _. split; [done|]. split; [by apply (af_ok _ _ _ H)|by left]. }
  destruct room; [|by apply Hno]. cbn [negb].
  assert (Hi1 : is_Some (InputChunk.inputs (st w1) !! i)) by (eapply after_inputs; [exact M1|by exists ii]).
  destruct Hi1 as [ii1 Hi1]. rewrite Hi1. cbn [mbind option_bind]. case_match; [by apply Hno|].
  case_match; [by apply Hno|]. cbv zeta.
  destruct (get_ok i ty (append_tag cfg i tag) (Z.of_nat (length buf)) w1) as (r & sd & w2 & -> & G);
    [by apply (af_ok _ _ _ M1)|by exists ii1|rewrite (after_fs_input _ _ _ i M1); apply Ht|].
  cbn [mbind option_bind]. fold tag' in G. destruct r as [a|]; [|apply Hno; by eapply after_trans].
  destruct G as (v & x & G1 & G2 & G3 & G4).
  destruct (append_to_ok i ty n (append_tag cfg i tag) buf a sd w2 _ x (af_ok _ _ _ G1) G2)
    as (w3 & -> & A1 & A2 & A3); [by rewrite G3, M2..|].
  rewrite G3, M2 in A2, A3. fold data in A2, A3.
  eexists _, _. split; [reflexivity|]. split; [by apply (af_ok _ _ _ A1)|]. right. split; [done|].
  exists a, v, x. split; [|split; [apply G2|split; [|done]]].
  - eapply after_trans; [apply after_weaken; exact M1|]. by eapply after_trans.
  - destruct G4 as [(G4 & G5 & G6)|(G4 & G5 & G6)].
    + left. destruct (af_from _ _ _ M1 a _ ltac:(done) G5) as [H1 H2]. split; [done|congruence].
    + right. split; [|done]. pose proof (af_next _ _ _ M1). lia.
Qed.

(** C5: appending returns, whatever the state of the chunk of the tag (down, locked,
    full, missing), and keeps the invariant: no table points to a chunk that is no
    more, and every chunk can be read.  When it fails, no chunk has changed but for
    those that were closed to make room.  When it succeeds, the records that the
    filters left are behind those of one chunk of this input, type and tag, which
    may be new, and its number of records grows by theirs if the caller passed the
    number of records of its buffer; a chunk without records, or of an input
    without routes, is closed.
    The conditions are [tag_ok] (the tag has no NUL byte, and when the chunks of the
    input are files 24 + 2 * (4 + its length) bytes are within the first mapping,
    about 2 KB of tag with pages of 4 KB; longer ones are stored outside of the
    map, C30), [world_ok] (every chunk can be read, before
    the append), data of less than 2 GB, pages and steps of growth of 1 to 2^32 bytes,
    and that no allocation and no call of the system fails: a table can be left with a chunk that is no more when a chunk
    cannot be brought up or its metadata not read (flb_input_chunk.c:1022, 1133). *)
Theorem append_conserves w i ty n tag buf : world_ok w -> is_Some (InputChunk.inputs (st w) !! i) ->
  let tag' := take (Z.to_nat FLB_INPUT_CHUNK_TAG_MAX) (append_tag cfg i tag) in
  let data := filtered (filters w) ty buf (append_tag cfg i tag) in
  tag_ok w i tag' -> is_bytes data -> size data < 2 ^ 31 ->
  exists ret w', input_chunk_append_raw onig_match sb_release_output_queue_space backlog cfg [] i ty n tag buf w =
      Some (ret, w') /\
    world_ok w' /\
    (ret = -1 /\ after None w w' \/ ret = 0 /\ exists a, appended_to w w' a i ty n tag' buf data).
Proof. apply append_ok. Qed.

(** Chunks of logs hold whole records, and know how many. *)
Definition counted (w : world) : Prop := forall a d x, stored w a d -> ext w !! a = Some x ->
  d_type d = Routes.FLB_INPUT_LOGS ->
  exists objs, Forall Msgpack.wf objs /\ d_content d = concat (map Msgpack.pack objs) /\ total_records x = Z.of_nat (length objs).

Lemma packed_count objs : Forall Msgpack.wf objs -> Mpack.flb_mp_count (concat (map Msgpack.pack objs)) = Z.of_nat (length objs).
Proof.
  intros H. unfold Mpack.flb_mp_count, Mpack.flb_mp_count_remaining. rewrite <- (app_nil_r (concat _)).
  rewrite Mpack.count_loop_packed; [done|done|by left|lia].
Qed.

(** C9: when the caller passes the number of records of its buffer and the filters
    leave whole records, the number of records of every chunk of logs is that of
    the records it holds, for every chunk after the append.
    The conditions are [tag_ok] (the tag has no NUL byte, and when the chunks of the
    input are files 24 + 2 * (4 + its length) bytes are within the first mapping,
    about 2 KB of tag with pages of 4 KB; longer ones are stored outside of the
    map, C30), [world_ok] (every chunk can be read, before
    the append), data of less than 2 GB, pages and steps of growth of 1 to 2^32 bytes,
    and that no allocation and no call of the system fails.  That the number is right is the caller's duty: in_tail passes the number of
    lines (tail_file.c:719), which is larger when lines were held back. *)
Theorem append_counts w i ty n tag buf objs : world_ok w -> is_Some (InputChunk.inputs (st w) !! i) ->
  let tag' := take (Z.to_nat FLB_INPUT_CHUNK_TAG_MAX) (append_tag cfg i tag) in
  let data := filtered (filters w) ty buf (append_tag cfg i tag) in
  tag_ok w i tag' -> is_bytes data -> size data < 2 ^ 31 ->
  counted w -> n = Mpack.flb_mp_count buf ->
  (ty = Routes.FLB_INPUT_LOGS -> Forall Msgpack.wf objs /\ data = concat (map Msgpack.pack objs)) ->
  exists ret w', input_chunk_append_raw onig_match sb_release_output_queue_space backlog cfg [] i ty n tag buf w =
      Some (ret, w') /\ world_ok w' /\ counted w'.
Proof.
  intros Hw Hi tag' data Ht Hb Hsz Hc Hn Ho.
  destruct (append_ok w i ty n tag buf Hw Hi Ht Hb Hsz) as (ret & w' & E & Hw' & H). exists ret, w'.
  split; [done|]. split; [done|]. fold data tag' in H. clear E. intros b e y Hb' Hy Hty.
  assert (Hold : forall t, after t w w' -> t <> Some b -> exists objs, Forall Msgpack.wf objs /\
    d_content e = concat (map Msgpack.pack objs) /\ total_records y = Z.of_nat (length objs)).
  { intros t Ha Hne. destruct (af_from _ _ _ Ha b e Hne Hb') as [H1 H2]. apply (Hc b e y); congruence. }
  destruct H as [[_ H]|(_ & a & v & x & H1 & _ & H2 & H3 & H4)]; [by eapply Hold|].
  destruct (decide (a = b)) as [->|Hne]; [|apply (Hold (Some a)); congruence].
  assert (Hr : v ++ data <> [] /\ routable cfg i = true).
  { split; [intros Ev|destruct (routable cfg i) eqn:Er; [done|exfalso]];
      (apply H4; [auto|]); by eapply stored_alive. }
  destruct (H3 Hr) as (H5 & x' & H6 & _ & _ & H7). specialize (H7 Hn).
  rewrite (stored_inj _ _ _ _ Hb' H5) in *. cbn in Hty |- *. assert (y = x') as -> by congruence.
  destruct (Ho Hty) as [Hwf Hd]. unfold new_records in H7. rewrite Hty in H7.
  change (_ =? _) with true in H7. cbn match in H7. rewrite Hd, packed_count in H7 by done.
  assert (Hv : exists vs, Forall Msgpack.wf vs /\ v = concat (map Msgpack.pack vs) /\ total_records x = Z.of_nat (length vs)).
  { destruct H2 as [[H2 H8]|(_ & -> & ->)]; [by apply (Hc b _ x H2 H8)|by exists []]. }
  destruct Hv as (vs & Hvs & -> & Hx). exists (vs ++ objs). rewrite H7, Hx, length_app, map_app, concat_app, Hd.
  split; [by apply Forall_app_2|]. split; [done|lia].
Qed.

(** *** Chunks on their way out *)

(** The content goes out as it is stored; the chunk is locked and busy then. *)
Lemma flush_ok w a d x : world_ok w -> stored w a d -> ext w !! a = Some x ->
  exists r w', flb_input_chunk_flush cfg a w = Some (r, w') /\ after (Some a) w w' /\ stored w' a d /\
    filters w' = filters w /\
    (r = Some (d_content d) /\ ext w' !! a = Some (mkext true (total_records x) (added_records x) (fs_backlog x)) \/
     r = None /\ ext w' !! a = Some x /\ open_and_up (ctx w) = false).
Proof.
  intros Hw Hs Hx. assert (Hs' := Hs). destruct Hs' as [_ (c & Hc & Hh & Hmax) _ Ht].
  unfold flb_input_chunk_flush. rewrite Hc, Hx. cbn [mbind option_bind]. cbv zeta.
  assert (Hu : exists r c1, (if Chunk.cio_chunk_is_up c then Some (0, c) else Chunk.cio_chunk_up (ctx w) c) = Some (r, c1) /\
    (r = 0 /\ ChunkStore.chunk_ok (ctx w) c1 (header_bytes (d_type d) (d_tag d)) (d_content d) \/
     open_and_up (ctx w) = false /\ r = -1 /\ c1 = c)).
  { destruct (Chunk.cio_chunk_is_up c) eqn:Eu; [eexists _, c; split; [done|]; left; split; [done|by apply held_is_up]|].
    destruct (held_up_now (ctx w) c _ _ Hh Eu) as (r & c1 & -> & H). eexists _, _. split; [done|]. naive_solver. }
  destruct Hu as (r & c1 & -> & [[-> Hc1]|(Ho & -> & ->)]); cbn [mbind option_bind].
  2:{ cbn. destruct (set_chunk_same a c d w Hw Hs Hh Hmax) as (S1 & S2 & _). eexists _, _. split; [done|].
      split; [by apply after_weaken|]. split; [done|]. split; [done|]. by right. }
  change (0 =? -1) with false. cbn match.
  destruct (held_lock (ctx w) page_ok c1 _ _ Hc1) as (r2 & c2 & -> & Hc2 & El). cbn [mbind option_bind].
  destruct (read_same (ctx w) c2 _ _ Hc2 (header_cons _ _)) as [-> _]. cbn [mbind option_bind].
  change (0 =? 0) with true. cbn [negb].
  destruct (set_chunk_same a c2 d w Hw Hs (held_up _ _ _ _ Hc2)) as (S1 & S2 & _); [congruence|].
  set (y := mkext true _ _ _). set (w1 := set_chunk cfg a c2 w) in *. set (w2 := with_ext _ w1).
  destruct (same_ok a w1 w2 (af_ok _ _ _ S1) eq_refl eq_refl eq_refl eq_refl) as [A1 A2].
  { intros b. unfold w2. cbn [ext with_ext]. destruct (decide (a = b)) as [<-|Hne]; [|by rewrite lookup_insert_ne].
    rewrite lookup_insert_eq. cbn. rewrite Hx. split; by eexists. }
  { intros b Hne. unfold w2. cbn [ext with_ext]. by rewrite lookup_insert_ne. }
  eexists _, _. split; [reflexivity|]. set (w3 := if _ =? _ then w2 else _).
  assert (Hy : ext w2 !! a = Some y) by (unfold w2; cbn [ext with_ext]; apply lookup_insert_eq).
  assert (H3 : leaves a d w2 w3 /\ filters w3 = filters w).
  { unfold w3. case_match; (split; [|done]); [split; [apply after_refl, A1|split; [by apply A2|done]]|].
    apply with_st_leaves; [apply A1|by apply A2|apply evolves_count]. }
  destruct H3 as [(L1 & L2 & L3) L4]. split; [|split; [done|split; [done|left; split; [done|by rewrite L3]]]].
  eapply after_trans; [by apply after_weaken|]. eapply after_trans; [exact A1|by apply after_weaken].
Qed.

(** A chunk that was not written to is as it was, or closed. *)
Lemma after_untouched t w w' a d : after t w w' -> t <> Some a -> stored w a d ->
  stored w' a d \/ ~ alive w' a /\ InputChunk.C_close a true ∈ InputChunk.log (st w').
Proof.
  intros [A1 A2 (l & A3 & A4) A5 A6] Ht Hd. assert (Ha := stored_alive _ _ _ Hd).
  destruct (InputChunk.chunks (st w') !! a) as [k|] eqn:E.
  - left. destruct (wk_chunks _ A1 a) as (_ & e & He); [by exists k|]. destruct (A2 a e Ht He) as [He' _].
    by rewrite (stored_inj _ _ _ _ Hd He').
  - right. assert (Hn : ~ alive w' a) by (intros [? ?]; congruence). split; [done|].
    rewrite A3. apply elem_of_app. right. by apply A4.
Qed.

(** C10: [flb_input_chunk_flush] hands out the whole content, and from then on an
    append of records, of any type and input and any tag within the conditions,
    does not change the chunk: the records of a task stay as they are until the
    chunk ends, by the limits of the space.
    The conditions are [tag_ok] (the tag has no NUL byte, and when the chunks of the
    input are files 24 + 2 * (4 + its length) bytes are within the first mapping,
    about 2 KB of tag with pages of 4 KB; longer ones are stored outside of the
    map, C30), [world_ok] (every chunk can be read, before
    the flush), data of less than 2 GB, pages and steps of growth of 1 to 2^32 bytes,
    and that no allocation and no call of the system fails during the append. *)
Theorem flushed_chunk_stable w a d v w1 i ty n tag buf : world_ok w -> stored w a d ->
  flb_input_chunk_flush cfg a w = Some (Some v, w1) ->
  is_Some (InputChunk.inputs (st w) !! i) ->
  let tag' := take (Z.to_nat FLB_INPUT_CHUNK_TAG_MAX) (append_tag cfg i tag) in
  let data := filtered (filters w) ty buf (append_tag cfg i tag) in
  tag_ok w i tag' -> is_bytes data -> size data < 2 ^ 31 ->
  v = d_content d /\
  exists ret w2, input_chunk_append_raw onig_match sb_release_output_queue_space backlog cfg [] i ty n tag buf w1 =
      Some (ret, w2) /\ world_ok w2 /\
    (stored w2 a d \/ ~ alive w2 a /\ InputChunk.C_close a true ∈ InputChunk.log (st w2)).
Proof.
  intros Hw Hs Hf Hi tag' data Ht Hb Hsz. destruct (so_ext _ _ _ Hs) as [x Hx].
  destruct (flush_ok w a d x Hw Hs Hx) as (r & w1' & E & F1 & F2 & F3 & F4). assert (Hrw : r = Some v /\ w1' = w1) by (split; congruence).
  destruct Hrw as [-> ->].
  destruct F4 as [[Hv F4]|[? _]]; [|done]. injection Hv as ->. split; [done|].
  destruct (append_ok w1 i ty n tag buf (af_ok _ _ _ F1) (after_inputs _ _ _ _ F1 Hi)) as (ret & w2 & -> & Hw2 & H);
    [unfold tag_ok; rewrite (after_fs_input _ _ _ i F1); exact Ht|by rewrite F3..|].
  exists ret, w2. split; [done|]. split; [done|].
  destruct H as [[_ H]|(_ & b & v & y & H1 & H2 & H3 & _)]; [by apply (after_untouched None w1)|].
  apply (after_untouched (Some b) w1); [done| |done]. intros [= ->].
  destruct H3 as [[_ H3]|[H3 _]]; [|apply stored_alive, (wk_chunks _ (af_ok _ _ _ F1)) in F2 as [F2 _]; lia].
  assert (y = mkext true (total_records x) (added_records x) (fs_backlog x)) as -> by congruence. done.
Qed.

(** *** Chunks found in the storage *)

(** [flb_mp_validate_metric_chunk] *)
Variable validate_metrics : bytes -> Z * Z * nat.

Lemma valid_entries format es : Forall RoundTrip.entry_wf es ->
  let content := concat (map (EncoderFacts.entry_bytes format) es) in
  valid_part validate_metrics [] Routes.FLB_INPUT_LOGS content =
  Some (Some (false, Z.of_nat (length es), length content)).
Proof.
  intros Hes content. unfold valid_part. rewrite Z.eqb_refl.
  pose proof (Validate.validate_recovers format es 0 Hes) as H. cbn [replicate] in H. rewrite app_nil_r in H.
  fold content in H. rewrite H. cbn [mbind option_bind]. done.
Qed.

Lemma count_input_after a i n m w : world_ok w -> after (Some a) w (count_input i n m w).
Proof.
  intros Hw. destruct (count_input_same i n m w) as (E1 & E2 & E3 & E4 & _ & E6).
  by apply (same_ok a w); rewrite ?E3.
Qed.

Lemma real_size_view x c meta content k : ChunkStore.chunk_ok x c meta content -> content <> [] ->
  0 <= Chunk.cio_chunk_get_real_size c -> 0 <= InputChunk.flb_input_chunk_get_real_size (view x c k).
Proof.
  intros Hc Hne Hr. unfold InputChunk.flb_input_chunk_get_real_size, InputChunk.flb_input_chunk_get_size, view. cbn.
  rewrite (ChunkStore.chunk_up x c _ _ Hc), (ChunkStore.chunk_size x c _ _ Hc). unfold size.
  destruct (Z.eqb_spec (Chunk.cio_chunk_get_real_size c) 0); cbn [negb]; [|lia].
  destruct (Z.eqb_spec (Z.of_nat (length content)) 0) as [E|_]; [destruct content; [done|simpl in E; lia]|lia].
Qed.

(** A chunk that is linked, and counted for the outputs. *)
Lemma link_count_ok c k x tag content n w : world_ok w -> InputChunk.task k = None ->
  held (ctx w) c (header_bytes (InputChunk.event_type k) tag) content -> size tag <= FLB_INPUT_CHUNK_TAG_MAX ->
  size content <= FLB_INPUT_CHUNK_FS_MAX_SIZE ->
  let w' := flb_input_chunk_update_output_instances (next w) n (link cfg c k x w).2 in
  after (Some (next w)) w w' /\ ~ alive w (next w) /\
  stored w' (next w) (mkdesc (InputChunk.ck_in k) (InputChunk.event_type k) tag content) /\
  ext w' !! next w = Some x.
Proof.
  intros Hw Hk Hc Ht Hsz. destruct (link_ok c k x tag content w Hw Hk Hc Ht Hsz) as (L1 & L2 & L3).
  set (w1 := (link cfg c k x w).2) in *. assert (Hx : ext w1 !! next w = Some x) by apply lookup_insert_eq.
  clearbody w1. cbv zeta.
  destruct (with_st_leaves (next w) _ (InputChunk.flb_input_chunk_update_output_instances (next w) n (st w1)) w1
    (af_ok _ _ _ L1) L3 (evolves_count _ _ _ _)) as (C1 & C2 & C3).
  split; [eapply after_trans; [exact L1|by apply after_weaken]|]. split; [done|]. split; [done|].
  unfold flb_input_chunk_update_output_instances. by rewrite C3.
Qed.

Lemma map_ok w i c tag format es :
  let content := concat (map (EncoderFacts.entry_bytes format) es) in
  world_ok w -> ChunkStore.chunk_ok (ctx w) c (header_bytes Routes.FLB_INPUT_LOGS tag) content ->
  size tag <= FLB_INPUT_CHUNK_TAG_MAX -> size content <= FLB_INPUT_CHUNK_FS_MAX_SIZE ->
  0 <= Chunk.cio_chunk_get_real_size c -> Forall RoundTrip.entry_wf es -> es <> [] ->
  exists w', flb_input_chunk_map onig_match cfg validate_metrics [] i Routes.FLB_INPUT_LOGS c w = Some (Some (next w), w') /\
    after (Some (next w)) w w' /\ ~ alive w (next w) /\
    stored w' (next w) (mkdesc i Routes.FLB_INPUT_LOGS tag content) /\
    ext w' !! next w = Some (mkext false (Z.of_nat (length es)) 0 true).
Proof.
  intros content Hw Hc Ht Hsz Hre Hes Hne. unfold flb_input_chunk_map. cbn [flb_malloc negb].
  destruct (read_same (ctx w) c _ _ Hc (header_cons _ tag)) as [-> Hm]. cbn [mbind option_bind].
  change (0 =? CIO_OK) with true. cbn [negb flb_malloc].
  pose proof (valid_entries format es Hes) as Hv. fold content in Hv. rewrite Hv. cbn [mbind option_bind].
  assert (Hlen : 0 < Z.of_nat (length es) <= size content).
  { pose proof (RoundTrip.entries_length format es Hes). fold content in H. unfold size. destruct es; [done|simpl in *; lia]. }
  rewrite (proj2 (Z.eqb_neq (Z.of_nat (length es)) 0)) by lia.
  rewrite (ChunkStore.chunk_size (ctx w) c _ _ Hc). fold content.
  rewrite (proj2 (Z.eqb_neq (size content) (-1))), (proj2 (Z.ltb_ge _ (size content))) by (unfold size; lia).
  cbn [mbind option_bind]. rewrite (proj2 (Z.ltb_lt 0 _)) by lia. cbv zeta.
  pose proof (count_input_after (next w) i (Z.of_nat (length es)) (Z.of_nat (length content)) w Hw) as A1.
  destruct (count_input_same i (Z.of_nat (length es)) (Z.of_nat (length content)) w) as (E1 & _ & _ & _ & _ & E6).
  set (w1 := count_input _ _ _ w) in *. clearbody w1.
  assert (Hc1 := chunk_ok_ext (ctx w) (ctx w1) _ _ _ eq_refl Hc).
  destruct (read_same (ctx w1) c _ _ Hc1 (header_cons _ tag)) as [_ Hm1].
  unfold flb_input_chunk_get_tag. rewrite Hm1. cbn [mbind option_bind option_map]. rewrite tag_of_header by done.
  set (k := new_chunk _ _ _). set (x := mkext _ _ _ _).
  rewrite (proj2 (Z.ltb_ge _ 0)) by (eapply real_size_view; [exact Hc1| |done]; intros E; rewrite E in Hlen; change (size []) with 0 in Hlen; lia).
  set (n := InputChunk.flb_input_chunk_get_real_size _).
  destruct (link_count_ok c k x tag content n w1 (af_ok _ _ _ A1) eq_refl (held_up _ _ _ _ Hc1) Ht Hsz) as (L1 & L2 & L3 & L4).
  rewrite E6 in *. destruct (link cfg c k x w1) as [a w2] eqn:El.
  assert (a = next w) as -> by (unfold link in El; congruence). eexists. split; [reflexivity|].
  split; [by eapply after_trans|]. split; [|done]. intros [k0 Hk0]. apply L2. exists k0. by rewrite E1.
Qed.

(** A chunk of logs that is found in the storage at start, up and with the
    records of an encoder, becomes a chunk of its input with the tag of its
    header, its content and the number of its records; all others stay. *)
Theorem map_recovers w i c tag format es :
  let content := concat (map (EncoderFacts.entry_bytes format) es) in
  world_ok w -> ChunkStore.chunk_ok (ctx w) c (header_bytes Routes.FLB_INPUT_LOGS tag) content ->
  size tag <= FLB_INPUT_CHUNK_TAG_MAX -> size content <= FLB_INPUT_CHUNK_FS_MAX_SIZE ->
  0 <= Chunk.cio_chunk_get_real_size c -> Forall RoundTrip.entry_wf es -> es <> [] ->
  exists w', flb_input_chunk_map onig_match cfg validate_metrics [] i Routes.FLB_INPUT_LOGS c w = Some (Some (next w), w') /\
    after (Some (next w)) w w' /\ ~ alive w (next w) /\
    stored w' (next w) (mkdesc i Routes.FLB_INPUT_LOGS tag content) /\
    ext w' !! next w = Some (mkext false (Z.of_nat (length es)) 0 true).
Proof. apply map_ok. Qed.

(** *** Runs

    The operations on the chunks, in any order. *)

Inductive iop :=
| OAppend (i : nat) (ty n : Z) (tag : option bytes) (buf : bytes)
| OFlush (a : nat)
| ORelease (a : nat)
| ODestroy (a : nat)
| OMap (i : nat) (c : Chunk.cio_chunk) (tag : bytes) (format : Z) (es : list EncoderFacts.entry).

Definition run_iop (o : iop) (w : world) : option world :=
  match o with
  | OAppend i ty n tag buf =>
      '(_, w) ← input_chunk_append_raw onig_match sb_release_output_queue_space backlog cfg [] i ty n tag buf w; Some w
  | OFlush a => '(_, w) ← flb_input_chunk_flush cfg a w; Some w
  | ORelease a => Some (flb_input_chunk_release_lock a w).2
  | ODestroy a => Some (flb_input_chunk_destroy a true w)
  | OMap i c _ _ _ => '(_, w) ← flb_input_chunk_map onig_match cfg validate_metrics [] i Routes.FLB_INPUT_LOGS c w; Some w
  end.

(** The records that an operation brings. *)
Definition offered (w : world) (o : iop) : list desc :=
  match o with
  | OAppend i ty _ tag buf =>
      [mkdesc i ty (take (Z.to_nat FLB_INPUT_CHUNK_TAG_MAX) (append_tag cfg i tag))
         (filtered (filters w) ty buf (append_tag cfg i tag))]
  | OMap i _ tag format es => [mkdesc i Routes.FLB_INPUT_LOGS tag (concat (map (EncoderFacts.entry_bytes format) es))]
  | _ => []
  end.

Definition admissible (w : world) (o : iop) : Prop :=
  match o with
  | OAppend i ty n tag buf =>
      is_Some (InputChunk.inputs (st w) !! i) /\
      tag_ok w i (take (Z.to_nat FLB_INPUT_CHUNK_TAG_MAX) (append_tag cfg i tag)) /\
      let data := filtered (filters w) ty buf (append_tag cfg i tag) in is_bytes data /\ size data < 2 ^ 31
  | OFlush a => alive w a
  | ORelease _ | ODestroy _ => True
  | OMap i c tag format es =>
      let content := concat (map (EncoderFacts.entry_bytes format) es) in
      ChunkStore.chunk_ok (ctx w) c (header_bytes Routes.FLB_INPUT_LOGS tag) content /\
      size tag <= FLB_INPUT_CHUNK_TAG_MAX /\ size content <= FLB_INPUT_CHUNK_FS_MAX_SIZE /\
      0 <= Chunk.cio_chunk_get_real_size c /\ Forall RoundTrip.entry_wf es /\ es <> []
  end.

(** The records offered since the start, and the state. *)
Inductive reach (w0 : world) : list desc -> world -> Prop :=
| reach_start : reach w0 [] w0
| reach_step o l w w' : reach w0 l w -> admissible w o -> run_iop o w = Some w' ->
    reach w0 (l ++ offered w o) w'.

(** The records that went to chunk [a]. *)
Definition records_of (a : nat) (h : list (nat * desc)) : bytes :=
  concat (map (λ p, d_content p.2) (filter (λ p : nat * desc, p.1 = a) h)).

(** Every chunk holds what the history [h] put there, for its input, type and
    tag. *)
Record explains (h : list (nat * desc)) (w : world) : Prop := {
  hi_old : forall a e, (a, e) ∈ h -> (a < next w)%nat;
  hi_content : forall a d, stored w a d -> d_content d = records_of a h;
  hi_same : forall a d e, stored w a d -> (a, e) ∈ h -> e = with_content (d_content e) d }.

Lemma explains_after h w w' t : after t w w' -> explains h w ->
  (forall a d, t = Some a -> stored w' a d -> stored w a d) -> explains h w'.
Proof.
  intros Ha [E1 E2 E3] Ht.
  assert (Hs : forall a d, stored w' a d -> stored w a d).
  { intros a d Hd. destruct (decide (t = Some a)) as [->|Hne]; [by apply Ht|]. by apply (af_from _ _ _ Ha). }
  split; [|eauto|eauto]. intros a e He. apply E1 in He. pose proof (af_next _ _ _ Ha). lia.
Qed.

Lemma records_of_snoc a h b e : records_of a (h ++ [(b, e)]) = records_of a h ++ (if decide (b = a) then d_content e else []).
Proof.
  unfold records_of. rewrite filter_app, map_app, concat_app. f_equal. rewrite filter_cons. cbn [fst].
  destruct (decide (b = a)); [|done]. cbn. by rewrite app_nil_r.
Qed.

(** One more entry, for the chunk that got the records. *)
Lemma explains_snoc h w w' a d v : after (Some a) w w' -> explains h w ->
  (stored w a (with_content v d) \/ (next w <= a)%nat /\ v = []) ->
  stored w' a (with_content (v ++ d_content d) d) -> explains (h ++ [(a, d)]) w'.
Proof.
  intros Ha [E1 E2 E3] Hv Hs. pose proof (af_next _ _ _ Ha) as Hn.
  assert (Hlt : (a < next w')%nat) by (apply (wk_chunks _ (af_ok _ _ _ Ha)); by eapply stored_alive).
  assert (Hva : records_of a h = v).
  { destruct Hv as [Hv|[Hv ->]]; [symmetry; apply (E2 a _ Hv)|]. unfold records_of.
    assert (Hno : filter (λ p : nat * desc, p.1 = a) h = []); [|by rewrite Hno].
    apply elem_of_nil_inv. intros [b e] [? Hin]%list_elem_of_filter. cbn in *. subst b. apply E1 in Hin. lia. }
  split.
  - intros b e [Hin|Hin]%elem_of_app; [apply E1 in Hin; lia|]. apply list_elem_of_singleton in Hin. by injection Hin as -> ->.
  - intros b e Hb. rewrite records_of_snoc. destruct (decide (a = b)) as [<-|Hne].
    + rewrite (stored_inj _ _ _ _ Hb Hs), Hva. done.
    + rewrite app_nil_r. apply E2. apply (af_from _ _ _ Ha b e); [congruence|done].
  - intros b e f Hb [Hin|Hin]%elem_of_app.
    + destruct (decide (a = b)) as [<-|Hne].
      * rewrite (stored_inj _ _ _ _ Hb Hs). destruct Hv as [Hv|[Hv _]]; [by apply (E3 a _ f Hv)|apply E1 in Hin; lia].
      * apply (E3 b e f); [|done]. apply (af_from _ _ _ Ha b e); [congruence|done].
    + apply list_elem_of_singleton in Hin. injection Hin as -> ->. rewrite (stored_inj _ _ _ _ Hb Hs). by destruct d.
Qed.

(** An operation that may be run returns, keeps the invariant, and adds at most
    what it brings to the history. *)
Definition extends (o : iop) (w w' : world) : Prop := forall h, explains h w ->
  explains h w' \/ exists a d, offered w o = [d] /\ explains (h ++ [(a, d)]) w'.

Lemma append_step i ty n tag buf w : world_ok w -> admissible w (OAppend i ty n tag buf) ->
  exists w', run_iop (OAppend i ty n tag buf) w = Some w' /\ world_ok w' /\ extends (OAppend i ty n tag buf) w w'.
Proof.
  intros Hw (Hi & Ht & Hb & Hsz). destruct (append_ok w i ty n tag buf Hw Hi Ht Hb Hsz) as (ret & w' & E & Hw' & H).
  exists w'. cbn [run_iop]. rewrite E. cbn [mbind option_bind]. split; [done|]. split; [done|]. intros h Hh.
  destruct H as [[_ H]|(_ & a & v & x & H1 & _ & H2 & H3 & H4)]; [left; by apply (explains_after h w w' None)|].
  cbn [offered]. set (tag' := take _ _) in *. set (data := filtered _ _ _ _) in *.
  destruct (decide (v ++ data = [])) as [Ev|Ev]; [|destruct (routable cfg i) eqn:Er].
  - left. apply (explains_after h w w' (Some a)); [done..|]. intros b d [= <-] Hd.
    destruct (H4 (or_introl Ev)). by eapply stored_alive.
  - right. exists a. eexists. split; [reflexivity|]. destruct (H3 (conj Ev eq_refl)) as [H5 _].
    apply (explains_snoc h w w' a _ v); [done..| |done].
    destruct H2 as [[H2 _]|(H2 & -> & _)]; [by left|by right].
  - left. apply (explains_after h w w' (Some a)); [done..|]. intros b d [= <-] Hd.
    destruct (H4 (or_intror eq_refl)). by eapply stored_alive.
Qed.

Lemma iop_ok o w : world_ok w -> admissible w o ->
  exists w', run_iop o w = Some w' /\ world_ok w' /\ extends o w w'.
Proof.
  intros Hw Ha. destruct o as [i ty n tag buf|a|a|a|i c tag format es]; [by apply append_step|..].
  - destruct (wk_chunks _ Hw a Ha) as (_ & d & Hd). destruct (so_ext _ _ _ Hd) as [x Hx].
    destruct (flush_ok w a d x Hw Hd Hx) as (r & w' & E & F1 & F2 & _). exists w'. cbn [run_iop]. rewrite E.
    split; [done|]. split; [by apply (af_ok _ _ _ F1)|]. intros h Hh. left.
    apply (explains_after h w w' (Some a)); [done..|]. intros b e [= <-] He. by rewrite (stored_inj _ _ _ _ He F2).
  - assert (H : after (Some a) w (flb_input_chunk_release_lock a w).2 /\
      forall b e, stored w b e <-> stored (flb_input_chunk_release_lock a w).2 b e).
    { unfold flb_input_chunk_release_lock. destruct (ext w !! a) as [x|] eqn:Ex; [|by split; [apply after_refl|]].
      destruct (busy x); [|by split; [apply after_refl|]]. cbn [snd]. apply same_ok; try done.
      - intros b. cbn. destruct (decide (a = b)) as [<-|Hne]; [|by rewrite lookup_insert_ne].
        rewrite lookup_insert_eq, Ex. split; by eexists.
      - intros b Hne. cbn. by rewrite lookup_insert_ne. }
    eexists. split; [reflexivity|]. split; [apply H|]. intros h Hh. left.
    apply (explains_after h w _ (Some a)); [apply H|done|]. intros b e _ He. by apply H.
  - destruct (destroy_after a w Hw) as (D1 & _). eexists. split; [reflexivity|]. split; [by apply (af_ok _ _ _ D1)|].
    intros h Hh. left. by apply (explains_after h w _ None).
  - destruct Ha as (H1 & H2 & H3 & H4 & H5 & H6).
    destruct (map_ok w i c tag format es Hw H1 H2 H3 H4 H5 H6) as (w' & E & M1 & _ & M2 & _). exists w'. cbn [run_iop].
    rewrite E. split; [done|]. split; [by apply (af_ok _ _ _ M1)|]. intros h Hh. right. exists (next w). eexists.
    split; [reflexivity|]. by apply (explains_snoc h w w' _ _ []); [..|right|].
Qed.

(** C4: for every sequence of admissible appends, flushes, releases, destructions and
    chunks found in the storage, from a state without chunks: the invariant holds,
    every chunk holds, in order and once each, records that were offered for its
    input, type and tag, and every admissible operation returns.  [admissible] is:
    for an append, an input that exists, a tag without NUL bytes that, when the
    chunks of the input are files, leaves room for its header (24 + 2 * (4 + its
    length) bytes within the first mapping, about 2 KB with pages of 4 KB; see
    C30), and less than 2 GB of data; for a flush, a chunk
    that is alive; for a chunk of the storage, an undamaged one of logs with one
    record or more, as C2 has them, and at most 2048000 bytes (others: C31).
    Pages and steps of growth have 1 to 2^32 bytes, and no allocation and no call
    of the system fails. *)
Theorem ingest_history w0 l w : world_ok w0 -> (forall a, ~ alive w0 a) -> reach w0 l w ->
  world_ok w /\
  (exists h, map snd h `sublist_of` l /\ explains h w) /\
  (forall o, admissible w o -> exists w', run_iop o w = Some w').
Proof.
  intros Hw0 H0 Hr.
  assert (H : world_ok w /\ exists h, map snd h `sublist_of` l /\ explains h w).
  { induction Hr as [|o l w w' Hr [Hw (h & Hl & Hh)] Ha Hs].
    - split; [done|]. exists []. split; [done|]. split; [set_solver| |set_solver].
      intros a d Hd. by destruct (H0 a); eapply stored_alive.
    - destruct (iop_ok o w Hw Ha) as (w1 & E & Hw1 & He). assert (w1 = w') as -> by congruence. split; [done|].
      destruct (He h Hh) as [Hh'|(a & d & Ho & Hh')].
      + exists h. split; [by apply sublist_inserts_r|done].
      + exists (h ++ [(a, d)]). rewrite Ho, map_app. split; [by apply sublist_app|done]. }
  destruct H as [Hw Hh]. split; [done|]. split; [done|]. intros o Ho.
  destruct (iop_ok o w Hw Ho) as (w' & E & _). by exists w'.
Qed.

End Path.

Lemma ex_world_ok fs : world_ok ex_cfg (ex_world fs).
Proof.
  split; unfold alive, owned_tasks; cbn; [intros a [? ?]|intros a [? ?]|intros i ty tag a ?|intros a k t ?]; done.
Qed.

(** Short tags without NUL. *)
Lemma ex_tag_fits (w : @world unit unit) fs tag :
  forallb (λ c, (0 <? c) && (c <? 256)) tag = true -> size tag <= 1000 -> tag_fits (ctx ex_cfg w) fs tag.
Proof.
  intros Hb Hs. split; [|split].
  - apply Forall_forall. intros c Hc. unfold is_byte. rewrite forallb_forall in Hb.
    specialize (Hb c (proj1 (list_elem_of_In _ _) Hc)). lia.
  - unfold FLB_INPUT_CHUNK_TAG_MAX, FLB_INPUT_CHUNK_META_HEADER. lia.
  - intros _. change (ChunkFile.first_size (ctx ex_cfg w)) with 4096. lia.
Qed.

Lemma ex_tag_ok (w : @world unit unit) i tag :
  forallb (λ c, (0 <? c) && (c <? 256)) tag = true -> size tag <= 1000 -> tag_ok ex_cfg w i tag.
Proof.
  intros Hb Hs. split; [|by apply ex_tag_fits]. apply Forall_forall. intros c Hc.
  rewrite forallb_forall in Hb. specialize (Hb c (proj1 (list_elem_of_In _ _) Hc)). lia.
Qed.

(** Three records for the input in memory, the first of which the filter
    drops. *)
Lemma append_conserves_witness :
  exists w', input_chunk_append_raw (λ _ _, -1) ex_sb 0 ex_cfg [] 0 Routes.FLB_INPUT_LOGS 3 (Some (str "app.a"))
      (replicate 3 0xc0) (ex_world [Filters.drop_first]) = Some (0, w') /\
    world_ok ex_cfg w' /\
    exists a, appended_to ex_cfg (ex_world [Filters.drop_first]) w' a 0 Routes.FLB_INPUT_LOGS 3 (str "app.a")
      (replicate 3 0xc0) (replicate 2 0xc0).
Proof.
  destruct (append_conserves (λ _ _, -1) ex_sb 0 ex_cfg ltac:(vm_compute; split; [reflexivity|discriminate])
    ltac:(vm_compute; split; [reflexivity|discriminate]) (ex_world [Filters.drop_first]) 0 Routes.FLB_INPUT_LOGS 3
    (Some (str "app.a")) (replicate 3 0xc0)) as (ret & w' & H & Hw & Hr).
  - apply ex_world_ok.
  - by eexists.
  - apply ex_tag_ok; [vm_compute; reflexivity|vm_compute; discriminate].
  - vm_compute. repeat constructor; discriminate.
  - vm_compute. reflexivity.
  - exists w'.
    assert (E : option_map fst (input_chunk_append_raw (λ _ _, -1) ex_sb 0 ex_cfg [] 0 Routes.FLB_INPUT_LOGS 3
      (Some (str "app.a")) (replicate 3 0xc0) (ex_world [Filters.drop_first])) = Some 0) by (vm_compute; reflexivity).
    rewrite H in E. cbn in E. injection E as ->. split; [exact H|]. split; [exact Hw|].
    destruct Hr as [[Hr _]|[_ Hr]]; [discriminate Hr|exact Hr].
Defined.

Lemma append_counts_witness :
  exists ret w', input_chunk_append_raw (λ _ _, -1) ex_sb 0 ex_cfg [] 1 Routes.FLB_INPUT_LOGS 3 (Some (str "app.a"))
      (replicate 3 0xc0) (ex_world [Filters.drop_first]) = Some (ret, w') /\ world_ok ex_cfg w' /\ counted ex_cfg w'.
Proof.
  apply (append_counts (λ _ _, -1) ex_sb 0 ex_cfg ltac:(vm_compute; split; [reflexivity|discriminate])
    ltac:(vm_compute; split; [reflexivity|discriminate]) (ex_world [Filters.drop_first]) 1 Routes.FLB_INPUT_LOGS 3
    (Some (str "app.a")) (replicate 3 0xc0) [Msgpack.MSGPACK_OBJECT_NIL; Msgpack.MSGPACK_OBJECT_NIL]).
  - apply ex_world_ok.
  - by eexists.
  - apply ex_tag_ok; [vm_compute; reflexivity|vm_compute; discriminate].
  - vm_compute. repeat constructor; discriminate.
  - vm_compute. reflexivity.
  - intros a d x [(k & Hk & _) _ _ _]. cbn in Hk. done.
  - vm_compute. reflexivity.
  - intros _. split; [repeat constructor|vm_compute; reflexivity].
Defined.

(** A file with one record. *)
Definition ex_entries := [EncoderFacts.GroupEnd].
Definition ex_content : bytes := concat (map (EncoderFacts.entry_bytes 4) ex_entries).

Definition ex_found : option Chunk.cio_chunk :=
  let x := ctx ex_cfg (ex_world []) in
  '(o, _) ← cio_chunk_open ex_cfg [] true (ex_world []);
  c ← o;
  '(_, c, _) ← input_chunk_write_header x [] c Routes.FLB_INPUT_LOGS (str "app");
  '(_, c) ← Chunk.cio_chunk_write x [] ex_content c;
  Some c.

Lemma ex_entries_wf : Forall RoundTrip.entry_wf ex_entries.
Proof. apply Forall_cons_2; [|constructor]. unfold RoundTrip.entry_wf. cbn. split_and!; try done; lia. Qed.

Lemma ex_found_ok : exists c, ex_found = Some c /\
  ChunkStore.chunk_ok (ctx ex_cfg (ex_world [])) c (header_bytes Routes.FLB_INPUT_LOGS (str "app")) ex_content /\
  0 <= Chunk.cio_chunk_get_real_size c.
Proof.
  assert (Hp : 0 < s_page_size ex_cfg <= 2 ^ 32) by (vm_compute; split; [reflexivity|discriminate]).
  assert (Hr : 0 < s_realloc ex_cfg <= 2 ^ 32) by (vm_compute; split; [reflexivity|discriminate]).
  assert (Hs : option_map Chunk.cio_chunk_get_real_size ex_found = Some 4096) by (vm_compute; reflexivity).
  destruct (open_fresh ex_cfg Hp Hr true (ex_world [])) as (c & c' & H1 & H2 & Hf & _ & _).
  assert (Hup : option_map (λ p, option_map Chunk.cio_chunk_is_up p.1) (cio_chunk_open ex_cfg [] true (ex_world [])) =
    Some (Some true)) by (vm_compute; reflexivity).
  rewrite H1 in Hup. cbn in Hup. injection Hup as Hup. rewrite Hup in H2. cbn in H2. injection H2 as <-.
  destruct (fresh_header _ c Routes.FLB_INPUT_LOGS (str "app") Hf) as (c0 & H3 & Hc0 & _).
  { apply ex_tag_fits; [vm_compute; reflexivity|vm_compute; discriminate]. }
  destruct (write_step ex_cfg Hp _ (ex_world []) c0 _ _ ex_content Hc0) as (c1 & H4 & Hc1).
  { vm_compute. repeat constructor; discriminate. }
  { vm_compute. discriminate. }
  { vm_compute. reflexivity. }
  change (0 <? length ex_content)%nat with true in H4.
  assert (E : ex_found = Some c1).
  { unfold ex_found. rewrite H1. cbn [mbind option_bind]. rewrite H3. cbn [mbind option_bind]. rewrite H4. done. }
  exists c1. split; [exact E|]. split; [exact Hc1|]. rewrite E in Hs. cbn in Hs. injection Hs as ->. discriminate.
Qed.

Lemma map_recovers_witness : exists c w', ex_found = Some c /\
  flb_input_chunk_map (λ _ _, -1) ex_cfg (λ _, (0, 0, 0%nat)) [] 1 Routes.FLB_INPUT_LOGS c (ex_world []) = Some (Some 0%nat, w') /\
  stored ex_cfg w' 0 (mkdesc 1 Routes.FLB_INPUT_LOGS (str "app") ex_content).
Proof.
  destruct ex_found_ok as (c & H & Hc & Hr). exists c.
  destruct (map_recovers (λ _ _, -1) ex_cfg (λ _, (0, 0, 0%nat)) (ex_world []) 1 c (str "app") 4 ex_entries)
    as (w' & Hm & _ & _ & Hs & _).
  - apply ex_world_ok.
  - exact Hc.
  - vm_compute. discriminate.
  - vm_compute. discriminate.
  - exact Hr.
  - apply ex_entries_wf.
  - discriminate.
  - exists w'. split; [exact H|]. split; [exact Hm|exact Hs].
Defined.

(** A record for the input in memory, and its chunk flushed. *)
Definition ex_first := input_chunk_append_raw (λ _ _, -1) ex_sb 0 ex_cfg [] 0 Routes.FLB_INPUT_LOGS 1 (Some (str "app")) [0xc0] (ex_world []).

Lemma ex_flushed : exists w a d w1, ex_first = Some (0, w) /\ world_ok ex_cfg w /\ stored ex_cfg w a d /\
  flb_input_chunk_flush ex_cfg a w = Some (Some (d_content d), w1) /\ filters w = [] /\
  is_Some (InputChunk.inputs (st w) !! 0%nat).
Proof.
  assert (Hp : 0 < s_page_size ex_cfg <= 2 ^ 32) by (vm_compute; split; [reflexivity|discriminate]).
  assert (Hr : 0 < s_realloc ex_cfg <= 2 ^ 32) by (vm_compute; split; [reflexivity|discriminate]).
  assert (E : option_map (λ p, (p.1, length (filters p.2), open_and_up (ctx ex_cfg p.2))) ex_first = Some (0, 0%nat, true))
    by (vm_compute; reflexivity).
  destruct (append_ok (λ _ _, -1) ex_sb 0 ex_cfg Hp Hr (ex_world []) 0 Routes.FLB_INPUT_LOGS 1 (Some (str "app")) [0xc0])
    as (ret & w & H & Hw & Ha); [apply ex_world_ok|by eexists|apply ex_tag_ok; [vm_compute; reflexivity|vm_compute; discriminate]| |vm_compute; reflexivity|].
  { vm_compute. repeat constructor; discriminate. }
  fold ex_first in H. rewrite H in E. cbn in E. injection E as -> Ef Eo.
  destruct Ha as [[? _]|(_ & a & v & x & A1 & _ & _ & A2 & _)]; [discriminate|].
  destruct A2 as (As & x' & Ax & _); [split; [by destruct v|done]|].
  exists w, a. eexists. destruct (flush_ok ex_sb ex_cfg Hp Hr w a _ x' Hw As Ax) as (r & w1 & Hfl & _ & _ & _ & Hd).
  exists w1. split; [exact H|]. split; [exact Hw|]. split; [exact As|]. split; [|split].
  - destruct Hd as [[-> _]|(_ & _ & Hd)]; [exact Hfl|congruence].
  - by apply nil_length_inv.
  - eapply after_inputs; [exact A1|by eexists].
Qed.

(** More records come for the tag of the chunk that was flushed. *)
Lemma flushed_chunk_stable_witness : exists w a d w1, ex_first = Some (0, w) /\
  flb_input_chunk_flush ex_cfg a w = Some (Some (d_content d), w1) /\
  exists ret w2, input_chunk_append_raw (λ _ _, -1) ex_sb 0 ex_cfg [] 0 Routes.FLB_INPUT_LOGS 1 (Some (str "app"))
      [0xc0] w1 = Some (ret, w2) /\ world_ok ex_cfg w2 /\
    (stored ex_cfg w2 a d \/ ~ alive w2 a /\ InputChunk.C_close a true ∈ InputChunk.log (st w2)).
Proof.
  destruct ex_flushed as (w & a & d & w1 & H1 & Hw & Hs & H2 & Hf & Hi). exists w, a, d, w1.
  split; [exact H1|]. split; [exact H2|].
  apply (flushed_chunk_stable (λ _ _, -1) ex_sb 0 ex_cfg ltac:(vm_compute; split; [reflexivity|discriminate])
    ltac:(vm_compute; split; [reflexivity|discriminate]) w a d (d_content d) w1 0 Routes.FLB_INPUT_LOGS 1
    (Some (str "app")) [0xc0] Hw Hs H2 Hi).
  - apply ex_tag_ok; [vm_compute; reflexivity|vm_compute; discriminate].
  - rewrite Hf. vm_compute. repeat constructor; discriminate.
  - rewrite Hf. vm_compute. reflexivity.
Defined.

(** One append, and then any operation. *)
Definition ex_op : iop := OAppend 0 Routes.FLB_INPUT_LOGS 1 (Some (str "app")) [0xc0].

Lemma ex_op_admissible : admissible (λ _ _, -1) ex_cfg (ex_world []) ex_op.
Proof.
  split; [by eexists|]. split; [apply ex_tag_ok; [vm_compute; reflexivity|vm_compute; discriminate]|]. split; [|vm_compute; reflexivity].
  vm_compute. repeat constructor; discriminate.
Qed.

Lemma ingest_history_witness : exists w,
  reach (λ _ _, -1) ex_sb 0 ex_cfg (λ _, (0, 0, 0%nat)) (ex_world []) [mkdesc 0 Routes.FLB_INPUT_LOGS (str "app") [0xc0]] w /\
  exists h, map snd h `sublist_of` [mkdesc 0 Routes.FLB_INPUT_LOGS (str "app") [0xc0]] /\ explains ex_cfg h w.
Proof.
  assert (Hp : 0 < s_page_size ex_cfg <= 2 ^ 32) by (vm_compute; split; [reflexivity|discriminate]).
  assert (Hr : 0 < s_realloc ex_cfg <= 2 ^ 32) by (vm_compute; split; [reflexivity|discriminate]).
  destruct (iop_ok (λ _ _, -1) ex_sb 0 ex_cfg Hp Hr (λ _, (0, 0, 0%nat)) ex_op (ex_world []) (ex_world_ok []) ex_op_admissible)
    as (w & E & _).
  exists w.
  assert (H : reach (λ _ _, -1) ex_sb 0 ex_cfg (λ _, (0, 0, 0%nat)) (ex_world [])
    [mkdesc 0 Routes.FLB_INPUT_LOGS (str "app") [0xc0]] w)
    by exact (reach_step _ _ _ _ _ _ ex_op [] (ex_world []) w (reach_start _ _ _ _ _ _) ex_op_admissible E).
  split; [exact H|].
  apply (ingest_history (λ _ _, -1) ex_sb 0 ex_cfg Hp Hr (λ _, (0, 0, 0%nat)) (ex_world []) _ w (ex_world_ok []));
    [|exact H]. intros a [k Hk]. cbn in Hk. discriminate Hk.
Defined.

End Facts.
